(** * cosmoprimo: parameter compilation of [cosmoprimo/cosmology.py]

    A shallow embedding of the parameter-normalisation core of
    [cosmology.py]: [find_conflicts], [check_params], [merge_params],
    [compile_params] (with its two local [solve_newton] loops),
    [_compute_ncdm_momenta], [Cosmology.__init__] and [Cosmology.clone];
    of the defaults, [_include_conflicts] and
    [Cosmology.get_default_parameters]; and of the accessors of an engine,
    [BaseEngine.get] with [__getitem__], [_get_A_s_fid], [_get_rho_ncdm]
    and [_get_p_ncdm].

    Conventions of the embedding.
    - Numbers.  Python floats and numpy float64 are modelled by the real
      numbers extended with [+inf], [-inf] and [nan] ([pyfloat]); every
      finite operation is exact (no rounding, no overflow, a single zero).
      [np.sqrt] of a negative number is [nan]; a numpy division by zero is
      infinite or [nan]; a division by zero between Python floats raises
      [ZeroDivisionError].  Python [int] and [bool] values are represented
      by the number they compare equal to.
    - Dictionaries are association lists in insertion order, with pairwise
      distinct keys.
    - Python lists are objects: a value [VList l] of a mapping is a
      reference into a store of list objects, so that aliasing and in-place
      [append] are visible.  A list that a function builds is carried by
      value until it is stored in a mapping, where it becomes a new object.
      numpy arrays are never updated in place by this code and are carried
      by value.
    - A dictionary is carried by value where no other name can reach it.
      Where [Cosmology.clone] copies and merges, the dictionary
      [self._params] is an object as well: a reference into a store of
      dictionaries, which [.copy()] extends and [merge_params] updates in
      place ([Cosmology_clone_objects]).
    - The two [while] loops have no iteration bound in the source; they
      take a [fuel] argument and report [Diverge] when it runs out.  So
      do the calls of [self[...]] that [BaseEngine.get] nests.
    - A method of an engine threads the mapping [self._params], which
      [get] updates when it caches [Omega_ncdm]. *)

From Stdlib Require Import Reals Lra Lia List String Ascii Bool Arith PeanoNat.
From Stdlib Require Import FunctionalExtensionality.
Import ListNotations.

Local Open Scope R_scope.

(* ================================================================= *)
(** ** Extended real numbers standing for floats *)

Inductive pyfloat : Type :=
| Fin (x : R)
| PInf
| NInf
| NaN.

Definition Rltb (x y : R) : bool := if Rlt_dec x y then true else false.
Definition Reqb (x y : R) : bool := if Req_dec_T x y then true else false.

Definition fneg (a : pyfloat) : pyfloat :=
  match a with
  | Fin x => Fin (- x)
  | PInf => NInf
  | NInf => PInf
  | NaN => NaN
  end.

Definition fadd (a b : pyfloat) : pyfloat :=
  match a, b with
  | NaN, _ | _, NaN => NaN
  | Fin x, Fin y => Fin (x + y)
  | PInf, NInf | NInf, PInf => NaN
  | PInf, _ | _, PInf => PInf
  | NInf, _ | _, NInf => NInf
  end.

Definition fsub (a b : pyfloat) : pyfloat := fadd a (fneg b).

(** Sign of a finite real as used by products and quotients with an
    infinite operand: [Some true] positive, [Some false] negative, [None]
    zero. *)
Definition Rsign (x : R) : option bool :=
  if Rltb 0 x then Some true else if Rltb x 0 then Some false else None.

Definition inf_of_sign (s : option bool) : pyfloat :=
  match s with
  | Some true => PInf
  | Some false => NInf
  | None => NaN
  end.

Definition flip_sign (s : option bool) : option bool := option_map negb s.

Definition fmul (a b : pyfloat) : pyfloat :=
  match a, b with
  | NaN, _ | _, NaN => NaN
  | Fin x, Fin y => Fin (x * y)
  | Fin x, PInf | PInf, Fin x => inf_of_sign (Rsign x)
  | Fin x, NInf | NInf, Fin x => inf_of_sign (flip_sign (Rsign x))
  | PInf, PInf | NInf, NInf => PInf
  | PInf, NInf | NInf, PInf => NInf
  end.

(** numpy division: a zero divisor gives an infinity or [nan]. *)
Definition fdiv (a b : pyfloat) : pyfloat :=
  match a, b with
  | NaN, _ | _, NaN => NaN
  | Fin x, Fin y => if Reqb y 0 then inf_of_sign (Rsign x) else Fin (x / y)
  | Fin _, PInf | Fin _, NInf => Fin 0
  | PInf, Fin y => if Rltb y 0 then NInf else PInf
  | NInf, Fin y => if Rltb y 0 then PInf else NInf
  | PInf, _ | NInf, _ => NaN
  end.

Definition fsqrt (a : pyfloat) : pyfloat :=
  match a with
  | Fin x => if Rltb x 0 then NaN else Fin (sqrt x)
  | PInf => PInf
  | NInf => NaN
  | NaN => NaN
  end.

Definition fabs (a : pyfloat) : pyfloat :=
  match a with
  | Fin x => Fin (Rabs x)
  | PInf | NInf => PInf
  | NaN => NaN
  end.

(** [x ** n] for a literal natural exponent [n]. *)
Definition fpow (a : pyfloat) (n : nat) : pyfloat :=
  match a with
  | Fin x => Fin (x ^ n)
  | PInf => if Nat.eqb n 0 then Fin 1 else PInf
  | NInf => if Nat.eqb n 0 then Fin 1 else if Nat.even n then PInf else NInf
  | NaN => if Nat.eqb n 0 then Fin 1 else NaN
  end.

(** [np.exp] *)
Definition fexp (a : pyfloat) : pyfloat :=
  match a with
  | Fin x => Fin (exp x)
  | PInf => PInf
  | NInf => Fin 0
  | NaN => NaN
  end.

(** [a < b]; every comparison with [nan] is false. *)
Definition flt (a b : pyfloat) : bool :=
  match a, b with
  | NaN, _ | _, NaN => false
  | Fin x, Fin y => Rltb x y
  | NInf, NInf => false
  | NInf, _ => true
  | _, NInf => false
  | PInf, _ => false
  | Fin _, PInf => true
  end.

Definition fgt (a b : pyfloat) : bool := flt b a.

(** [a == b] *)
Definition feqb (a b : pyfloat) : bool :=
  match a, b with
  | Fin x, Fin y => Reqb x y
  | PInf, PInf | NInf, NInf => true
  | _, _ => false
  end.

Definition is_fin (a : pyfloat) : Prop :=
  match a with Fin _ => True | _ => False end.

(** The builtin [sum] of a list of floats: a left fold from [0]. *)
Definition fsum (l : list pyfloat) : pyfloat := fold_left fadd l (Fin 0).

(* ================================================================= *)
(** ** Python values, dictionaries, exceptions *)

Local Open Scope string_scope.
Local Open Scope list_scope.

(** An element of a list or array, or a scalar parameter value. *)
Inductive scalar : Type :=
| SNone
| SNum (x : pyfloat)
| SStr (s : string).

Definition loc := nat.

Inductive value : Type :=
| V (x : scalar)              (* None, a number or a string: [np.ndim] is 0 *)
| VList (l : loc)             (* a Python list object, by reference *)
| VArr (a : list scalar).     (* a one-dimensional numpy array, by value *)

Definition VNum (x : R) : value := V (SNum (Fin x)).
Definition VStr (s : string) : value := V (SStr s).
Definition VNone : value := V SNone.

Definition dict := list (string * value).

(** The store of list objects; a location is an index. *)
Definition store := list (list scalar).

Inductive cosmology_error : Type :=
| Conflicting (names : list string)
    (* 'Conflicting parameters are given: {}'.format([name] + conf[name]) *)
| HierarchyWithList
    (* 'neutrino_hierarchy {} cannot be passed with a list for m_ncdm, only with a sum.' *)
| NegativeSum
    (* 'Sum of neutrino masses must be positive.' *)
| UnknownHierarchy.
    (* 'Unkown neutrino mass type {}' *)

Inductive value_error : Type :=
| NormalTooSmall      (* '... m_nu must be greater than (~)0.0592' *)
| InvertedTooSmall    (* '... m_nu must be greater than (~)0.0978' *)
| NegativeNur         (* 'N_ur and m_ncdm must result in a number ... greater than or equal to zero.' *)
| BadMomentum.        (* 'Cannot compute ncdm momenta {}; ...' *)

Inductive exn : Type :=
| CosmologyError (e : cosmology_error)
| ValueError (e : value_error)
| KeyError (k : string)
| TypeError
| ZeroDivisionError
| NameError (n : string)
| AttributeError
| IndexError
| Diverge        (* not an exception: a [while] loop that used up its fuel *)
| Unmodelled.    (* not an exception: an input outside the modelled values
                    (complex results, arrays where a scalar is expected,
                    non-finite arguments of the integrator, dangling references) *)

Inductive outcome (A : Type) : Type :=
| Ok (a : A)
| Raise (e : exn).
Arguments Ok {A} a.
Arguments Raise {A} e.

(** *** Dictionary operations *)

(** [k in d] *)
Definition contains (k : string) (d : dict) : bool :=
  existsb (fun kv => String.eqb (fst kv) k) d.

(** [d[k]], [None] standing for [KeyError] *)
Fixpoint getitem (k : string) (d : dict) : option value :=
  match d with
  | [] => None
  | (k', v) :: d' => if String.eqb k' k then Some v else getitem k d'
  end.

(** [del d[k]] *)
Definition delitem (k : string) (d : dict) : dict :=
  filter (fun kv => negb (String.eqb (fst kv) k)) d.

(** [d[k] = v]: an existing key keeps its position, a new key goes last. *)
Fixpoint setitem (k : string) (v : value) (d : dict) : dict :=
  match d with
  | [] => [(k, v)]
  | (k', v') :: d' =>
      if String.eqb k' k then (k', v) :: delitem k d' else (k', v') :: setitem k v d'
  end.

(** [d.pop(k)] *)
Definition pop (k : string) (d : dict) : option (value * dict) :=
  match getitem k d with
  | Some v => Some (v, delitem k d)
  | None => None
  end.

(** [d.get(k, default)] *)
Definition get (k : string) (default : value) (d : dict) : value :=
  match getitem k d with
  | Some v => v
  | None => default
  end.

(** [d.update(e)] *)
Definition update (d e : dict) : dict :=
  fold_left (fun acc kv => setitem (fst kv) (snd kv) acc) e d.

Definition keys (d : dict) : list string := map fst d.

(** *** State and exception monad over the store *)

Definition M (A : Type) : Type := store -> outcome A * store.

Definition ret {A} (a : A) : M A := fun s => (Ok a, s).
Definition raise {A} (e : exn) : M A := fun s => (Raise e, s).
Definition bind {A B} (m : M A) (f : A -> M B) : M B :=
  fun s => match m s with
           | (Ok a, s') => f a s'
           | (Raise e, s') => (Raise e, s')
           end.

Declare Scope py_scope.
Delimit Scope py_scope with py.
Notation "x <- m ;; k" := (bind m (fun x => k))
  (at level 61, m at next level, right associativity) : py_scope.
Notation "' p <- m ;; k" := (bind m (fun x => match x with p => k end))
  (at level 61, p pattern, m at next level, right associativity) : py_scope.
Local Open Scope py_scope.

Definition lift {A} (o : outcome A) : M A := fun s => (o, s).

(** A new list object. *)
Definition alloc (l : list scalar) : M loc :=
  fun s => (Ok (List.length s), s ++ [l]).

(** The contents of a list object. *)
Definition deref (l : loc) : M (list scalar) :=
  fun s => match nth_error s l with
           | Some c => (Ok c, s)
           | None => (Raise Unmodelled, s)
           end.

Fixpoint store_set (s : store) (l : loc) (c : list scalar) : store :=
  match s, l with
  | [], _ => []
  | _ :: s', O => c :: s'
  | c' :: s', S l' => c' :: store_set s' l' c
  end.

(** [lst.append(x)]: in place. *)
Definition append (l : loc) (x : scalar) : M unit :=
  fun s => match nth_error s l with
           | Some c => (Ok tt, store_set s l (c ++ [x]))
           | None => (Raise Unmodelled, s)
           end.

Fixpoint mapM {A B} (f : A -> M B) (l : list A) : M (list B) :=
  match l with
  | [] => ret []
  | a :: l' => b <- f a ;; bs <- mapM f l' ;; ret (b :: bs)
  end.

(** Storing a value created by the function: a fresh list becomes a new
    object of the store. *)
Inductive local : Type :=
| Old (v : value)              (* a value taken from a mapping *)
| New (l : list scalar).       (* a list built by the function itself *)

Definition store_local (x : local) : M value :=
  match x with
  | Old v => ret v
  | New l => p <- alloc l ;; ret (VList p)
  end.

(** [np.ndim(x) == 0] *)
Definition ndim0 (x : local) : bool :=
  match x with
  | Old (V _) => true
  | _ => false
  end.

(** [make_list(li, name)]: [list(li)] of a list or an array.  Every value
    that is neither is a scalar here and has been wrapped before the call. *)
Definition make_list (x : local) : M (list scalar) :=
  match x with
  | Old (V _) => raise TypeError
  | Old (VList p) => deref p
  | Old (VArr a) => ret a
  | New l => ret l
  end.

(* ================================================================= *)
(** ** Conflict groups: [find_conflicts], [check_params], [merge_params] *)

(** The table of [find_conflicts], in source order. *)
Definition conflicts : list (list string) :=
  [ ["h"; "H0"];
    ["T_cmb"; "Omega_g"; "omega_g"; "Omega0_g"];
    ["Omega_b"; "omega_b"; "Omega0_b"];
    ["N_ur"; "Omega_ur"; "omega_ur"; "Omega0_ur"; "N_eff"];
    ["Omega_cdm"; "omega_cdm"; "Omega0_cdm"; "Omega_c"; "omega_c"];
    ["m_ncdm"; "Omega_ncdm"; "omega_ncdm"; "Omega0_ncdm"];
    ["A_s"; "ln10^{10}A_s"; "sigma8"];
    ["tau_reio"; "z_reio"] ].

(** [name in conf] for a tuple of strings *)
Definition mem (name : string) (conf : list string) : bool :=
  existsb (String.eqb name) conf.

Fixpoint find_in (name : string) (groups : list (list string)) : list string :=
  match groups with
  | [] => []
  | conf :: rest => if mem name conf then conf else find_in name rest
  end.

Definition find_conflicts (name : string) : list string := find_in name conflicts.

(** The list [conf[name]] built by the first loop of [check_params]. *)
Definition conf_of (args : dict) (name : string) : list string :=
  filter (fun eq => negb (String.eqb eq name) && contains eq args)
         (find_conflicts name).

(** The second loop of [check_params]: the first name, in the order of the
    mapping, whose list is not empty raises. *)
Fixpoint first_conflict (args : dict) (names : list string) : outcome unit :=
  match names with
  | [] => Ok tt
  | name :: rest =>
      match conf_of args name with
      | [] => first_conflict args rest
      | c => Raise (CosmologyError (Conflicting (name :: c)))
      end
  end.

Definition check_params (args : dict) : outcome unit :=
  first_conflict args (keys args).

(** The inner loop of [merge_params]: [if eq in args: args.pop(eq)]. *)
Definition pop_conflicts (args : dict) (name : string) : dict :=
  fold_left (fun a eq => if contains eq a then delitem eq a else a)
            (find_conflicts name) args.

(** [merge_params(args, moreargs)].  The source updates [args] in place and
    returns it; both callers pass a dictionary they have just copied. *)
Definition merge_params (args moreargs : dict) : dict :=
  update (fold_left pop_conflicts (keys moreargs) args) moreargs.

(* ================================================================= *)
(** ** Constants and external functions *)

(** The module [constants] is not part of the sources at hand: the values
    it provides are parameters of the development. *)
Record constants : Type := {
  electronvolt : R;
  Boltzmann : R;
  c : R;
  Stefan_Boltzmann : R;
  msun : R;
  megaparsec : R;
  rho_crit_Msunph_per_Mpcph3 : R;
  rho_crit_kgph_per_mph3 : R;
  TCMB : R;
  TNCDM : R;
  NEFF : R
}.

(** [_default_cosmological_parameters] and [_default_calculation_parameters];
    [lensing=False] is the number 0. *)
Definition default_cosmological_parameters (K : constants) : dict :=
  [ ("h", VNum 0.7); ("Omega_cdm", VNum 0.25); ("Omega_b", VNum 0.05);
    ("Omega_k", VNum 0); ("sigma8", VNum 0.8); ("k_pivot", VNum 0.05);
    ("n_s", VNum 0.96); ("alpha_s", VNum 0); ("r", VNum 0);
    ("T_cmb", VNum (TCMB K)); ("m_ncdm", VNone); ("neutrino_hierarchy", VNone);
    ("T_ncdm", VNum (TNCDM K)); ("N_eff", VNum (NEFF K)); ("tau_reio", VNum 0.06);
    ("reionization_width", VNum 0.5); ("A_L", VNum 1); ("w0_fld", VNum (-1));
    ("wa_fld", VNum 0); ("cs2_fld", VNum 1) ].

Definition default_calculation_parameters : dict :=
  [ ("non_linear", VStr EmptyString); ("modes", VStr "s"); ("lensing", VNum 0);
    ("z_pk", VNone); ("kmax_pk", VNum 10); ("ellmax_cl", VNum 2500) ].

(** [Cosmology.get_default_parameters(of=None, include_conflicts=False)] *)
Definition get_default_parameters (K : constants) : dict :=
  update (default_cosmological_parameters K) default_calculation_parameters.

(* ================================================================= *)
(** ** Arithmetic on Python values *)

(** A number operand of [-], [/], [<] or [**]: anything else is a
    [TypeError]. *)
Definition as_num (x : scalar) : M pyfloat :=
  match x with
  | SNum a => ret a
  | _ => raise TypeError
  end.

(** A number operand of [*].  A string times a number is a repetition when
    the number is an [int]; integers are not told apart from floats here,
    so that case is left out. *)
Definition as_factor (x : scalar) : M pyfloat :=
  match x with
  | SNum a => ret a
  | SNone => raise TypeError
  | SStr _ => raise Unmodelled
  end.

(** [a / b] between Python floats *)
Definition py_div (a b : pyfloat) : M pyfloat :=
  if feqb b (Fin 0) then raise ZeroDivisionError else ret (fdiv a b).

(** [x / y] between finite Python floats *)
Definition rdiv (x y : R) : M R :=
  if Reqb y 0 then raise ZeroDivisionError else ret (x / y).

(** [v / 100.] *)
Definition div100 (v : value) : M value :=
  match v with
  | V x => a <- as_num x ;; ret (V (SNum (fdiv a (Fin 100))))
  | VList _ => raise TypeError
  | VArr a =>
      l <- mapM (fun x => y <- as_num x ;; ret (SNum (fdiv y (Fin 100)))) a ;;
      ret (VArr l)
  end.

(** [h**2] *)
Definition square (h : value) : M pyfloat :=
  match h with
  | V (SNum a) => ret (fpow a 2)
  | V _ => raise TypeError
  | VList _ => raise TypeError
  | VArr _ => raise Unmodelled
  end.

(** [v * x] for a mapping value [v] and a list element [x] *)
Definition mul_vs (v : value) (x : scalar) : M pyfloat :=
  match v with
  | V a => a' <- as_factor a ;; x' <- as_factor x ;; ret (fmul a' x')
  | VList _ => raise Unmodelled
  | VArr _ => raise Unmodelled
  end.

(** [a - b] for two mapping values *)
Definition sub_vv (a b : value) : M pyfloat :=
  match a, b with
  | V x, V y => x' <- as_num x ;; y' <- as_num y ;; ret (fsub x' y')
  | VArr _, _ | _, VArr _ => raise Unmodelled
  | _, _ => raise TypeError
  end.

(** [x ** 0.25] for a Python float: a negative finite base gives a complex
    number, which is outside the modelled values. *)
Definition pow_quarter (a : pyfloat) : M pyfloat :=
  match a with
  | Fin x => if Rltb x 0 then raise Unmodelled
             else if Reqb x 0 then ret (Fin 0)
             else ret (Fin (Rpower x (1 / 4)))
  | PInf | NInf => ret PInf
  | NaN => ret NaN
  end.

(** [x == 0] for a list element *)
Definition is_zero (x : scalar) : bool :=
  match x with
  | SNum a => feqb a (Fin 0)
  | _ => false
  end.

(** [s.startswith(p)] *)
Fixpoint startswith (p s : string) : bool :=
  match p, s with
  | EmptyString, _ => true
  | String _ _, EmptyString => false
  | String a p', String b s' => Ascii.eqb a b && startswith p' s'
  end.

Arguments startswith : simpl nomatch.

(** [str.replace(old, new)]: [skip] counts the characters of a match that
    are still to be dropped. *)
Fixpoint replace_from (old new : string) (skip : nat) (s : string) : string :=
  match s with
  | EmptyString => EmptyString
  | String ch s' =>
      match skip with
      | S k => replace_from old new k s'
      | O => if startswith old s
             then String.append new (replace_from old new (String.length old - 1) s')
             else String ch (replace_from old new 0 s')
      end
  end.

Definition replace (old new s : string) : string := replace_from old new 0 s.

(* ================================================================= *)
(** ** The phase-space integrator and the parameter compiler *)

Section Compile.

(** The constants of the absent module [constants]. *)
Variable K : constants.

(** [scipy.integrate.quad(f, a, b, epsrel=epsrel)[0]], an external routine. *)
Variable quad : (R -> R) -> R -> R -> R -> R.

(** The grid returned by [interpolator.get_default_z_callable()]; the module
    [interpolator] is not part of the sources at hand.  The grid is a numpy
    array, created anew by each call. *)
Variable default_z : list scalar.

Definition get_default_z_callable : value := VArr default_z.

(** [_compute_ncdm_momenta(T_eff, m, z, epsrel, out)] for a finite [T_eff]. *)
Definition _compute_ncdm_momenta
    (T_eff : R) (m : scalar) (z : R) (epsrel : R) (out : string) : M R :=
  a <- rdiv 1 (1 + z) ;;
  Ta <- rdiv T_eff a ;;
  over_T <- rdiv (electronvolt K) (Boltzmann K * Ta) ;;
  m <- as_num m ;;
  match m with
  | Fin m =>
      let m2_over_T2 := (m * over_T) ^ 2 in
      let m_over_T2 := m * over_T ^ 2 in
      phase_space_integrand <-
        (if String.eqb out "rho" then
           ret (fun q => q ^ 2 * sqrt (q ^ 2 + m2_over_T2) / (1 + exp q))
         else if String.eqb out "drhodm" then
           ret (fun q => m_over_T2 * q ^ 2 / sqrt (q ^ 2 + m2_over_T2) / (1 + exp q))
         else if String.eqb out "p" then
           ret (fun q => 1 / 3 * q ^ 4 / sqrt (q ^ 2 + m2_over_T2) / (1 + exp q))
         else raise (ValueError BadMomentum)) ;;
      toret <- rdiv (quad phase_space_integrand 0 100 epsrel) (7 * PI ^ 4 / 120) ;;
      x <- rdiv (7 / 8 * 4) (c K ^ 3) ;;
      y <- rdiv (x * Stefan_Boltzmann K * Ta ^ 4 * toret) (10 ^ 10 * msun K) ;;
      ret (y * megaparsec K ^ 3)
  | _ => raise Unmodelled
  end.

(** The integrator applied to float arguments; [z=0], [epsrel=1e-7]. *)
Definition momenta (T_eff : pyfloat) (m : scalar) (out : string) : M R :=
  match T_eff with
  | Fin t => _compute_ncdm_momenta t m 0 (1 / 10 ^ 7) out
  | _ => raise Unmodelled
  end.

(** *** [solve_newton(omega_ncdm, m, T_eff)] of the [Omega_ncdm] branch *)

Definition omega_of (T_eff m : R) (out : string) : M R :=
  r <- _compute_ncdm_momenta T_eff (SNum (Fin m)) 0 (1 / 10 ^ 7) out ;;
  rdiv r (rho_crit_Msunph_per_Mpcph3 K).

Fixpoint newton_omega (fuel : nat) (omega_ncdm m T_eff omega_check : R) : M R :=
  if Rltb (1 / 10 ^ 15) (Rabs (omega_ncdm - omega_check)) then
    match fuel with
    | O => raise Diverge
    | S fuel' =>
        domegadm <- omega_of T_eff m "drhodm" ;;
        step <- rdiv (omega_ncdm - omega_check) domegadm ;;
        let m := m + step in
        omega_check <- omega_of T_eff m "rho" ;;
        newton_omega fuel' omega_ncdm m T_eff omega_check
    end
  else ret m.

Definition solve_newton_omega (fuel : nat) (omega_ncdm m T_eff : R) : M R :=
  omega_check <- omega_of T_eff m "rho" ;;
  newton_omega fuel omega_ncdm m T_eff omega_check.

(** *** [solve_newton(sum_ncdm, m_ncdm, deltam21sq, deltam31sq)] of the
    hierarchy branch; the list of three masses is a triple. *)

Definition masses : Type := (pyfloat * pyfloat * pyfloat)%type.

Definition sum3 (m : masses) : pyfloat :=
  let '(m0, m1, m2) := m in fsum [m0; m1; m2].

Definition newton_step (sum_ncdm : pyfloat) (m : masses)
    (deltam21sq deltam31sq : R) (sum_check : pyfloat) : masses :=
  let '(m0, m1, m2) := m in
  let dsdm1 := fadd (fadd (Fin 1) (fdiv m0 m1)) (fdiv m0 m2) in
  let m0 := fadd m0 (fdiv (fsub sum_ncdm sum_check) dsdm1) in
  let m1 := fsqrt (fadd (fpow m0 2) (Fin deltam21sq)) in
  let m2 := fsqrt (fadd (fpow m0 2) (Fin deltam31sq)) in
  (m0, m1, m2).

Fixpoint newton_sum (fuel : nat) (sum_ncdm : pyfloat) (m : masses)
    (deltam21sq deltam31sq : R) (sum_check : pyfloat) : M masses :=
  if fgt (fabs (fsub sum_ncdm sum_check)) (Fin (1 / 10 ^ 15)) then
    match fuel with
    | O => raise Diverge
    | S fuel' =>
        let m := newton_step sum_ncdm m deltam21sq deltam31sq sum_check in
        newton_sum fuel' sum_ncdm m deltam21sq deltam31sq (sum3 m)
    end
  else ret m.

Definition solve_newton_sum (fuel : nat) (sum_ncdm : pyfloat) (m : masses)
    (deltam21sq deltam31sq : R) : M masses :=
  newton_sum fuel sum_ncdm m deltam21sq deltam31sq (sum3 m).

Definition deltam21sq : R := 7.62e-5.
Definition deltam31sq_normal : R := 2.55e-3.
Definition deltam31sq_inverted : R := -2.43e-3.

(** The body of [if neutrino_hierarchy is not None], after the two guards:
    the three masses for a summed mass [sum_ncdm].  A hierarchy given as a
    numpy array is left out ([Unmodelled]): there [==] compares element by
    element, and an array of one element selects a branch as its element
    does.  The statements below are about hierarchies that are not arrays. *)
Definition split_hierarchy (fuel : nat) (neutrino_hierarchy : value)
    (sum_ncdm : pyfloat) : M masses :=
  match neutrino_hierarchy with
  | VArr _ => raise Unmodelled
  | V (SStr name) =>
      if String.eqb name "normal" then
        if flt (fpow sum_ncdm 2) (Fin (deltam21sq + deltam31sq_normal))
        then raise (ValueError NormalTooSmall)
        else solve_newton_sum fuel sum_ncdm
               (Fin 0, Fin deltam21sq, Fin deltam31sq_normal)
               deltam21sq deltam31sq_normal
      else if String.eqb name "inverted" then
        if flt (fpow sum_ncdm 2)
               (Fin (- deltam31sq_inverted + deltam21sq - deltam31sq_inverted))
        then raise (ValueError InvertedTooSmall)
        else solve_newton_sum fuel sum_ncdm
               (fsqrt (Fin (- deltam31sq_inverted)),
                fsqrt (Fin (- deltam31sq_inverted + deltam21sq)),
                Fin 1e-5)
               deltam21sq deltam31sq_inverted
      else if String.eqb name "degenerate" then
        let m := fdiv sum_ncdm (Fin 3) in ret (m, m, m)
      else raise (CosmologyError UnknownHierarchy)
  | _ => raise (CosmologyError UnknownHierarchy)
  end.

(** *** The stages of [compile_params], in source order *)

(** [if 'H0' in params: params['h'] = params.pop('H0')/100.] *)
Definition stage_H0 (params : dict) : M dict :=
  match pop "H0" params with
  | Some (H0, params) => h <- div100 H0 ;; ret (setitem "h" h params)
  | None => ret params
  end.

(** [omega/h**2], or the list comprehension [[o/h**2 for o in omega]] *)
Definition omega_over_h2 (h : value) (o : scalar) : M scalar :=
  h2 <- square h ;; a <- as_num o ;; q <- py_div a h2 ;; ret (SNum q).

Definition Omega_of_omega (h omega : value) : M local :=
  match omega with
  | VList p => l <- deref p ;; l' <- mapM (omega_over_h2 h) l ;; ret (New l')
  | V o => q <- omega_over_h2 h o ;; ret (Old (V q))
  | VArr a =>
      h2 <- square h ;;
      l <- mapM (fun o => x <- as_num o ;; ret (SNum (fdiv x h2))) a ;;
      ret (Old (VArr l))
  end.

(** [for name,value in args.items(): if name.startswith('omega'): ...] *)
Fixpoint omega_loop (h : value) (items : dict) (params : dict) : M dict :=
  match items with
  | [] => ret params
  | (name, _) :: rest =>
      if startswith "omega" name then
        match pop name params with
        | Some (omega, params) =>
            Omega <- Omega_of_omega h omega ;;
            v <- store_local Omega ;;
            omega_loop h rest (setitem (replace "omega" "Omega" name) v params)
        | None => raise (KeyError name)
        end
      else omega_loop h rest params
  end.

(** [set_alias(params_name, args_name)] *)
Definition set_alias (args : dict) (names : string * string) (params : dict)
    : M dict :=
  let '(params_name, args_name) := names in
  if contains args_name args then
    match pop args_name params with
    | Some (v, params) => ret (setitem params_name v params)
    | None => raise (KeyError args_name)
    end
  else ret params.

(** The fourteen calls of [set_alias], in source order. *)
Definition aliases : list (string * string) :=
  [ ("T_cmb", "T0_cmb"); ("Omega_m", "Omega0_m"); ("Omega_cdm", "Omega0_cdm");
    ("Omega_cdm", "Omega_c"); ("Omega_ncdm", "Omega0_ncdm");
    ("Omega_b", "Omega0_b"); ("Omega_k", "Omega0_k"); ("Omega_ur", "Omega0_ur");
    ("Omega_Lambda", "Omega_lambda"); ("Omega_Lambda", "Omega0_lambda");
    ("Omega_Lambda", "Omega0_Lambda"); ("Omega_fld", "Omega0_fld");
    ("Omega_ncdm", "Omega0_ncdm"); ("Omega_g", "Omega0_g") ].

Fixpoint set_aliases (args : dict) (l : list (string * string)) (params : dict)
    : M dict :=
  match l with
  | [] => ret params
  | names :: rest => params <- set_alias args names params ;; set_aliases args rest params
  end.

(** [np.exp(v)*10**(-10)] *)
Definition exp_scaled (x : scalar) : M scalar :=
  a <- as_num x ;; ret (SNum (fmul (fexp a) (Fin (1 / 10 ^ 10)))).

Definition stage_A_s (params : dict) : M dict :=
  match pop "ln10^{10}A_s" params with
  | Some (v, params) =>
      A_s <- match v with
             | V x => y <- exp_scaled x ;; ret (V y)
             | VList p => l <- deref p ;; l' <- mapM exp_scaled l ;; ret (VArr l')
             | VArr a => l' <- mapM exp_scaled a ;; ret (VArr l')
             end ;;
      ret (setitem "A_s" A_s params)
  | None => ret params
  end.

(** [params['T_cmb'] = (params.pop('Omega_g')*h**2*rho_crit/(4./c**3*sigma))**(0.25)] *)
Definition stage_Omega_g (h : value) (params : dict) : M dict :=
  match pop "Omega_g" params with
  | Some (Omega_g, params) =>
      h2 <- square h ;;
      x <- match Omega_g with
           | V x => as_factor x
           | VList _ => raise TypeError
           | VArr _ => raise Unmodelled
           end ;;
      d <- rdiv 4 (c K ^ 3) ;;
      q <- py_div (fmul (fmul x h2) (Fin (rho_crit_kgph_per_mph3 K)))
                  (Fin (d * Stefan_Boltzmann K)) ;;
      T_cmb <- pow_quarter q ;;
      ret (setitem "T_cmb" (V (SNum T_cmb)) params)
  | None => ret params
  end.

(** [[x]*n] when [np.ndim(x) == 0], else [make_list(x)] *)
Definition broadcast (x : local) (n : nat) : M (list scalar) :=
  match x with
  | Old (V a) => ret (repeat a n)
  | _ => make_list x
  end.

(** One turn of [for Omega,T in zip(Omega_ncdm,T_ncdm)]. *)
Definition mass_of_Omega (fuel : nat) (params : dict) (h : value)
    (OT : scalar * scalar) : M scalar :=
  let '(Omega, T) := OT in
  if is_zero Omega then ret (SNum (Fin 0))
  else
    match getitem "T_cmb" params with
    | None => raise (KeyError "T_cmb")
    | Some T_cmb =>
        T_eff <- mul_vs T_cmb T ;;
        h2 <- square h ;;
        Om <- as_factor Omega ;;
        match fmul Om h2, T_eff with
        | Fin omega, Fin T_eff =>
            m <- solve_newton_omega fuel omega (omega * 93.14) T_eff ;;
            ret (SNum (Fin m))
        | _, _ => raise Unmodelled
        end
    end.

(** The branch on ['m_ncdm' in params] / ['Omega_ncdm' in params]: the
    values of the local variables [m_ncdm] and [T_ncdm] and the remaining
    mapping. *)
Definition stage_ncdm (fuel : nat) (T_ncdm : value) (params : dict)
    : M (local * local * dict) :=
  match pop "m_ncdm" params with
  | Some (m_ncdm, params) => ret (Old m_ncdm, Old T_ncdm, params)
  | None =>
      match pop "Omega_ncdm" params with
      | Some (Omega_ncdm, params) =>
          let single_ncdm := ndim0 (Old Omega_ncdm) in
          Omega_ncdm <- match Omega_ncdm with
                        | V x => ret [x]
                        | _ => make_list (Old Omega_ncdm)
                        end ;;
          T_ncdm <- broadcast (Old T_ncdm) (List.length Omega_ncdm) ;;
          match getitem "h" params with
          | None => raise (KeyError "h")
          | Some h =>
              m_ncdm <- mapM (mass_of_Omega fuel params h)
                             (combine Omega_ncdm T_ncdm) ;;
              if single_ncdm then
                match m_ncdm with
                | m :: _ => ret (Old (V m), New T_ncdm, params)
                | [] => raise IndexError
                end
              else ret (New m_ncdm, New T_ncdm, params)
          end
      | None => ret (New [], Old T_ncdm, params)
      end
  end.

(** [if m_ncdm is None: m_ncdm = []], [single_ncdm = np.ndim(m_ncdm) == 0],
    the two [make_list] and the length check. *)
Definition stage_lists (m_ncdm T_ncdm : local)
    : M (bool * list scalar * list scalar) :=
  let m_ncdm := match m_ncdm with Old (V SNone) => New [] | _ => m_ncdm end in
  let single_ncdm := ndim0 m_ncdm in
  let m_ncdm := match m_ncdm with Old (V x) => New [x] | _ => m_ncdm end in
  m_ncdm <- make_list m_ncdm ;;
  T_ncdm <- broadcast T_ncdm (List.length m_ncdm) ;;
  if Nat.eqb (List.length T_ncdm) (List.length m_ncdm)
  then ret (single_ncdm, m_ncdm, T_ncdm)
  else raise TypeError.

(** [if 'neutrino_hierarchy' in params: ...] *)
Definition stage_hierarchy (fuel : nat) (single_ncdm : bool)
    (m_ncdm T_ncdm : list scalar) (params : dict)
    : M (list scalar * list scalar * dict) :=
  match pop "neutrino_hierarchy" params with
  | None => ret (m_ncdm, T_ncdm, params)
  | Some (V SNone, params) => ret (m_ncdm, T_ncdm, params)
  | Some (neutrino_hierarchy, params) =>
      if negb single_ncdm then raise (CosmologyError HierarchyWithList)
      else
        match m_ncdm, T_ncdm with
        | sum_ncdm :: _, T0 :: _ =>
            sum_ncdm <- as_num sum_ncdm ;;
            if flt sum_ncdm (Fin 0) then raise (CosmologyError NegativeSum)
            else
              ' (m0, m1, m2) <- split_hierarchy fuel neutrino_hierarchy sum_ncdm ;;
              ret ([SNum m0; SNum m1; SNum m2], [T0; T0; T0], params)
        | _, _ => raise IndexError
        end
  end.

Definition is_str (x : scalar) : bool :=
  match x with SStr _ => true | _ => false end.

(** [np.array(l)] of a list of numbers; arrays of strings are left out. *)
Definition to_array (l : list scalar) : M (list scalar) :=
  if existsb is_str l then raise Unmodelled else ret l.

(** [a[mask]] *)
Definition masked {A} (a : list A) (mask : list bool) : list A :=
  map fst (filter snd (combine a mask)).

Definition m_massive : R := 0.00017.

(** The factor [(4./11.)**(-4./3.)] *)
Definition nu_factor : R := Rpower (4 / 11) (- 4 / 3).

(** The branch [if N_ur is None]: the derived [N_ur], the masses that are
    kept, the array of temperatures and the mapping without [N_eff]. *)
Definition derive_N_ur (m_ncdm T_ncdm : list scalar) (params : dict)
    : M (pyfloat * list scalar * list scalar * dict) :=
  m_arr <- to_array m_ncdm ;;
  T_arr <- to_array T_ncdm ;;
  mask_m <- mapM (fun m => a <- as_num m ;; ret (fgt a (Fin m_massive))) m_arr ;;
  let N_eff := get "N_eff" (VNum (NEFF K)) params in
  let params := delitem "N_eff" params in
  T4 <- mapM (fun T => a <- as_num T ;; ret (fpow a 4)) (masked T_arr mask_m) ;;
  let s := fmul (fsum T4) (Fin nu_factor) in
  N_ur <- match N_eff with
          | V x => a <- as_num x ;; ret (fsub a s)
          | VList _ => raise TypeError
          | VArr _ => raise Unmodelled
          end ;;
  if flt N_ur (Fin 0) then raise (ValueError NegativeNur)
  else ret (N_ur, masked m_arr mask_m, T_arr, params).

(** From [N_ur = params.get('N_ur',None)] to [params['T_ncdm'] = T_ncdm].
    The branch [if 'Omega_ur' in params] reads the local name [Omega_ur],
    which is bound nowhere in the function. *)
Definition stage_N_ur (m_ncdm T_ncdm : list scalar) (params : dict) : M dict :=
  let N_ur := get "N_ur" VNone params in
  if contains "Omega_ur" params then
    match getitem "T_cmb" params with
    | None => raise (KeyError "T_cmb")
    | Some T_cmb =>
        _ <- match T_cmb with
             | V x => _ <- as_num x ;; ret tt
             | VList _ => raise TypeError
             | VArr a => _ <- mapM as_num a ;; ret tt
             end ;;
        _ <- rdiv (7 / 8 * 4) (c K ^ 3) ;;
        raise (NameError "Omega_ur")
    end
  else
    ' (N_ur, m_ncdm, T_ncdm, params) <-
      match N_ur with
      | V SNone =>
          ' (N_ur, m_ncdm, T_arr, params) <- derive_N_ur m_ncdm T_ncdm params ;;
          ret (V (SNum N_ur), New m_ncdm, Old (VArr T_arr), params)
      | _ => ret (N_ur, New m_ncdm, New T_ncdm, params)
      end ;;
    let params := setitem "N_ur" N_ur params in
    m <- store_local m_ncdm ;;
    let params := setitem "m_ncdm" m params in
    T <- store_local T_ncdm ;;
    ret (setitem "T_ncdm" T params).

Definition is_None (v : value) : bool :=
  match v with V SNone => true | _ => false end.

(** [if np.ndim(params[name]) == 0: params[name] = [params[name]]] *)
Definition wrap_scalar (name : string) (params : dict) : M dict :=
  match getitem name params with
  | Some (V x) => p <- alloc [x] ;; ret (setitem name (VList p) params)
  | Some _ => ret params
  | None => raise (KeyError name)
  end.

(** The defaults of [z_pk] and [modes] and the wrapping of scalars. *)
Definition stage_defaults (params : dict) : M dict :=
  let params :=
    if is_None (get "z_pk" VNone params)
    then setitem "z_pk" get_default_z_callable params else params in
  params <- (if is_None (get "modes" VNone params)
             then p <- alloc [SStr "s"] ;; ret (setitem "modes" (VList p) params)
             else ret params) ;;
  params <- wrap_scalar "modes" params ;;
  wrap_scalar "z_pk" params.

(** [if 0 not in params['z_pk']: params['z_pk'].append(0)] *)
Definition append_zero (params : dict) : M dict :=
  match getitem "z_pk" params with
  | Some (VList p) =>
      l <- deref p ;;
      if existsb is_zero l then ret params
      else _ <- append p (SNum (Fin 0)) ;; ret params
  | Some (VArr a) =>
      if existsb is_zero a then ret params else raise AttributeError
  | Some (V _) => raise TypeError
  | None => raise (KeyError "z_pk")
  end.

Definition stage_z_pk (params : dict) : M dict :=
  params <- stage_defaults params ;; append_zero params.

(** [BaseEngine._get_rho_ncdm(params, z=0)] and [_get_p_ncdm(params, z=0)]:
    the mapping itself plays the part of [self].  Elements of a numpy array
    are float64 and divide without raising. *)
Fixpoint sum_momenta (params : dict) (out : string) (from_array : bool)
    (mT : list (scalar * scalar)) (toret : R) : M R :=
  match mT with
  | [] => ret toret
  | (m, T_ncdm) :: rest =>
      match getitem "T_cmb" params with
      | None => raise (KeyError "T_cmb")
      | Some T_cmb =>
          T_eff <- mul_vs T_cmb T_ncdm ;;
          _ <- (if from_array && feqb T_eff (Fin 0) then raise Unmodelled else ret tt) ;;
          x <- momenta T_eff m out ;;
          sum_momenta params out from_array rest (toret + x)
      end
  end.

Definition _get_ncdm (params : dict) (out : string) : M pyfloat :=
  match getitem "m_ncdm" params, getitem "T_ncdm" params with
  | Some m_ncdm, Some T_ncdm =>
      m <- match m_ncdm with V _ => raise Unmodelled | _ => make_list (Old m_ncdm) end ;;
      T <- match T_ncdm with V _ => raise Unmodelled | _ => make_list (Old T_ncdm) end ;;
      let from_array := match T_ncdm with VArr _ => true | _ => false end in
      toret <- sum_momenta params out from_array (combine m T) 0 ;;
      match getitem "h" params with
      | Some h =>
          h2 <- square h ;;
          if from_array && negb (Nat.eqb (List.length (combine m T)) 0)
          then ret (fdiv (Fin toret) h2)
          else py_div (Fin toret) h2
      | None => raise (KeyError "h")
      end
  | None, _ => raise (KeyError "m_ncdm")
  | _, None => raise (KeyError "T_ncdm")
  end.

(** [if 'Omega_m' in params: ...] *)
Definition stage_Omega_m (params : dict) : M dict :=
  if contains "Omega_m" params then
    rho <- _get_ncdm params "rho" ;;
    p <- _get_ncdm params "p" ;;
    nonrelativistic_ncdm <-
      py_div (fsub rho (fmul (Fin 3) p)) (Fin (rho_crit_Msunph_per_Mpcph3 K)) ;;
    match pop "Omega_m" params with
    | None => raise (KeyError "Omega_m")
    | Some (Omega_m, params) =>
        match getitem "Omega_b" params with
        | None => raise (KeyError "Omega_b")
        | Some Omega_b =>
            d <- sub_vv Omega_m Omega_b ;;
            ret (setitem "Omega_cdm" (V (SNum (fsub d nonrelativistic_ncdm))) params)
        end
    end
  else ret params.

(** *** [compile_params(args)] *)

(** The first part of [compile_params], down to the hierarchy branch: the
    per-species lists [m_ncdm] and [T_ncdm] and the mapping as they stand
    before the relativistic-species accounting. *)
Definition stage_neutrinos (fuel : nat) (args : dict)
    : M (list scalar * list scalar * dict) :=
  let params := args in
  params <- stage_H0 params ;;
  match getitem "h" params with
  | None => raise (KeyError "h")
  | Some h =>
      params <- omega_loop h args params ;;
      params <- set_aliases args aliases params ;;
      params <- stage_A_s params ;;
      params <- stage_Omega_g h params ;;
      let T_ncdm := get "T_ncdm" (VNum (TNCDM K)) params in
      ' (m_ncdm, T_ncdm, params) <- stage_ncdm fuel T_ncdm params ;;
      ' (single_ncdm, m_ncdm, T_ncdm) <- stage_lists m_ncdm T_ncdm ;;
      stage_hierarchy fuel single_ncdm m_ncdm T_ncdm params
  end.

Definition compile_params (fuel : nat) (args : dict) : M dict :=
  ' (m_ncdm, T_ncdm, params) <- stage_neutrinos fuel args ;;
  params <- stage_N_ur m_ncdm T_ncdm params ;;
  params <- stage_z_pk params ;;
  stage_Omega_m params.

(** *** [Cosmology.__init__] and [Cosmology.clone], without an engine *)

(** [check_params(params)] then
    [compile_params(merge_params(get_default_parameters(include_conflicts=False), params))] *)
Definition Cosmology_init (fuel : nat) (params : dict) : M dict :=
  _ <- lift (check_params params) ;;
  compile_params fuel (merge_params (get_default_parameters K) params).

(** [check_params(params)] then
    [compile_params(merge_params(self._params.copy(), params))]; the result
    is the mapping of the new instance, [self_params] is the mapping of the
    instance that is cloned.  [self.copy()] (of the absent module [utils])
    creates the new instance, whose [_params] is then rebound to the result;
    [self._params.copy()] is a shallow copy: the dictionary is new, the list
    objects it refers to are shared.  This is the clone on the entries of
    the mapping; [Cosmology_clone_objects] below is the clone on the
    dictionary objects, with the copy and the merge in place. *)
Definition Cosmology_clone (fuel : nat) (self_params params : dict) : M dict :=
  _ <- lift (check_params params) ;;
  compile_params fuel (merge_params self_params params).

End Compile.

(* ================================================================= *)
(** ** Dictionaries as objects: [Cosmology.clone] on the mapping of the
       instance *)

(** The dictionary objects: [self._params] of an instance is a reference
    into this store, as a list value is a reference into the store of list
    objects. *)
Definition dicts := list dict.

(** A computation on dictionary objects and list objects. *)
Definition Obj (A : Type) : Type := dicts -> store -> outcome A * dicts * store.

Definition retO {A} (a : A) : Obj A := fun ds s => (Ok a, ds, s).
Definition bindO {A B} (m : Obj A) (f : A -> Obj B) : Obj B :=
  fun ds s => match m ds s with
              | (Ok a, ds', s') => f a ds' s'
              | (Raise e, ds', s') => (Raise e, ds', s')
              end.

Declare Scope object_scope.
Delimit Scope object_scope with object.
Notation "x <- m ;; k" := (bindO m (fun x => k))
  (at level 61, m at next level, right associativity) : object_scope.

(** A computation that touches no dictionary object. *)
Definition on_lists {A} (m : M A) : Obj A :=
  fun ds s => let '(r, s') := m s in (r, ds, s').

Fixpoint dicts_set (ds : dicts) (d : loc) (c : dict) : dicts :=
  match ds, d with
  | [], _ => []
  | _ :: ds', O => c :: ds'
  | c' :: ds', S d' => c' :: dicts_set ds' d' c
  end.

(** The entries of a dictionary object. *)
Definition entries (d : loc) : Obj dict :=
  fun ds s => match nth_error ds d with
              | Some c => (Ok c, ds, s)
              | None => (Raise Unmodelled, ds, s)
              end.

(** [d.copy()]: a new dictionary object with the entries of [d]; the list
    objects that the entries refer to are shared. *)
Definition dict_copy (d : loc) : Obj loc :=
  fun ds s => match nth_error ds d with
              | Some c => (Ok (List.length ds), ds ++ [c], s)
              | None => (Raise Unmodelled, ds, s)
              end.

(** [if eq in args: args.pop(eq)], in place *)
Definition pop_if_in (args : loc) (eq : string) : Obj unit :=
  fun ds s => match nth_error ds args with
              | Some c => (Ok tt,
                           if contains eq c then dicts_set ds args (delitem eq c) else ds,
                           s)
              | None => (Raise Unmodelled, ds, s)
              end.

(** [args.update(moreargs)], in place *)
Definition update_in_place (args : loc) (moreargs : dict) : Obj unit :=
  fun ds s => match nth_error ds args with
              | Some c => (Ok tt, dicts_set ds args (update c moreargs), s)
              | None => (Raise Unmodelled, ds, s)
              end.

(** [for x in l: f(x)] *)
Fixpoint for_each {A} (f : A -> Obj unit) (l : list A) : Obj unit :=
  match l with
  | [] => retO tt
  | x :: rest => bindO (f x) (fun _ => for_each f rest)
  end.

Section Objects.

Variable K : constants.
Variable quad : (R -> R) -> R -> R -> R -> R.
Variable default_z : list scalar.

Local Open Scope object_scope.

(** [merge_params(args, moreargs)] on the object [args], which it updates
    in place and returns. *)
Definition merge_params_in_place (args : loc) (moreargs : dict) : Obj loc :=
  _ <- for_each (fun name => for_each (pop_if_in args) (find_conflicts name))
                (keys moreargs) ;;
  _ <- update_in_place args moreargs ;;
  retO args.

(** [compile_params(args)] on the object [args]: [params = {}] followed by
    [params.update(args)] is a new dictionary, which the stages update and
    the function returns; [args] itself is only read. *)
Definition compile_params_of (fuel : nat) (args : loc) : Obj loc :=
  a <- entries args ;;
  fun ds s => match compile_params K quad default_z fuel a s with
              | (Ok params, s') => (Ok (List.length ds), ds ++ [params], s')
              | (Raise e, s') => (Raise e, ds, s')
              end.

(** [Cosmology.clone], with the keyword arguments [params], of the instance
    whose [_params] is the object [self_params]; the result is the object that becomes
    [new._params].  [new = self.copy()] (of the absent module [utils])
    creates the new instance and writes to no dictionary. *)
Definition Cosmology_clone_objects (fuel : nat) (self_params : loc) (params : dict)
    : Obj loc :=
  _ <- on_lists (lift (check_params params)) ;;
  copy <- dict_copy self_params ;;
  args <- merge_params_in_place copy params ;;
  compile_params_of fuel args.

End Objects.

(* ================================================================= *)
(** ** Defaults with every spelling: [_include_conflicts] and
       [Cosmology.get_default_parameters] *)

(** [for conf in find_conflicts(name): params[conf] = params[name]] *)
Fixpoint include_names (name : string) (confs : list string) (params : dict)
    : outcome dict :=
  match confs with
  | [] => Ok params
  | conf :: rest =>
      match getitem name params with
      | Some v => include_names name rest (setitem conf v params)
      | None => Raise (KeyError name)
      end
  end.

(** [for name in list(params.keys()): ...]: the names are those of the
    mapping as it is when the loop starts. *)
Fixpoint include_loop (names : list string) (params : dict) : outcome dict :=
  match names with
  | [] => Ok params
  | name :: rest =>
      match include_names name (find_conflicts name) params with
      | Ok params => include_loop rest params
      | Raise e => Raise e
      end
  end.

(** [_include_conflicts(params)]; the result is the mapping as the in-place
    update leaves it. *)
Definition _include_conflicts (params : dict) : outcome dict :=
  include_loop (keys params) params.

(* ================================================================= *)
(** ** The accessors of an engine: [BaseEngine.get], [_get_A_s_fid],
       [_get_rho_ncdm], [_get_p_ncdm] *)

(** The exceptions of the accessors: a [CosmologyError] with one of the two
    messages below, or an exception of the kinds met above. *)
Inductive accessor_error : Type :=
| ParameterNotFound (name : string)   (* CosmologyError('Parameter {} not found.') *)
| NoDefaultParameters (which : scalar)   (* CosmologyError('No default parameters for {}') *)
| Exn (e : exn).

Inductive result (A : Type) : Type :=
| Done (a : A)
| Fail (e : accessor_error).
Arguments Done {A} a.
Arguments Fail {A} e.

(** A method of an engine: it reads the store of list objects and may
    update the mapping [self._params]. *)
Definition Method (A : Type) : Type := dict -> store -> result A * dict.

Definition retE {A} (a : A) : Method A := fun p _ => (Done a, p).
Definition failE {A} (e : accessor_error) : Method A := fun p _ => (Fail e, p).
Definition bindE {A B} (m : Method A) (f : A -> Method B) : Method B :=
  fun p s => match m p s with
             | (Done a, p') => f a p' s
             | (Fail e, p') => (Fail e, p')
             end.

Declare Scope engine_scope.
Delimit Scope engine_scope with engine.
Notation "x <- m ;; k" := (bindE m (fun x => k))
  (at level 61, m at next level, right associativity) : engine_scope.

(** A computation on values that changes no list object. *)
Definition run {A} (m : M A) : Method A :=
  fun p s => match fst (m s) with
             | Ok a => (Done a, p)
             | Raise e => (Fail (Exn e), p)
             end.

(** [self._params[name]] *)
Definition param (name : string) : Method value :=
  fun p _ => match getitem name p with
             | Some v => (Done v, p)
             | None => (Fail (Exn (KeyError name)), p)
             end.

(** [v * x] for a number [x] *)
Definition times (v : value) (x : pyfloat) : M pyfloat :=
  match v with
  | V a => a' <- as_factor a ;; ret (fmul a' x)
  | VList _ => raise Unmodelled
  | VArr _ => raise Unmodelled
  end.

(** [v**4] *)
Definition pow4 (v : value) : M pyfloat :=
  match v with
  | V (SNum a) => ret (fpow a 4)
  | V _ => raise TypeError
  | VList _ => raise TypeError
  | VArr _ => raise Unmodelled
  end.

(** [a + b]; the concatenation of two strings or two lists is left out. *)
Definition plus (a b : value) : M value :=
  match a, b with
  | V (SNum x), V (SNum y) => ret (V (SNum (fadd x y)))
  | V (SStr _), V (SStr _) => raise Unmodelled
  | VList _, VList _ => raise Unmodelled
  | VArr _, _ | _, VArr _ => raise Unmodelled
  | _, _ => raise TypeError
  end.

(** The elements that a [for] loop or [len] sees. *)
Definition iterate (v : value) : M (list scalar) :=
  match v with
  | VList p => deref p
  | VArr a => ret a
  | V (SStr _) => raise Unmodelled
  | V _ => raise TypeError
  end.

(** [np.log] *)
Definition fln (a : pyfloat) : pyfloat :=
  match a with
  | Fin x => if Rltb 0 x then Fin (ln x) else if Reqb x 0 then NInf else NaN
  | PInf => PInf
  | NInf => NaN
  | NaN => NaN
  end.

(** [name[1:]] *)
Definition tail (name : string) : string :=
  match name with
  | EmptyString => EmptyString
  | String _ rest => rest
  end.

Section Engine.

Variable K : constants.
Variable quad : (R -> R) -> R -> R -> R -> R.

(** [x * 4./constants.c**3 * constants.Stefan_Boltzmann] *)
Definition radiation_density (x : pyfloat) : M pyfloat :=
  q <- py_div (fmul x (Fin 4)) (Fin (c K ^ 3)) ;;
  ret (fmul q (Fin (Stefan_Boltzmann K))).

Local Open Scope engine_scope.

Section Body.

(** [self[name]], the call of [get] with no default. *)
Variable self_item : string -> Method value.

(** [rho/(self['h']**2*constants.rho_crit_kgph_per_mph3)] *)
Definition over_critical (rho : pyfloat) : Method value :=
  h <- self_item "h" ;;
  h2 <- run (square h) ;;
  x <- run (py_div rho (fmul h2 (Fin (rho_crit_kgph_per_mph3 K)))) ;;
  retE (V (SNum x)).

(** The loop of [_get_rho_ncdm] and [_get_p_ncdm]. *)
Fixpoint engine_sum_momenta (out : string) (from_array : bool)
    (mT : list (scalar * scalar)) (toret : R) : Method R :=
  match mT with
  | [] => retE toret
  | (m, T_ncdm) :: rest =>
      T_cmb <- self_item "T_cmb" ;;
      T_eff <- run (mul_vs T_cmb T_ncdm) ;;
      _ <- run (if from_array && feqb T_eff (Fin 0) then raise Unmodelled else ret tt) ;;
      x <- run (momenta K quad T_eff m out) ;;
      engine_sum_momenta out from_array rest (toret + x)
  end.

(** [self._get_rho_ncdm(z=0)] ([out] is ['rho']) and [self._get_p_ncdm(z=0)]
    ([out] is ['p']) of an engine. *)
Definition engine_get_ncdm (out : string) : Method pyfloat :=
  m_ncdm <- self_item "m_ncdm" ;;
  T_ncdm <- self_item "T_ncdm" ;;
  m <- run (match m_ncdm with V _ => raise Unmodelled | _ => make_list (Old m_ncdm) end) ;;
  T <- run (match T_ncdm with V _ => raise Unmodelled | _ => make_list (Old T_ncdm) end) ;;
  let from_array := match T_ncdm with VArr _ => true | _ => false end in
  toret <- engine_sum_momenta out from_array (combine m T) 0 ;;
  h <- self_item "h" ;;
  h2 <- run (square h) ;;
  run (if from_array && negb (Nat.eqb (List.length (combine m T)) 0)
       then ret (fdiv (Fin toret) h2)
       else py_div (Fin toret) h2).

(** The body of [get] once [name] is known not to be a key of
    [self._params]. *)
Definition derive (name : string) (default : option value) : Method value :=
  if startswith "omega" name then
    x <- self_item (String "O" (tail name)) ;;
    h <- param "h" ;;
    h2 <- run (square h) ;;
    y <- run (times x h2) ;;
    retE (V (SNum y))
  else if String.eqb name "H0" then
    h <- param "h" ;;
    y <- run (times h (Fin 100)) ;;
    retE (V (SNum y))
  else if String.eqb name "ln10^{10}A_s" then
    As <- param "As" ;;
    y <- run (times As (Fin (10 ^ 10))) ;;
    retE (V (SNum (fln y)))
  else if String.eqb name "Omega_g" then
    T_cmb <- param "T_cmb" ;;
    T4 <- run (pow4 T_cmb) ;;
    rho <- run (radiation_density T4) ;;
    over_critical rho
  else if String.eqb name "T_ur" then
    T_cmb <- param "T_cmb" ;;
    y <- run (times T_cmb (Fin (Rpower (4 / 11) (1 / 3)))) ;;
    retE (V (SNum y))
  else if String.eqb name "Omega_ur" then
    N_ur <- param "N_ur" ;;
    n <- run (times N_ur (Fin 7)) ;;
    T_ur <- self_item "T_ur" ;;
    T4 <- run (pow4 T_ur) ;;
    rho <- run (radiation_density (fmul (fdiv n (Fin 8)) T4)) ;;
    over_critical rho
  else if String.eqb name "Omega_r" then
    T_cmb <- param "T_cmb" ;;
    T4 <- run (pow4 T_cmb) ;;
    N_ur <- self_item "N_ur" ;;
    n <- run (times N_ur (Fin 7)) ;;
    T_ur <- self_item "T_ur" ;;
    Tur4 <- run (pow4 T_ur) ;;
    rho <- run (radiation_density (fadd T4 (fmul (fdiv n (Fin 8)) Tur4))) ;;
    over_critical rho
  else if String.eqb name "Omega_ncdm" then
    rho <- engine_get_ncdm "rho" ;;
    x <- run (py_div rho (Fin (rho_crit_Msunph_per_Mpcph3 K))) ;;
    _ <- (fun p _ => (Done tt, setitem "Omega_ncdm" (get "Omega_ncdm" (V (SNum x)) p) p)) ;;
    param "Omega_ncdm"
  else if String.eqb name "Omega_m" then
    Omega_b <- self_item "Omega_b" ;;
    Omega_cdm <- self_item "Omega_cdm" ;;
    x <- run (plus Omega_b Omega_cdm) ;;
    Omega_ncdm <- self_item "Omega_ncdm" ;;
    run (plus x Omega_ncdm)
  else if String.eqb name "N_ncdm" then
    m_ncdm <- param "m_ncdm" ;;
    l <- run (iterate m_ncdm) ;;
    retE (V (SNum (Fin (INR (List.length l)))))
  else if String.eqb name "N_eff" then
    T_ncdm <- param "T_ncdm" ;;
    l <- run (iterate T_ncdm) ;;
    terms <- run (mapM (fun T => a <- as_num T ;; ret (fmul (fpow a 4) (Fin nu_factor)))%py l) ;;
    N_ur <- param "N_ur" ;;
    run (plus (V (SNum (fsum terms))) N_ur)
  else
    match default with
    | Some v => retE v
    | None => failE (ParameterNotFound name)
    end.

End Body.

(** [BaseEngine.get(name)] ([default] is [None]) and
    [BaseEngine.get(name, default)]; [self[name]] is [get(name)].  The
    calls of [self[...]] inside [get] are bounded by [fuel]. *)
Fixpoint BaseEngine_get (fuel : nat) (name : string) (default : option value)
    : Method value :=
  match fuel with
  | O => failE (Exn Diverge)
  | S fuel' =>
      fun p s =>
        match getitem name p with
        | Some v => (Done v, p)
        | None => derive (fun n => BaseEngine_get fuel' n None) name default p s
        end
  end.

(** [BaseEngine._get_rho_ncdm(z=0)] and [BaseEngine._get_p_ncdm(z=0)] of an
    engine. *)
Definition _get_rho_ncdm (fuel : nat) : Method pyfloat :=
  engine_get_ncdm (fun n => BaseEngine_get fuel n None) "rho".

Definition _get_p_ncdm (fuel : nat) : Method pyfloat :=
  engine_get_ncdm (fun n => BaseEngine_get fuel n None) "p".

(** [BaseEngine._get_A_s_fid()] *)
Definition _get_A_s_fid (fuel : nat) : Method value :=
  fun p s =>
    if contains "A_s" p then param "A_s" p s
    else (sigma8 <- BaseEngine_get fuel "sigma8" None ;;
          q <- run (match sigma8 with
                    | V x => (a <- as_num x ;; ret (fdiv a (Fin 0.87659)))%py
                    | VList _ => raise TypeError
                    | VArr _ => raise Unmodelled
                    end) ;;
          retE (V (SNum (fmul (Fin 2.43e-9) (fpow q 2))))) p s.

End Engine.

(** *** [Cosmology.get_default_parameters] *)

(** [toret = ....copy(); if include_conflicts: _include_conflicts(toret)] *)
Definition with_conflicts (include_conflicts : bool) (toret : dict) : result dict :=
  if include_conflicts
  then match _include_conflicts toret with
       | Ok d => Done d
       | Raise e => Fail (Exn e)
       end
  else Done toret.

(** [Cosmology.get_default_parameters(of, include_conflicts)] *)
Definition Cosmology_get_default_parameters (K : constants) (which : scalar)
    (include_conflicts : bool) : result dict :=
  match which with
  | SStr name =>
      if String.eqb name "cosmology"
      then with_conflicts include_conflicts (default_cosmological_parameters K)
      else if String.eqb name "calculation"
      then with_conflicts include_conflicts default_calculation_parameters
      else Fail (NoDefaultParameters which)
  | SNone =>
      match with_conflicts include_conflicts (default_cosmological_parameters K) with
      | Done toret =>
          match with_conflicts include_conflicts default_calculation_parameters with
          | Done calc => Done (update toret calc)
          | Fail e => Fail e
          end
      | Fail e => Fail e
      end
  | SNum _ => Fail (NoDefaultParameters which)
  end.

(** Values for closed examples: CODATA constants in SI units and the
    conventions [T_cmb = 2.7255] K, [T_ncdm = 0.71611], [N_eff = 3.044] (the
    value quoted by the docstring of [Cosmology.__init__]).  The general
    statements below hold for every record of constants. *)
Definition sample_constants : constants := {|
  electronvolt := 1.602176634e-19;
  Boltzmann := 1.380649e-23;
  c := 299792458;
  Stefan_Boltzmann := 5.670374419e-8;
  msun := 1.98847e30;
  megaparsec := 3.085677581491367e22;
  rho_crit_Msunph_per_Mpcph3 := 27.7536627;
  rho_crit_kgph_per_mph3 := 1.87834e-26;
  TCMB := 2.7255;
  TNCDM := 0.71611;
  NEFF := 3.044
|}.

(** A stand-in for the quadrature routine in closed examples that never
    reach the integrator. *)
Definition no_quad : (R -> R) -> R -> R -> R -> R := fun _ _ _ _ => 0.

(** A default grid of redshifts that starts at 0. *)
Definition sample_z : list scalar := [SNum (Fin 0); SNum (Fin 1)].

(* ================================================================= *)
(** * Vocabulary of the statements, and inputs of the examples *)

(** A computation that leaves the store as it is. *)
Definition pure {A} (m : M A) : Prop :=
  forall s r s', m s = (r, s') -> s' = s.

(** A computation that only adds objects to the store. *)
Definition allocates {A} (m : M A) : Prop :=
  forall s r s', m s = (r, s') -> exists t, s' = s ++ t.

(** The input of C6's first source sentence, and one with two groups in
    conflict. *)
Definition args_h_H0 : dict := [("h", VNum 0.7); ("H0", VNum 70)].

Definition args_two_conflicts : dict :=
  [("h", VNum 0.7); ("H0", VNum 70); ("A_s", VNum 2e-9); ("sigma8", VNum 0.8)].

(** The names that the loop over the [omega] entries can remove or set. *)
Definition omega_key (k : string) : bool :=
  startswith "omega" k || startswith "Omega" k.

(** The names that the calls of [set_alias] can remove or set. *)
Definition alias_names : list string :=
  map fst aliases ++ map snd aliases.

(** The names that the stages between [H0] and the accounting can remove
    or set, the [omega] entries apart. *)
Definition later_names : list string :=
  alias_names ++
  ["ln10^{10}A_s"; "A_s"; "Omega_g"; "T_cmb"; "m_ncdm"; "Omega_ncdm";
   "neutrino_hierarchy"].

(** A species whose mass exceeds the non-relativistic threshold. *)
Definition heavy (m : scalar) : bool :=
  match m with
  | SNum a => fgt a (Fin m_massive)
  | _ => false
  end.

(** The species, as pairs of a mass and a temperature ratio, whose mass
    exceeds the threshold. *)
Definition massive_species (m T : list scalar) : list (scalar * scalar) :=
  filter (fun mT => heavy (fst mT)) (combine m T).

(** Every list reference of the mapping is an object of the store. *)
Definition wf_store (d : dict) (s : store) : Prop :=
  forall k p, getitem k d = Some (VList p) -> (p < List.length s)%nat.

(** The sum of a list of reals, as the builtin [sum] computes it. *)
Definition sum_R (l : list R) : R := fold_left Rplus l 0.

(** The input of C1. *)
Definition args_one_species : dict :=
  [("h", VNum 0.7); ("m_ncdm", VNum 0.06); ("N_eff", VNum 3.044)].

(** A mass that is not negative. *)
Definition mass_nonneg (m : scalar) : Prop :=
  match m with
  | SNum (Fin x) => 0 <= x
  | SNum PInf => True
  | _ => False
  end.

(** One species of mass -1 eV, with [N_ur] supplied. *)
Definition args_negative_mass : dict :=
  [("h", VNum 0.7); ("m_ncdm", VNum (-1)); ("N_ur", VNum 2)].

(** The starting point of the inverted hierarchy and its sum. *)
Definition inverted_m1 : R := sqrt (- deltam31sq_inverted).
Definition inverted_m2 : R := sqrt (- deltam31sq_inverted + deltam21sq).
Definition inverted_sum0 : R := 0 + inverted_m1 + inverted_m2 + 1e-5.
Definition inverted_dsdm1 : R :=
  1 + inverted_m1 / inverted_m2 + inverted_m1 / 1e-5.

(** The first Newton iterate for a summed mass [M]. *)
Definition inverted_iterate (M : R) : R :=
  inverted_m1 + (M + - inverted_sum0) / inverted_dsdm1.

(** "[x] is within [eps] of [y]" for floats; false when the difference is
    not a number. *)
Definition within (x y : pyfloat) (eps : R) : Prop :=
  match fabs (fsub x y) with
  | Fin d => d <= eps
  | _ => False
  end.

(** The mapping of [Cosmology(m_ncdm=0.06)] and the store it leaves. *)
Definition base_params : dict :=
  [("h", VNum 0.7); ("Omega_cdm", VNum 0.25); ("Omega_b", VNum 0.05);
   ("Omega_k", VNum 0); ("sigma8", VNum 0.8); ("k_pivot", VNum 0.05);
   ("n_s", VNum 0.96); ("alpha_s", VNum 0); ("r", VNum 0);
   ("T_cmb", VNum 2.7255); ("T_ncdm", VArr [SNum (Fin 0.71611)]);
   ("tau_reio", VNum 0.06); ("reionization_width", VNum 0.5);
   ("A_L", VNum 1); ("w0_fld", VNum (-1)); ("wa_fld", VNum 0);
   ("cs2_fld", VNum 1); ("non_linear", VStr EmptyString); ("modes", VList 1%nat);
   ("lensing", VNum 0); ("z_pk", VArr sample_z); ("kmax_pk", VNum 10);
   ("ellmax_cl", VNum 2500);
   ("N_ur", VNum (3.044 - 0.71611 ^ 4 * nu_factor));
   ("m_ncdm", VList 0%nat)].

Definition base_store : store := [[SNum (Fin 0.06)]; [SStr "s"]].

(** ** Vocabulary of the further properties *)

(** The elements of a list or of an array; a scalar has none. *)
Definition elements (v : value) (s : store) : option (list scalar) :=
  match v with
  | V _ => None
  | VList p => nth_error s p
  | VArr a => Some a
  end.

(** The names that the stages before the neutrino branch can remove or
    set, the [omega] entries apart. *)
Definition early_names : list string :=
  "H0" :: "h" :: alias_names ++ ["ln10^{10}A_s"; "A_s"; "Omega_g"; "T_cmb"].

(** [k] is the capitalised form of an [omega] key of [items]. *)
Definition renamed_to (items : dict) (k : string) : bool :=
  existsb (fun name => startswith "omega" name &&
                       String.eqb (replace "omega" "Omega" name) k) (keys items).

(** The names that some stage after the calls of [set_alias] removes. *)
Definition consumed_names : list string :=
  ["ln10^{10}A_s"; "Omega_g"; "m_ncdm"; "Omega_ncdm"; "neutrino_hierarchy";
   "N_eff"; "Omega_m"].

(** The canonical name of a conflict group: its first name. *)
Definition canonical (g : list string) : string := hd EmptyString g.

(** The names that a stage of [compile_params] reads, removes or sets
    whatever the input. *)
Definition stage_names : list string :=
  ["H0"; "h"; "ln10^{10}A_s"; "A_s"; "Omega_g"; "T_cmb"; "m_ncdm"; "Omega_ncdm";
   "neutrino_hierarchy"; "N_eff"; "N_ur"; "T_ncdm"; "z_pk"; "modes"; "Omega_m";
   "Omega_cdm"].

(** The names whose entry [compile_params] hands over as it is: not a name
    of a stage, not an [omega] name nor the capitalised form of one that is
    given, not an alias spelling that is given nor the canonical name of
    one. *)
Definition passes_through (args : dict) (k : string) : bool :=
  negb (mem k stage_names) &&
  negb (startswith "omega" k) && negb (renamed_to args k) &&
  negb (mem k (map snd aliases) && contains k args) &&
  forallb (fun a => negb (String.eqb (fst a) k && contains (snd a) args)) aliases.

(** No character of [t] is a capital O. *)
Fixpoint no_O (t : string) : bool :=
  match t with
  | EmptyString => true
  | String ch t' => negb (Ascii.eqb ch "O") && no_O t'
  end.

(** The three hierarchies that [compile_params] knows. *)
Definition hierarchy_names : list string := ["normal"; "inverted"; "degenerate"].

(** What a call of the accessor may do to the mapping: every entry but
    [Omega_ncdm] is as it was, and an entry [Omega_ncdm] that exists is as
    it was. *)
Definition keeps_entries (p p' : dict) : Prop :=
  (forall k, k <> "Omega_ncdm" -> getitem k p' = getitem k p) /\
  (forall v, getitem "Omega_ncdm" p = Some v -> getitem "Omega_ncdm" p' = Some v).

(** A method that changes the mapping in that way at most. *)
Definition gentle {A} (m : Method A) : Prop :=
  forall p s r p', m p s = (r, p') -> keeps_entries p p'.

(** The names that [get(name)] looks up through [self[...]] when [name] is
    not stored. *)
Definition callees (name : string) : list string :=
  if startswith "omega" name then [String "O" (tail name)]
  else if String.eqb name "Omega_g" then ["h"]
  else if String.eqb name "Omega_ur" then ["T_ur"; "h"]
  else if String.eqb name "Omega_r" then ["N_ur"; "T_ur"; "h"]
  else if String.eqb name "Omega_ncdm" then ["m_ncdm"; "T_ncdm"; "T_cmb"; "h"]
  else if String.eqb name "Omega_m" then ["Omega_b"; "Omega_cdm"; "Omega_ncdm"]
  else [].

(** The nesting of the calls of [self[...]] under [get(name)] is at most
    [k]. *)
Fixpoint depthb (k : nat) (name : string) : bool :=
  match k with
  | O => match callees name with [] => true | _ => false end
  | S k' => forallb (depthb k') (callees name)
  end.

(** A computation that never reports the end of its fuel. *)
Definition no_diverge {A} (m : M A) : Prop :=
  forall s e s', m s = (Raise e, s') -> e <> Diverge.

(** A method that never reports the end of its fuel. *)
Definition settles {A} (m : Method A) : Prop :=
  forall p s e p', m p s = (Fail e, p') -> e <> Exn Diverge.

(** The names that [get] derives when they are not stored. *)
Definition derived_names : list string :=
  ["H0"; "ln10^{10}A_s"; "Omega_g"; "T_ur"; "Omega_ur"; "Omega_r"; "Omega_ncdm";
   "Omega_m"; "N_ncdm"; "N_eff"].

(** The temperatures of the species above the threshold, and of the others. *)
Definition heavy_temperatures (m : list scalar) (ts : list R) : list R :=
  map snd (filter (fun mt => heavy (fst mt)) (combine m ts)).

Definition light_temperatures (m : list scalar) (ts : list R) : list R :=
  map snd (filter (fun mt => negb (heavy (fst mt))) (combine m ts)).

(** The mapping that [Cosmology.get_default_parameters()] returns: the
    defaults, then every other name of their conflict groups with the value
    of the default of its group. *)
Definition defaults_with_conflicts (K : constants) : dict :=
  [ ("h", VNum 0.7); ("Omega_cdm", VNum 0.25); ("Omega_b", VNum 0.05);
    ("Omega_k", VNum 0); ("sigma8", VNum 0.8); ("k_pivot", VNum 0.05);
    ("n_s", VNum 0.96); ("alpha_s", VNum 0); ("r", VNum 0);
    ("T_cmb", VNum (TCMB K)); ("m_ncdm", VNone); ("neutrino_hierarchy", VNone);
    ("T_ncdm", VNum (TNCDM K)); ("N_eff", VNum (NEFF K)); ("tau_reio", VNum 0.06);
    ("reionization_width", VNum 0.5); ("A_L", VNum 1); ("w0_fld", VNum (-1));
    ("wa_fld", VNum 0); ("cs2_fld", VNum 1);
    ("H0", VNum 0.7);
    ("omega_cdm", VNum 0.25); ("Omega0_cdm", VNum 0.25); ("Omega_c", VNum 0.25);
    ("omega_c", VNum 0.25);
    ("omega_b", VNum 0.05); ("Omega0_b", VNum 0.05);
    ("A_s", VNum 0.8); ("ln10^{10}A_s", VNum 0.8);
    ("Omega_g", VNum (TCMB K)); ("omega_g", VNum (TCMB K)); ("Omega0_g", VNum (TCMB K));
    ("Omega_ncdm", VNone); ("omega_ncdm", VNone); ("Omega0_ncdm", VNone);
    ("N_ur", VNum (NEFF K)); ("Omega_ur", VNum (NEFF K)); ("omega_ur", VNum (NEFF K));
    ("Omega0_ur", VNum (NEFF K));
    ("z_reio", VNum 0.06);
    ("non_linear", VStr EmptyString); ("modes", VStr "s"); ("lensing", VNum 0);
    ("z_pk", VNone); ("kmax_pk", VNum 10); ("ellmax_cl", VNum 2500) ].

(** Two species, one of 0.06 eV and a massless one. *)
Definition args_two_species : dict := [("h", VNum 0.7); ("m_ncdm", VList 0%nat)].
Definition store_two_species : store := [[SNum (Fin 0.06); SNum (Fin 0)]].

(** A mapping without massive species. *)
Definition massless_params : dict :=
  [("h", VNum 0.7); ("m_ncdm", VList 0%nat); ("T_ncdm", VArr [])].

(** The normal hierarchy at the summed mass 0.0592 eV, with [N_ur]
    supplied. *)
Definition args_normal_0_0592 : dict :=
  [("h", VNum 0.7); ("m_ncdm", VNum 0.0592);
   ("neutrino_hierarchy", VStr "normal"); ("N_ur", VNum 0)].

(** Three finite masses inside a box. *)
Definition boxed (m : masses) (la ha lb hb lc hc : R) : Prop :=
  exists a b c0, m = (Fin a, Fin b, Fin c0) /\
                 la <= a <= ha /\ lb <= b <= hb /\ lc <= c0 <= hc.

(** The loop on the sum, started at [m], returns three finite masses. *)
Definition ends_finite (fuel : nat) (M d21 d31 : R) (m : masses) : Prop :=
  exists a b c0, forall s,
    newton_sum fuel (Fin M) m d21 d31 (sum3 m) s = (Ok (Fin a, Fin b, Fin c0), s).

(** The constants are positive, as physical constants are. *)
Definition positive_constants (K : constants) : Prop :=
  0 < electronvolt K /\ 0 < Boltzmann K /\ 0 < c K /\ 0 < Stefan_Boltzmann K /\
  0 < msun K /\ 0 < megaparsec K /\ 0 < rho_crit_Msunph_per_Mpcph3 K.

(** A quadrature that gives a positive value for an integrand that is
    positive on the positive reals. *)
Definition positive_quad (quad : (R -> R) -> R -> R -> R -> R) : Prop :=
  forall f a b eps, (forall q, 0 < q -> 0 < f q) -> a < b -> 0 <= a -> 0 < quad f a b eps.

(** Two stand-ins for the quadrature: the midpoint rule on one interval,
    and a rule that answers 1 for every integrand. *)
Definition midpoint_quad : (R -> R) -> R -> R -> R -> R :=
  fun f a b _ => (b - a) * f ((a + b) / 2).

Definition unit_quad : (R -> R) -> R -> R -> R -> R := fun _ _ _ _ => 1.

(** The density, over the critical density, that [_compute_ncdm_momenta]
    gives for every mass when the quadrature answers 1. *)
Definition unit_density (K : constants) (T_eff : R) : R :=
  7 / 8 * 4 / c K ^ 3 * Stefan_Boltzmann K * (T_eff / (1 / (1 + 0))) ^ 4
  * (1 / (7 * PI ^ 4 / 120)) / (10 ^ 10 * msun K) * megaparsec K ^ 3
  / rho_crit_Msunph_per_Mpcph3 K.

(** The temperature of the relic neutrinos in the examples. *)
Definition sample_T_eff : R := 2.7255 * 0.71611.

(* ================================================================= *)
(** * Properties *)

(** ** Comparisons of reals *)

Lemma Rltb_true x y : x < y -> Rltb x y = true.
Proof. intros H; unfold Rltb; destruct (Rlt_dec x y); [reflexivity | contradiction]. Qed.

Lemma Rltb_false x y : y <= x -> Rltb x y = false.
Proof. intros H; unfold Rltb; destruct (Rlt_dec x y); [lra | reflexivity]. Qed.

Lemma Rltb_lt x y : Rltb x y = true <-> x < y.
Proof. unfold Rltb; destruct (Rlt_dec x y); split; intros; try discriminate; tauto. Qed.

Lemma Rltb_ge x y : Rltb x y = false <-> y <= x.
Proof.
  unfold Rltb; destruct (Rlt_dec x y); split; intros;
    try discriminate; try lra; try reflexivity.
Qed.

Lemma Reqb_true x y : x = y -> Reqb x y = true.
Proof. intros H; unfold Reqb; destruct (Req_dec_T x y); [reflexivity | contradiction]. Qed.

Lemma Reqb_false x y : x <> y -> Reqb x y = false.
Proof. intros H; unfold Reqb; destruct (Req_dec_T x y); [contradiction | reflexivity]. Qed.

Lemma Reqb_eq x y : Reqb x y = true <-> x = y.
Proof. unfold Reqb; destruct (Req_dec_T x y); split; intros; try discriminate; tauto. Qed.

(** ** Dictionaries *)

Lemma contains_getitem k d :
  contains k d = match getitem k d with Some _ => true | None => false end.
Proof.
  induction d as [|[k' v] d IH]; simpl; [reflexivity|].
  destruct (String.eqb k' k); simpl; auto.
Qed.

Lemma getitem_delitem_eq k d : getitem k (delitem k d) = None.
Proof.
  induction d as [|[k' v] d IH]; simpl; [reflexivity|].
  destruct (String.eqb k' k) eqn:E; simpl; [exact IH|].
  rewrite E; exact IH.
Qed.

Lemma getitem_delitem_neq k k' d : k <> k' -> getitem k' (delitem k d) = getitem k' d.
Proof.
  intros Hne; induction d as [|[k0 v] d IH]; simpl; [reflexivity|].
  destruct (String.eqb k0 k) eqn:E; simpl.
  - apply String.eqb_eq in E; subst k0.
    destruct (String.eqb k k') eqn:E'; [apply String.eqb_eq in E'; contradiction | exact IH].
  - destruct (String.eqb k0 k'); [reflexivity | exact IH].
Qed.

Lemma getitem_setitem_eq k v d : getitem k (setitem k v d) = Some v.
Proof.
  induction d as [|[k0 v0] d IH]; simpl.
  - rewrite String.eqb_refl; reflexivity.
  - destruct (String.eqb k0 k) eqn:E; simpl; rewrite E; [reflexivity | exact IH].
Qed.

Lemma getitem_setitem_neq k k' v d :
  k <> k' -> getitem k' (setitem k v d) = getitem k' d.
Proof.
  intros Hne; induction d as [|[k0 v0] d IH]; simpl.
  - destruct (String.eqb k k') eqn:E; [apply String.eqb_eq in E; contradiction | reflexivity].
  - destruct (String.eqb k0 k) eqn:E; simpl.
    + apply String.eqb_eq in E; subst k0.
      destruct (String.eqb k k') eqn:E'; [apply String.eqb_eq in E'; contradiction|].
      apply getitem_delitem_neq; assumption.
    + destruct (String.eqb k0 k'); [reflexivity | exact IH].
Qed.

Lemma getitem_setitem k k' v d :
  getitem k' (setitem k v d) = if String.eqb k k' then Some v else getitem k' d.
Proof.
  destruct (String.eqb_spec k k') as [->|Hne].
  - apply getitem_setitem_eq.
  - apply getitem_setitem_neq; assumption.
Qed.

Lemma getitem_delitem k k' d :
  getitem k' (delitem k d) = if String.eqb k k' then None else getitem k' d.
Proof.
  destruct (String.eqb_spec k k') as [->|Hne].
  - apply getitem_delitem_eq.
  - apply getitem_delitem_neq; assumption.
Qed.

Lemma pop_some k d v d' :
  pop k d = Some (v, d') -> getitem k d = Some v /\ d' = delitem k d.
Proof.
  unfold pop; destruct (getitem k d); intros H; inversion H; auto.
Qed.

Lemma pop_none k d : pop k d = None -> getitem k d = None.
Proof. unfold pop; destruct (getitem k d); intros H; [discriminate | reflexivity]. Qed.

Lemma getitem_update k d e :
  getitem k (update d e) =
  match getitem k (rev e) with Some v => Some v | None => getitem k d end.
Proof.
  unfold update; revert d; induction e as [|[k0 v0] e IH]; intros d; simpl.
  - reflexivity.
  - rewrite IH.
    assert (Hrev : forall l x y, getitem k (l ++ [(x, y)]) =
              match getitem k l with Some w => Some w
              | None => if String.eqb x k then Some y else None end).
    { induction l as [|[a b] l IHl]; intros x y; simpl; [reflexivity|].
      destruct (String.eqb a k); [reflexivity | apply IHl]. }
    rewrite Hrev. destruct (getitem k (rev e)); [reflexivity|].
    rewrite getitem_setitem. destruct (String.eqb k0 k); reflexivity.
Qed.

(** With distinct keys, looking up from either end gives the same entry. *)
Lemma getitem_In k v d : getitem k d = Some v -> In (k, v) d.
Proof.
  induction d as [|[k0 v0] d IH]; simpl; [discriminate|].
  destruct (String.eqb_spec k0 k) as [->|Hne]; intros H.
  - inversion H; auto.
  - right; auto.
Qed.

Lemma In_keys_contains k d : In k (keys d) <-> contains k d = true.
Proof.
  unfold keys, contains; rewrite existsb_exists, in_map_iff; split.
  - intros [[k0 v] [E HIn]]; simpl in E; subst k0.
    exists (k, v); split; [assumption | apply String.eqb_refl].
  - intros [[k0 v] [HIn E]]; simpl in E; apply String.eqb_eq in E; subst k0.
    exists (k, v); split; [reflexivity | assumption].
Qed.

Lemma getitem_rev_none k d : getitem k (rev d) = None <-> getitem k d = None.
Proof.
  assert (H : forall l, getitem k l = None <-> ~ In k (keys l)).
  { intros l; rewrite In_keys_contains, contains_getitem.
    destruct (getitem k l); split; intros; try discriminate; try reflexivity.
    exfalso; auto. }
  rewrite !H. unfold keys. rewrite map_rev, <- in_rev. tauto.
Qed.

Lemma getitem_rev_NoDup k d :
  NoDup (keys d) -> getitem k (rev d) = getitem k d.
Proof.
  intros Hnd. destruct (getitem k d) as [v|] eqn:E.
  - destruct (getitem k (rev d)) as [w|] eqn:E'.
    + apply getitem_In in E, E'. apply in_rev in E'.
      f_equal. clear - Hnd E E'.
      induction d as [|[k0 v0] d IH]; simpl in *; [contradiction|].
      inversion Hnd as [|? ? Hn Hd]; subst.
      destruct E as [E|E], E' as [E'|E'];
        try (inversion E; subst); try (inversion E'; subst); auto.
      * exfalso; apply Hn; change k with (fst (k, w)); apply in_map; assumption.
      * exfalso; apply Hn; change k with (fst (k, v)); apply in_map; assumption.
    + destruct (getitem_rev_none k d) as [H1 _]. rewrite (H1 E') in E; discriminate.
  - destruct (getitem_rev_none k d) as [_ H2]. exact (H2 E).
Qed.

(** ** The monad *)

Lemma bind_ok {A B} (m : M A) (f : A -> M B) s b s' :
  bind m f s = (Ok b, s') ->
  exists a s1, m s = (Ok a, s1) /\ f a s1 = (Ok b, s').
Proof.
  unfold bind; destruct (m s) as [[a|e] s1]; intros H; [|discriminate].
  exists a, s1; auto.
Qed.

Lemma bind_inv {A B} (m : M A) (f : A -> M B) s r s' :
  bind m f s = (r, s') ->
  (exists e, m s = (Raise e, s') /\ r = Raise e) \/
  (exists a s1, m s = (Ok a, s1) /\ f a s1 = (r, s')).
Proof.
  unfold bind; destruct (m s) as [[a|e] s1]; intros H.
  - right; exists a, s1; auto.
  - left; inversion H; subst; exists e; auto.
Qed.

Lemma bind_eq {A B} (m : M A) (f : A -> M B) s a s1 :
  m s = (Ok a, s1) -> bind m f s = f a s1.
Proof. intros H; unfold bind; rewrite H; reflexivity. Qed.

Lemma bind_raise {A B} (m : M A) (f : A -> M B) s e s1 :
  m s = (Raise e, s1) -> bind m f s = (Raise e, s1).
Proof. intros H; unfold bind; rewrite H; reflexivity. Qed.

Lemma ret_ok {A} (a b : A) s s' : ret a s = (Ok b, s') -> a = b /\ s = s'.
Proof. unfold ret; intros H; inversion H; auto. Qed.

(** Inversion of a successful run, one construct at a time. *)
Ltac minv1 H :=
  lazymatch type of H with
  | bind _ _ _ = (Ok _, _) =>
      let a := fresh "a" in let s := fresh "s" in let H1 := fresh "H" in
      apply bind_ok in H as (a & s & H1 & H)
  | ret _ _ = (Ok _, _) =>
      let E := fresh "E" in
      apply ret_ok in H as [H E]; try (inversion H; clear H); subst
  | raise _ _ = (Ok _, _) => discriminate H
  | lift _ _ = (_, _) => unfold lift in H
  | (Raise _, _) = (Ok _, _) => discriminate H
  | (Ok _, _) = (Ok _, _) => inversion H; subst; clear H
  | (if ?b then _ else _) _ = _ => destruct b eqn:?
  | (let '(_, _) := ?x in _) _ = _ => destruct x
  | (match ?x with _ => _ end) _ = _ => destruct x eqn:?
  end.

Ltac minv H := repeat minv1 H.

(** *** Computations that leave the store alone, or only add objects *)

Lemma pure_allocates {A} (m : M A) : pure m -> allocates m.
Proof. intros H s r s' E; exists []; rewrite app_nil_r; exact (H _ _ _ E). Qed.

Lemma pure_ret {A} (a : A) : pure (ret a).
Proof. intros s r s' H; inversion H; reflexivity. Qed.

Lemma pure_raise {A} e : pure (@raise A e).
Proof. intros s r s' H; inversion H; reflexivity. Qed.

Lemma pure_lift {A} (o : outcome A) : pure (lift o).
Proof. intros s r s' H; inversion H; reflexivity. Qed.

Lemma pure_bind {A B} (m : M A) (f : A -> M B) :
  pure m -> (forall a, pure (f a)) -> pure (bind m f).
Proof.
  intros Hm Hf s r s' H. apply bind_inv in H as [(e & H & _)|(a & s1 & H1 & H2)].
  - exact (Hm _ _ _ H).
  - apply Hm in H1; subst. exact (Hf _ _ _ _ H2).
Qed.

Lemma pure_deref p : pure (deref p).
Proof.
  intros s r s' H; unfold deref in H.
  destruct (nth_error s p); inversion H; reflexivity.
Qed.

Lemma pure_mapM {A B} (f : A -> M B) l : (forall a, pure (f a)) -> pure (mapM f l).
Proof.
  intros Hf; induction l as [|a l IH]; simpl.
  - apply pure_ret.
  - apply pure_bind; [apply Hf|]; intros b.
    apply pure_bind; [exact IH|]; intros bs; apply pure_ret.
Qed.

Lemma allocates_bind {A B} (m : M A) (f : A -> M B) :
  allocates m -> (forall a, allocates (f a)) -> allocates (bind m f).
Proof.
  intros Hm Hf s r s' H. apply bind_inv in H as [(e & H & _)|(a & s1 & H1 & H2)].
  - exact (Hm _ _ _ H).
  - apply Hm in H1 as [t1 ->]. apply Hf in H2 as [t2 ->].
    exists (t1 ++ t2); rewrite app_assoc; reflexivity.
Qed.

Lemma allocates_alloc l : allocates (alloc l).
Proof. intros s r s' H; inversion H; eauto. Qed.

Lemma allocates_store_local x : allocates (store_local x).
Proof.
  destruct x; simpl.
  - apply pure_allocates, pure_ret.
  - apply allocates_bind; [apply allocates_alloc|].
    intros a; apply pure_allocates, pure_ret.
Qed.

Create HintDb pure discriminated.
#[local] Hint Resolve pure_ret pure_raise pure_lift pure_deref : pure.

(** Purity of a term built from [bind], [ret], [raise], branches and the
    lemmas of the database. *)
Ltac pure_tac :=
  repeat first
    [ apply pure_ret | apply pure_raise | apply pure_lift | apply pure_deref
    | solve [auto with pure]
    | apply pure_bind; [|intros]
    | apply pure_mapM; intros
    | match goal with
      | |- pure (if ?b then _ else _) => destruct b
      | |- pure (let '(_, _) := ?x in _) => destruct x
      | |- pure (match ?x with _ => _ end) => destruct x
      end ].

Lemma pure_as_num x : pure (as_num x).
Proof. unfold as_num; pure_tac. Qed.

Lemma pure_as_factor x : pure (as_factor x).
Proof. unfold as_factor; pure_tac. Qed.

Lemma pure_py_div a b : pure (py_div a b).
Proof. unfold py_div; pure_tac. Qed.

Lemma pure_rdiv a b : pure (rdiv a b).
Proof. unfold rdiv; pure_tac. Qed.

#[local] Hint Resolve pure_as_num pure_as_factor pure_py_div pure_rdiv : pure.

Lemma pure_square h : pure (square h).
Proof. unfold square; pure_tac. Qed.

Lemma pure_mul_vs v x : pure (mul_vs v x).
Proof. unfold mul_vs; pure_tac. Qed.

Lemma pure_sub_vv a b : pure (sub_vv a b).
Proof. unfold sub_vv; pure_tac. Qed.

Lemma pure_pow_quarter a : pure (pow_quarter a).
Proof. unfold pow_quarter; pure_tac. Qed.

Lemma pure_div100 v : pure (div100 v).
Proof. unfold div100; pure_tac. Qed.

Lemma pure_make_list x : pure (make_list x).
Proof. unfold make_list; pure_tac. Qed.

Lemma pure_to_array l : pure (to_array l).
Proof. unfold to_array; pure_tac. Qed.

#[local] Hint Resolve pure_square pure_mul_vs pure_sub_vv pure_pow_quarter
  pure_div100 pure_make_list pure_to_array : pure.

Lemma pure_broadcast x n : pure (broadcast x n).
Proof. unfold broadcast; pure_tac. Qed.

Lemma pure_exp_scaled x : pure (exp_scaled x).
Proof. unfold exp_scaled; pure_tac. Qed.

Lemma pure_omega_over_h2 h o : pure (omega_over_h2 h o).
Proof. unfold omega_over_h2; pure_tac. Qed.

#[local] Hint Resolve pure_broadcast pure_exp_scaled pure_omega_over_h2 : pure.

(** ** Conflict groups *)

Lemma mem_In name l : mem name l = true <-> In name l.
Proof.
  unfold mem; rewrite existsb_exists; split.
  - intros [x [HIn E]]; apply String.eqb_eq in E; subst; assumption.
  - intros HIn; exists name; split; [assumption | apply String.eqb_refl].
Qed.

Lemma find_in_mem name groups :
  find_in name groups = [] \/ mem name (find_in name groups) = true.
Proof.
  induction groups as [|g groups IH]; simpl; [left; reflexivity|].
  destruct (mem name g) eqn:E; [right; exact E | exact IH].
Qed.

(** The groups are pairwise disjoint: a name of a group finds that group. *)
Lemma find_conflicts_group g a :
  In g conflicts -> In a g -> find_conflicts a = g.
Proof.
  unfold conflicts; intros Hg Ha; simpl in Hg.
  repeat (destruct Hg as [<-|Hg]; [simpl in Ha; intuition (subst; reflexivity)|]).
  contradiction.
Qed.

Lemma conf_of_In args name n :
  In n (conf_of args name) <->
  In n (find_conflicts name) /\ n <> name /\ contains n args = true.
Proof.
  unfold conf_of; rewrite filter_In, andb_true_iff, negb_true_iff, String.eqb_neq.
  tauto.
Qed.

Lemma first_conflict_ok args names :
  first_conflict args names = Ok tt <-> forall n, In n names -> conf_of args n = [].
Proof.
  induction names as [|n names IH]; simpl.
  - split; [intros _ n [] | reflexivity].
  - destruct (conf_of args n) eqn:E.
    + rewrite IH; split; [intros H m [<-|Hm]; auto | intros H m Hm; auto].
    + split; [discriminate|].
      intros H; specialize (H n (or_introl eq_refl)); rewrite E in H; discriminate.
Qed.

Lemma first_conflict_raises args names r :
  first_conflict args names = r -> r <> Ok tt ->
  exists before name others after,
    names = before ++ name :: after /\
    (forall n, In n before -> conf_of args n = []) /\
    others = conf_of args name /\ others <> [] /\
    r = Raise (CosmologyError (Conflicting (name :: others))).
Proof.
  revert r; induction names as [|n names IH]; simpl; intros r Hr Hne.
  - subst; contradiction.
  - destruct (conf_of args n) as [|x l] eqn:E.
    + destruct (IH r Hr Hne) as (before & name & others & after & -> & Hb & Ho & Hn & ->).
      exists (n :: before), name, others, after; repeat split; auto.
      intros m [<-|Hm]; auto.
    + exists [], n, (x :: l), names; repeat split; auto.
      * intros m [].
      * discriminate.
Qed.

(** C6 (as amended).  When two different names of one conflict group are
    present in the input, [check_params] raises a conflict error; the message
    lists exactly the names of the input that belong to the group of the
    first name (in the order of the mapping) that has a conflicting partner;
    [Cosmology.__init__] and [Cosmology.clone] stop with that error before
    anything is compiled, and the store is left as it was. *)
Theorem check_params_conflict
    (K : constants) (quad : (R -> R) -> R -> R -> R -> R) (dz : list scalar)
    (fuel : nat) (args : dict) (g : list string) (a b : string) (s : store) :
  In g conflicts -> In a g -> In b g -> a <> b ->
  contains a args = true -> contains b args = true ->
  exists name others,
    check_params args = Raise (CosmologyError (Conflicting (name :: others))) /\
    others <> [] /\
    (forall n, In n (name :: others) <->
               In n (find_conflicts name) /\ contains n args = true) /\
    (exists before after,
        keys args = before ++ name :: after /\
        forall n, In n before -> conf_of args n = []) /\
    Cosmology_init K quad dz fuel args s =
      (Raise (CosmologyError (Conflicting (name :: others))), s) /\
    forall base,
      Cosmology_clone K quad dz fuel base args s =
        (Raise (CosmologyError (Conflicting (name :: others))), s).
Proof.
  intros Hg Ha Hb Hab Ca Cb.
  assert (Hne : check_params args <> Ok tt).
  { unfold check_params; rewrite first_conflict_ok; intros H.
    assert (Hin : In b (conf_of args a)).
    { apply conf_of_In; rewrite (find_conflicts_group g a Hg Ha); auto. }
    rewrite (H a) in Hin; [contradiction | apply In_keys_contains; assumption]. }
  destruct (first_conflict_raises args (keys args) _ eq_refl Hne)
    as (before & name & others & after & Hk & Hbefore & Ho & Hn & Hr).
  fold (check_params args) in Hr.
  exists name, others; split; [exact Hr|]; split; [exact Hn|].
  assert (Hname : contains name args = true).
  { apply In_keys_contains; rewrite Hk; apply in_or_app; right; left; reflexivity. }
  assert (Hself : In name (find_conflicts name)).
  { unfold find_conflicts.
    destruct (find_in_mem name conflicts) as [E|E]; [|apply mem_In; exact E].
    exfalso; apply Hn; rewrite Ho; unfold conf_of, find_conflicts; rewrite E; reflexivity. }
  split; [|split; [|split]].
  - intros n; split.
    + intros [<-|Hin]; [auto|].
      rewrite Ho in Hin; apply conf_of_In in Hin; tauto.
    + intros [H1 H2]. destruct (string_dec n name) as [->|Hd]; [left; reflexivity|].
      right; rewrite Ho; apply conf_of_In; auto.
  - exists before, after; auto.
  - unfold Cosmology_init, bind, lift; rewrite Hr; reflexivity.
  - intros base; unfold Cosmology_clone, bind, lift; rewrite Hr; reflexivity.
Qed.

Lemma check_params_conflict_witness :
  exists name others,
    check_params args_h_H0 = Raise (CosmologyError (Conflicting (name :: others))) /\
    In "h" (name :: others) /\ In "H0" (name :: others).
Proof.
  destruct (check_params_conflict sample_constants no_quad sample_z 0
              args_h_H0 ["h"; "H0"] "h" "H0" [])
    as (name & others & Hr & _ & Hiff & _);
    try (simpl; auto; fail); try reflexivity; try discriminate.
  exists name, others; split; [exact Hr|].
  assert (E : name :: others = ["h"; "H0"]).
  { clear Hiff.
    assert (E' : check_params args_h_H0 =
                 Raise (CosmologyError (Conflicting ["h"; "H0"]))) by reflexivity.
    rewrite E' in Hr; inversion Hr; reflexivity. }
  rewrite E; simpl; auto.
Defined.

(** C6 as stated fails: with two groups in conflict the message names the
    members of the first group only. *)
Lemma check_params_names_one_group :
  check_params args_two_conflicts
    = Raise (CosmologyError (Conflicting ["h"; "H0"])) /\
  contains "A_s" args_two_conflicts = true /\
  contains "sigma8" args_two_conflicts = true /\
  In "sigma8" (find_conflicts "A_s") /\
  ~ In "A_s" ["h"; "H0"] /\ ~ In "sigma8" ["h"; "H0"].
Proof.
  repeat split; try reflexivity.
  - simpl; auto.
  - simpl; intros [H|[H|[]]]; discriminate.
  - simpl; intros [H|[H|[]]]; discriminate.
Qed.

(** ** [merge_params] *)

Lemma getitem_pop_group l a k :
  getitem k (fold_left (fun a eq => if contains eq a then delitem eq a else a) l a)
  = if mem k l then None else getitem k a.
Proof.
  revert a; induction l as [|x l IH]; intros a; simpl; [reflexivity|].
  rewrite IH.
  assert (E : getitem k (if contains x a then delitem x a else a)
              = if String.eqb x k then None else getitem k a).
  { rewrite contains_getitem. destruct (getitem x a) eqn:Ex.
    - apply getitem_delitem.
    - destruct (String.eqb_spec x k) as [->|]; [exact Ex | reflexivity]. }
  rewrite E, (String.eqb_sym k x).
  destruct (String.eqb x k); simpl; [destruct (mem k l); reflexivity | reflexivity].
Qed.

Lemma getitem_pop_conflicts names a k :
  getitem k (fold_left pop_conflicts names a)
  = if existsb (fun n => mem k (find_conflicts n)) names then None else getitem k a.
Proof.
  revert a; induction names as [|n names IH]; intros a; simpl; [reflexivity|].
  rewrite IH. unfold pop_conflicts. rewrite getitem_pop_group.
  destruct (mem k (find_conflicts n)); simpl;
    [destruct (existsb _ names); reflexivity | reflexivity].
Qed.

(** The result of a merge, name by name: the override's entry if it has
    one; nothing if the name is in the conflict group of a name of the
    override; the base's entry otherwise. *)
Lemma getitem_merge_params base over k :
  NoDup (keys over) ->
  getitem k (merge_params base over) =
  match getitem k over with
  | Some v => Some v
  | None => if existsb (fun n => mem k (find_conflicts n)) (keys over)
            then None else getitem k base
  end.
Proof.
  intros Hnd. unfold merge_params.
  rewrite getitem_update, (getitem_rev_NoDup k over Hnd), getitem_pop_conflicts.
  reflexivity.
Qed.

(** ** Which entries and which list objects a stage can change *)

(** [k] differs from a name listed in [Hk : ~ In k [...]]. *)
Ltac neq_from Hk :=
  let E := fresh "E" in
  intros E; apply Hk; rewrite <- E; simpl; tauto.

Ltac pop_inv :=
  repeat match goal with
  | H : pop _ _ = Some (_, _) |- _ => apply pop_some in H; destruct H; subst
  | H : pop _ _ = Some ?p |- _ => destruct p
  end.

Ltac frame_keys Hk :=
  pop_inv;
  repeat first [ rewrite getitem_setitem_neq by (neq_from Hk)
               | rewrite getitem_delitem_neq by (neq_from Hk) ];
  try reflexivity.

Lemma stage_H0_keys params s out s' :
  stage_H0 params s = (Ok out, s') ->
  forall k, ~ In k ["H0"; "h"] -> getitem k out = getitem k params.
Proof.
  unfold stage_H0; intros H k Hk. minv H; frame_keys Hk.
Qed.

Lemma stage_H0_absent params s :
  getitem "H0" params = None -> stage_H0 params s = (Ok params, s).
Proof. unfold stage_H0, pop; intros ->; reflexivity. Qed.

Lemma replace_omega_prefix name :
  startswith "omega" name = true ->
  startswith "Omega" (replace "omega" "Omega" name) = true.
Proof.
  intros H.
  destruct name as [|a1 [|a2 [|a3 [|a4 [|a5 rest]]]]]; cbn [startswith] in H;
    repeat (apply andb_true_iff in H as [?E H]);
    try discriminate;
    repeat match goal with
           | E : Ascii.eqb _ _ = true |- _ => apply Ascii.eqb_eq in E
           end.
  subst; reflexivity.
Qed.

Lemma omega_loop_keys h items params s out s' :
  omega_loop h items params s = (Ok out, s') ->
  forall k, omega_key k = false -> getitem k out = getitem k params.
Proof.
  revert params s; induction items as [|[name v] items IH]; intros params s H k Hk; simpl in H.
  - minv H; reflexivity.
  - destruct (startswith "omega" name) eqn:P; [|eauto].
    destruct (pop name params) as [[omega params']|] eqn:Ep; [|minv H].
    minv H. rewrite (IH _ _ H k Hk). apply pop_some in Ep as [_ ->].
    apply orb_false_iff in Hk as [Hk1 Hk2].
    rewrite getitem_setitem_neq, getitem_delitem_neq; try reflexivity.
    + intros ->; congruence.
    + intros E; rewrite <- E, replace_omega_prefix in Hk2; [discriminate | assumption].
Qed.

Lemma set_aliases_keys args l params s out s' :
  set_aliases args l params s = (Ok out, s') ->
  forall k, ~ In k (map fst l ++ map snd l) -> getitem k out = getitem k params.
Proof.
  revert params s; induction l as [|[pn an] l IH]; intros params s H k Hk; simpl in H.
  - minv H; reflexivity.
  - apply bind_ok in H as (p1 & s1 & H1 & H).
    rewrite (IH _ _ H).
    + unfold set_alias in H1. minv H1; pop_inv; try reflexivity.
      rewrite getitem_setitem_neq, getitem_delitem_neq; try reflexivity.
      * intros ->; apply Hk; simpl. right; apply in_or_app; right; left; reflexivity.
      * intros ->; apply Hk; simpl; auto.
    + intros HIn; apply Hk; simpl. right.
      apply in_app_or in HIn as [HIn|HIn]; apply in_or_app; [left | right; right]; assumption.
Qed.

Lemma stage_A_s_keys params s out s' :
  stage_A_s params s = (Ok out, s') ->
  forall k, ~ In k ["ln10^{10}A_s"; "A_s"] -> getitem k out = getitem k params.
Proof.
  unfold stage_A_s; intros H k Hk. minv H; frame_keys Hk.
Qed.

Lemma stage_Omega_g_keys K h params s out s' :
  stage_Omega_g K h params s = (Ok out, s') ->
  forall k, ~ In k ["Omega_g"; "T_cmb"] -> getitem k out = getitem k params.
Proof.
  unfold stage_Omega_g; intros H k Hk.
  destruct (pop "Omega_g" params) as [[v p]|] eqn:E; minv H; frame_keys Hk.
Qed.

Lemma stage_ncdm_keys K quad fuel T params s m T' out s' :
  stage_ncdm K quad fuel T params s = (Ok (m, T', out), s') ->
  forall k, ~ In k ["m_ncdm"; "Omega_ncdm"] -> getitem k out = getitem k params.
Proof.
  unfold stage_ncdm; intros H k Hk.
  destruct (pop "m_ncdm" params) as [[v p]|] eqn:E1.
  - minv H; frame_keys Hk.
  - destruct (pop "Omega_ncdm" params) as [[v p]|] eqn:E2.
    + apply bind_ok in H as (? & ? & _ & H). apply bind_ok in H as (? & ? & _ & H).
      destruct (getitem "h" p); [|minv H].
      apply bind_ok in H as (? & ? & _ & H).
      minv H; frame_keys Hk.
    + minv H; reflexivity.
Qed.

Lemma stage_hierarchy_keys fuel single m T params s m' T' out s' :
  stage_hierarchy fuel single m T params s = (Ok (m', T', out), s') ->
  forall k, ~ In k ["neutrino_hierarchy"] -> getitem k out = getitem k params.
Proof.
  unfold stage_hierarchy; intros H k Hk.
  destruct (pop "neutrino_hierarchy" params) as [[v p]|] eqn:E.
  - minv H; frame_keys Hk.
  - minv H; reflexivity.
Qed.

Lemma derive_N_ur_keys K m T params s N m' T' out s' :
  derive_N_ur K m T params s = (Ok (N, m', T', out), s') ->
  out = delitem "N_eff" params.
Proof. unfold derive_N_ur; intros H. minv H; reflexivity. Qed.

Lemma stage_N_ur_keys K m T params s out s' :
  stage_N_ur K m T params s = (Ok out, s') ->
  forall k, ~ In k ["N_eff"; "N_ur"; "m_ncdm"; "T_ncdm"] ->
  getitem k out = getitem k params.
Proof.
  unfold stage_N_ur; intros H k Hk.
  destruct (contains "Omega_ur" params).
  - minv H.
  - apply bind_ok in H as ([[[N m'] T'] p] & s1 & H1 & H).
    assert (Hp : getitem k p = getitem k params).
    { destruct (get "N_ur" VNone params) as [[| |]| |]; minv H1; try reflexivity.
      match goal with
      | Hd : derive_N_ur _ _ _ _ _ = _ |- _ => apply derive_N_ur_keys in Hd; subst
      end.
      frame_keys Hk. }
    minv H. frame_keys Hk. exact Hp.
Qed.

Lemma wrap_scalar_keys name params s out s' :
  wrap_scalar name params s = (Ok out, s') ->
  forall k, k <> name -> getitem k out = getitem k params.
Proof.
  unfold wrap_scalar; intros H k Hk.
  minv H; try reflexivity. apply getitem_setitem_neq; auto.
Qed.

Lemma stage_defaults_keys dz params s out s' :
  stage_defaults dz params s = (Ok out, s') ->
  forall k, ~ In k ["z_pk"; "modes"] -> getitem k out = getitem k params.
Proof.
  unfold stage_defaults; intros H k Hk.
  apply bind_ok in H as (p1 & s1 & H1 & H).
  apply bind_ok in H as (p2 & s2 & H2 & H3).
  rewrite (wrap_scalar_keys _ _ _ _ _ H3), (wrap_scalar_keys _ _ _ _ _ H2);
    try (intros ->; apply Hk; simpl; tauto).
  minv H1; frame_keys Hk;
    destruct (is_None (get "z_pk" VNone params)); frame_keys Hk.
Qed.

Lemma append_zero_keys params s out s' :
  append_zero params s = (Ok out, s') -> out = params.
Proof. unfold append_zero; intros H. minv H; reflexivity. Qed.

Lemma stage_z_pk_keys dz params s out s' :
  stage_z_pk dz params s = (Ok out, s') ->
  forall k, ~ In k ["z_pk"; "modes"] -> getitem k out = getitem k params.
Proof.
  unfold stage_z_pk; intros H k Hk.
  apply bind_ok in H as (p1 & s1 & H1 & H).
  apply append_zero_keys in H; subst.
  eapply stage_defaults_keys; eauto.
Qed.

Lemma stage_Omega_m_keys K quad params s out s' :
  stage_Omega_m K quad params s = (Ok out, s') ->
  forall k, ~ In k ["Omega_m"; "Omega_cdm"] -> getitem k out = getitem k params.
Proof.
  unfold stage_Omega_m; intros H k Hk.
  destruct (contains "Omega_m" params); [|minv H; reflexivity].
  apply bind_ok in H as (? & ? & _ & H). apply bind_ok in H as (? & ? & _ & H).
  apply bind_ok in H as (? & ? & _ & H).
  destruct (pop "Omega_m" params) as [[v p]|] eqn:E; [|minv H].
  minv H; frame_keys Hk.
Qed.

(** *** The store *)

Ltac alloc_tac :=
  repeat first
    [ apply pure_allocates; solve [pure_tac]
    | apply allocates_alloc | apply allocates_store_local
    | apply allocates_bind; [|intros]
    | match goal with
      | |- allocates (if ?b then _ else _) => destruct b
      | |- allocates (let '(_, _) := ?x in _) => destruct x
      | |- allocates (match ?x with _ => _ end) => destruct x
      end ].

Lemma pure_stage_H0 params : pure (stage_H0 params).
Proof. unfold stage_H0; pure_tac. Qed.

Lemma pure_Omega_of_omega h omega : pure (Omega_of_omega h omega).
Proof. unfold Omega_of_omega; pure_tac. Qed.

Lemma allocates_omega_loop h items params : allocates (omega_loop h items params).
Proof.
  revert params; induction items as [|[name v] items IH]; intros params; simpl.
  - apply pure_allocates, pure_ret.
  - destruct (startswith "omega" name); [|apply IH].
    destruct (pop name params) as [[omega p]|]; [|apply pure_allocates, pure_raise].
    apply allocates_bind; [apply pure_allocates, pure_Omega_of_omega|]; intros x.
    apply allocates_bind; [apply allocates_store_local|]; intros v'. apply IH.
Qed.

Lemma pure_set_aliases args l params : pure (set_aliases args l params).
Proof.
  revert params; induction l as [|[pn an] l IH]; intros params; simpl.
  - apply pure_ret.
  - apply pure_bind; [unfold set_alias; pure_tac | intros; apply IH].
Qed.

Lemma pure_stage_A_s params : pure (stage_A_s params).
Proof. unfold stage_A_s; pure_tac. Qed.

Lemma pure_stage_Omega_g K h params : pure (stage_Omega_g K h params).
Proof. unfold stage_Omega_g; pure_tac. Qed.

Lemma pure_compute_ncdm_momenta K quad T m z epsrel out :
  pure (_compute_ncdm_momenta K quad T m z epsrel out).
Proof. unfold _compute_ncdm_momenta; pure_tac. Qed.

#[local] Hint Resolve pure_compute_ncdm_momenta : pure.

Lemma pure_momenta K quad T m out : pure (momenta K quad T m out).
Proof. unfold momenta; pure_tac. Qed.

Lemma pure_omega_of K quad T m out : pure (omega_of K quad T m out).
Proof. unfold omega_of; pure_tac. Qed.

#[local] Hint Resolve pure_momenta pure_omega_of : pure.

Lemma pure_newton_omega K quad fuel omega m T check :
  pure (newton_omega K quad fuel omega m T check).
Proof.
  revert m check; induction fuel as [|fuel IH]; intros m check; simpl.
  - pure_tac.
  - match goal with |- pure (if ?b then _ else _) => destruct b end;
      [|apply pure_ret].
    apply pure_bind; [apply pure_omega_of|]; intros d.
    apply pure_bind; [apply pure_rdiv|]; intros st.
    apply pure_bind; [apply pure_omega_of|]; intros ch. apply IH.
Qed.

Lemma pure_solve_newton_omega K quad fuel omega m T :
  pure (solve_newton_omega K quad fuel omega m T).
Proof.
  unfold solve_newton_omega; apply pure_bind; [apply pure_omega_of|].
  intros; apply pure_newton_omega.
Qed.

#[local] Hint Resolve pure_solve_newton_omega : pure.

Lemma pure_mass_of_Omega K quad fuel params h OT :
  pure (mass_of_Omega K quad fuel params h OT).
Proof. unfold mass_of_Omega; pure_tac. Qed.

#[local] Hint Resolve pure_mass_of_Omega : pure.

Lemma pure_stage_ncdm K quad fuel T params : pure (stage_ncdm K quad fuel T params).
Proof. unfold stage_ncdm; pure_tac. Qed.

Lemma pure_stage_lists m T : pure (stage_lists m T).
Proof. unfold stage_lists; pure_tac. Qed.

Lemma pure_newton_sum fuel sum m d21 d31 check :
  pure (newton_sum fuel sum m d21 d31 check).
Proof.
  revert m check; induction fuel as [|fuel IH]; intros m check; simpl.
  - pure_tac.
  - match goal with |- pure (if ?b then _ else _) => destruct b end;
      [apply IH | apply pure_ret].
Qed.

Lemma pure_split_hierarchy fuel nh sum : pure (split_hierarchy fuel nh sum).
Proof.
  unfold split_hierarchy, solve_newton_sum.
  destruct nh as [[| |name]| |]; try apply pure_raise.
  repeat match goal with
         | |- pure (if ?b then _ else _) => destruct b
         end;
    try apply pure_raise; try apply pure_ret; apply pure_newton_sum.
Qed.

#[local] Hint Resolve pure_split_hierarchy : pure.

Lemma pure_stage_hierarchy fuel single m T params :
  pure (stage_hierarchy fuel single m T params).
Proof. unfold stage_hierarchy; pure_tac. Qed.

Lemma pure_derive_N_ur K m T params : pure (derive_N_ur K m T params).
Proof. unfold derive_N_ur; pure_tac. Qed.

Lemma allocates_stage_N_ur K m T params : allocates (stage_N_ur K m T params).
Proof.
  unfold stage_N_ur.
  destruct (contains "Omega_ur" params).
  - apply pure_allocates; pure_tac.
  - apply allocates_bind.
    + apply pure_allocates.
      destruct (get "N_ur" VNone params) as [[| |]| |]; try apply pure_ret.
      apply pure_bind; [apply pure_derive_N_ur|]. intros; pure_tac.
    + intros [[[N m'] T'] p]. alloc_tac.
Qed.

Lemma pure_sum_momenta K quad params out fa mT toret :
  pure (sum_momenta K quad params out fa mT toret).
Proof.
  revert toret; induction mT as [|[m T] mT IH]; intros toret; simpl.
  - apply pure_ret.
  - destruct (getitem "T_cmb" params); [|apply pure_raise].
    apply pure_bind; [apply pure_mul_vs|]; intros.
    apply pure_bind; [pure_tac|]; intros.
    apply pure_bind; [apply pure_momenta|]; intros. apply IH.
Qed.

#[local] Hint Resolve pure_sum_momenta : pure.

Lemma pure_get_ncdm K quad params out : pure (_get_ncdm K quad params out).
Proof. unfold _get_ncdm; pure_tac. Qed.

#[local] Hint Resolve pure_get_ncdm : pure.

Lemma pure_stage_Omega_m K quad params : pure (stage_Omega_m K quad params).
Proof. unfold stage_Omega_m; pure_tac. Qed.

Lemma allocates_stage_neutrinos K quad fuel args :
  allocates (stage_neutrinos K quad fuel args).
Proof.
  unfold stage_neutrinos.
  apply allocates_bind; [apply pure_allocates, pure_stage_H0|]; intros p0.
  destruct (getitem "h" p0) as [h|]; [|apply pure_allocates, pure_raise].
  apply allocates_bind; [apply allocates_omega_loop|]; intros p1.
  apply allocates_bind; [apply pure_allocates, pure_set_aliases|]; intros p2.
  apply allocates_bind; [apply pure_allocates, pure_stage_A_s|]; intros p3.
  apply allocates_bind; [apply pure_allocates, pure_stage_Omega_g|]; intros p4.
  apply allocates_bind; [apply pure_allocates, pure_stage_ncdm|]; intros [[m T] p5].
  apply allocates_bind; [apply pure_allocates, pure_stage_lists|]; intros [[sg m'] T'].
  apply pure_allocates, pure_stage_hierarchy.
Qed.

(** What the first part of [compile_params] leaves of the mapping that
    comes out of the [H0] stage. *)
Lemma stage_neutrinos_inv K quad fuel args s m T params s' :
  stage_neutrinos K quad fuel args s = (Ok (m, T, params), s') ->
  exists p0 s0,
    stage_H0 args s = (Ok p0, s0) /\
    forall k, omega_key k = false -> ~ In k later_names ->
              getitem k params = getitem k p0.
Proof.
  unfold stage_neutrinos; intros H.
  apply bind_ok in H as (p0 & s0 & H0 & H).
  exists p0, s0; split; [exact H0|]; intros k Hk1 Hk2.
  destruct (getitem "h" p0) as [h|]; [|minv H].
  apply bind_ok in H as (p1 & s1 & H1 & H).
  apply bind_ok in H as (p2 & s2 & H2 & H).
  apply bind_ok in H as (p3 & s3 & H3 & H).
  apply bind_ok in H as (p4 & s4 & H4 & H).
  apply bind_ok in H as ([[m5 T5] p5] & s5 & H5 & H).
  apply bind_ok in H as ([[sg m6] T6] & s6 & H6 & H).
  rewrite (stage_hierarchy_keys _ _ _ _ _ _ _ _ _ _ H),
          (stage_ncdm_keys _ _ _ _ _ _ _ _ _ _ H5),
          (stage_Omega_g_keys _ _ _ _ _ _ H4),
          (stage_A_s_keys _ _ _ _ H3),
          (set_aliases_keys _ _ _ _ _ _ H2),
          (omega_loop_keys _ _ _ _ _ _ H1); auto;
    intros HIn; apply Hk2; unfold later_names, alias_names;
    apply in_or_app; simpl in *; tauto.
Qed.

Lemma stage_neutrinos_keys K quad fuel args s m T params s' :
  stage_neutrinos K quad fuel args s = (Ok (m, T, params), s') ->
  forall k, omega_key k = false -> ~ In k ("H0" :: "h" :: later_names) ->
            getitem k params = getitem k args.
Proof.
  intros H k Hk1 Hk2.
  destruct (stage_neutrinos_inv _ _ _ _ _ _ _ _ _ H) as (p0 & s0 & H0 & Hp).
  rewrite Hp; auto.
  - eapply stage_H0_keys; eauto. intros HIn; apply Hk2; simpl in *; tauto.
  - intros HIn; apply Hk2; simpl; tauto.
Qed.

Lemma nth_error_ext {A} (s t : list A) p c :
  nth_error s p = Some c -> nth_error (s ++ t) p = Some c.
Proof.
  intros H. rewrite nth_error_app1; [exact H|].
  apply nth_error_Some; congruence.
Qed.

Lemma nth_error_store_set_neq s q x p :
  p <> q -> nth_error (store_set s q x) p = nth_error s p.
Proof.
  revert q p; induction s as [|c s IH]; intros [|q] [|p] Hne; simpl; auto.
  - contradiction.
Qed.

Lemma nth_error_store_set_eq s q x c :
  nth_error s q = Some c -> nth_error (store_set s q x) q = Some x.
Proof.
  revert q; induction s as [|c0 s IH]; intros [|q] H; simpl in *;
    try discriminate; auto.
Qed.

Lemma allocates_wrap_scalar name params : allocates (wrap_scalar name params).
Proof. unfold wrap_scalar; alloc_tac. Qed.

Lemma allocates_stage_defaults dz params : allocates (stage_defaults dz params).
Proof.
  unfold stage_defaults.
  apply allocates_bind; [alloc_tac|]; intros p1.
  apply allocates_bind; [apply allocates_wrap_scalar|]; intros p2.
  apply allocates_wrap_scalar.
Qed.

(** After the defaults, the entry [z_pk] is the list object it was, or an
    object created by the stage. *)
Lemma stage_defaults_z dz params s out s' :
  stage_defaults dz params s = (Ok out, s') ->
  forall q, getitem "z_pk" out = Some (VList q) ->
            getitem "z_pk" params = Some (VList q) \/ (List.length s <= q)%nat.
Proof.
  unfold stage_defaults; intros H q Hq.
  apply bind_ok in H as (p1 & s1 & H1 & H).
  apply bind_ok in H as (p2 & s2 & H2 & H3).
  assert (Hs2 : exists t, s2 = s ++ t).
  { assert (A1 : exists t, s1 = s ++ t).
    { match type of H1 with
      | ?m s = _ => assert (A : allocates m) by alloc_tac; exact (A _ _ _ H1)
      end. }
    destruct A1 as [t1 ->].
    destruct (allocates_wrap_scalar _ _ _ _ _ H2) as [t2 ->].
    exists (t1 ++ t2); rewrite app_assoc; reflexivity. }
  destruct Hs2 as [t ->].
  assert (Hz2 : getitem "z_pk" p2 =
                getitem "z_pk" (if is_None (get "z_pk" VNone params)
                                then setitem "z_pk" (get_default_z_callable dz) params
                                else params)).
  { rewrite (wrap_scalar_keys _ _ _ _ _ H2) by discriminate.
    minv H1; try reflexivity. apply getitem_setitem_neq; discriminate. }
  unfold wrap_scalar in H3.
  destruct (getitem "z_pk" p2) as [[x|q'|a]|] eqn:E2; minv H3.
  - rewrite getitem_setitem_eq in Hq. inversion Hq; subst.
    right. unfold alloc in H. inversion H; subst.
    rewrite length_app; lia.
  - rewrite E2 in Hq; inversion Hq; subst.
    left. unfold get in Hz2. destruct (getitem "z_pk" params) as [[[| |]| |]|] eqn:Ez;
      simpl in Hz2; rewrite ?getitem_setitem_eq, ?Ez in Hz2;
      try discriminate; try (symmetry; exact Hz2).
  - rewrite E2 in Hq; discriminate.
Qed.

Lemma append_zero_store params s r s' :
  append_zero params s = (r, s') ->
  forall p c, nth_error s p = Some c ->
    (getitem "z_pk" params = Some (VList p) -> existsb is_zero c = true) ->
    nth_error s' p = Some c.
Proof.
  unfold append_zero; intros H p c Hp Hz.
  destruct (getitem "z_pk" params) as [[x|q|a]|] eqn:E;
    try (inversion H; subst; exact Hp).
  - unfold bind, deref in H. destruct (nth_error s q) as [l|] eqn:El;
      [|inversion H; subst; exact Hp].
    destruct (existsb is_zero l) eqn:Zl; [inversion H; subst; exact Hp|].
    unfold append in H; rewrite El in H; simpl in H. inversion H; subst.
    rewrite nth_error_store_set_neq; [exact Hp|].
    intros ->. rewrite Hp in El; inversion El; subst.
    rewrite (Hz eq_refl) in Zl; discriminate.
  - destruct (existsb is_zero a); inversion H; subst; exact Hp.
Qed.

(** The only list object that [stage_z_pk] can change is the one held
    under [z_pk], and only when it lacks 0. *)
Lemma stage_z_pk_store dz params s r s' :
  stage_z_pk dz params s = (r, s') ->
  forall p c, nth_error s p = Some c ->
    (getitem "z_pk" params = Some (VList p) -> existsb is_zero c = true) ->
    nth_error s' p = Some c.
Proof.
  unfold stage_z_pk; intros H p c Hp Hz.
  apply bind_inv in H as [(e & H & _)|(p1 & s1 & H1 & H)].
  - destruct (allocates_stage_defaults _ _ _ _ _ H) as [t ->].
    apply nth_error_ext; exact Hp.
  - destruct (allocates_stage_defaults _ _ _ _ _ H1) as [t ->].
    eapply append_zero_store; [exact H | apply nth_error_ext; exact Hp |].
    intros Hq. destruct (stage_defaults_z _ _ _ _ _ H1 _ Hq) as [Hq'|Hlen]; [auto|].
    exfalso. assert (p < List.length s)%nat by (apply nth_error_Some; congruence). lia.
Qed.

(** A name that the stages before the accounting neither read as an alias
    nor write. *)
Ltac not_early :=
  unfold later_names, alias_names; simpl;
  intuition discriminate.

(** [compile_params] changes no list object of the store it starts from,
    except that it appends 0 to the list held under [z_pk] when that list
    lacks it. *)
Lemma compile_params_store K quad dz fuel args s r s' :
  compile_params K quad dz fuel args s = (r, s') ->
  forall p c, nth_error s p = Some c ->
    (getitem "z_pk" args = Some (VList p) -> existsb is_zero c = true) ->
    nth_error s' p = Some c.
Proof.
  unfold compile_params; intros H p c Hp Hz.
  apply bind_inv in H as [(e & H & _)|([[m T] p1] & s1 & H1 & H)].
  { destruct (allocates_stage_neutrinos _ _ _ _ _ _ _ H) as [t ->].
    apply nth_error_ext; exact Hp. }
  destruct (allocates_stage_neutrinos _ _ _ _ _ _ _ H1) as [t1 ->].
  apply bind_inv in H as [(e & H & _)|(p2 & s2 & H2 & H)].
  { destruct (allocates_stage_N_ur _ _ _ _ _ _ _ H) as [t ->].
    rewrite <- app_assoc; apply nth_error_ext; exact Hp. }
  destruct (allocates_stage_N_ur _ _ _ _ _ _ _ H2) as [t2 ->].
  assert (Hz2 : getitem "z_pk" p2 = getitem "z_pk" args).
  { rewrite (stage_N_ur_keys _ _ _ _ _ _ _ H2) by (simpl; intuition discriminate).
    apply (stage_neutrinos_keys _ _ _ _ _ _ _ _ _ H1); [reflexivity | not_early]. }
  assert (Hp2 : nth_error ((s ++ t1) ++ t2) p = Some c)
    by (rewrite <- app_assoc; apply nth_error_ext; exact Hp).
  apply bind_inv in H as [(e & H & _)|(p3 & s3 & H3 & H)].
  { eapply stage_z_pk_store; eauto. rewrite Hz2; exact Hz. }
  apply pure_stage_Omega_m in H; subst s'.
  eapply stage_z_pk_store; eauto. rewrite Hz2; exact Hz.
Qed.

(** A successful run of [compile_params], stage by stage. *)
Lemma compile_params_inv K quad dz fuel args s out s' :
  compile_params K quad dz fuel args s = (Ok out, s') ->
  exists m T p1 s1 p2 s2 p3,
    stage_neutrinos K quad fuel args s = (Ok (m, T, p1), s1) /\
    stage_N_ur K m T p1 s1 = (Ok p2, s2) /\
    stage_z_pk dz p2 s2 = (Ok p3, s') /\
    stage_Omega_m K quad p3 s' = (Ok out, s').
Proof.
  unfold compile_params; intros H.
  apply bind_ok in H as ([[m T] p1] & s1 & H1 & H).
  apply bind_ok in H as (p2 & s2 & H2 & H).
  apply bind_ok in H as (p3 & s3 & H3 & H).
  assert (s' = s3) by (eapply pure_stage_Omega_m; eauto); subst s3.
  exists m, T, p1, s1, p2, s2, p3; auto.
Qed.

(** ** Evaluation on concrete inputs *)

Ltac py_cbn :=
  cbn -[Rltb Reqb nu_factor IZR Rdiv Rplus Rmult Ropp Rminus Rinv pow sqrt exp
        Rabs Rpower PI m_massive deltam21sq deltam31sq_normal deltam31sq_inverted
        split_hierarchy].

Ltac py_unfold :=
  unfold compile_params, stage_neutrinos, stage_H0, stage_A_s, stage_Omega_g,
    stage_ncdm, stage_lists, stage_hierarchy, stage_N_ur, derive_N_ur,
    stage_z_pk, stage_defaults, append_zero, wrap_scalar, stage_Omega_m,
    store_local, make_list, broadcast, to_array, as_num, div100,
    get_default_z_callable, bind, ret, raise, lift, alloc, deref, append.

(** Settles the comparisons of reals that block the evaluation. *)
Ltac py_decide tac :=
  repeat match goal with
  | |- context [Rltb ?a ?b] =>
      first [ rewrite (Rltb_true a b) by tac | rewrite (Rltb_false a b) by tac ]
  | |- context [Reqb ?a ?b] =>
      first [ rewrite (Reqb_true a b) by tac | rewrite (Reqb_false a b) by tac ]
  end.

Ltac py_eval tac := repeat (progress (py_unfold; py_cbn; py_decide tac)).

(** ** C9: the list of output redshifts *)

Lemma is_zero_In l : existsb is_zero l = true <-> In (SNum (Fin 0)) l.
Proof.
  rewrite existsb_exists; split.
  - intros [x [HIn Hx]]. destruct x as [|[y| | |]|]; simpl in Hx; try discriminate.
    apply Reqb_eq in Hx; subst; exact HIn.
  - intros HIn; exists (SNum (Fin 0)); split; [exact HIn|].
    simpl; apply Reqb_true; reflexivity.
Qed.

Lemma append_zero_has_zero params s out s' :
  append_zero params s = (Ok out, s') ->
  (exists p l, getitem "z_pk" out = Some (VList p) /\
               nth_error s' p = Some l /\ In (SNum (Fin 0)) l) \/
  (exists a, getitem "z_pk" out = Some (VArr a) /\ In (SNum (Fin 0)) a).
Proof.
  unfold append_zero; intros H.
  destruct (getitem "z_pk" params) as [[x|q|a]|] eqn:E; try (minv H; fail).
  - unfold bind, deref in H. destruct (nth_error s q) as [l|] eqn:El; [|discriminate].
    left; exists q. destruct (existsb is_zero l) eqn:Zl.
    + inversion H; subst. exists l; repeat split; auto. apply is_zero_In; exact Zl.
    + unfold append in H; rewrite El in H; simpl in H. inversion H; subst.
      exists (l ++ [SNum (Fin 0)]); repeat split; auto.
      * eapply nth_error_store_set_eq; eauto.
      * apply in_or_app; right; left; reflexivity.
  - right; exists a. destruct (existsb is_zero a) eqn:Za; minv H.
    split; [exact E | apply is_zero_In; exact Za].
Qed.

Lemma compile_params_has_zero K quad dz fuel args s out s' :
  compile_params K quad dz fuel args s = (Ok out, s') ->
  (exists p l, getitem "z_pk" out = Some (VList p) /\
               nth_error s' p = Some l /\ In (SNum (Fin 0)) l) \/
  (exists a, getitem "z_pk" out = Some (VArr a) /\ In (SNum (Fin 0)) a).
Proof.
  intros H.
  destruct (compile_params_inv _ _ _ _ _ _ _ _ H)
    as (m & T & p1 & s1 & p2 & s2 & p3 & _ & _ & Hz & HO).
  rewrite (stage_Omega_m_keys _ _ _ _ _ _ HO) by (simpl; intuition discriminate).
  unfold stage_z_pk in Hz. apply bind_ok in Hz as (q & sq & _ & Hz).
  eapply append_zero_has_zero; eauto.
Qed.

(** C9.  Whenever [compile_params] succeeds, the resulting mapping has an
    entry [z_pk] and redshift 0 is among its elements, whether the entry was
    supplied (a scalar, a list object or an array) or defaulted. *)
Theorem compile_params_z_pk_has_zero
    (K : constants) (quad : (R -> R) -> R -> R -> R -> R) (dz : list scalar)
    (fuel : nat) (args : dict) (s : store) (out : dict) (s' : store) :
  compile_params K quad dz fuel args s = (Ok out, s') ->
  (exists p l, getitem "z_pk" out = Some (VList p) /\
               nth_error s' p = Some l /\ In (SNum (Fin 0)) l) \/
  (exists a, getitem "z_pk" out = Some (VArr a) /\ In (SNum (Fin 0)) a).
Proof.
  intros H.
  destruct (compile_params_inv _ _ _ _ _ _ _ _ H)
    as (m & T & p1 & s1 & p2 & s2 & p3 & _ & _ & Hz & HO).
  (* the last stage leaves [z_pk] and the store alone *)
  rewrite (stage_Omega_m_keys _ _ _ _ _ _ HO) by (simpl; intuition discriminate).
  unfold stage_z_pk in Hz. apply bind_ok in Hz as (q & sq & Hd & Hz).
  (* the stage of [z_pk] ends with the test for 0 *)
  unfold append_zero in Hz.
  destruct (getitem "z_pk" q) as [[x|l|a]|] eqn:E; try (minv Hz; fail).
  - unfold bind, deref in Hz.
    destruct (nth_error sq l) as [c|] eqn:El; [|discriminate].
    left; exists l. destruct (existsb is_zero c) eqn:Zc.
    + inversion Hz; subst. exists c; repeat split; auto. apply is_zero_In; exact Zc.
    + unfold append in Hz; rewrite El in Hz; simpl in Hz. inversion Hz; subst.
      exists (c ++ [SNum (Fin 0)]); repeat split; auto.
      * eapply nth_error_store_set_eq; eauto.
      * apply in_or_app; right; left; reflexivity.
  - right; exists a. destruct (existsb is_zero a) eqn:Za; minv Hz.
    split; [exact E | apply is_zero_In; exact Za].
Qed.

(** Two runs for C9: [z_pk] given as the scalar 1, and [z_pk] left out. *)
Lemma compile_z_pk_scalar :
  compile_params sample_constants no_quad sample_z 0
    [("h", VNum 0.7); ("z_pk", VNum 1)] []
  = (Ok [("h", VNum 0.7); ("z_pk", VList 2%nat);
         ("N_ur", V (SNum (Fin (3.044 + - (0 * nu_factor)))));
         ("m_ncdm", VList 0%nat); ("T_ncdm", VArr []); ("modes", VList 1%nat)],
     [[]; [SStr "s"]; [SNum (Fin 1); SNum (Fin 0)]]).
Proof. py_eval lra. reflexivity. Qed.

Lemma compile_z_pk_default :
  compile_params sample_constants no_quad sample_z 0 [("h", VNum 0.7)] []
  = (Ok [("h", VNum 0.7);
         ("N_ur", V (SNum (Fin (3.044 + - (0 * nu_factor)))));
         ("m_ncdm", VList 0%nat); ("T_ncdm", VArr []);
         ("z_pk", VArr sample_z); ("modes", VList 1%nat)],
     [[]; [SStr "s"]]).
Proof. py_eval lra. reflexivity. Qed.

Lemma compile_params_z_pk_has_zero_witness :
  (exists l, nth_error [[]; [SStr "s"]; [SNum (Fin 1); SNum (Fin 0)]] 2%nat = Some l /\
             In (SNum (Fin 0)) l) /\
  In (SNum (Fin 0)) sample_z.
Proof.
  split.
  - destruct (compile_params_z_pk_has_zero _ _ _ _ _ _ _ _ compile_z_pk_scalar)
      as [(p & l & Hp & Hl & HIn)|(a & Ha & _)].
    + simpl in Hp; inversion Hp; subst. exists l; auto.
    + simpl in Ha; discriminate.
  - destruct (compile_params_z_pk_has_zero _ _ _ _ _ _ _ _ compile_z_pk_default)
      as [(p & l & Hp & _)|(a & Ha & HIn)].
    + simpl in Hp; discriminate.
    + simpl in Ha; inversion Ha; subst; exact HIn.
Defined.

(** ** C5: merging an override into a base *)

Lemma getitem_keys k d v : getitem k d = Some v -> In k (keys d).
Proof.
  intros H; apply In_keys_contains; rewrite contains_getitem, H; reflexivity.
Qed.

(** The entries [h] and [H0] of a mapping without [H0] go through
    [compile_params] untouched. *)
Lemma compile_params_keeps_h K quad dz fuel args s out s' :
  getitem "H0" args = None ->
  compile_params K quad dz fuel args s = (Ok out, s') ->
  getitem "h" out = getitem "h" args /\ getitem "H0" out = None.
Proof.
  intros HH0 H.
  destruct (compile_params_inv _ _ _ _ _ _ _ _ H)
    as (m & T & p1 & s1 & p2 & s2 & p3 & Hn & HN & Hz & HO).
  destruct (stage_neutrinos_inv _ _ _ _ _ _ _ _ _ Hn) as (p0 & s0 & H0 & Hp).
  rewrite (stage_H0_absent _ _ HH0) in H0; inversion H0; subst p0 s0.
  rewrite <- HH0.
  split;
    rewrite (stage_Omega_m_keys _ _ _ _ _ _ HO) by (simpl; intuition discriminate);
    rewrite (stage_z_pk_keys _ _ _ _ _ Hz) by (simpl; intuition discriminate);
    rewrite (stage_N_ur_keys _ _ _ _ _ _ _ HN) by (simpl; intuition discriminate);
    apply Hp; solve [reflexivity | not_early].
Qed.

(** C5.  (1) A merge first removes from the base every name that is in the
    conflict group of a name of the override, then applies the override.
    (2) When the override has [h] (and not [H0]), any mapping compiled from
    the merge has the override's [h] and no [H0], whatever the base held.
    (3) The base [{H0: 70}] merged with the override [{h: 0.72}] compiles,
    to a mapping with [h = 0.72] and no [H0]. *)
Theorem merge_params_override_wins
    (K : constants) (quad : (R -> R) -> R -> R -> R -> R) (dz : list scalar)
    (fuel : nat) :
  0 <= NEFF K -> In (SNum (Fin 0)) dz ->
  (forall base over k, NoDup (keys over) ->
     getitem k (merge_params base over) =
     match getitem k over with
     | Some v => Some v
     | None => if existsb (fun n => mem k (find_conflicts n)) (keys over)
               then None else getitem k base
     end) /\
  (forall base over v s out s', NoDup (keys over) ->
     getitem "h" over = Some v -> getitem "H0" over = None ->
     compile_params K quad dz fuel (merge_params base over) s = (Ok out, s') ->
     getitem "h" out = Some v /\ getitem "H0" out = None) /\
  (exists out s',
     compile_params K quad dz fuel
       (merge_params [("H0", VNum 70)] [("h", VNum 0.72)]) [] = (Ok out, s') /\
     getitem "h" out = Some (VNum 0.72) /\ getitem "H0" out = None).
Proof.
  intros Hneff Hz. split; [|split].
  - intros base over k Hnd. apply getitem_merge_params; exact Hnd.
  - intros base over v s out s' Hnd Hh HH0 H.
    assert (E0 : getitem "H0" (merge_params base over) = None).
    { rewrite getitem_merge_params, HH0 by exact Hnd.
      assert (E : existsb (fun n => mem "H0" (find_conflicts n)) (keys over) = true).
      { apply existsb_exists; exists "h"; split;
          [eapply getitem_keys; eauto | reflexivity]. }
      rewrite E; reflexivity. }
    destruct (compile_params_keeps_h _ _ _ _ _ _ _ _ E0 H) as [E1 E2].
    rewrite E1, getitem_merge_params, Hh by exact Hnd. auto.
  - apply is_zero_In in Hz.
    eexists; eexists; split.
    + py_eval lra. rewrite Hz. py_eval lra. reflexivity.
    + split; reflexivity.
Qed.

Lemma merge_params_override_wins_witness :
  exists out s',
    compile_params sample_constants no_quad sample_z 0
      (merge_params [("H0", VNum 70)] [("h", VNum 0.72)]) [] = (Ok out, s') /\
    getitem "h" out = Some (VNum 0.72) /\ getitem "H0" out = None.
Proof.
  apply (merge_params_override_wins sample_constants no_quad sample_z 0).
  - simpl; lra.
  - simpl; auto.
Defined.

(** ** Where an entry [Omega_ur] can come from *)

Lemma replace_step ch r :
  replace_from "omega" "Omega" 0 (String ch r) =
  if startswith "omega" (String ch r)
  then String.append "Omega" (replace_from "omega" "Omega" 4 r)
  else String ch (replace_from "omega" "Omega" 0 r).
Proof. reflexivity. Qed.

(** Only the name [omega_ur] is renamed to [Omega_ur]. *)
Lemma replace_is_Omega_ur name :
  startswith "omega" name = true ->
  replace "omega" "Omega" name = "Omega_ur" -> name = "omega_ur".
Proof.
  intros H E.
  destruct name as [|a1 [|a2 [|a3 [|a4 [|a5 rest]]]]]; cbn [startswith] in H;
    repeat (apply andb_true_iff in H as [?E H]);
    try discriminate;
    repeat match goal with
           | E : Ascii.eqb _ _ = true |- _ => apply Ascii.eqb_eq in E
           end.
  subst. unfold replace in E.
  change (replace_from "omega" "Omega" 0
            (String "o" (String "m" (String "e" (String "g" (String "a" rest))))))
    with (String.append "Omega" (replace_from "omega" "Omega" 0 rest)) in E.
  cbn [String.append] in E. inversion E as [E1]. clear E.
  destruct rest as [|c1 r1]; [discriminate|].
  rewrite replace_step in E1.
  destruct (startswith "omega" (String c1 r1)); [discriminate|].
  inversion E1 as [[Ec E2]]; clear E1. subst c1.
  destruct r1 as [|c2 r2]; [discriminate|].
  rewrite replace_step in E2.
  destruct (startswith "omega" (String c2 r2)); [discriminate|].
  inversion E2 as [[Ec E3]]; clear E2. subst c2.
  destruct r2 as [|c3 r3]; [discriminate|].
  rewrite replace_step in E3.
  destruct (startswith "omega" (String c3 r3)); [discriminate|].
  inversion E3 as [[Ec E4]]; clear E3. subst c3.
  destruct r3 as [|c4 r4]; [reflexivity|].
  rewrite replace_step in E4.
  destruct (startswith "omega" (String c4 r4)); discriminate.
Qed.

Lemma omega_loop_no_Omega_ur h items params s out s' :
  omega_loop h items params s = (Ok out, s') ->
  getitem "Omega_ur" params = None -> ~ In "omega_ur" (keys items) ->
  getitem "Omega_ur" out = None.
Proof.
  revert params s; induction items as [|[name v] items IH];
    intros params s H Hp Hn; simpl in H.
  - minv H; exact Hp.
  - assert (Hn' : ~ In "omega_ur" (keys items)) by (intros HIn; apply Hn; right; exact HIn).
    destruct (startswith "omega" name) eqn:P; [|eapply IH; eauto].
    destruct (pop name params) as [[omega params']|] eqn:Ep; [|minv H].
    minv H. apply pop_some in Ep as [_ ->].
    eapply IH; [exact H | | exact Hn'].
    rewrite getitem_setitem.
    destruct (String.eqb_spec (replace "omega" "Omega" name) "Omega_ur") as [E|_].
    + exfalso; apply Hn; left; simpl. apply replace_is_Omega_ur; assumption.
    + rewrite getitem_delitem. destruct (String.eqb name "Omega_ur"); auto.
Qed.

Lemma set_aliases_no_Omega_ur args l params s out s' :
  set_aliases args l params s = (Ok out, s') ->
  getitem "Omega_ur" params = None -> contains "Omega0_ur" args = false ->
  (forall pn an, In (pn, an) l -> pn = "Omega_ur" -> an = "Omega0_ur") ->
  getitem "Omega_ur" out = None.
Proof.
  revert params s; induction l as [|[pn an] l IH]; intros params s H Hp Ha Hl; simpl in H.
  - minv H; exact Hp.
  - apply bind_ok in H as (p1 & s1 & H1 & H).
    eapply IH; [exact H | | exact Ha | intros; eapply Hl; [right|]; eauto].
    unfold set_alias in H1.
    destruct (contains an args) eqn:Ec; [|minv H1; exact Hp].
    destruct (pop an params) as [[v p]|] eqn:Ep; [|minv H1].
    minv H1. apply pop_some in Ep as [_ ->].
    rewrite getitem_setitem.
    destruct (String.eqb_spec pn "Omega_ur") as [E|_].
    + rewrite (Hl pn an (or_introl eq_refl) E) in Ec. congruence.
    + rewrite getitem_delitem. destruct (String.eqb an "Omega_ur"); auto.
Qed.

(** No entry [Omega_ur] reaches the accounting unless the input has one of
    [Omega_ur], [omega_ur], [Omega0_ur]. *)
Lemma stage_neutrinos_no_Omega_ur K quad fuel args s m T params s' :
  stage_neutrinos K quad fuel args s = (Ok (m, T, params), s') ->
  contains "Omega_ur" args = false ->
  contains "omega_ur" args = false ->
  contains "Omega0_ur" args = false ->
  contains "Omega_ur" params = false.
Proof.
  unfold stage_neutrinos; intros H C1 C2 C3.
  apply bind_ok in H as (p0 & s0 & H0 & H).
  destruct (getitem "h" p0) as [h|]; [|minv H].
  apply bind_ok in H as (p1 & s1 & H1 & H).
  apply bind_ok in H as (p2 & s2 & H2 & H).
  apply bind_ok in H as (p3 & s3 & H3 & H).
  apply bind_ok in H as (p4 & s4 & H4 & H).
  apply bind_ok in H as ([[m5 T5] p5] & s5 & H5 & H).
  apply bind_ok in H as ([[sg m6] T6] & s6 & H6 & H).
  rewrite contains_getitem in C1.
  assert (E0 : getitem "Omega_ur" p0 = None).
  { rewrite (stage_H0_keys _ _ _ _ H0) by (simpl; intuition discriminate).
    destruct (getitem "Omega_ur" args); [discriminate | reflexivity]. }
  assert (E1 : getitem "Omega_ur" p1 = None).
  { eapply omega_loop_no_Omega_ur; eauto.
    rewrite In_keys_contains, C2; discriminate. }
  assert (E2 : getitem "Omega_ur" p2 = None).
  { eapply set_aliases_no_Omega_ur; eauto.
    intros pn an HIn E; subst pn. unfold aliases in HIn; simpl in HIn.
    repeat (destruct HIn as [HIn|HIn]; [inversion HIn; subst; try discriminate; try reflexivity|]).
    contradiction. }
  rewrite contains_getitem.
  rewrite (stage_hierarchy_keys _ _ _ _ _ _ _ _ _ _ H),
          (stage_ncdm_keys _ _ _ _ _ _ _ _ _ _ H5),
          (stage_Omega_g_keys _ _ _ _ _ _ H4),
          (stage_A_s_keys _ _ _ _ H3), E2
    by (simpl; intuition discriminate).
  reflexivity.
Qed.

(** ** C3, C4: the accounting of relativistic species *)

Lemma mapM_mask l s mask s' :
  mapM (fun m => a <- as_num m ;; ret (fgt a (Fin m_massive))) l s = (Ok mask, s') ->
  mask = map heavy l.
Proof.
  revert s mask s'; induction l as [|x l IH]; intros s mask s' H; cbn [mapM] in H.
  - minv H; reflexivity.
  - apply bind_ok in H as (b & s1 & H1 & H).
    apply bind_ok in H as (bs & s2 & H2 & H).
    apply IH in H2; subst bs.
    destruct x as [|a|]; cbv [bind as_num ret raise] in H1; inversion H1; subst.
    minv H. reflexivity.
Qed.

Lemma mapM_pow4 l s r s' :
  mapM (fun T => a <- as_num T ;; ret (fpow a 4)) l s = (Ok r, s') ->
  exists temps, l = map SNum temps /\ r = map (fun t => fpow t 4) temps.
Proof.
  revert s r s'; induction l as [|x l IH]; intros s r s' H; cbn [mapM] in H.
  - minv H; exists []; auto.
  - apply bind_ok in H as (b & s1 & H1 & H).
    apply bind_ok in H as (bs & s2 & H2 & H).
    apply IH in H2 as (temps & -> & ->).
    destruct x as [|a|]; cbv [bind as_num ret raise] in H1; inversion H1; subst.
    minv H. exists (a :: temps); auto.
Qed.

Lemma masked_filter (m : list scalar) :
  masked m (map heavy m) = filter heavy m.
Proof.
  unfold masked; induction m as [|x m IH]; simpl; [reflexivity|].
  destruct (heavy x); simpl; rewrite IH; reflexivity.
Qed.

Lemma masked_species (m T : list scalar) :
  masked T (map heavy m) = map snd (massive_species m T).
Proof.
  unfold masked, massive_species; revert T; induction m as [|x m IH]; intros [|t T];
    simpl; try reflexivity.
  destruct (heavy x); simpl; rewrite IH; reflexivity.
Qed.

(** What [derive_N_ur] returns when it returns. *)
Lemma derive_N_ur_spec K m T params s N m' T' params' s' :
  derive_N_ur K m T params s = (Ok (N, m', T', params'), s') ->
  exists N_eff temps,
    get "N_eff" (VNum (NEFF K)) params = V (SNum N_eff) /\
    map snd (massive_species m T) = map SNum temps /\
    N = fsub N_eff (fmul (fsum (map (fun t => fpow t 4) temps)) (Fin nu_factor)) /\
    flt N (Fin 0) = false /\
    m' = filter heavy m /\ T' = T /\ params' = delitem "N_eff" params /\ s' = s.
Proof.
  intros H. assert (Hs : s' = s) by (eapply pure_derive_N_ur; eauto).
  unfold derive_N_ur in H.
  apply bind_ok in H as (m_arr & s1 & H1 & H).
  apply bind_ok in H as (T_arr & s2 & H2 & H).
  apply bind_ok in H as (mask & s3 & H3 & H).
  apply bind_ok in H as (T4 & s4 & H4 & H).
  apply bind_ok in H as (N_ur & s5 & H5 & H).
  unfold to_array in H1, H2. minv H1. minv H2.
  apply mapM_mask in H3; subst mask.
  apply mapM_pow4 in H4 as (temps & Ht & ->).
  rewrite masked_species in Ht.
  destruct (flt N_ur (Fin 0)) eqn:Hneg; minv H.
  destruct (get "N_eff" (VNum (NEFF K)) params) as [x| |] eqn:EN;
    try (minv H5; fail).
  destruct x as [|a|]; cbv [bind as_num ret raise] in H5; inversion H5; subst.
  exists a, temps. rewrite masked_filter. repeat split; auto.
Qed.

Lemma get_early K quad fuel args s m T p1 s1 k default :
  stage_neutrinos K quad fuel args s = (Ok (m, T, p1), s1) ->
  omega_key k = false -> ~ In k ("H0" :: "h" :: later_names) ->
  get k default p1 = get k default args.
Proof.
  intros H Hk1 Hk2; unfold get.
  rewrite (stage_neutrinos_keys _ _ _ _ _ _ _ _ _ H k Hk1 Hk2); reflexivity.
Qed.

(** The accounting stage when [N_ur] is to be derived. *)
Lemma stage_N_ur_derived K m T p1 s1 p2 s2 :
  get "N_ur" VNone p1 = VNone ->
  stage_N_ur K m T p1 s1 = (Ok p2, s2) ->
  exists N_eff temps,
    get "N_eff" (VNum (NEFF K)) p1 = V (SNum N_eff) /\
    map snd (massive_species m T) = map SNum temps /\
    getitem "N_ur" p2 =
      Some (V (SNum (fsub N_eff (fmul (fsum (map (fun t => fpow t 4) temps))
                                      (Fin nu_factor))))) /\
    flt (fsub N_eff (fmul (fsum (map (fun t => fpow t 4) temps)) (Fin nu_factor)))
        (Fin 0) = false /\
    getitem "m_ncdm" p2 = Some (VList (List.length s1)) /\
    s2 = s1 ++ [filter heavy m].
Proof.
  intros HN H. unfold stage_N_ur in H. rewrite HN in H.
  destruct (contains "Omega_ur" p1); [minv H|].
  apply bind_ok in H as ([[[N m'] T'] p] & s3 & H1 & H).
  apply bind_ok in H1 as ([[[N0 m0] T0] p0] & s4 & Hd & H1).
  apply derive_N_ur_spec in Hd
    as (N_eff & temps & HNe & Ht & -> & Hpos & -> & -> & -> & ->).
  minv H1. cbn [store_local] in H.
  apply bind_ok in H as (v & s5 & Hv & H).
  apply bind_ok in Hv as (q & s6 & Hq & Hv). minv Hv.
  unfold alloc in Hq; inversion Hq; subst. minv H.
  match goal with
  | Hr : ret _ _ = (Ok _, _) |- _ => apply ret_ok in Hr as [? ?]; subst
  end.
  exists N_eff, temps. repeat split; auto.
  - rewrite getitem_setitem_neq, getitem_setitem_neq, getitem_setitem_eq
      by discriminate. reflexivity.
  - rewrite getitem_setitem_neq, getitem_setitem_eq by discriminate. reflexivity.
Qed.

(** The accounting as seen on the result of a whole compilation. *)
Lemma compile_params_accounting K quad dz fuel args s out s' :
  wf_store args s ->
  get "N_ur" VNone args = VNone ->
  compile_params K quad dz fuel args s = (Ok out, s') ->
  exists m T p1 s1 N_eff temps,
    stage_neutrinos K quad fuel args s = (Ok (m, T, p1), s1) /\
    get "N_eff" (VNum (NEFF K)) args = V (SNum N_eff) /\
    map snd (massive_species m T) = map SNum temps /\
    getitem "N_ur" out =
      Some (V (SNum (fsub N_eff (fmul (fsum (map (fun t => fpow t 4) temps))
                                      (Fin nu_factor))))) /\
    flt (fsub N_eff (fmul (fsum (map (fun t => fpow t 4) temps)) (Fin nu_factor)))
        (Fin 0) = false /\
    exists p, getitem "m_ncdm" out = Some (VList p) /\
              nth_error s' p = Some (filter heavy m).
Proof.
  intros Hwf HN H.
  destruct (compile_params_inv _ _ _ _ _ _ _ _ H)
    as (m & T & p1 & s1 & p2 & s2 & p3 & Hn & Hs & Hz & HO).
  assert (HN1 : get "N_ur" VNone p1 = VNone).
  { rewrite (get_early _ _ _ _ _ _ _ _ _ "N_ur" VNone Hn); [exact HN | reflexivity | not_early]. }
  destruct (stage_N_ur_derived _ _ _ _ _ _ _ HN1 Hs)
    as (N_eff & temps & HNe & Ht & HNur & Hpos & Hm & ->).
  rewrite (get_early _ _ _ _ _ _ _ _ _ "N_eff" _ Hn) in HNe; [| reflexivity | not_early].
  exists m, T, p1, s1, N_eff, temps. repeat split; auto.
  - rewrite (stage_Omega_m_keys _ _ _ _ _ _ HO) by (simpl; intuition discriminate).
    rewrite (stage_z_pk_keys _ _ _ _ _ Hz) by (simpl; intuition discriminate).
    exact HNur.
  - exists (List.length s1); split.
    + rewrite (stage_Omega_m_keys _ _ _ _ _ _ HO) by (simpl; intuition discriminate).
      rewrite (stage_z_pk_keys _ _ _ _ _ Hz) by (simpl; intuition discriminate).
      exact Hm.
    + eapply stage_z_pk_store; [exact Hz | |].
      * rewrite nth_error_app2, Nat.sub_diag by lia. reflexivity.
      * intros Hq. exfalso.
        rewrite (stage_N_ur_keys _ _ _ _ _ _ _ Hs) in Hq by (simpl; intuition discriminate).
        rewrite (stage_neutrinos_keys _ _ _ _ _ _ _ _ _ Hn) in Hq;
          [| reflexivity | not_early].
        apply Hwf in Hq.
        destruct (allocates_stage_neutrinos _ _ _ _ _ _ _ Hn) as [t ->].
        rewrite length_app in Hq; lia.
Qed.

Lemma mapM_mask_num masses s :
  mapM (fun m => a <- as_num m ;; ret (fgt a (Fin m_massive))) (map SNum masses) s
  = (Ok (map heavy (map SNum masses)), s).
Proof.
  induction masses as [|a l IH]; cbn [mapM map]; [reflexivity|].
  erewrite bind_eq by reflexivity. erewrite bind_eq by exact IH. reflexivity.
Qed.

Lemma mapM_pow4_num temps s :
  mapM (fun T => a <- as_num T ;; ret (fpow a 4)) (map SNum temps) s
  = (Ok (map (fun t => fpow t 4) temps), s).
Proof.
  induction temps as [|a l IH]; cbn [mapM map]; [reflexivity|].
  erewrite bind_eq by reflexivity. erewrite bind_eq by exact IH. reflexivity.
Qed.

Lemma no_str_numbers masses : existsb is_str (map SNum masses) = false.
Proof. induction masses; simpl; auto. Qed.

(** The accounting refuses a negative number of relativistic species. *)
Lemma compile_params_negative K quad dz fuel args s masses T p1 s1 N_eff temps :
  stage_neutrinos K quad fuel args s = (Ok (map SNum masses, T, p1), s1) ->
  contains "Omega_ur" args = false ->
  contains "omega_ur" args = false ->
  contains "Omega0_ur" args = false ->
  get "N_ur" VNone args = VNone ->
  get "N_eff" (VNum (NEFF K)) args = V (SNum N_eff) ->
  existsb is_str T = false ->
  map snd (massive_species (map SNum masses) T) = map SNum temps ->
  flt (fsub N_eff (fmul (fsum (map (fun t => fpow t 4) temps)) (Fin nu_factor)))
      (Fin 0) = true ->
  compile_params K quad dz fuel args s = (Raise (ValueError NegativeNur), s1).
Proof.
  intros Hn C1 C2 C3 HN HNe HT Ht Hneg.
  pose proof (stage_neutrinos_no_Omega_ur _ _ _ _ _ _ _ _ _ Hn C1 C2 C3) as HO.
  unfold compile_params. rewrite (bind_eq _ _ _ _ _ Hn). cbv beta iota.
  apply bind_raise. unfold stage_N_ur. rewrite HO.
  rewrite (get_early _ _ _ _ _ _ _ _ _ "N_ur" VNone Hn), HN; [| reflexivity | not_early].
  cbv beta iota. apply bind_raise, bind_raise.
  unfold derive_N_ur, to_array.
  rewrite (get_early _ _ _ _ _ _ _ _ _ "N_eff" _ Hn), HNe; [| reflexivity | not_early].
  rewrite no_str_numbers, HT.
  erewrite bind_eq by reflexivity. erewrite bind_eq by reflexivity.
  erewrite bind_eq by apply mapM_mask_num.
  rewrite masked_species, Ht.
  erewrite bind_eq by apply mapM_pow4_num.
  erewrite bind_eq by reflexivity.
  rewrite Hneg. reflexivity.
Qed.

(** *** The constant [(4/11)^(-4/3)] *)

Lemma nu_factor_pos : 0 < nu_factor.
Proof. unfold nu_factor, Rpower; apply exp_pos. Qed.

Lemma nu_factor_eq : nu_factor = Rpower (11 / 4) (4 / 3).
Proof.
  unfold nu_factor, Rpower. f_equal.
  replace (4 / 11) with (/ (11 / 4)) by (field; lra).
  rewrite ln_Rinv by lra. lra.
Qed.

Lemma nu_factor_le : nu_factor <= 4.
Proof.
  rewrite nu_factor_eq.
  replace (4 / 3) with (INR 4 * (1 / 3)) by (simpl; lra).
  rewrite <- Rpower_mult, Rpower_pow by lra.
  replace 4 with (Rpower (Rpower 4 (INR 3)) (1 / 3)) at 2.
  - rewrite Rpower_pow by lra. apply Rle_Rpower_l; lra.
  - rewrite Rpower_mult. replace (INR 3 * (1 / 3)) with 1 by (simpl; lra).
    apply Rpower_1; lra.
Qed.

Lemma fsum_Fin l : fsum (map Fin l) = Fin (sum_R l).
Proof.
  unfold fsum, sum_R. generalize 0 as acc.
  induction l as [|x l IH]; intros acc; simpl; [reflexivity | apply IH].
Qed.

(** *** One massive species of 0.06 eV *)

(** The run of C1 for any constants: [N_eff = 3.044], one species of mass
    0.06 eV, no [T_ncdm], no [N_ur]. *)
Lemma compile_one_species K quad dz fuel h :
  TNCDM K ^ 4 * nu_factor <= 3.044 -> In (SNum (Fin 0)) dz ->
  compile_params K quad dz fuel
    [("h", VNum h); ("m_ncdm", VNum 0.06); ("N_eff", VNum 3.044)] []
  = (Ok [("h", VNum h);
         ("N_ur", VNum (3.044 - TNCDM K ^ 4 * nu_factor));
         ("m_ncdm", VList 0%nat);
         ("T_ncdm", VArr [SNum (Fin (TNCDM K))]);
         ("z_pk", VArr dz); ("modes", VList 1%nat)],
     [[SNum (Fin 0.06)]; [SStr "s"]]).
Proof.
  intros HT Hz. apply is_zero_In in Hz.
  py_eval ltac:(unfold m_massive; lra). rewrite Hz.
  py_eval ltac:(unfold m_massive; lra).
  replace (3.044 + - ((0 + TNCDM K ^ 4) * nu_factor))
    with (3.044 - TNCDM K ^ 4 * nu_factor) by ring.
  reflexivity.
Qed.

Lemma sample_temperature_fits : TNCDM sample_constants ^ 4 * nu_factor <= 3.044.
Proof.
  simpl TNCDM.
  apply Rle_trans with (0.3 * 4); [|lra].
  apply Rmult_le_compat; [lra | left; apply nu_factor_pos | lra | apply nu_factor_le].
Qed.

Lemma wf_store_no_lists (d : dict) (s : store) :
  (forall k p, getitem k d <> Some (VList p)) -> wf_store d s.
Proof. intros H k p E; exfalso; exact (H k p E). Qed.

Lemma wf_args_one_species : wf_store args_one_species [].
Proof.
  intros k p E; unfold args_one_species in E; simpl in E.
  repeat match type of E with
         | (if ?b then _ else _) = _ => destruct b; [discriminate|]
         end.
  discriminate.
Qed.

(** C1 (as amended).  With [N_eff = 3.044], one species of mass 0.06 eV, the
    default temperature ratio and no [N_ur] or [Omega_ur], compilation gives
    [N_ur = 3.044 - T_ncdm^4 (4/11)^(-4/3)]: the species is above the
    threshold of 0.00017 eV, so it stays in the list of massive species and
    its term is subtracted; [N_ur] is below 3.044 for every non-zero
    temperature ratio. *)
Theorem N_ur_one_massive_species
    (K : constants) (quad : (R -> R) -> R -> R -> R -> R) (dz : list scalar)
    (fuel : nat) (h : R) :
  TNCDM K ^ 4 * nu_factor <= 3.044 -> In (SNum (Fin 0)) dz ->
  exists out s',
    compile_params K quad dz fuel
      [("h", VNum h); ("m_ncdm", VNum 0.06); ("N_eff", VNum 3.044)] []
      = (Ok out, s') /\
    heavy (SNum (Fin 0.06)) = true /\
    getitem "N_ur" out = Some (VNum (3.044 - TNCDM K ^ 4 * nu_factor)) /\
    (exists p, getitem "m_ncdm" out = Some (VList p) /\
               nth_error s' p = Some [SNum (Fin 0.06)]) /\
    (TNCDM K <> 0 -> 3.044 - TNCDM K ^ 4 * nu_factor < 3.044).
Proof.
  intros HT Hz. eexists; eexists; split; [apply compile_one_species; assumption|].
  split; [|split; [|split]].
  - simpl. apply Rltb_true. unfold m_massive; lra.
  - reflexivity.
  - exists 0%nat; split; reflexivity.
  - intros Hne.
    assert (0 < TNCDM K ^ 4).
    { assert (0 < TNCDM K ^ 2)
        by (destruct (Rtotal_order (TNCDM K) 0) as [?|[?|?]]; [nra | contradiction | nra]).
      replace (TNCDM K ^ 4) with (TNCDM K ^ 2 * TNCDM K ^ 2) by ring.
      apply Rmult_lt_0_compat; assumption. }
    pose proof nu_factor_pos.
    assert (0 < TNCDM K ^ 4 * nu_factor) by (apply Rmult_lt_0_compat; assumption).
    lra.
Qed.

Lemma N_ur_one_massive_species_witness :
  exists out s',
    compile_params sample_constants no_quad sample_z 0 args_one_species []
      = (Ok out, s') /\
    getitem "N_ur" out = Some (VNum (3.044 - 0.71611 ^ 4 * nu_factor)).
Proof.
  destruct (N_ur_one_massive_species sample_constants no_quad sample_z 0 0.7)
    as (out & s' & H & _ & HN & _).
  - exact sample_temperature_fits.
  - simpl; auto.
  - exists out, s'; split; [exact H | exact HN].
Defined.

(** C1 as stated fails: the derived [N_ur] is not 3.044, the term of the
    0.06 eV species is subtracted. *)
Lemma N_ur_one_massive_species_below_N_eff :
  exists out s' x,
    compile_params sample_constants no_quad sample_z 0 args_one_species []
      = (Ok out, s') /\
    getitem "N_ur" out = Some (VNum x) /\ x < 3.044.
Proof.
  eexists; eexists; eexists; split; [|split].
  - apply compile_one_species; [exact sample_temperature_fits | simpl; auto].
  - reflexivity.
  - simpl TNCDM. pose proof nu_factor_pos.
    assert (0 < 0.71611 ^ 4 * nu_factor) by (apply Rmult_lt_0_compat; lra).
    lra.
Qed.



Lemma nu_factor_ge : 1 <= nu_factor.
Proof.
  rewrite nu_factor_eq. rewrite <- (Rpower_O (11 / 4)) by lra.
  apply Rle_Rpower; lra.
Qed.

(** A run that the accounting refuses: one species of 0.06 eV cannot
    coexist with [N_eff = 0.2]. *)
Lemma negative_N_ur_is_refused :
  compile_params sample_constants no_quad sample_z 0
    [("h", VNum 0.7); ("m_ncdm", VNum 0.06); ("N_eff", VNum 0.2)] []
  = (Raise (ValueError NegativeNur), []).
Proof.
  pose proof nu_factor_ge as Hnu.
  assert (H : 0.2 < 0.71611 ^ 4 * nu_factor) by nra.
  py_eval ltac:(unfold m_massive; lra). reflexivity.
Qed.

(** *** The sign of the masses that are listed *)

Lemma heavy_nonneg m : heavy m = true -> mass_nonneg m.
Proof.
  destruct m as [|[x| | |]|]; simpl; try discriminate; auto.
  intros H; apply Rltb_lt in H. unfold m_massive in H; lra.
Qed.

(** Where the invariant holds: when [N_ur] is derived, every mass listed
    by a successful compilation exceeds 0.00017 eV, hence is not negative. *)
Lemma listed_masses_nonneg
    (K : constants) (quad : (R -> R) -> R -> R -> R -> R) (dz : list scalar)
    (fuel : nat) (args : dict) (s : store) (out : dict) (s' : store) :
  wf_store args s ->
  get "N_ur" VNone args = VNone ->
  compile_params K quad dz fuel args s = (Ok out, s') ->
  exists p l, getitem "m_ncdm" out = Some (VList p) /\
              nth_error s' p = Some l /\
              Forall (fun m => heavy m = true /\ mass_nonneg m) l.
Proof.
  intros Hwf HN H.
  destruct (compile_params_accounting _ _ _ _ _ _ _ _ Hwf HN H)
    as (m & T & p1 & s1 & N_eff & temps & _ & _ & _ & _ & _ & p & Hp & Hl).
  exists p, (filter heavy m); repeat split; auto.
  apply Forall_forall; intros x Hx. apply filter_In in Hx as [_ Hx].
  split; [exact Hx | apply heavy_nonneg; exact Hx].
Qed.

Lemma listed_masses_nonneg_one_species :
  exists l, Forall (fun m => heavy m = true /\ mass_nonneg m) l /\
            nth_error [[SNum (Fin 0.06)]; [SStr "s"]] 0%nat = Some l.
Proof.
  pose proof (compile_one_species sample_constants no_quad sample_z 0 0.7
                sample_temperature_fits (or_introl eq_refl)) as Hrun.
  destruct (listed_masses_nonneg sample_constants no_quad sample_z 0
              args_one_species [] _ _ wf_args_one_species eq_refl Hrun)
    as (p & l & Hp & Hl & Hall).
  simpl in Hp; inversion Hp; subst p.
  exists l; split; [exact Hall | exact Hl].
Defined.

(** With [N_ur] supplied the masses are listed as they were given, whatever
    their sign: nothing checks it outside the hierarchy branch. *)
Lemma negative_mass_is_listed :
  exists out s' p,
    compile_params sample_constants no_quad sample_z 0 args_negative_mass []
      = (Ok out, s') /\
    getitem "m_ncdm" out = Some (VList p) /\
    nth_error s' p = Some [SNum (Fin (-1))] /\
    ~ mass_nonneg (SNum (Fin (-1))).
Proof.
  eexists; eexists; eexists; split; [|split; [|split]].
  - unfold args_negative_mass. py_eval lra. reflexivity.
  - reflexivity.
  - reflexivity.
  - simpl; lra.
Qed.

(** ** C2, C7: the inverted hierarchy below the sum of the two heavy masses *)

Lemma sqrt_between x lo hi :
  0 <= lo -> lo * lo < x -> x < hi * hi -> 0 < hi -> lo < sqrt x < hi.
Proof.
  intros Hlo H1 H2 Hhi.
  assert (Hx : 0 <= x) by nra.
  pose proof (sqrt_pos x) as Hp. pose proof (sqrt_sqrt x Hx) as Hs.
  split.
  - destruct (Rlt_le_dec lo (sqrt x)) as [|Hle]; [assumption|]. exfalso. nra.
  - destruct (Rlt_le_dec (sqrt x) hi) as [|Hle]; [assumption|]. exfalso. nra.
Qed.

(** One turn of the loop on finite masses with non-zero divisors. *)
Lemma newton_step_fin M a b c0 d21 d31 S :
  b <> 0 -> c0 <> 0 -> 1 + a / b + a / c0 <> 0 ->
  newton_step (Fin M) (Fin a, Fin b, Fin c0) d21 d31 (Fin S) =
  let a' := a + (M + - S) / (1 + a / b + a / c0) in
  (Fin a', fsqrt (Fin (a' ^ 2 + d21)), fsqrt (Fin (a' ^ 2 + d31))).
Proof.
  intros Hb Hc HD. unfold newton_step. cbn -[Rltb Reqb pow].
  rewrite (Reqb_false b 0 Hb), (Reqb_false c0 0 Hc). cbn -[Rltb Reqb pow].
  rewrite (Reqb_false _ 0 HD). reflexivity.
Qed.

Lemma inverted_m1_bounds : 0.049 < inverted_m1 < 0.0495.
Proof.
  unfold inverted_m1, deltam31sq_inverted. apply sqrt_between; lra.
Qed.

Lemma inverted_m2_bounds : 0.05 < inverted_m2 < 0.0501.
Proof.
  unfold inverted_m2, deltam31sq_inverted, deltam21sq. apply sqrt_between; lra.
Qed.

Lemma inverted_dsdm1_bound : 4900 < inverted_dsdm1.
Proof.
  unfold inverted_dsdm1.
  pose proof inverted_m1_bounds as [H1 H1']. pose proof inverted_m2_bounds as [H2 H2'].
  assert (0 < inverted_m1 / inverted_m2) by (apply Rdiv_lt_0_compat; lra).
  assert (inverted_m1 / 1e-5 = inverted_m1 * 100000) by (field).
  lra.
Qed.

(** For a summed mass between 0.0703 and 0.099 eV the first iterate falls
    just below [sqrt(-deltam31sq)]. *)
Lemma inverted_iterate_bounds M :
  0.0703 <= M <= 0.099 ->
  0.048 < inverted_iterate M < inverted_m1.
Proof.
  intros [HM1 HM2]. unfold inverted_iterate.
  pose proof inverted_m1_bounds as [H1 H1']. pose proof inverted_m2_bounds as [H2 H2'].
  pose proof inverted_dsdm1_bound as HD.
  assert (Hnum : -0.03 < M + - inverted_sum0 < 0) by (unfold inverted_sum0; lra).
  set (n := M + - inverted_sum0) in *. set (d := inverted_dsdm1) in *.
  assert (Hq : -0.001 < n / d < 0).
  { split.
    - apply Rmult_lt_reg_r with d; [lra|].
      unfold Rdiv; rewrite Rmult_assoc, Rinv_l by lra. nra.
    - apply Rmult_lt_reg_r with d; [lra|].
      unfold Rdiv; rewrite Rmult_assoc, Rinv_l by lra. lra. }
  lra.
Qed.

Lemma newton_sum_nan fuel M m d21 d31 s :
  newton_sum fuel (Fin M) m d21 d31 NaN s = (Ok m, s).
Proof. destruct fuel; reflexivity. Qed.

(** The splitter on the inverted hierarchy for a summed mass between 0.0703
    and 0.099 eV: the guard lets the sum through, the first turn of the loop
    takes the square root of a negative number, and the loop stops on the
    [nan] it gets. *)
Lemma inverted_split_nan M fuel s :
  0.0703 <= M <= 0.099 ->
  split_hierarchy (S fuel) (VStr "inverted") (Fin M) s =
  (Ok (Fin (inverted_iterate M),
       Fin (sqrt (inverted_iterate M ^ 2 + deltam21sq)),
       NaN), s).
Proof.
  intros HM.
  pose proof inverted_m1_bounds as [H1 H1']. pose proof inverted_m2_bounds as [H2 H2'].
  pose proof inverted_dsdm1_bound as HD.
  pose proof (inverted_iterate_bounds M HM) as [Hi Hi'].
  assert (Hsq : inverted_m1 * inverted_m1 = - deltam31sq_inverted)
    by (apply sqrt_sqrt; unfold deltam31sq_inverted; lra).
  unfold split_hierarchy, VStr. cbn [String.eqb Ascii.eqb Bool.eqb fpow flt].
  rewrite Rltb_false
    by (unfold deltam31sq_inverted, deltam21sq; destruct HM; nra).
  unfold solve_newton_sum. cbn [fsqrt].
  rewrite (Rltb_false (- deltam31sq_inverted) 0)
    by (unfold deltam31sq_inverted; lra).
  rewrite (Rltb_false (- deltam31sq_inverted + deltam21sq) 0)
    by (unfold deltam31sq_inverted, deltam21sq; lra).
  fold inverted_m1 inverted_m2.
  change (sum3 (Fin inverted_m1, Fin inverted_m2, Fin 1e-5))
    with (Fin inverted_sum0).
  cbn [newton_sum fgt flt fabs fsub fadd fneg].
  rewrite Rltb_true
    by (unfold inverted_sum0; rewrite Rabs_left; destruct HM; lra).
  rewrite newton_step_fin; try lra.
  2:{ fold inverted_dsdm1; lra. }
  cbv zeta. fold inverted_dsdm1. fold (inverted_iterate M).
  cbn [fsqrt].
  rewrite (Rltb_false (inverted_iterate M ^ 2 + deltam21sq) 0)
    by (unfold deltam21sq; nra).
  rewrite (Rltb_true (inverted_iterate M ^ 2 + deltam31sq_inverted) 0)
    by nra.
  change (sum3 (Fin (inverted_iterate M),
                Fin (sqrt (inverted_iterate M ^ 2 + deltam21sq)), NaN))
    with NaN.
  apply newton_sum_nan.
Qed.

(** A compilation with the inverted hierarchy and a summed mass between
    0.0703 and 0.099 eV succeeds: the [nan] mass is dropped by the
    accounting and two masses are listed. *)
Lemma compile_inverted K quad dz fuel h M :
  0.0703 <= M <= 0.099 ->
  (TNCDM K ^ 4 + TNCDM K ^ 4) * nu_factor <= NEFF K ->
  In (SNum (Fin 0)) dz ->
  compile_params K quad dz (S fuel)
    [("h", VNum h); ("m_ncdm", VNum M); ("neutrino_hierarchy", VStr "inverted")] []
  = (Ok [("h", VNum h);
         ("N_ur", VNum (NEFF K - (TNCDM K ^ 4 + TNCDM K ^ 4) * nu_factor));
         ("m_ncdm", VList 0%nat);
         ("T_ncdm", VArr [SNum (Fin (TNCDM K)); SNum (Fin (TNCDM K));
                          SNum (Fin (TNCDM K))]);
         ("z_pk", VArr dz); ("modes", VList 1%nat)],
     [[SNum (Fin (inverted_iterate M));
       SNum (Fin (sqrt (inverted_iterate M ^ 2 + deltam21sq)))];
      [SStr "s"]]).
Proof.
  intros HM HT Hz. apply is_zero_In in Hz.
  pose proof (inverted_iterate_bounds M HM) as [Hi Hi'].
  assert (Hb : 0.048 < sqrt (inverted_iterate M ^ 2 + deltam21sq) < 1).
  { pose proof inverted_m1_bounds.
    apply sqrt_between; unfold deltam21sq; try lra; nra. }
  py_eval ltac:(destruct HM; lra).
  rewrite (inverted_split_nan M fuel [] HM).
  py_eval ltac:(unfold m_massive; lra). rewrite Hz.
  py_eval ltac:(unfold m_massive; lra).
  replace (NEFF K + - ((0 + TNCDM K ^ 4 + TNCDM K ^ 4) * nu_factor))
    with (NEFF K - (TNCDM K ^ 4 + TNCDM K ^ 4) * nu_factor) by ring.
  reflexivity.
Qed.

Lemma sample_temperature_fits_twice :
  (TNCDM sample_constants ^ 4 + TNCDM sample_constants ^ 4) * nu_factor
  <= NEFF sample_constants.
Proof.
  simpl TNCDM; simpl NEFF.
  apply Rle_trans with (0.6 * 4); [|lra].
  apply Rmult_le_compat; [lra | left; apply nu_factor_pos | lra | apply nu_factor_le].
Qed.

(** The loop of the hierarchy branch raises nothing: it returns or it runs
    out of fuel. *)
Lemma newton_sum_no_error fuel M m d21 d31 S s r s' :
  newton_sum fuel M m d21 d31 S s = (r, s') ->
  (exists m', r = Ok m') \/ r = Raise Diverge.
Proof.
  revert m S; induction fuel as [|fuel IH]; intros m S H; cbn [newton_sum] in H;
    match type of H with
    | (if ?b then _ else _) _ = _ => destruct b
    end.
  - inversion H; subst; eauto.
  - inversion H; subst; eauto.
  - eapply IH; eauto.
  - inversion H; subst; eauto.
Qed.

(** C2 (the code at the input where the claim and the code part).  The guard
    of the inverted hierarchy is [M^2 >= -dm31 + dm21 - dm31 = 0.0049362], as
    the claim says; a sum of 0.0978 eV passes it and three values are
    returned; but a sum of 0.09 eV passes it as well (0.0081 >= 0.0049362):
    no error is raised, the splitter returns two masses and a [nan], and the
    whole compilation succeeds. *)
Theorem inverted_guard_accepts_0_09
    (K : constants) (quad : (R -> R) -> R -> R -> R -> R) (dz : list scalar)
    (fuel : nat) (h : R) (s : store) :
  (TNCDM K ^ 4 + TNCDM K ^ 4) * nu_factor <= NEFF K ->
  In (SNum (Fin 0)) dz ->
  (forall M, M ^ 2 < - deltam31sq_inverted + deltam21sq - deltam31sq_inverted ->
     split_hierarchy fuel (VStr "inverted") (Fin M) s
       = (Raise (ValueError InvertedTooSmall), s)) /\
  (forall M, - deltam31sq_inverted + deltam21sq - deltam31sq_inverted <= M ^ 2 ->
     forall e, split_hierarchy fuel (VStr "inverted") (Fin M) s
                 <> (Raise (ValueError e), s)) /\
  (exists a b, split_hierarchy (S fuel) (VStr "inverted") (Fin 0.0978) s
                 = (Ok (Fin a, Fin b, NaN), s)) /\
  (exists a b, split_hierarchy (S fuel) (VStr "inverted") (Fin 0.09) s
                 = (Ok (Fin a, Fin b, NaN), s)) /\
  (exists out s', compile_params K quad dz (S fuel)
                    [("h", VNum h); ("m_ncdm", VNum 0.09);
                     ("neutrino_hierarchy", VStr "inverted")] []
                  = (Ok out, s')).
Proof.
  intros HT Hz. split; [|split; [|split; [|split]]].
  - intros M HM. unfold split_hierarchy, VStr.
    cbn [String.eqb Ascii.eqb Bool.eqb fpow flt].
    rewrite Rltb_true by exact HM. reflexivity.
  - intros M HM e H. unfold split_hierarchy, VStr in H.
    cbn [String.eqb Ascii.eqb Bool.eqb fpow flt] in H.
    rewrite Rltb_false in H by exact HM.
    unfold solve_newton_sum in H.
    apply newton_sum_no_error in H as [[m' H]|H]; discriminate.
  - eexists; eexists. apply inverted_split_nan; lra.
  - eexists; eexists. apply inverted_split_nan; lra.
  - eexists; eexists. apply compile_inverted; [lra | assumption | assumption].
Qed.

Lemma inverted_guard_accepts_0_09_witness :
  exists out s',
    compile_params sample_constants no_quad sample_z 1
      [("h", VNum 0.7); ("m_ncdm", VNum 0.09);
       ("neutrino_hierarchy", VStr "inverted")] []
    = (Ok out, s').
Proof.
  apply (inverted_guard_accepts_0_09 sample_constants no_quad sample_z 0 0.7 []).
  - exact sample_temperature_fits_twice.
  - simpl; auto.
Defined.

(** C7 (the code at an input where the claim and the code part).  For the
    inverted hierarchy and the summed mass 0.0978 eV, which the guard
    accepts, the splitter returns three values whose sum is [nan]: it is not
    within 1e-10 of the summed mass. *)
Theorem inverted_0_0978_sum_is_nan (fuel : nat) (s : store) :
  flt (fpow (Fin 0.0978) 2)
      (Fin (- deltam31sq_inverted + deltam21sq - deltam31sq_inverted)) = false /\
  exists m, split_hierarchy (S fuel) (VStr "inverted") (Fin 0.0978) s = (Ok m, s) /\
            sum3 m = NaN /\ ~ within (sum3 m) (Fin 0.0978) 1e-10.
Proof.
  split.
  - simpl. apply Rltb_false. unfold deltam31sq_inverted, deltam21sq; lra.
  - eexists; split; [apply inverted_split_nan; lra|].
    split; [reflexivity | intros H; exact H].
Qed.

(** ** C10: what a clone does to the instance it is made from *)

Lemma base_is_compiled :
  Cosmology_init sample_constants no_quad sample_z 0 [("m_ncdm", VNum 0.06)] []
  = (Ok base_params, base_store).
Proof.
  pose proof sample_temperature_fits as H. simpl TNCDM in H.
  unfold Cosmology_init. py_eval ltac:(unfold m_massive; lra).
  replace (3.044 + - ((0 + 0.71611 ^ 4) * nu_factor))
    with (3.044 - 0.71611 ^ 4 * nu_factor) by ring.
  reflexivity.
Qed.

(** Every list object of the store keeps its contents through a clone,
    whether the clone succeeds or raises, unless it is the list that the
    merged mapping holds under [z_pk] and it lacks 0. *)
Lemma clone_store K quad dz fuel base over s r s' :
  NoDup (keys over) ->
  Cosmology_clone K quad dz fuel base over s = (r, s') ->
  forall p c, nth_error s p = Some c ->
    (getitem "z_pk" over = Some (VList p) -> In (SNum (Fin 0)) c) ->
    (getitem "z_pk" over = None -> getitem "z_pk" base = Some (VList p) ->
     In (SNum (Fin 0)) c) ->
    nth_error s' p = Some c.
Proof.
  intros Hnd H p c Hp H1 H2. unfold Cosmology_clone in H.
  apply bind_inv in H as [(e & H & _)|(u & s1 & Hc & H)].
  - unfold lift in H; inversion H; subst; exact Hp.
  - unfold lift in Hc; inversion Hc; subst s1.
    eapply compile_params_store; eauto.
    intros Hq. apply is_zero_In.
    rewrite getitem_merge_params in Hq by exact Hnd.
    destruct (getitem "z_pk" over) as [v|] eqn:Eo.
    + inversion Hq; subst; auto.
    + destruct (existsb _ (keys over)); [discriminate | auto].
Qed.

(** *** The clone on dictionary objects *)

Lemma nth_error_dicts_set_neq ds q x p :
  p <> q -> nth_error (dicts_set ds q x) p = nth_error ds p.
Proof.
  revert q p; induction ds as [|c ds IH]; intros [|q] [|p] Hne; simpl; auto.
  contradiction.
Qed.

Lemma nth_error_dicts_set_eq ds q x c :
  nth_error ds q = Some c -> nth_error (dicts_set ds q x) q = Some x.
Proof.
  revert q; induction ds as [|c0 ds IH]; intros [|q] H; simpl in *;
    try discriminate; auto.
Qed.

Lemma dicts_set_set ds q x y : dicts_set (dicts_set ds q x) q y = dicts_set ds q y.
Proof.
  revert q; induction ds as [|c ds IH]; intros [|q]; simpl; auto. rewrite IH; reflexivity.
Qed.

Lemma dicts_set_length ds q x : List.length (dicts_set ds q x) = List.length ds.
Proof. revert q; induction ds as [|c ds IH]; intros [|q]; simpl; auto. Qed.

(** The inner loop of [merge_params] on an object. *)
Lemma pop_group_in_place args group ds s c :
  nth_error ds args = Some c ->
  for_each (pop_if_in args) group ds s
  = (Ok tt,
     dicts_set ds args
       (fold_left (fun a eq => if contains eq a then delitem eq a else a) group c),
     s).
Proof.
  revert ds c; induction group as [|eq group IH]; intros ds c Hc; cbn [for_each fold_left].
  - unfold retO. f_equal. f_equal.
    clear -Hc. revert args Hc; induction ds as [|c0 ds IH]; intros [|a] H; simpl in *;
      try discriminate.
    + inversion H; reflexivity.
    + rewrite <- IH by exact H. reflexivity.
  - unfold bindO, pop_if_in at 1. rewrite Hc.
    destruct (contains eq c).
    + rewrite (IH _ (delitem eq c)) by (eapply nth_error_dicts_set_eq; eauto).
      rewrite dicts_set_set. reflexivity.
    + apply IH; exact Hc.
Qed.

Lemma pop_names_in_place args names ds s c :
  nth_error ds args = Some c ->
  for_each (fun name => for_each (pop_if_in args) (find_conflicts name)) names ds s
  = (Ok tt, dicts_set ds args (fold_left pop_conflicts names c), s).
Proof.
  revert ds c; induction names as [|n names IH]; intros ds c Hc; cbn [for_each fold_left].
  - unfold retO. f_equal. f_equal.
    clear -Hc. revert args Hc; induction ds as [|c0 ds IH]; intros [|a] H; simpl in *;
      try discriminate.
    + inversion H; reflexivity.
    + rewrite <- IH by exact H. reflexivity.
  - unfold bindO. rewrite (pop_group_in_place _ _ _ _ _ Hc).
    rewrite (IH _ (pop_conflicts c n)) by (eapply nth_error_dicts_set_eq; eauto).
    rewrite dicts_set_set. reflexivity.
Qed.

(** In place, [merge_params] leaves in its first argument what the function
    [merge_params] on values computes, and touches no other object. *)
Lemma merge_params_in_place_spec args moreargs ds s c :
  nth_error ds args = Some c ->
  merge_params_in_place args moreargs ds s
  = (Ok args, dicts_set ds args (merge_params c moreargs), s).
Proof.
  intros Hc. unfold merge_params_in_place, bindO.
  rewrite (pop_names_in_place _ _ _ _ _ Hc).
  unfold update_in_place.
  rewrite (nth_error_dicts_set_eq _ _ _ _ Hc), dicts_set_set. reflexivity.
Qed.

(** A clone on objects does to the list objects what [Cosmology_clone] does
    on the entries of the instance, returns its result in a new dictionary
    and leaves every dictionary that exists as it is. *)
Lemma clone_objects_spec K quad dz fuel self_params base over ds s r ds' s' :
  nth_error ds self_params = Some base ->
  Cosmology_clone_objects K quad dz fuel self_params over ds s = (r, ds', s') ->
  (forall d c, nth_error ds d = Some c -> nth_error ds' d = Some c) /\
  exists r0, Cosmology_clone K quad dz fuel base over s = (r0, s') /\
    match r, r0 with
    | Ok new, Ok out => (List.length ds < new)%nat /\ nth_error ds' new = Some out
    | Raise e, Raise e0 => e = e0
    | _, _ => False
    end.
Proof.
  intros Hb H. unfold Cosmology_clone_objects, Cosmology_clone in *.
  unfold bindO at 1 in H. unfold on_lists, lift in H. unfold bind at 1, lift.
  destruct (check_params over) as [u|e].
  2:{ inversion H; subst. split; [auto|]. eexists; split; [reflexivity | reflexivity]. }
  unfold bindO at 1 in H. unfold dict_copy in H. rewrite Hb in H.
  assert (Hc : nth_error (ds ++ [base]) (List.length ds) = Some base).
  { rewrite nth_error_app2 by lia. rewrite Nat.sub_diag. reflexivity. }
  unfold bindO at 1 in H. rewrite (merge_params_in_place_spec _ _ _ _ _ Hc) in H.
  unfold compile_params_of, bindO, entries in H.
  rewrite (nth_error_dicts_set_eq _ _ _ _ Hc) in H.
  assert (Hkeep : forall d c, nth_error ds d = Some c ->
            nth_error (dicts_set (ds ++ [base]) (List.length ds) (merge_params base over)) d
            = Some c).
  { intros d c Hd.
    assert (d < List.length ds)%nat by (apply nth_error_Some; congruence).
    rewrite nth_error_dicts_set_neq by lia. rewrite nth_error_app1 by lia. exact Hd. }
  destruct (compile_params K quad dz fuel (merge_params base over) s) as [[out|e] s1] eqn:E;
    inversion H; subst; clear H.
  - split.
    + intros d c Hd. rewrite nth_error_app1; [apply Hkeep; exact Hd|].
      rewrite dicts_set_length, length_app. simpl.
      assert (d < List.length ds)%nat by (apply nth_error_Some; congruence). lia.
    + eexists; split; [reflexivity|]. split.
      * rewrite dicts_set_length, length_app. simpl. lia.
      * rewrite nth_error_app2 by lia. rewrite Nat.sub_diag. reflexivity.
  - split; [exact Hkeep|]. eexists; split; reflexivity.
Qed.

Lemma clone_with_h :
  exists new s',
    Cosmology_clone sample_constants no_quad sample_z 0
      base_params [("h", VNum 0.72)] base_store = (Ok new, s').
Proof.
  eexists; eexists.
  unfold Cosmology_clone, base_params, base_store. py_eval lra. reflexivity.
Qed.

(** C10 (as amended).  A clone, whether it returns or raises, leaves the
    dictionary of the instance, and every other dictionary that exists,
    with the entries it had: [merge_params] removes and adds entries in
    [self._params.copy()], and [compile_params] fills a new dictionary,
    which becomes the mapping of the new instance and is what
    [Cosmology_clone] computes from the entries of the instance.  Every
    list object keeps its contents too, except for the list that the merged
    mapping holds under [z_pk] when that list lacks 0.  In particular, when
    the instance was compiled in the first place (so that its [z_pk]
    contains 0) and the override does not pass as [z_pk] a list that lacks
    0, nothing that existed before the call is changed.  The override is a
    set of keyword arguments: its names are distinct. *)
Theorem clone_keeps_the_base
    (K : constants) (quad : (R -> R) -> R -> R -> R -> R) (dz : list scalar)
    (fuel : nat) (self_params : loc) (base over : dict) (ds : dicts) (s : store)
    (r : outcome loc) (ds' : dicts) (s' : store) :
  NoDup (keys over) ->
  nth_error ds self_params = Some base ->
  Cosmology_clone_objects K quad dz fuel self_params over ds s = (r, ds', s') ->
  nth_error ds' self_params = Some base /\
  (forall d c, nth_error ds d = Some c -> nth_error ds' d = Some c) /\
  (forall new, r = Ok new ->
     new <> self_params /\
     exists out, nth_error ds' new = Some out /\
                 Cosmology_clone K quad dz fuel base over s = (Ok out, s')) /\
  (forall p c, nth_error s p = Some c ->
     (getitem "z_pk" over = Some (VList p) -> In (SNum (Fin 0)) c) ->
     (getitem "z_pk" over = None -> getitem "z_pk" base = Some (VList p) ->
      In (SNum (Fin 0)) c) ->
     nth_error s' p = Some c) /\
  (forall fuel0 args0 s0,
     compile_params K quad dz fuel0 args0 s0 = (Ok base, s) ->
     (forall q c, getitem "z_pk" over = Some (VList q) ->
                  nth_error s q = Some c -> In (SNum (Fin 0)) c) ->
     forall p c, nth_error s p = Some c -> nth_error s' p = Some c).
Proof.
  intros Hnd Hb H.
  destruct (clone_objects_spec _ _ _ _ _ _ _ _ _ _ _ _ Hb H) as (Hkeep & r0 & Hc & Hr).
  split; [apply Hkeep; exact Hb|]. split; [exact Hkeep|]. split; [|split].
  - intros new ->. destruct r0 as [out|e]; [|contradiction]. destruct Hr as [Hlt Hn].
    split.
    + assert (self_params < List.length ds)%nat by (apply nth_error_Some; congruence). lia.
    + exists out; split; [exact Hn | exact Hc].
  - intros p c Hp H1 H2. eapply clone_store; eauto.
  - intros fuel0 args0 s0 Hbase Hover p c Hp.
    eapply clone_store; eauto.
    intros _ Hz.
    destruct (compile_params_has_zero _ _ _ _ _ _ _ _ Hbase)
      as [(q & l & Hq & Hl & HIn)|(a & Ha & _)].
    + rewrite Hz in Hq; inversion Hq; subst q.
      rewrite Hp in Hl; inversion Hl; subst; exact HIn.
    + rewrite Hz in Ha; discriminate.
Qed.

Lemma clone_keeps_the_base_witness :
  exists new ds' s',
    Cosmology_clone_objects sample_constants no_quad sample_z 0 0%nat
      [("h", VNum 0.72)] [base_params] base_store = (Ok new, ds', s') /\
    nth_error ds' 0%nat = Some base_params /\ new <> 0%nat /\
    nth_error s' 0%nat = Some [SNum (Fin 0.06)] /\
    nth_error s' 1%nat = Some [SStr "s"].
Proof.
  destruct (Cosmology_clone_objects sample_constants no_quad sample_z 0 0%nat
              [("h", VNum 0.72)] [base_params] base_store) as [[r ds'] s'] eqn:H.
  assert (Hnd : NoDup (keys [("h", VNum 0.72)]))
    by (simpl; constructor; [simpl; tauto | constructor]).
  assert (Hb : nth_error [base_params] 0%nat = Some base_params) by reflexivity.
  destruct (clone_keeps_the_base _ _ _ _ _ _ _ _ _ _ _ _ Hnd Hb H)
    as (Hbase & _ & Hnew & Hlists & _).
  destruct (clone_objects_spec _ _ _ _ _ _ _ _ _ _ _ _ Hb H) as (_ & r0 & Hc & Hr).
  destruct clone_with_h as (out & s1 & Hrun).
  rewrite Hrun in Hc. inversion Hc; subst r0 s1.
  destruct r as [new|e]; [|contradiction].
  exists new, ds', s'. split; [reflexivity|]. split; [exact Hbase|].
  split; [apply (Hnew new eq_refl)|].
  split; apply Hlists; try reflexivity; simpl; discriminate.
Defined.

(** The copy matters: merged in place into the mapping of the instance
    itself, an override removes the entries of the instance that conflict
    with it. *)
Lemma merge_in_place_changes_its_argument s :
  merge_params_in_place 0%nat [("h", VNum 0.72)] [[("H0", VNum 70); ("n_s", VNum 0.96)]] s
  = (Ok 0%nat, [[("n_s", VNum 0.96); ("h", VNum 0.72)]], s).
Proof. reflexivity. Qed.

(** C10 as stated fails: a clone whose override passes the instance's own
    list of masses as [z_pk] appends 0 to that list. *)
Lemma clone_appends_to_base_list :
  Cosmology_init sample_constants no_quad sample_z 0 [("m_ncdm", VNum 0.06)] []
    = (Ok base_params, base_store) /\
  getitem "m_ncdm" base_params = Some (VList 0%nat) /\
  nth_error base_store 0%nat = Some [SNum (Fin 0.06)] /\
  exists new s',
    Cosmology_clone sample_constants no_quad sample_z 0
      base_params [("z_pk", VList 0%nat)] base_store = (Ok new, s') /\
    nth_error s' 0%nat = Some [SNum (Fin 0.06); SNum (Fin 0)].
Proof.
  split; [exact base_is_compiled|].
  split; [reflexivity|]. split; [reflexivity|].
  eexists; eexists; split.
  - unfold Cosmology_clone, base_params, base_store. py_eval lra. reflexivity.
  - reflexivity.
Qed.

(** ** What the hierarchy splitter does guarantee *)

Lemma newton_step_shape M m d21 d31 S :
  exists x, newton_step M m d21 d31 S =
            (x, fsqrt (fadd (fpow x 2) (Fin d21)), fsqrt (fadd (fpow x 2) (Fin d31))).
Proof. destruct m as [[m0 m1] m2]. eexists; reflexivity. Qed.

(** The loop returns either its starting point, when the test fails at
    once, or the result of a step on which the test fails. *)
Lemma newton_sum_exit fuel M m d21 d31 S s m' s' :
  newton_sum fuel M m d21 d31 S s = (Ok m', s') ->
  (m' = m /\ fgt (fabs (fsub M S)) (Fin (1 / 10 ^ 15)) = false) \/
  (exists x, m' = (x, fsqrt (fadd (fpow x 2) (Fin d21)),
                      fsqrt (fadd (fpow x 2) (Fin d31))) /\
             fgt (fabs (fsub M (sum3 m'))) (Fin (1 / 10 ^ 15)) = false).
Proof.
  revert m S; induction fuel as [|fuel IH]; intros m S H; cbn [newton_sum] in H;
    destruct (fgt (fabs (fsub M S)) (Fin (1 / 10 ^ 15))) eqn:E.
  - discriminate.
  - inversion H; subst; auto.
  - destruct (newton_step_shape M m d21 d31 S) as [x Hx].
    apply IH in H as [[-> Hc]|H]; [|right; exact H].
    right; exists x; split; [exact Hx | exact Hc].
  - inversion H; subst; auto.
Qed.

(** Whenever the splitter returns three masses whose sum is a number, that
    sum is within 1e-15 of the summed mass. *)
Lemma split_hierarchy_sum fuel nh M s m' s' x :
  split_hierarchy fuel nh (Fin M) s = (Ok m', s') ->
  sum3 m' = Fin x -> Rabs (M - x) <= 1 / 10 ^ 15.
Proof.
  intros H Hx. unfold split_hierarchy in H.
  destruct nh as [[| |name]| |]; try discriminate.
  assert (Hloop : forall m0 d21 d31,
             solve_newton_sum fuel (Fin M) m0 d21 d31 s = (Ok m', s') ->
             Rabs (M - x) <= 1 / 10 ^ 15).
  { intros m0 d21 d31 Hl. unfold solve_newton_sum in Hl.
    apply newton_sum_exit in Hl as [[-> Hc]|(y & _ & Hc)];
      rewrite Hx in Hc; simpl in Hc; apply Rltb_ge in Hc; exact Hc. }
  destruct (String.eqb name "normal").
  { destruct (flt _ _); [discriminate | eapply Hloop; eauto]. }
  destruct (String.eqb name "inverted").
  { destruct (flt _ _); [discriminate | eapply Hloop; eauto]. }
  destruct (String.eqb name "degenerate"); [|discriminate].
  inversion H; subst. simpl in Hx.
  rewrite Reqb_false in Hx by lra. simpl in Hx. inversion Hx; subst.
  replace (M - (0 + M / 3 + M / 3 + M / 3)) with 0 by field.
  rewrite Rabs_R0. apply Rlt_le, Rdiv_lt_0_compat; [lra | apply pow_lt; lra].
Qed.

Lemma fsqrt_fin a b : fsqrt (Fin a) = Fin b -> 0 <= a /\ b = sqrt a.
Proof.
  simpl. destruct (Rltb a 0) eqn:E; [discriminate|].
  intros H; inversion H; subst. apply Rltb_ge in E; auto.
Qed.

(** The normal hierarchy at the summed mass 0.0592 eV: the guard accepts it,
    and three finite masses that the splitter returns have a negative first
    mass, because [sqrt(dm21) + sqrt(dm31)] already exceeds 0.0592. *)
Lemma normal_0_0592_negative_mass fuel s a b c0 s' :
  split_hierarchy fuel (VStr "normal") (Fin 0.0592) s = (Ok (Fin a, Fin b, Fin c0), s') ->
  a < 0.
Proof.
  intros H. unfold split_hierarchy, VStr in H.
  cbn [String.eqb Ascii.eqb Bool.eqb fpow flt] in H.
  rewrite Rltb_false in H by (unfold deltam21sq, deltam31sq_normal; lra).
  unfold solve_newton_sum in H.
  apply newton_sum_exit in H as [[Hm Hc]|(x & Hm & Hc)].
  - exfalso. simpl in Hc. apply Rltb_ge in Hc.
    unfold deltam21sq, deltam31sq_normal in Hc.
    rewrite Rabs_right in Hc by lra. lra.
  - inversion Hm; subst x.
    match goal with
    | Hb : Fin b = fsqrt _, Hc' : Fin c0 = fsqrt _ |- _ =>
        symmetry in Hb; symmetry in Hc';
        apply fsqrt_fin in Hb as [Hb0 Hb]; apply fsqrt_fin in Hc' as [Hc0 Hc']
    end.
    simpl in Hc. apply Rltb_ge in Hc.
    destruct (Rlt_le_dec a 0) as [|Ha]; [assumption|]. exfalso.
    assert (Hb1 : 0.008729 < b).
    { subst b. apply sqrt_between with (hi := a + 1); unfold deltam21sq; nra. }
    assert (Hc1 : 0.050497 < c0).
    { subst c0. apply sqrt_between with (hi := a + 1); unfold deltam31sq_normal; nra. }
    rewrite Rabs_left in Hc by lra. lra.
Qed.

(** ** Interval bounds on the turns of the loop on the sum *)

Lemma quot_bounds_pos a b la ha lb hb ql qh :
  0 <= la -> 0 < lb -> ql * hb <= la -> ha <= qh * lb ->
  la <= a <= ha -> lb <= b <= hb -> ql <= a / b <= qh.
Proof.
  intros Hla Hlb Hl Hh [Ha1 Ha2] [Hb1 Hb2].
  assert (Hb : 0 < b) by lra.
  assert (Hq : 0 <= a / b) by (apply Rmult_le_pos; [lra | left; apply Rinv_0_lt_compat; lra]).
  assert (E : a / b * b = a) by (field; lra).
  split.
  - destruct (Rle_lt_dec ql (a / b)) as [|Hlt]; [assumption|exfalso].
    assert (0 < ql) by lra. nra.
  - destruct (Rle_lt_dec (a / b) qh) as [|Hlt]; [assumption|exfalso]. nra.
Qed.

Lemma quot_bounds_neg a b la ha lb hb ql qh :
  ha <= 0 -> 0 < lb -> ql * lb <= la -> ha <= qh * hb ->
  la <= a <= ha -> lb <= b <= hb -> ql <= a / b <= qh.
Proof.
  intros Hha Hlb Hl Hh [Ha1 Ha2] [Hb1 Hb2].
  assert (Hb : 0 < b) by lra.
  assert (Hq : a / b <= 0).
  { replace (a / b) with (- ((- a) / b)) by (field; lra).
    assert (0 <= - a / b)
      by (apply Rmult_le_pos; [lra | left; apply Rinv_0_lt_compat; lra]). lra. }
  assert (E : a / b * b = a) by (field; lra).
  split.
  - destruct (Rle_lt_dec ql (a / b)) as [|Hlt]; [assumption|exfalso]. nra.
  - destruct (Rle_lt_dec (a / b) qh) as [|Hlt]; [assumption|exfalso].
    assert (qh < 0) by lra. nra.
Qed.

Lemma sq_bounds_pos x l h sl sh :
  0 <= l -> sl <= l * l -> h * h <= sh -> l <= x <= h -> sl <= x * x <= sh.
Proof. intros; nra. Qed.

Lemma sq_bounds_neg x l h sl sh :
  h <= 0 -> sl <= h * h -> l * l <= sh -> l <= x <= h -> sl <= x * x <= sh.
Proof. intros; nra. Qed.

Lemma sqrt_bounds x lo hi :
  0 <= lo -> 0 <= hi -> lo * lo <= x -> x <= hi * hi -> lo <= sqrt x <= hi.
Proof.
  intros Hlo Hhi H1 H2.
  assert (Hx : 0 <= x) by nra.
  pose proof (sqrt_pos x) as Hp. pose proof (sqrt_sqrt x Hx) as Hs.
  split.
  - destruct (Rle_lt_dec lo (sqrt x)) as [|Hlt]; [assumption|]. exfalso. nra.
  - destruct (Rle_lt_dec (sqrt x) hi) as [|Hlt]; [assumption|]. exfalso. nra.
Qed.

Lemma sum3_fin a b c0 : sum3 (Fin a, Fin b, Fin c0) = Fin (0 + a + b + c0).
Proof. reflexivity. Qed.

(** One turn of the loop, on boxes: the residual is not positive and the
    derivative is positive. *)
Lemma newton_step_box M d21 d31 la ha lb hb lc hc q1l q1h q2l q2h el eh sl sh
    la' ha' lb' hb' lc' hc' m :
  boxed m la ha lb hb lc hc ->
  0 < lb -> 0 < lc ->
  (forall a b, la <= a <= ha -> lb <= b <= hb -> q1l <= a / b <= q1h) ->
  (forall a b, la <= a <= ha -> lc <= b <= hc -> q2l <= a / b <= q2h) ->
  0 < 1 + q1l + q2l ->
  M - (la + lb + lc) <= 0 ->
  el * (1 + q1l + q2l) <= M - (ha + hb + hc) ->
  M - (la + lb + lc) <= eh * (1 + q1h + q2h) ->
  la' <= la + el -> ha + eh <= ha' ->
  (forall x, la' <= x <= ha' -> sl <= x * x <= sh) ->
  0 <= lb' -> 0 <= hb' -> lb' * lb' <= sl + d21 -> sh + d21 <= hb' * hb' ->
  0 <= lc' -> 0 <= hc' -> lc' * lc' <= sl + d31 -> sh + d31 <= hc' * hc' ->
  boxed (newton_step (Fin M) m d21 d31 (sum3 m)) la' ha' lb' hb' lc' hc'.
Proof.
  intros (a & b & c0 & -> & Ha & Hb & Hc) Hlb Hlc Hq1 Hq2 Hd Hn Hel Heh Hla Hha Hsq
         Hlb' Hhb' Hb1 Hb2 Hlc' Hhc' Hc1 Hc2.
  specialize (Hq1 a b Ha Hb). specialize (Hq2 a c0 Ha Hc).
  set (ds := 1 + a / b + a / c0) in *.
  assert (Hds : 1 + q1l + q2l <= ds <= 1 + q1h + q2h) by (unfold ds; lra).
  assert (Hdpos : 0 < ds) by lra.
  set (n := M + - (0 + a + b + c0)).
  assert (Hn' : M - (ha + hb + hc) <= n <= M - (la + lb + lc)) by (unfold n; lra).
  assert (Hq : el <= n / ds <= eh).
  { assert (E : n / ds * ds = n) by (field; lra).
    assert (Hneg : n / ds <= 0).
    { replace (n / ds) with (- ((- n) / ds)) by (field; lra).
      assert (0 <= - n / ds)
        by (apply Rmult_le_pos; [lra | left; apply Rinv_0_lt_compat; lra]). lra. }
    split.
    - destruct (Rle_lt_dec el (n / ds)) as [|Hlt]; [assumption|exfalso]. nra.
    - destruct (Rle_lt_dec (n / ds) eh) as [|Hlt]; [assumption|exfalso].
      assert (eh < 0) by lra. nra. }
  rewrite sum3_fin, newton_step_fin by (unfold ds in Hdpos; lra).
  cbv zeta. fold n. fold ds.
  set (a' := a + n / ds).
  assert (Ha' : la' <= a' <= ha') by (unfold a'; lra).
  specialize (Hsq a' Ha').
  assert (E2 : a' ^ 2 = a' * a') by ring.
  assert (P1 : 0 <= a' ^ 2 + d21) by nra.
  assert (P2 : 0 <= a' ^ 2 + d31) by nra.
  unfold fsqrt. rewrite !Rltb_false by assumption.
  exists a', (sqrt (a' ^ 2 + d21)), (sqrt (a' ^ 2 + d31)).
  split; [reflexivity|]. split; [exact Ha'|].
  split; apply sqrt_bounds; try assumption; lra.
Qed.

(** The loop goes on from finite masses, or returns them. *)
Lemma ends_finite_step fuel M d21 d31 a b c0 :
  ends_finite fuel M d21 d31
    (newton_step (Fin M) (Fin a, Fin b, Fin c0) d21 d31 (sum3 (Fin a, Fin b, Fin c0))) ->
  ends_finite (S fuel) M d21 d31 (Fin a, Fin b, Fin c0).
Proof.
  intros (a' & b' & c' & H). unfold ends_finite. cbn [newton_sum].
  destruct (fgt (fabs (fsub (Fin M) (sum3 (Fin a, Fin b, Fin c0)))) (Fin (1 / 10 ^ 15))).
  - exists a', b', c'. exact H.
  - exists a, b, c0. reflexivity.
Qed.

Lemma ends_finite_boxed fuel M d21 d31 m la ha lb hb lc hc :
  boxed m la ha lb hb lc hc ->
  (forall m', boxed m' la ha lb hb lc hc ->
              ends_finite fuel M d21 d31 (newton_step (Fin M) m' d21 d31 (sum3 m'))) ->
  ends_finite (S fuel) M d21 d31 m.
Proof.
  intros Hm H. pose proof (H m Hm) as H'.
  destruct Hm as (a & b & c0 & -> & _). apply ends_finite_step; exact H'.
Qed.

(** Inside a box on which the residual is within the tolerance, the loop
    returns at once. *)
Lemma ends_finite_now fuel M d21 d31 m la ha lb hb lc hc :
  boxed m la ha lb hb lc hc ->
  - (1 / 10 ^ 15) <= M - (ha + hb + hc) -> M - (la + lb + lc) <= 1 / 10 ^ 15 ->
  ends_finite fuel M d21 d31 m.
Proof.
  intros (a & b & c0 & -> & Ha & Hb & Hc) H1 H2.
  exists a, b, c0. intros s.
  assert (E : fgt (fabs (fsub (Fin M) (sum3 (Fin a, Fin b, Fin c0)))) (Fin (1 / 10 ^ 15))
              = false).
  { rewrite sum3_fin. cbn [fsub fneg fadd fabs fgt flt]. apply Rltb_false.
    apply Rabs_le. lra. }
  destruct fuel; cbn [newton_sum]; rewrite E; reflexivity.
Qed.

(** ** The normal hierarchy at the summed mass 0.0592 eV *)

(** The first turn of the loop, from the starting point
    [[0., deltam21sq, deltam31sq]]. *)
Lemma normal_0_0592_box_1 :
  boxed (newton_step (Fin 0.0592) (Fin 0, Fin deltam21sq, Fin deltam31sq_normal)
           deltam21sq deltam31sq_normal
           (sum3 (Fin 0, Fin deltam21sq, Fin deltam31sq_normal)))
    0.0565738 0.0565738
    0.05724329520948283075002009948 0.057243295209482830750020099481
    0.075832676640350761128032081597 0.075832676640350761128032081598.
Proof.
  rewrite sum3_fin, newton_step_fin
    by (unfold deltam21sq, deltam31sq_normal; lra).
  cbv zeta.
  assert (E : 0 + (0.0592 + - (0 + 0 + deltam21sq + deltam31sq_normal))
                  / (1 + 0 / deltam21sq + 0 / deltam31sq_normal) = 0.0565738)
    by (unfold deltam21sq, deltam31sq_normal; lra).
  rewrite E. unfold fsqrt.
  rewrite !Rltb_false by (unfold deltam21sq, deltam31sq_normal; lra).
  eexists; eexists; eexists. split; [reflexivity|].
  split; [lra|].
  split; apply sqrt_bounds; unfold deltam21sq, deltam31sq_normal; lra.
Qed.

Lemma normal_0_0592_box_2 m :
  boxed m
    0.0565738 0.0565738
    0.05724329520948283075002009948 0.057243295209482830750020099481
    0.075832676640350761128032081597 0.075832676640350761128032081598 ->
  boxed (newton_step (Fin 0.0592) m deltam21sq deltam31sq_normal (sum3 m))
    0.008865826462028000751884745867 0.008865826462028000751884745869
    0.012441980503713865611838860309 0.01244198050371386561183886035
    0.051269902270774770193036998226 0.051269902270774770193036998237.
Proof.
  intros Hm.
  apply (newton_step_box 0.0592 deltam21sq deltam31sq_normal _ _ _ _ _ _
           0.988304390810612816231467383355 0.988304390810612816231467383373
           0.746034592294701310504286011946 0.746034592294701310504286011957
           (-0.047707973537971999248115254133) (-0.047707973537971999248115254131)
           0.000078602878854795937058032136 0.000078602878854795937058032137
           _ _ _ _ _ _ m Hm);
    unfold deltam21sq, deltam31sq_normal;
    try lra;
    try (intros a b Ha Hb; apply (quot_bounds_pos a b _ _ _ _ _ _) with (5 := Ha) (6 := Hb); lra);
    try (intros x Hx; apply (sq_bounds_pos x _ _ _ _) with (4 := Hx); lra).
Qed.

Lemma normal_0_0592_box_3 m :
  boxed m
    0.008865826462028000751884745867 0.008865826462028000751884745869
    0.012441980503713865611838860309 0.01244198050371386561183886035
    0.051269902270774770193036998226 0.051269902270774770193036998237 ->
  boxed (newton_step (Fin 0.0592) m deltam21sq deltam31sq_normal (sum3 m))
    0.001770773508332438446474346124 0.001770773508332438446474346166
    0.008907055563866881618355630732 0.008907055563866881618355630789
    0.050528562603915539964686170963 0.050528562603915539964686170974.
Proof.
  intros Hm.
  apply (newton_step_box 0.0592 deltam21sq deltam31sq_normal _ _ _ _ _ _
           0.712573569728838449422385161318 0.712573569728838449422385163828
           0.172924582832328928085996524994 0.172924582832328928085996525072
           (-0.007095052953695562305410399743) (-0.007095052953695562305410399703)
           0.000003135638817811972452225411 0.000003135638817811972452225412
           _ _ _ _ _ _ m Hm);
    unfold deltam21sq, deltam31sq_normal;
    try lra;
    try (intros a b Ha Hb; apply (quot_bounds_pos a b _ _ _ _ _ _) with (5 := Ha) (6 := Hb); lra);
    try (intros x Hx; apply (sq_bounds_pos x _ _ _ _) with (4 := Hx); lra).
Qed.

Lemma normal_0_0592_box_4 m :
  boxed m
    0.001770773508332438446474346124 0.001770773508332438446474346166
    0.008907055563866881618355630732 0.008907055563866881618355630789
    0.050528562603915539964686170963 0.050528562603915539964686170974 ->
  boxed (newton_step (Fin 0.0592) m deltam21sq deltam31sq_normal (sum3 m))
    0.00014465159723780897967701874 0.000144651597237808979677018881
    0.008730459557467948623086440985 0.008730459557467948623086441044
    0.050497731870694781228853994804 0.050497731870694781228853994815.
Proof.
  intros Hm.
  apply (newton_step_box 0.0592 deltam21sq deltam31sq_normal _ _ _ _ _ _
           0.198805710331022152013070235929 0.198805710331022152013070241918
           0.035045000630895016711629643918 0.035045000630895016711629644758
           (-0.001626121911094629466797327384) (-0.001626121911094629466797327285)
           0.000000020924084583449306438995 0.000000020924084583449306438996
           _ _ _ _ _ _ m Hm);
    unfold deltam21sq, deltam31sq_normal;
    try lra;
    try (intros a b Ha Hb; apply (quot_bounds_pos a b _ _ _ _ _ _) with (5 := Ha) (6 := Hb); lra);
    try (intros x Hx; apply (sq_bounds_pos x _ _ _ _) with (4 := Hx); lra).
Qed.

Lemma normal_0_0592_box_5 m :
  boxed m
    0.00014465159723780897967701874 0.000144651597237808979677018881
    0.008730459557467948623086440985 0.008730459557467948623086441044
    0.050497731870694781228853994804 0.050497731870694781228853994815 ->
  boxed (newton_step (Fin 0.0592) m deltam21sq deltam31sq_normal (sum3 m))
    (-0.000024896576670203483134738233) (-0.000024896576670203483134737881)
    0.008729296640596531779678412889 0.008729296640596531779678412947
    0.050497530829135892466958558696 0.050497530829135892466958558706.
Proof.
  intros Hm.
  apply (newton_step_box 0.0592 deltam21sq deltam31sq_normal _ _ _ _ _ _
           0.01656861202845564255465337781 0.016568612028455642554653394073
           0.002864516719448032651423871207 0.002864516719448032651423874001
           (-0.000169548173908012462811756973) (-0.000169548173908012462811756762)
           0.00000000061983952989532035583 0.000000000619839529895320355831
           _ _ _ _ _ _ m Hm);
    unfold deltam21sq, deltam31sq_normal;
    try lra;
    try (intros a b Ha Hb; apply (quot_bounds_pos a b _ _ _ _ _ _) with (5 := Ha) (6 := Hb); lra);
    try (intros x Hx; apply (sq_bounds_neg x _ _ _ _) with (4 := Hx); lra).
Qed.

Lemma normal_0_0592_box_6 m :
  boxed m
    (-0.000024896576670203483134738233) (-0.000024896576670203483134737881)
    0.008729296640596531779678412889 0.008729296640596531779678412947
    0.050497530829135892466958558696 0.050497530829135892466958558706 ->
  boxed (newton_step (Fin 0.0592) m deltam21sq deltam31sq_normal (sum3 m))
    (-0.000026833950435504074401820613) (-0.000026833950435504074401819839)
    0.008729302381112477827126584546 0.008729302381112477827126584604
    0.050497531821475155887006361889 0.0504975318214751558870063619.
Proof.
  intros Hm.
  apply (newton_step_box 0.0592 deltam21sq deltam31sq_normal _ _ _ _ _ _
           (-0.002852071328910885991970739821) (-0.002852071328910885991970699477)
           (-0.000493025624449715500887742966) (-0.000493025624449715500887735994)
           (-0.00000193737376530059126708238) (-0.000001937373765300591267081958)
           0.000000000720060895975089304253 0.000000000720060895975089304254
           _ _ _ _ _ _ m Hm);
    unfold deltam21sq, deltam31sq_normal;
    try lra;
    try (intros a b Ha Hb; apply (quot_bounds_neg a b _ _ _ _ _ _) with (5 := Ha) (6 := Hb); lra);
    try (intros x Hx; apply (sq_bounds_neg x _ _ _ _) with (4 := Hx); lra).
Qed.

Lemma normal_0_0592_box_7 m :
  boxed m
    (-0.000026833950435504074401820613) (-0.000026833950435504074401819839)
    0.008729302381112477827126584546 0.008729302381112477827126584604
    0.050497531821475155887006361889 0.0504975318214751558870063619 ->
  boxed (newton_step (Fin 0.0592) m deltam21sq deltam31sq_normal (sum3 m))
    (-0.000026834203500032542026106021) (-0.0000268342035000325420261044)
    0.008729302381890404027632908828 0.008729302381890404027632908887
    0.050497531821609632816665234225 0.050497531821609632816665234236.
Proof.
  intros Hm.
  apply (newton_step_box 0.0592 deltam21sq deltam31sq_normal _ _ _ _ _ _
           (-0.003074008582125013753253636825) (-0.003074008582125013753253548137)
           (-0.000531391326815152633290921881) (-0.000531391326815152633290906552)
           (-0.000000000253064528467624285408) (-0.000000000253064528467624284561)
           0.000000000720074477481158728701 0.000000000720074477481158728702
           _ _ _ _ _ _ m Hm);
    unfold deltam21sq, deltam31sq_normal;
    try lra;
    try (intros a b Ha Hb; apply (quot_bounds_neg a b _ _ _ _ _ _) with (5 := Ha) (6 := Hb); lra);
    try (intros x Hx; apply (sq_bounds_neg x _ _ _ _) with (4 := Hx); lra).
Qed.

(** The loop returns within seven turns, with three finite masses. *)
Lemma normal_0_0592_ends n :
  ends_finite (7 + n) 0.0592 deltam21sq deltam31sq_normal
    (Fin 0, Fin deltam21sq, Fin deltam31sq_normal).
Proof.
  apply ends_finite_step.
  eapply ends_finite_boxed; [exact normal_0_0592_box_1|]. intros m1 H1.
  eapply ends_finite_boxed; [exact (normal_0_0592_box_2 m1 H1)|]. intros m2 H2.
  eapply ends_finite_boxed; [exact (normal_0_0592_box_3 m2 H2)|]. intros m3 H3.
  eapply ends_finite_boxed; [exact (normal_0_0592_box_4 m3 H3)|]. intros m4 H4.
  eapply ends_finite_boxed; [exact (normal_0_0592_box_5 m4 H4)|]. intros m5 H5.
  eapply ends_finite_boxed; [exact (normal_0_0592_box_6 m5 H5)|]. intros m6 H6.
  eapply ends_finite_now; [exact (normal_0_0592_box_7 m6 H6) | lra | lra].
Qed.

(** The splitter returns three finite masses, the first of them negative. *)
Lemma normal_0_0592_returns n :
  exists a b c0,
    a < 0 /\
    forall s, split_hierarchy (7 + n) (VStr "normal") (Fin 0.0592) s
              = (Ok (Fin a, Fin b, Fin c0), s).
Proof.
  destruct (normal_0_0592_ends n) as (a & b & c0 & H).
  assert (Hs : forall s, split_hierarchy (7 + n) (VStr "normal") (Fin 0.0592) s
                         = (Ok (Fin a, Fin b, Fin c0), s)).
  { intros s. unfold split_hierarchy, VStr.
    cbn [String.eqb Ascii.eqb Bool.eqb fpow flt].
    rewrite Rltb_false by (unfold deltam21sq, deltam31sq_normal; lra).
    unfold solve_newton_sum. apply H. }
  exists a, b, c0; split; [|exact Hs].
  exact (normal_0_0592_negative_mass _ [] _ _ _ _ (Hs [])).
Qed.

Lemma compile_normal_0_0592 n a b c0 :
  (forall s, split_hierarchy (7 + n) (VStr "normal") (Fin 0.0592) s
             = (Ok (Fin a, Fin b, Fin c0), s)) ->
  exists out s' p,
    compile_params sample_constants no_quad sample_z (7 + n) args_normal_0_0592 []
      = (Ok out, s') /\
    getitem "m_ncdm" out = Some (VList p) /\
    nth_error s' p = Some [SNum (Fin a); SNum (Fin b); SNum (Fin c0)].
Proof.
  intros Hs. unfold args_normal_0_0592.
  eexists; eexists; eexists; split; [|split].
  - py_eval lra. rewrite Hs. py_eval lra. reflexivity.
  - reflexivity.
  - reflexivity.
Qed.

(** C4 (the code at inputs where the claim and the code part).  The sign
    of a mass is checked only for a summed mass under a hierarchy, and the
    masses are filtered only when [N_ur] is derived.  With [N_ur] supplied,
    one species of mass -1 eV is listed as it was given.  For the normal
    hierarchy at the summed mass 0.0592 eV, which the guard accepts, the
    loop returns within seven turns, and the first of the three masses that
    are listed is negative. *)
Theorem negative_masses_are_listed :
  (exists out s' p,
     compile_params sample_constants no_quad sample_z 0 args_negative_mass []
       = (Ok out, s') /\
     getitem "m_ncdm" out = Some (VList p) /\
     nth_error s' p = Some [SNum (Fin (-1))] /\
     ~ mass_nonneg (SNum (Fin (-1)))) /\
  flt (fpow (Fin 0.0592) 2) (Fin (deltam21sq + deltam31sq_normal)) = false /\
  forall n, exists a b c0 out s' p,
    compile_params sample_constants no_quad sample_z (7 + n) args_normal_0_0592 []
      = (Ok out, s') /\
    getitem "m_ncdm" out = Some (VList p) /\
    nth_error s' p = Some [SNum (Fin a); SNum (Fin b); SNum (Fin c0)] /\
    a < 0 /\ ~ mass_nonneg (SNum (Fin a)).
Proof.
  split; [exact negative_mass_is_listed|]. split.
  - simpl. apply Rltb_false. unfold deltam21sq, deltam31sq_normal; lra.
  - intros n. destruct (normal_0_0592_returns n) as (a & b & c0 & Ha & Hs).
    destruct (compile_normal_0_0592 n a b c0 Hs) as (out & s' & p & Hrun & Hp & Hl).
    exists a, b, c0, out, s', p. repeat split; try assumption.
    simpl; lra.
Qed.

(** ** What the density solver does guarantee *)

(** A zero density is answered by a zero mass, without a call of the
    integrator. *)
Lemma mass_of_Omega_zero K quad fuel params h T s :
  mass_of_Omega K quad fuel params h (SNum (Fin 0), T) s = (Ok (SNum (Fin 0)), s).
Proof.
  unfold mass_of_Omega. simpl. rewrite Reqb_true by reflexivity. reflexivity.
Qed.

(** When the Newton loop on the density returns a mass, the density that the
    integrator gives for that mass is within 1e-15 of the target. *)
Lemma newton_omega_exit K quad fuel omega m T check s m' s' :
  omega_of K quad T m "rho" s = (Ok check, s) ->
  newton_omega K quad fuel omega m T check s = (Ok m', s') ->
  exists check',
    omega_of K quad T m' "rho" s = (Ok check', s) /\
    Rabs (omega - check') <= 1 / 10 ^ 15.
Proof.
  revert m check; induction fuel as [|fuel IH]; intros m check Hc H;
    cbn [newton_omega] in H;
    destruct (Rltb (1 / 10 ^ 15) (Rabs (omega - check))) eqn:E.
  - discriminate.
  - inversion H; subst. exists check; split; [exact Hc | apply Rltb_ge; exact E].
  - apply bind_ok in H as (d & s1 & H1 & H).
    apply bind_ok in H as (st & s2 & H2 & H).
    apply bind_ok in H as (ch & s3 & H3 & H).
    assert (s1 = s) by (eapply pure_omega_of; eauto); subst s1.
    assert (s2 = s) by (eapply pure_rdiv; eauto); subst s2.
    assert (s3 = s) by (eapply pure_omega_of; eauto); subst s3.
    eapply IH; eauto.
  - inversion H; subst. exists check; split; [exact Hc | apply Rltb_ge; exact E].
Qed.

(** *** The round trip from a density to a mass and back *)

Lemma rdiv_ok x y s : y <> 0 -> rdiv x y s = (Ok (x / y), s).
Proof. intros H. unfold rdiv. rewrite Reqb_false by exact H. reflexivity. Qed.

(** The energy density that the integrator gives for a mass, under a
    positive quadrature: a positive number, whatever the mass. *)
Lemma omega_of_positive K quad T_eff m s :
  positive_constants K -> positive_quad quad -> 0 < T_eff ->
  exists d, omega_of K quad T_eff m "rho" s = (Ok d, s) /\ 0 < d.
Proof.
  intros (He & Hk & Hc & Hs & Hm & Hp & Hr) Hq HT.
  assert (Ha : 0 < 1 / (1 + 0)) by (apply Rdiv_lt_0_compat; lra).
  assert (HTa : 0 < T_eff / (1 / (1 + 0))) by (apply Rdiv_lt_0_compat; assumption).
  assert (HkT : 0 < Boltzmann K * (T_eff / (1 / (1 + 0))))
    by (apply Rmult_lt_0_compat; assumption).
  assert (Hpi : 0 < 7 * PI ^ 4 / 120).
  { pose proof PI_RGT_0. apply Rdiv_lt_0_compat; [|lra].
    apply Rmult_lt_0_compat; [lra | apply pow_lt; assumption]. }
  assert (Hc3 : 0 < c K ^ 3) by (apply pow_lt; assumption).
  assert (Hms : 0 < 10 ^ 10 * msun K)
    by (apply Rmult_lt_0_compat; [apply pow_lt; lra | assumption]).
  unfold omega_of, _compute_ncdm_momenta.
  erewrite bind_eq.
  2:{ erewrite bind_eq by (apply rdiv_ok; lra).
      erewrite bind_eq by (apply rdiv_ok; lra).
      erewrite bind_eq by (apply rdiv_ok; lra).
      erewrite bind_eq by reflexivity.
      cbn [String.eqb Ascii.eqb Bool.eqb].
      erewrite bind_eq by reflexivity.
      erewrite bind_eq by (apply rdiv_ok; lra).
      erewrite bind_eq by (apply rdiv_ok; lra).
      erewrite bind_eq by (apply rdiv_ok; lra).
      reflexivity. }
  rewrite rdiv_ok by lra.
  eexists; split; [reflexivity|].
  set (f := fun q : R => _).
  assert (Hf : 0 < quad f 0 100 (1 / 10 ^ 7)).
  { apply Hq; [|lra|lra]. intros q Hq0. subst f. cbv beta.
    apply Rdiv_lt_0_compat; [|pose proof (exp_pos q); lra].
    apply Rmult_lt_0_compat; [apply pow_lt; assumption|].
    apply sqrt_lt_R0.
    assert (0 < q ^ 2) by (apply pow_lt; assumption).
    assert (0 <= (m * (electronvolt K / (Boltzmann K * (T_eff / (1 / (1 + 0)))))) ^ 2)
      by apply pow2_ge_0.
    lra. }
  repeat first [ assumption | lra | apply Rdiv_lt_0_compat
               | apply Rmult_lt_0_compat | apply Rinv_0_lt_compat | apply pow_lt ].
Qed.

(** When the solver returns a mass, the density that the integrator gives
    for that mass is within 1e-15 of the target. *)
Lemma solve_newton_omega_exit K quad fuel omega m T s m' s' :
  solve_newton_omega K quad fuel omega m T s = (Ok m', s') ->
  s' = s /\
  exists d, omega_of K quad T m' "rho" s = (Ok d, s) /\
            Rabs (omega - d) <= 1 / 10 ^ 15.
Proof.
  intros H.
  assert (s' = s) by (eapply pure_solve_newton_omega; eauto); subst s'.
  split; [reflexivity|].
  unfold solve_newton_omega in H. apply bind_ok in H as (check & s1 & H1 & H).
  assert (s1 = s) by (eapply pure_omega_of; eauto); subst s1.
  eapply newton_omega_exit; eauto.
Qed.


Lemma sample_constants_positive : positive_constants sample_constants.
Proof. unfold positive_constants; simpl; repeat split; lra. Qed.

Lemma midpoint_quad_positive : positive_quad midpoint_quad.
Proof.
  intros f a b eps Hf Hab Ha. unfold midpoint_quad.
  apply Rmult_lt_0_compat; [lra | apply Hf; lra].
Qed.

Lemma unit_quad_positive : positive_quad unit_quad.
Proof. intros f a b eps _ _ _. unfold unit_quad; lra. Qed.


(** With a quadrature that answers 1, the density is the same for every
    mass. *)
Lemma omega_of_unit_quad m s :
  omega_of sample_constants unit_quad sample_T_eff m "rho" s
  = (Ok (unit_density sample_constants sample_T_eff), s).
Proof.
  assert (HT : 0 < sample_T_eff) by (unfold sample_T_eff; lra).
  destruct (omega_of_positive sample_constants unit_quad sample_T_eff m s
              sample_constants_positive unit_quad_positive HT) as (d & Hd & _).
  rewrite Hd. f_equal. f_equal.
  pose proof PI_RGT_0 as Hpi.
  assert (Hpi4 : 7 * PI ^ 4 / 120 <> 0).
  { assert (0 < PI ^ 4) by (apply pow_lt; assumption). lra. }
  unfold omega_of, _compute_ncdm_momenta in Hd.
  unfold bind, rdiv, as_num, ret in Hd. cbn [String.eqb Ascii.eqb Bool.eqb] in Hd.
  repeat match type of Hd with
         | context [Reqb ?a 0] =>
             rewrite (Reqb_false a 0) in Hd
               by (simpl; try lra; try exact Hpi4; unfold sample_T_eff; lra)
         end.
  inversion Hd. reflexivity.
Qed.

Lemma unit_density_pos : 0 < unit_density sample_constants sample_T_eff.
Proof.
  assert (HT : 0 < sample_T_eff) by (unfold sample_T_eff; lra).
  destruct (omega_of_positive sample_constants unit_quad sample_T_eff 0 []
              sample_constants_positive unit_quad_positive HT) as (d & Hd & Hpos).
  rewrite omega_of_unit_quad in Hd. inversion Hd; subst; exact Hpos.
Qed.

(** A target that the solver answers at once: the density of its first
    guess, under the quadrature that answers 1. *)
Lemma solve_unit_density fuel :
  mass_of_Omega sample_constants unit_quad fuel [("T_cmb", VNum 2.7255)] (VNum 1)
    (SNum (Fin (unit_density sample_constants sample_T_eff)), SNum (Fin 0.71611)) []
  = (Ok (SNum (Fin (unit_density sample_constants sample_T_eff * 1 ^ 2 * 93.14))), []).
Proof.
  pose proof unit_density_pos as Hpos.
  unfold mass_of_Omega. cbn [is_zero feqb].
  rewrite Reqb_false by lra.
  cbn [getitem String.eqb Ascii.eqb Bool.eqb VNum mul_vs as_factor square fmul fpow].
  unfold bind at 1. cbn [ret].
  unfold bind at 1. cbn [ret].
  unfold bind at 1. cbn [ret].
  unfold bind at 1. cbn [ret].
  unfold bind at 1. cbn [ret].
  cbn [fmul]. change (2.7255 * 0.71611) with sample_T_eff.
  unfold solve_newton_omega, bind. rewrite omega_of_unit_quad.
  assert (E : Rltb (1 / 10 ^ 15)
                (Rabs (unit_density sample_constants sample_T_eff * 1 ^ 2
                       - unit_density sample_constants sample_T_eff)) = false).
  { apply Rltb_false.
    replace (unit_density sample_constants sample_T_eff * 1 ^ 2
             - unit_density sample_constants sample_T_eff) with 0 by ring.
    rewrite Rabs_R0. apply Rlt_le, Rdiv_lt_0_compat; [lra | apply pow_lt; lra]. }
  destruct fuel; cbn [newton_omega]; rewrite E; reflexivity.
Qed.


(* ================================================================= *)
(** * Further properties: conflict groups, defaults, compilation, accessors *)

(** ** Evaluation of concrete inputs, stage by stage *)

(** Evaluation stage by stage: each stage is run on its own, so that a
    comparison of reals is settled before the next stage is entered. *)
Ltac py_stage tac :=
  repeat (progress (py_unfold; unfold py_div, rdiv; py_cbn; py_decide tac)).

Ltac py_run tac :=
  cbv beta iota zeta;
  cbn [getitem String.eqb Ascii.eqb Bool.eqb];
  lazymatch goal with
  | |- bind _ _ _ = _ =>
      first [ erewrite bind_eq by (py_run tac); py_run tac
            | erewrite bind_raise by (py_run tac); reflexivity ]
  | |- compile_params _ _ _ _ _ _ = _ => unfold compile_params; py_run tac
  | |- stage_neutrinos _ _ _ _ _ = _ => unfold stage_neutrinos; py_run tac
  | |- Cosmology_init _ _ _ _ _ _ = _ => unfold Cosmology_init; py_run tac
  | |- Cosmology_clone _ _ _ _ _ _ _ = _ => unfold Cosmology_clone; py_run tac
  | |- _ => py_stage tac; reflexivity
  end.

Ltac arith := cbn [pow]; lra.

Lemma compile_two_species :
  compile_params sample_constants no_quad sample_z 0 args_two_species store_two_species
  = (Ok [("h", VNum 0.7);
         ("N_ur", VNum (3.044 - 0.71611 ^ 4 * nu_factor));
         ("m_ncdm", VList 1%nat);
         ("T_ncdm", VArr [SNum (Fin 0.71611); SNum (Fin 0.71611)]);
         ("z_pk", VArr sample_z); ("modes", VList 2%nat)],
     [[SNum (Fin 0.06); SNum (Fin 0)]; [SNum (Fin 0.06)]; [SStr "s"]]).
Proof.
  pose proof sample_temperature_fits as H. simpl TNCDM in H.
  unfold args_two_species, store_two_species.
  py_eval ltac:(unfold m_massive; lra).
  replace (3.044 + - ((0 + 0.71611 ^ 4) * nu_factor))
    with (3.044 - 0.71611 ^ 4 * nu_factor) by ring.
  reflexivity.
Qed.

Lemma neutrinos_two_species :
  exists p1 s1,
  stage_neutrinos sample_constants no_quad 0 args_two_species store_two_species
  = (Ok ([SNum (Fin 0.06); SNum (Fin 0)], [SNum (Fin 0.71611); SNum (Fin 0.71611)], p1), s1).
Proof.
  eexists; eexists.
  unfold args_two_species, store_two_species.
  py_eval ltac:(unfold m_massive; lra).
  reflexivity.
Qed.

Lemma wf_args_two_species : wf_store args_two_species store_two_species.
Proof.
  intros k p E; unfold args_two_species in E; simpl in E.
  repeat match type of E with
         | (if ?b then _ else _) = _ => destruct b; [try discriminate|]
         end; try discriminate.
  inversion E; subst. simpl; lia.
Qed.

Lemma get_Omega_ncdm_massless :
  BaseEngine_get sample_constants no_quad 2 "Omega_ncdm" None massless_params [[]]
  = (Done (VNum (0 / 0.7 ^ 2 / 27.7536627)),
     massless_params ++ [("Omega_ncdm", VNum (0 / 0.7 ^ 2 / 27.7536627))]).
Proof.
  cbn [BaseEngine_get getitem massless_params String.eqb Ascii.eqb Bool.eqb].
  unfold derive. cbn [startswith String.eqb Ascii.eqb Bool.eqb andb].
  unfold engine_get_ncdm, bindE.
  cbn [BaseEngine_get getitem massless_params String.eqb Ascii.eqb Bool.eqb].
  unfold run. py_stage arith. reflexivity.
Qed.

(** ** Conflict groups and defaults *)

Lemma find_in_In name groups :
  find_in name groups = [] \/ In (find_in name groups) groups.
Proof.
  induction groups as [|g groups IH]; simpl; [left; reflexivity|].
  destruct (mem name g); [right; left; reflexivity|].
  destruct IH as [IH|IH]; [left|right; right]; exact IH.
Qed.

Lemma find_conflicts_self a b : In b (find_conflicts a) -> In a (find_conflicts a).
Proof.
  intros H. unfold find_conflicts in *.
  destruct (find_in_mem a conflicts) as [E|E]; [rewrite E in H; contradiction|].
  apply mem_In; exact E.
Qed.

Lemma find_conflicts_same a b : In b (find_conflicts a) -> find_conflicts b = find_conflicts a.
Proof.
  intros H. apply find_conflicts_group; [|exact H].
  unfold find_conflicts in *.
  destruct (find_in_In a conflicts) as [E|E]; [rewrite E in H; contradiction | exact E].
Qed.

(** X1: The conflict groups that find_conflicts returns are classes: if
    find_conflicts(a) contains b, then it contains a as well,
    find_conflicts(b) is the same group, and that group contains a. *)
Theorem find_conflicts_classes (a b : string) :
  In b (find_conflicts a) ->
  In a (find_conflicts a) /\ find_conflicts b = find_conflicts a /\
  In a (find_conflicts b).
Proof.
  intros H. pose proof (find_conflicts_self a b H) as Ha.
  pose proof (find_conflicts_same a b H) as Hb.
  repeat split; auto. rewrite Hb; exact Ha.
Qed.

Lemma find_conflicts_classes_witness :
  In "h" (find_conflicts "h") /\ find_conflicts "H0" = find_conflicts "h" /\
  In "h" (find_conflicts "H0").
Proof. apply (find_conflicts_classes "h" "H0"). simpl; auto. Defined.

Lemma check_params_Ok_iff (args : dict) :
  check_params args = Ok tt <->
  (forall a b, contains a args = true -> contains b args = true ->
               In b (find_conflicts a) -> a = b).
Proof.
  unfold check_params; rewrite first_conflict_ok; split.
  - intros H a b Ca Cb Hb.
    destruct (string_dec a b) as [|Hne]; [assumption|exfalso].
    assert (Hin : In b (conf_of args a)) by (apply conf_of_In; auto).
    rewrite (H a) in Hin; [contradiction | apply In_keys_contains; assumption].
  - intros H n Hn. destruct (conf_of args n) as [|x l] eqn:E; [reflexivity|exfalso].
    assert (Hx : In x (conf_of args n)) by (rewrite E; left; reflexivity).
    apply conf_of_In in Hx as (H1 & H2 & H3).
    apply H2. symmetry. apply H; auto. apply In_keys_contains; assumption.
Qed.

(** X2: check_params returns without raising exactly when the mapping holds no
    two different names of one conflict group: for all keys a and b of the
    mapping, b in find_conflicts(a) implies a = b. *)
Theorem check_params_accepts (args : dict) :
  check_params args = Ok tt <->
  (forall a b, contains a args = true -> contains b args = true ->
               In b (find_conflicts a) -> a = b).
Proof. exact (check_params_Ok_iff args). Qed.

Lemma getitem_rev_some k d :
  (exists v, getitem k (rev d) = Some v) <-> (exists v, getitem k d = Some v).
Proof.
  pose proof (getitem_rev_none k d) as H.
  destruct (getitem k (rev d)) as [v|], (getitem k d) as [w|]; split; intros [x Hx];
    try discriminate; eauto.
  - destruct H as [_ H]. discriminate H; reflexivity.
  - destruct H as [H _]. discriminate H; reflexivity.
Qed.

Lemma contains_merge_params base over k :
  contains k (merge_params base over) =
  contains k over ||
  (negb (existsb (fun n => mem k (find_conflicts n)) (keys over)) && contains k base).
Proof.
  unfold merge_params. rewrite !contains_getitem, getitem_update, getitem_pop_conflicts.
  pose proof (getitem_rev_none k over) as H.
  destruct (getitem k (rev over)) as [v|], (getitem k over) as [w|]; simpl;
    try reflexivity.
  - destruct H as [_ H]. discriminate H; reflexivity.
  - destruct H as [H _]. discriminate H; reflexivity.
  - destruct (existsb _ (keys over)); simpl; reflexivity.
Qed.

Lemma defaults_conflict_free K : check_params (get_default_parameters K) = Ok tt.
Proof. reflexivity. Qed.

Lemma merge_params_checked (K : constants) (base over : dict) :
  check_params over = Ok tt ->
  (check_params base = Ok tt -> check_params (merge_params base over) = Ok tt) /\
  check_params (merge_params (get_default_parameters K) over) = Ok tt.
Proof.
  intros Ho.
  assert (G : forall base, check_params base = Ok tt ->
                           check_params (merge_params base over) = Ok tt).
  { clear base; intros base Hb.
    rewrite check_params_Ok_iff in *.
    intros a b Ca Cb Hab. rewrite contains_merge_params in Ca, Cb.
    apply orb_true_iff in Ca, Cb.
    destruct Ca as [Ca|Ca], Cb as [Cb|Cb].
    - apply Ho; assumption.
    - exfalso. apply andb_true_iff in Cb as [Cb _]. apply negb_true_iff in Cb.
      assert (E : existsb (fun n => mem b (find_conflicts n)) (keys over) = true).
      { apply existsb_exists; exists a; split;
          [apply In_keys_contains; assumption | apply mem_In; assumption]. }
      congruence.
    - exfalso. apply andb_true_iff in Ca as [Ca _]. apply negb_true_iff in Ca.
      assert (E : existsb (fun n => mem a (find_conflicts n)) (keys over) = true).
      { apply existsb_exists; exists b; split;
          [apply In_keys_contains; assumption|].
        apply mem_In. rewrite (find_conflicts_same a b Hab).
        eapply find_conflicts_self; eauto. }
      congruence.
    - apply andb_true_iff in Ca as [_ Ca]. apply andb_true_iff in Cb as [_ Cb].
      apply Hb; assumption. }
  split; [apply G | apply G, defaults_conflict_free].
Qed.

(** X3: If the override passes check_params, then merge_params(base, override)
    passes it whenever base does; in particular the mapping that
    Cosmology.__init__ hands to compile_params,
    merge_params(get_default_parameters(include_conflicts=False), params),
    never holds two names of one conflict group. *)
Theorem merge_params_conflict_free (K : constants) (base over : dict) :
  check_params over = Ok tt ->
  (check_params base = Ok tt -> check_params (merge_params base over) = Ok tt) /\
  check_params (merge_params (get_default_parameters K) over) = Ok tt.
Proof. exact (merge_params_checked K base over). Qed.

Lemma merge_params_conflict_free_witness :
  check_params (merge_params [("h", VNum 0.7); ("n_s", VNum 0.96)] [("H0", VNum 70)]) = Ok tt /\
  check_params (merge_params (get_default_parameters sample_constants) [("H0", VNum 70)]) = Ok tt.
Proof.
  destruct (merge_params_conflict_free sample_constants
              [("h", VNum 0.7); ("n_s", VNum 0.96)] [("H0", VNum 70)] eq_refl) as [H1 H2].
  split; [apply H1; reflexivity | exact H2].
Defined.

Lemma include_names_spec name confs params v :
  getitem name params = Some v ->
  exists out, include_names name confs params = Ok out /\
    forall k, getitem k out = if mem k confs then Some v else getitem k params.
Proof.
  revert params; induction confs as [|c confs IH]; intros params Hv; simpl.
  - exists params; split; [reflexivity|]. intros k; reflexivity.
  - rewrite Hv.
    assert (Hv' : getitem name (setitem c v params) = Some v).
    { rewrite getitem_setitem. destruct (String.eqb c name); auto. }
    destruct (IH _ Hv') as (out & Ho & Hk).
    exists out; split; [exact Ho|]. intros k. rewrite Hk, getitem_setitem.
    unfold mem; cbn [existsb]. rewrite (String.eqb_sym k c).
    destruct (existsb (String.eqb k) confs), (String.eqb c k); reflexivity.
Qed.

Lemma In_keys_getitem k d : In k (keys d) -> exists v, getitem k d = Some v.
Proof.
  intros H. apply In_keys_contains in H. rewrite contains_getitem in H.
  destruct (getitem k d); [eauto | discriminate].
Qed.

Lemma mem_find_conflicts_trans k n n' :
  mem k (find_conflicts n') = true -> mem n' (find_conflicts n) = true ->
  mem k (find_conflicts n) = true.
Proof.
  rewrite !mem_In. intros H1 H2.
  rewrite <- (find_conflicts_same n n' H2). exact H1.
Qed.

Lemma include_loop_spec names params :
  (forall n, In n names -> exists v, getitem n params = Some v) ->
  exists out, include_loop names params = Ok out /\
    forall k, getitem k out =
      match find (fun n => mem k (find_conflicts n)) names with
      | Some n => getitem n params
      | None => getitem k params
      end.
Proof.
  revert params; induction names as [|n names IH]; intros params Hall; simpl.
  - exists params; split; [reflexivity | intros; reflexivity].
  - destruct (Hall n (or_introl eq_refl)) as [v Hv].
    destruct (include_names_spec n (find_conflicts n) params v Hv) as (p1 & H1 & Hk1).
    rewrite H1.
    assert (Hall1 : forall m, In m names -> exists w, getitem m p1 = Some w).
    { intros m Hm. rewrite Hk1. destruct (mem m (find_conflicts n)); eauto.
      apply Hall; right; exact Hm. }
    destruct (IH p1 Hall1) as (out & Ho & Hk).
    exists out; split; [exact Ho|]. intros k. rewrite Hk.
    destruct (mem k (find_conflicts n)) eqn:Ekn.
    + destruct (find _ names) as [n'|] eqn:Ef.
      * apply find_some in Ef as [_ Ef]. rewrite Hk1.
        assert (E : mem n' (find_conflicts n) = true).
        { apply mem_In. apply mem_In in Ekn, Ef.
          rewrite <- (find_conflicts_same n k Ekn).
          rewrite (find_conflicts_same n' k Ef) at 1.
          eapply find_conflicts_self; eauto. }
        rewrite E. symmetry; exact Hv.
      * rewrite Hk1, Ekn. symmetry; exact Hv.
    + destruct (find _ names) as [n'|] eqn:Ef.
      * apply find_some in Ef as [_ Ef]. rewrite Hk1.
        destruct (mem n' (find_conflicts n)) eqn:E; [|reflexivity].
        rewrite (mem_find_conflicts_trans k n n' Ef E) in Ekn; discriminate.
      * rewrite Hk1, Ekn; reflexivity.
Qed.

(** X4: _include_conflicts never raises, and in its result every name k has
    the value that the input gives to the first key, in the order of the
    input, whose conflict group contains k (so a later key of the same
    group loses its own value); a name in the group of no key keeps its
    entry, or stays absent. *)
Theorem include_conflicts_first_wins (params : dict) :
  exists out, _include_conflicts params = Ok out /\
    forall k, getitem k out =
      match find (fun n => mem k (find_conflicts n)) (keys params) with
      | Some n => getitem n params
      | None => getitem k params
      end.
Proof.
  apply include_loop_spec. intros n; apply In_keys_getitem.
Qed.

(** X5: get_default_parameters(include_conflicts=False) is the table of
    defaults. With include_conflicts=True, the default of the argument,
    the result holds every name of every conflict group (H0 with the value
    0.7 of h, A_s with the value 0.8 of sigma8), so check_params refuses
    it and a Cosmology built from the result of get_default_parameters()
    raises the conflict error for h and H0. A value of 'of' other than
    None, 'cosmology' and 'calculation' raises 'No default parameters'. *)
Theorem default_parameters_list_every_spelling
    (K : constants) (quad : (R -> R) -> R -> R -> R -> R) (dz : list scalar)
    (fuel : nat) (s : store) :
  Cosmology_get_default_parameters K SNone false = Done (get_default_parameters K) /\
  Cosmology_get_default_parameters K SNone true = Done (defaults_with_conflicts K) /\
  (forall g n, In g conflicts -> In n g ->
               contains n (defaults_with_conflicts K) = true) /\
  check_params (defaults_with_conflicts K)
    = Raise (CosmologyError (Conflicting ["h"; "H0"])) /\
  Cosmology_init K quad dz fuel (defaults_with_conflicts K) s
    = (Raise (CosmologyError (Conflicting ["h"; "H0"])), s) /\
  (forall which b,
     which <> SNone -> which <> SStr "cosmology" -> which <> SStr "calculation" ->
     Cosmology_get_default_parameters K which b = Fail (NoDefaultParameters which)).
Proof.
  split; [reflexivity|]. split; [reflexivity|]. split; [|split; [|split]].
  - intros g n Hg Hn.
    assert (E : forallb (fun g => forallb (fun n => contains n (defaults_with_conflicts K)) g)
                        conflicts = true) by reflexivity.
    rewrite forallb_forall in E. specialize (E g Hg).
    rewrite forallb_forall in E. exact (E n Hn).
  - reflexivity.
  - reflexivity.
  - intros which b H1 H2 H3. destruct which as [|x|name]; cbn [Cosmology_get_default_parameters].
    + contradiction H1; reflexivity.
    + reflexivity.
    + destruct (String.eqb_spec name "cosmology") as [->|_];
        [contradiction H2; reflexivity|].
      destruct (String.eqb_spec name "calculation") as [->|_];
        [contradiction H3; reflexivity|].
      reflexivity.
Qed.

(** ** What [compile_params] leaves, keeps and refuses *)

Lemma stage_lists_lengths m T s sg ms ts s' :
  stage_lists m T s = (Ok (sg, ms, ts), s') -> List.length ts = List.length ms.
Proof.
  unfold stage_lists; intros H.
  apply bind_ok in H as (ms' & s1 & H1 & H).
  apply bind_ok in H as (ts' & s2 & H2 & H).
  destruct (Nat.eqb (List.length ts') (List.length ms')) eqn:E; minv H.
  apply Nat.eqb_eq; exact E.
Qed.

Lemma stage_hierarchy_lengths fuel sg m T params s m' T' out s' :
  stage_hierarchy fuel sg m T params s = (Ok (m', T', out), s') ->
  List.length T = List.length m -> List.length T' = List.length m'.
Proof.
  unfold stage_hierarchy; intros H Hl.
  destruct (pop "neutrino_hierarchy" params) as [[v p]|] eqn:E; minv H; auto.
Qed.

Lemma stage_neutrinos_lengths K quad fuel args s m T params s' :
  stage_neutrinos K quad fuel args s = (Ok (m, T, params), s') ->
  List.length T = List.length m.
Proof.
  unfold stage_neutrinos; intros H.
  apply bind_ok in H as (p0 & s0 & H0 & H).
  destruct (getitem "h" p0) as [h|]; [|minv H].
  apply bind_ok in H as (p1 & s1 & H1 & H).
  apply bind_ok in H as (p2 & s2 & H2 & H).
  apply bind_ok in H as (p3 & s3 & H3 & H).
  apply bind_ok in H as (p4 & s4 & H4 & H).
  apply bind_ok in H as ([[m5 T5] p5] & s5 & H5 & H).
  apply bind_ok in H as ([[sg m6] T6] & s6 & H6 & H).
  eapply stage_hierarchy_lengths; [exact H|].
  eapply stage_lists_lengths; eauto.
Qed.

(** A successful run of the first part of [compile_params], stage by
    stage; only the loop over the [omega] entries creates list objects. *)
Lemma stage_neutrinos_stages K quad fuel args s m T params s' :
  stage_neutrinos K quad fuel args s = (Ok (m, T, params), s') ->
  exists p0 h p1 p2 p3 p4 m5 T5 p5 sg m6 T6,
    stage_H0 args s = (Ok p0, s) /\
    getitem "h" p0 = Some h /\
    omega_loop h args p0 s = (Ok p1, s') /\
    (exists t, s' = s ++ t) /\
    set_aliases args aliases p1 s' = (Ok p2, s') /\
    stage_A_s p2 s' = (Ok p3, s') /\
    stage_Omega_g K h p3 s' = (Ok p4, s') /\
    stage_ncdm K quad fuel (get "T_ncdm" (VNum (TNCDM K)) p4) p4 s' = (Ok (m5, T5, p5), s') /\
    stage_lists m5 T5 s' = (Ok (sg, m6, T6), s') /\
    stage_hierarchy fuel sg m6 T6 p5 s' = (Ok (m, T, params), s').
Proof.
  unfold stage_neutrinos; intros H.
  apply bind_ok in H as (p0 & s0 & H0 & H).
  destruct (getitem "h" p0) as [h|] eqn:Eh; [|minv H].
  apply bind_ok in H as (p1 & s1 & H1 & H).
  apply bind_ok in H as (p2 & s2 & H2 & H).
  apply bind_ok in H as (p3 & s3 & H3 & H).
  apply bind_ok in H as (p4 & s4 & H4 & H).
  apply bind_ok in H as ([[m5 T5] p5] & s5 & H5 & H).
  apply bind_ok in H as ([[sg m6] T6] & s6 & H6 & H).
  pose proof (pure_stage_H0 _ _ _ _ H0); subst s0.
  pose proof (pure_set_aliases _ _ _ _ _ _ H2); subst s2.
  pose proof (pure_stage_A_s _ _ _ _ H3); subst s3.
  pose proof (pure_stage_Omega_g _ _ _ _ _ _ H4); subst s4.
  pose proof (pure_stage_ncdm _ _ _ _ _ _ _ _ H5); subst s5.
  pose proof (pure_stage_lists _ _ _ _ _ H6); subst s6.
  pose proof (pure_stage_hierarchy _ _ _ _ _ _ _ _ H); subst s'.
  exists p0, h, p1, p2, p3, p4, m5, T5, p5, sg, m6, T6.
  repeat split; auto. eapply allocates_omega_loop; eauto.
Qed.

Lemma before_ncdm_keys K args s p0 h p1 s1 p2 p3 p4 :
  stage_H0 args s = (Ok p0, s) ->
  omega_loop h args p0 s = (Ok p1, s1) ->
  set_aliases args aliases p1 s1 = (Ok p2, s1) ->
  stage_A_s p2 s1 = (Ok p3, s1) ->
  stage_Omega_g K h p3 s1 = (Ok p4, s1) ->
  forall k, omega_key k = false -> ~ In k early_names ->
            getitem k p4 = getitem k args.
Proof.
  intros H0 H1 H2 H3 H4 k Hk1 Hk2.
  rewrite (stage_Omega_g_keys _ _ _ _ _ _ H4),
          (stage_A_s_keys _ _ _ _ H3),
          (set_aliases_keys _ _ _ _ _ _ H2),
          (omega_loop_keys _ _ _ _ _ _ H1),
          (stage_H0_keys _ _ _ _ H0); auto;
    intros HIn; apply Hk2; unfold early_names, alias_names;
    simpl in HIn |- *; tauto.
Qed.

Ltac not_in_names := unfold early_names, alias_names; simpl; intuition discriminate.

(** The lists that the length check of [compile_params] compares, when the
    input holds [m_ncdm] and [T_ncdm] as lists or arrays. *)
Lemma compile_params_lists K quad dz fuel args s out s' m T ms ts :
  compile_params K quad dz fuel args s = (Ok out, s') ->
  getitem "m_ncdm" args = Some m -> elements m s = Some ms ->
  getitem "T_ncdm" args = Some T -> elements T s = Some ts ->
  List.length ts = List.length ms.
Proof.
  intros H Hm Hms HT Hts.
  destruct (compile_params_inv _ _ _ _ _ _ _ _ H)
    as (m1 & T1 & q1 & s1 & q2 & s2 & q3 & Hn & _).
  clear H.
  destruct (stage_neutrinos_stages _ _ _ _ _ _ _ _ _ Hn)
    as (p0 & h & p1 & p2 & p3 & p4 & m5 & T5 & p5 & sg & m6 & T6 &
        H0 & Hh & H1 & [t Hs] & H2 & H3 & H4 & H5 & H6 & H7).
  pose proof (before_ncdm_keys _ _ _ _ _ _ _ _ _ _ H0 H1 H2 H3 H4) as F.
  assert (Em : getitem "m_ncdm" p4 = Some m)
    by (rewrite F; [exact Hm | reflexivity | not_in_names]).
  assert (ET : getitem "T_ncdm" p4 = Some T)
    by (rewrite F; [exact HT | reflexivity | not_in_names]).
  unfold stage_ncdm, pop in H5. rewrite Em in H5. unfold get in H5. rewrite ET in H5.
  minv H5.
  unfold stage_lists in H6.
  destruct m as [x|p|a]; [discriminate| |]; destruct T as [y|q|b]; try discriminate;
    simpl in Hms, Hts; cbn [ndim0 make_list broadcast] in H6;
    apply bind_ok in H6 as (ms' & u1 & E1 & H6);
    apply bind_ok in H6 as (ts' & u2 & E2 & H6);
    destruct (Nat.eqb (List.length ts') (List.length ms')) eqn:Elen; minv H6;
    apply Nat.eqb_eq in Elen;
    repeat match goal with
    | Hd : deref ?p ?s = (Ok _, _) |- _ =>
        unfold deref in Hd;
        match type of Hd with
        | context [nth_error (?s0 ++ ?t0) ?p0] =>
            rewrite (nth_error_ext s0 t0 p0 _ ltac:(eassumption)) in Hd
        end; inversion Hd; subst; clear Hd
    | Hr : ret _ _ = (Ok _, _) |- _ => apply ret_ok in Hr as [? ?]; subst
    end;
    repeat match goal with
    | Hs : Some _ = Some _ |- _ => inversion Hs; subst; clear Hs
    end; congruence.
Qed.

Lemma contains_setitem k k' v d :
  contains k (setitem k' v d) = String.eqb k' k || contains k d.
Proof.
  rewrite !contains_getitem, getitem_setitem.
  destruct (String.eqb k' k); reflexivity.
Qed.

Lemma contains_delitem k k' d :
  contains k (delitem k' d) = negb (String.eqb k' k) && contains k d.
Proof.
  rewrite !contains_getitem, getitem_delitem.
  destruct (String.eqb k' k); reflexivity.
Qed.

Lemma set_aliases_app args l1 l2 params s :
  set_aliases args (l1 ++ l2) params s =
  (p <- set_aliases args l1 params ;; set_aliases args l2 p) s.
Proof.
  revert params s; induction l1 as [|a l1 IH]; intros params s; simpl.
  - reflexivity.
  - unfold bind. destruct (set_alias args a params s) as [[p|e] s1]; [|reflexivity].
    rewrite IH. reflexivity.
Qed.

(** An alias spelling of the input is gone once its call of [set_alias]
    has run. *)
Lemma set_aliases_popped args l params s out s' an :
  set_aliases args l params s = (Ok out, s') ->
  ~ In an (map fst l) ->
  getitem an params = None \/ (contains an args = true /\ In an (map snd l)) ->
  getitem an out = None.
Proof.
  revert params s; induction l as [|[pn0 an0] l IH]; intros params s H Hfst Hc; simpl in H.
  - minv H. destruct Hc as [Hc|[_ []]]; exact Hc.
  - apply bind_ok in H as (p1 & s1 & H1 & H).
    eapply IH; [exact H | intros HIn; apply Hfst; right; exact HIn |].
    assert (Hpn : pn0 <> an) by (intros ->; apply Hfst; left; reflexivity).
    unfold set_alias in H1.
    destruct (contains an0 args) eqn:Ec.
    + destruct (pop an0 params) as [[v p]|] eqn:Ep; [|minv H1].
      minv H1. apply pop_some in Ep as [_ ->].
      rewrite getitem_setitem_neq by exact Hpn. rewrite getitem_delitem.
      destruct (String.eqb_spec an0 an) as [->|Hne]; [left; reflexivity|].
      destruct Hc as [Hc|[Hc1 [Hc2|Hc2]]]; [left; exact Hc | contradiction | right; auto].
    + minv H1. destruct Hc as [Hc|[Hc1 [Hc2|Hc2]]]; [left; exact Hc | | right; auto].
      simpl in Hc2; subst an0. congruence.
Qed.

(** The second call [set_alias('Omega_ncdm', 'Omega0_ncdm')] finds the name
    already removed by the first. *)
Lemma set_aliases_Omega0_ncdm args params s r s' :
  contains "Omega0_ncdm" args = true ->
  set_aliases args aliases params s = (r, s') -> exists e, r = Raise e.
Proof.
  intros Hc H. destruct r as [out|e]; [exfalso | eauto].
  change aliases with
    ([ ("T_cmb", "T0_cmb"); ("Omega_m", "Omega0_m"); ("Omega_cdm", "Omega0_cdm");
       ("Omega_cdm", "Omega_c"); ("Omega_ncdm", "Omega0_ncdm");
       ("Omega_b", "Omega0_b"); ("Omega_k", "Omega0_k"); ("Omega_ur", "Omega0_ur");
       ("Omega_Lambda", "Omega_lambda"); ("Omega_Lambda", "Omega0_lambda");
       ("Omega_Lambda", "Omega0_Lambda"); ("Omega_fld", "Omega0_fld") ] ++
     [ ("Omega_ncdm", "Omega0_ncdm"); ("Omega_g", "Omega0_g") ]) in H.
  rewrite set_aliases_app in H.
  apply bind_ok in H as (p1 & s1 & H1 & H).
  apply set_aliases_popped with (an := "Omega0_ncdm") in H1.
  - cbn [set_aliases] in H. apply bind_ok in H as (p2 & s2 & H2 & _).
    unfold set_alias in H2. rewrite Hc in H2. unfold pop in H2. rewrite H1 in H2.
    discriminate.
  - simpl; intuition discriminate.
  - right; split; [exact Hc | simpl; tauto].
Qed.

(** X6: compile_params never returns a mapping for an input that has the key
    Omega0_ncdm: set_alias('Omega_ncdm', 'Omega0_ncdm') is called twice,
    and the second call pops a key that the first one has removed
    (KeyError), unless an earlier stage has raised. *)
Theorem Omega0_ncdm_is_never_compiled
    (K : constants) (quad : (R -> R) -> R -> R -> R -> R) (dz : list scalar)
    (fuel : nat) (args : dict) (s : store) (r : outcome dict) (s' : store) :
  contains "Omega0_ncdm" args = true ->
  compile_params K quad dz fuel args s = (r, s') ->
  exists e, r = Raise e.
Proof.
  intros Hc H. destruct r as [out|e]; [exfalso | eauto].
  destruct (compile_params_inv _ _ _ _ _ _ _ _ H)
    as (m1 & T1 & q1 & s1 & q2 & s2 & q3 & Hn & _).
  destruct (stage_neutrinos_stages _ _ _ _ _ _ _ _ _ Hn)
    as (p0 & h & p1 & p2 & p3 & p4 & m5 & T5 & p5 & sg & m6 & T6 &
        H0 & Hh & H1 & _ & H2 & _).
  destruct (set_aliases_Omega0_ncdm _ _ _ _ _ Hc H2) as [e He]; discriminate.
Qed.

Lemma Omega0_ncdm_is_never_compiled_witness :
  compile_params sample_constants no_quad sample_z 0
    [("h", VNum 0.7); ("Omega0_ncdm", VNum 0.001)] []
    = (Raise (KeyError "Omega0_ncdm"), []) /\
  exists e, (Raise (KeyError "Omega0_ncdm") : outcome dict) = Raise e.
Proof.
  assert (H : compile_params sample_constants no_quad sample_z 0
                [("h", VNum 0.7); ("Omega0_ncdm", VNum 0.001)] []
              = (Raise (KeyError "Omega0_ncdm"), [])) by reflexivity.
  split; [exact H|].
  exact (Omega0_ncdm_is_never_compiled sample_constants no_quad sample_z 0
           [("h", VNum 0.7); ("Omega0_ncdm", VNum 0.001)] [] _ [] eq_refl H).
Defined.

(** ** Presence *)
Lemma replace_not_omega name :
  startswith "omega" name = true ->
  startswith "omega" (replace "omega" "Omega" name) = false.
Proof.
  intros H. apply replace_omega_prefix in H.
  destruct (replace "omega" "Omega" name) as [|a r]; [discriminate|].
  cbn [startswith] in H. apply andb_true_iff in H as [H _].
  apply Ascii.eqb_eq in H; subst a. reflexivity.
Qed.

(** A name that does not start with [omega] is never removed by the loop
    over the [omega] entries. *)
Lemma omega_loop_present h items params s out s' k :
  omega_loop h items params s = (Ok out, s') ->
  startswith "omega" k = false ->
  contains k params = true -> contains k out = true.
Proof.
  revert params s; induction items as [|[name v] items IH]; intros params s H Hk Hc; simpl in H.
  - minv H; exact Hc.
  - destruct (startswith "omega" name) eqn:P; [|eauto].
    destruct (pop name params) as [[omega params']|] eqn:Ep; [|minv H].
    minv H. apply pop_some in Ep as [_ ->].
    eapply IH; [exact H | exact Hk |].
    rewrite contains_setitem, contains_delitem, Hc.
    destruct (String.eqb_spec name k) as [->|_]; [congruence|].
    apply orb_true_r.
Qed.

(** Every [omega] entry of the input leaves its capitalised name. *)
Lemma omega_loop_sets h items params s out s' name :
  omega_loop h items params s = (Ok out, s') ->
  In name (keys items) -> startswith "omega" name = true ->
  contains (replace "omega" "Omega" name) out = true.
Proof.
  revert params s; induction items as [|[name0 v] items IH]; intros params s H HIn P; simpl in H.
  - contradiction.
  - destruct HIn as [E|HIn].
    + simpl in E; subst name0. rewrite P in H.
      destruct (pop name params) as [[omega params']|] eqn:Ep; [|minv H].
      minv H.
      eapply omega_loop_present; [exact H | apply replace_not_omega; exact P |].
      rewrite contains_setitem, String.eqb_refl; reflexivity.
    + destruct (startswith "omega" name0) eqn:P0; [|eauto].
      destruct (pop name0 params) as [[omega params']|] eqn:Ep; [|minv H].
      minv H. eauto.
Qed.

(** At the end of the loop no name starts with [omega]. *)
Lemma omega_loop_no_omega h items params s out s' :
  omega_loop h items params s = (Ok out, s') ->
  (forall k, startswith "omega" k = true -> contains k params = true ->
             In k (keys items)) ->
  forall k, startswith "omega" k = true -> contains k out = false.
Proof.
  revert params s; induction items as [|[name v] items IH]; intros params s H Hall k Hk;
    simpl in H.
  - minv H. destruct (contains k out) eqn:E; [|reflexivity].
    destruct (Hall k Hk E).
  - destruct (startswith "omega" name) eqn:P.
    + destruct (pop name params) as [[omega params']|] eqn:Ep; [|minv H].
      minv H. apply pop_some in Ep as [_ ->].
      eapply IH; [exact H | | exact Hk].
      intros k' Hk' Hc. rewrite contains_setitem, contains_delitem in Hc.
      destruct (String.eqb_spec (replace "omega" "Omega" name) k') as [E|_].
      * rewrite <- E, replace_not_omega in Hk' by exact P. discriminate.
      * simpl in Hc. destruct (String.eqb_spec name k') as [E|Hne]; [discriminate|].
        simpl in Hc. destruct (Hall k' Hk' Hc) as [E|HIn]; [contradiction | exact HIn].
    + eapply IH; [exact H | | exact Hk].
      intros k' Hk' Hc. destruct (Hall k' Hk' Hc) as [E|HIn]; [|exact HIn].
      simpl in E; subst k'. congruence.
Qed.

Lemma omega_loop_frame h items params s out s' k :
  omega_loop h items params s = (Ok out, s') ->
  startswith "omega" k = false -> renamed_to items k = false ->
  getitem k out = getitem k params.
Proof.
  revert params s; induction items as [|[name v] items IH]; intros params s H Hk Hr;
    simpl in H.
  - minv H; reflexivity.
  - unfold renamed_to in Hr; cbn [keys map existsb fst] in Hr.
    apply orb_false_iff in Hr as [Hr1 Hr2].
    destruct (startswith "omega" name) eqn:P; [|eapply IH; eauto].
    destruct (pop name params) as [[omega params']|] eqn:Ep; [|minv H].
    minv H. apply pop_some in Ep as [_ ->].
    rewrite (IH _ _ H Hk Hr2).
    simpl in Hr1. apply String.eqb_neq in Hr1.
    rewrite getitem_setitem_neq, getitem_delitem_neq; auto.
    intros ->; congruence.
Qed.

Lemma set_alias_present args names params s out s' k :
  set_alias args names params s = (Ok out, s') ->
  k <> snd names -> contains k params = true -> contains k out = true.
Proof.
  destruct names as [pn an]; unfold set_alias; intros H Hk Hc.
  destruct (contains an args); [|minv H; exact Hc].
  destruct (pop an params) as [[v p]|] eqn:Ep; [|minv H].
  minv H. apply pop_some in Ep as [_ ->].
  rewrite contains_setitem, contains_delitem, Hc.
  destruct (String.eqb_spec an k) as [->|_]; [contradiction Hk; reflexivity|].
  apply orb_true_r.
Qed.

(** A name that is not an alias spelling is never removed by the calls of
    [set_alias]. *)
Lemma set_aliases_present args l params s out s' k :
  set_aliases args l params s = (Ok out, s') ->
  ~ In k (map snd l) -> contains k params = true -> contains k out = true.
Proof.
  revert params s; induction l as [|names l IH]; intros params s H Hk Hc; simpl in H.
  - minv H; exact Hc.
  - apply bind_ok in H as (p1 & s1 & H1 & H).
    eapply IH; [exact H | intros HIn; apply Hk; right; exact HIn |].
    eapply set_alias_present; eauto. intros ->; apply Hk; left; reflexivity.
Qed.

(** An alias spelling of the input leaves its canonical name. *)
Lemma set_aliases_sets args l params s out s' pn an :
  set_aliases args l params s = (Ok out, s') ->
  In (pn, an) l -> contains an args = true -> ~ In pn (map snd l) ->
  contains pn out = true.
Proof.
  revert params s; induction l as [|names l IH]; intros params s H HIn Hc Hpn; simpl in H.
  - contradiction.
  - apply bind_ok in H as (p1 & s1 & H1 & H).
    assert (Hpn' : ~ In pn (map snd l)) by (intros HI; apply Hpn; right; exact HI).
    destruct HIn as [->|HIn]; [|eauto].
    eapply set_aliases_present; [exact H | exact Hpn' |].
    unfold set_alias in H1. rewrite Hc in H1.
    destruct (pop an params) as [[v p]|] eqn:Ep; [|minv H1].
    minv H1. rewrite contains_setitem, String.eqb_refl; reflexivity.
Qed.

(** The entries that the calls of [set_alias] leave as they are: those
    whose name is neither an alias spelling nor the canonical name of an
    alias spelling of the input. *)
Lemma set_aliases_frame args l params s out s' k :
  set_aliases args l params s = (Ok out, s') ->
  ~ In k (map snd l) ->
  (forall an, In (k, an) l -> contains an args = false) ->
  getitem k out = getitem k params.
Proof.
  revert params s; induction l as [|[pn an] l IH]; intros params s H Hk Ha; simpl in H.
  - minv H; reflexivity.
  - apply bind_ok in H as (p1 & s1 & H1 & H).
    rewrite (IH _ _ H); [| intros HIn; apply Hk; right; exact HIn
                         | intros an' HIn; apply Ha; right; exact HIn].
    unfold set_alias in H1.
    destruct (contains an args) eqn:Ec; [|minv H1; reflexivity].
    destruct (pop an params) as [[v p]|] eqn:Ep; [|minv H1].
    minv H1. apply pop_some in Ep as [_ ->].
    rewrite getitem_setitem_neq, getitem_delitem_neq; auto.
    + intros ->; apply Hk; left; reflexivity.
    + intros ->. rewrite (Ha an) in Ec; [discriminate | left; reflexivity].
Qed.

(** ** Later stages: what they set *)
Lemma stage_A_s_sets params s out s' :
  stage_A_s params s = (Ok out, s') ->
  contains "ln10^{10}A_s" params = true \/ contains "A_s" params = true ->
  contains "A_s" out = true.
Proof.
  unfold stage_A_s; intros H Hc.
  destruct (pop "ln10^{10}A_s" params) as [[v p]|] eqn:Ep.
  - apply bind_ok in H as (x & s1 & _ & H). minv H.
    rewrite contains_setitem, String.eqb_refl; reflexivity.
  - minv H. destruct Hc as [Hc|Hc]; [|exact Hc].
    apply pop_none in Ep. rewrite contains_getitem, Ep in Hc; discriminate.
Qed.

Lemma stage_A_s_absent params s out s' :
  stage_A_s params s = (Ok out, s') -> getitem "ln10^{10}A_s" out = None.
Proof.
  unfold stage_A_s; intros H.
  destruct (pop "ln10^{10}A_s" params) as [[v p]|] eqn:Ep.
  - apply bind_ok in H as (x & s1 & _ & H). minv H. apply pop_some in Ep as [_ ->].
    rewrite getitem_setitem_neq by discriminate. apply getitem_delitem_eq.
  - minv H. apply pop_none in Ep; exact Ep.
Qed.

Lemma stage_Omega_g_sets K h params s out s' :
  stage_Omega_g K h params s = (Ok out, s') ->
  contains "Omega_g" params = true \/ contains "T_cmb" params = true ->
  contains "T_cmb" out = true.
Proof.
  unfold stage_Omega_g; intros H Hc.
  destruct (pop "Omega_g" params) as [[v p]|] eqn:Ep.
  - minv H. rewrite contains_setitem, String.eqb_refl; reflexivity.
  - minv H. destruct Hc as [Hc|Hc]; [|exact Hc].
    apply pop_none in Ep. rewrite contains_getitem, Ep in Hc; discriminate.
Qed.

Lemma stage_Omega_g_absent K h params s out s' :
  stage_Omega_g K h params s = (Ok out, s') -> getitem "Omega_g" out = None.
Proof.
  unfold stage_Omega_g; intros H.
  destruct (pop "Omega_g" params) as [[v p]|] eqn:Ep.
  - minv H. apply pop_some in Ep as [_ ->].
    rewrite getitem_setitem_neq by discriminate. apply getitem_delitem_eq.
  - minv H. apply pop_none in Ep; exact Ep.
Qed.

Lemma stage_Omega_m_sets K quad params s out s' :
  stage_Omega_m K quad params s = (Ok out, s') ->
  contains "Omega_m" params = true \/ contains "Omega_cdm" params = true ->
  contains "Omega_cdm" out = true.
Proof.
  unfold stage_Omega_m; intros H Hc.
  destruct (contains "Omega_m" params) eqn:Ec.
  - apply bind_ok in H as (? & ? & _ & H). apply bind_ok in H as (? & ? & _ & H).
    apply bind_ok in H as (? & ? & _ & H).
    destruct (pop "Omega_m" params) as [[v p]|] eqn:E; [|minv H].
    minv H. rewrite contains_setitem, String.eqb_refl; reflexivity.
  - minv H. destruct Hc as [Hc|Hc]; [discriminate | exact Hc].
Qed.

Lemma stage_Omega_m_absent K quad params s out s' :
  stage_Omega_m K quad params s = (Ok out, s') -> getitem "Omega_m" out = None.
Proof.
  unfold stage_Omega_m; intros H.
  destruct (contains "Omega_m" params) eqn:Ec.
  - apply bind_ok in H as (? & ? & _ & H). apply bind_ok in H as (? & ? & _ & H).
    apply bind_ok in H as (? & ? & _ & H).
    destruct (pop "Omega_m" params) as [[v p]|] eqn:E; [|minv H].
    minv H. apply pop_some in E as [_ ->].
    rewrite getitem_setitem_neq by discriminate. apply getitem_delitem_eq.
  - minv H. rewrite contains_getitem in Ec.
    destruct (getitem "Omega_m" out); [discriminate | reflexivity].
Qed.

Lemma stage_ncdm_absent K quad fuel T params s m T' out s' :
  stage_ncdm K quad fuel T params s = (Ok (m, T', out), s') ->
  getitem "m_ncdm" out = None /\
  (getitem "m_ncdm" params = None -> getitem "Omega_ncdm" out = None).
Proof.
  unfold stage_ncdm; intros H.
  destruct (pop "m_ncdm" params) as [[v p]|] eqn:E1.
  - minv H. apply pop_some in E1 as [E1 ->]. split; [apply getitem_delitem_eq|].
    rewrite E1; discriminate.
  - apply pop_none in E1.
    destruct (pop "Omega_ncdm" params) as [[v p]|] eqn:E2.
    + apply bind_ok in H as (? & ? & _ & H). apply bind_ok in H as (? & ? & _ & H).
      destruct (getitem "h" p); [|minv H].
      apply bind_ok in H as (? & ? & _ & H).
      apply pop_some in E2 as [_ ->].
      minv H; (split; [rewrite getitem_delitem_neq by discriminate; exact E1
                      | intros _; apply getitem_delitem_eq]).
    + apply pop_none in E2. minv H. auto.
Qed.

Lemma stage_hierarchy_absent fuel single m T params s m' T' out s' :
  stage_hierarchy fuel single m T params s = (Ok (m', T', out), s') ->
  getitem "neutrino_hierarchy" out = None.
Proof.
  unfold stage_hierarchy; intros H.
  destruct (pop "neutrino_hierarchy" params) as [[v p]|] eqn:E.
  - apply pop_some in E as [_ ->]. minv H; apply getitem_delitem_eq.
  - apply pop_none in E. minv H; exact E.
Qed.

(** What the accounting stores. *)
Lemma stage_N_ur_sets K m T p1 s1 p2 s2 :
  stage_N_ur K m T p1 s1 = (Ok p2, s2) ->
  contains "Omega_ur" p1 = false /\
  exists N ms Tv,
    getitem "N_ur" p2 = Some N /\
    getitem "m_ncdm" p2 = Some (VList (List.length s1)) /\
    nth_error s2 (List.length s1) = Some ms /\
    getitem "T_ncdm" p2 = Some Tv /\
    ((get "N_ur" VNone p1 = VNone /\ ms = filter heavy m /\ Tv = VArr T /\
      s2 = s1 ++ [ms]) \/
     (get "N_ur" VNone p1 <> VNone /\ N = get "N_ur" VNone p1 /\ ms = m /\
      Tv = VList (S (List.length s1)) /\ s2 = s1 ++ [m; T])).
Proof.
  intros H. unfold stage_N_ur in H.
  destruct (contains "Omega_ur" p1); [minv H|]. split; [reflexivity|].
  apply bind_ok in H as ([[[N m'] T'] p] & s3 & H1 & H).
  destruct (get "N_ur" VNone p1) as [[| |]| |] eqn:EN.
  1: { apply bind_ok in H1 as ([[[N0 m0] T0] p0] & s4 & Hd & H1).
       apply derive_N_ur_spec in Hd
         as (N_eff & temps & HNe & Ht & -> & Hpos & -> & -> & -> & ->).
       minv H1. cbn [store_local] in H.
       apply bind_ok in H as (v & s5 & Hv & H).
       apply bind_ok in Hv as (q & s6 & Hq & Hv). minv Hv.
       unfold alloc in Hq; inversion Hq; subst. minv H.
       match goal with
       | Hr : ret _ _ = (Ok _, _) |- _ => apply ret_ok in Hr as [? ?]; subst
       end.
       eexists; eexists; eexists. split; [|split; [|split; [|split]]].
       - rewrite getitem_setitem_neq, getitem_setitem_neq, getitem_setitem_eq
           by discriminate. reflexivity.
       - rewrite getitem_setitem_neq, getitem_setitem_eq by discriminate. reflexivity.
       - rewrite nth_error_app2, Nat.sub_diag by lia. reflexivity.
       - rewrite getitem_setitem_eq. reflexivity.
       - left; auto. }
  all: minv H1; cbn [store_local] in H;
    apply bind_ok in H as (v & s5 & Hv & H);
    apply bind_ok in Hv as (q & s6 & Hq & Hv); minv Hv;
    unfold alloc in Hq; inversion Hq; subst;
    apply bind_ok in H as (v2 & s7 & Hv2 & H);
    apply bind_ok in Hv2 as (q2 & s8 & Hq2 & Hv2); minv Hv2;
    unfold alloc in Hq2; inversion Hq2; subst; minv H;
    (eexists; eexists; eexists; split; [|split; [|split; [|split]]];
     [ rewrite getitem_setitem_neq, getitem_setitem_neq, getitem_setitem_eq
         by discriminate; reflexivity
     | rewrite getitem_setitem_neq, getitem_setitem_eq by discriminate; reflexivity
     | rewrite <- app_assoc; rewrite nth_error_app2, Nat.sub_diag by lia; reflexivity
     | rewrite getitem_setitem_eq; reflexivity
     | right; repeat split;
       [ discriminate
       | rewrite length_app; simpl; f_equal; f_equal; lia
       | rewrite <- app_assoc; reflexivity ] ]).
Qed.

Lemma wrap_scalar_sets name params s out s' :
  wrap_scalar name params s = (Ok out, s') ->
  exists v, getitem name out = Some v /\ ndim0 (Old v) = false.
Proof.
  unfold wrap_scalar; intros H.
  destruct (getitem name params) as [[x|p|a]|] eqn:E; minv H.
  - eexists; split; [apply getitem_setitem_eq | reflexivity].
  - eexists; split; [exact E | reflexivity].
  - eexists; split; [exact E | reflexivity].
Qed.

(** After the stage of [z_pk], both [z_pk] and [modes] hold a list or an
    array. *)
Lemma stage_z_pk_sets dz params s out s' :
  stage_z_pk dz params s = (Ok out, s') ->
  exists z mo, getitem "z_pk" out = Some z /\ ndim0 (Old z) = false /\
               getitem "modes" out = Some mo /\ ndim0 (Old mo) = false.
Proof.
  unfold stage_z_pk; intros H.
  apply bind_ok in H as (p1 & s1 & H1 & H).
  apply append_zero_keys in H; subst p1.
  unfold stage_defaults in H1.
  apply bind_ok in H1 as (q1 & t1 & _ & H1).
  apply bind_ok in H1 as (q2 & t2 & H2 & H3).
  destruct (wrap_scalar_sets _ _ _ _ _ H2) as (mo & Hmo & Hmo').
  destruct (wrap_scalar_sets _ _ _ _ _ H3) as (z & Hz & Hz').
  exists z, mo; repeat split; auto.
  rewrite (wrap_scalar_keys _ _ _ _ _ H3) by discriminate. exact Hmo.
Qed.

Lemma store_set_length s l c : List.length (store_set s l c) = List.length s.
Proof.
  revert l; induction s as [|x s IH]; intros [|l]; simpl; auto.
Qed.

Lemma stage_z_pk_length dz params s r s' :
  stage_z_pk dz params s = (r, s') -> (List.length s <= List.length s')%nat.
Proof.
  unfold stage_z_pk; intros H.
  apply bind_inv in H as [(e & H & _)|(p1 & s1 & H1 & H)].
  - destruct (allocates_stage_defaults _ _ _ _ _ H) as [t ->].
    rewrite length_app; lia.
  - destruct (allocates_stage_defaults _ _ _ _ _ H1) as [t ->].
    assert (L : List.length s' = List.length (s ++ t)).
    { unfold append_zero in H.
      destruct (getitem "z_pk" p1) as [[x|q|a]|]; try (inversion H; reflexivity).
      - unfold bind, deref in H. destruct (nth_error (s ++ t) q) as [l|] eqn:El;
          [|inversion H; reflexivity].
        destruct (existsb is_zero l); [inversion H; reflexivity|].
        unfold append in H; rewrite El in H; simpl in H. inversion H; subst.
        apply store_set_length.
      - destruct (existsb is_zero a); inversion H; reflexivity. }
    rewrite L, length_app; lia.
Qed.

Lemma compile_params_leaves
    (K : constants) (quad : (R -> R) -> R -> R -> R -> R) (dz : list scalar)
    (fuel : nat) (args : dict) (s : store) (out : dict) (s' : store) :
  compile_params K quad dz fuel args s = (Ok out, s') ->
  (forall k, startswith "omega" k = true -> getitem k out = None) /\
  (forall k, In k ["H0"; "ln10^{10}A_s"; "Omega_g"; "neutrino_hierarchy";
                   "Omega_ur"; "Omega_m"] -> getitem k out = None) /\
  (forall k, In k (map snd aliases) -> contains k args = true -> getitem k out = None) /\
  exists h N p T z mo,
    getitem "h" out = Some h /\ getitem "N_ur" out = Some N /\
    getitem "m_ncdm" out = Some (VList p) /\ (p < List.length s')%nat /\
    getitem "T_ncdm" out = Some T /\ ndim0 (Old T) = false /\
    getitem "z_pk" out = Some z /\ ndim0 (Old z) = false /\
    getitem "modes" out = Some mo /\ ndim0 (Old mo) = false.
Proof.
  intros H.
  destruct (compile_params_inv _ _ _ _ _ _ _ _ H)
    as (m & T & q1 & s1 & q2 & s2 & q3 & Hn & HN & Hz & HO).
  destruct (stage_neutrinos_stages _ _ _ _ _ _ _ _ _ Hn)
    as (p0 & h & p1 & p2 & p3 & p4 & m5 & T5 & p5 & sg & m6 & T6 &
        H0 & Hh & H1 & [t Hs] & H2 & H3 & H4 & H5 & H6 & H7).
  (* the entries from the accounting on *)
  assert (Late : forall k, ~ In k ["N_eff"; "N_ur"; "m_ncdm"; "T_ncdm"; "z_pk"; "modes";
                                   "Omega_m"; "Omega_cdm"] ->
                           getitem k out = getitem k q1).
  { intros k Hk.
    rewrite (stage_Omega_m_keys _ _ _ _ _ _ HO),
            (stage_z_pk_keys _ _ _ _ _ Hz),
            (stage_N_ur_keys _ _ _ _ _ _ _ HN); auto;
      intros HIn; apply Hk; simpl in HIn |- *; tauto. }
  (* the entries from the neutrino branch on *)
  assert (Mid : forall k, ~ In k ["m_ncdm"; "Omega_ncdm"; "neutrino_hierarchy"] ->
                          getitem k q1 = getitem k p4).
  { intros k Hk.
    rewrite (stage_hierarchy_keys _ _ _ _ _ _ _ _ _ _ H7),
            (stage_ncdm_keys _ _ _ _ _ _ _ _ _ _ H5); auto;
      intros HIn; apply Hk; simpl in HIn |- *; tauto. }
  split; [|split; [|split]].
  - (* no name starts with omega *)
    intros k Hk.
    assert (E1 : contains k p1 = false).
    { eapply omega_loop_no_omega; [exact H1 | | exact Hk].
      intros k' Hk' Hc. apply In_keys_contains.
      rewrite contains_getitem in Hc |- *.
      rewrite <- (stage_H0_keys _ _ _ _ H0 k'); [exact Hc|].
      simpl; intros [<-|[<-|[]]]; discriminate. }
    assert (Hne : forall l, forallb (fun n => negb (startswith "omega" n)) l = true ->
                            ~ In k l).
    { intros l Hl HIn. rewrite forallb_forall in Hl. apply Hl in HIn.
      rewrite Hk in HIn; discriminate. }
    rewrite Late, Mid by (apply Hne; reflexivity).
    rewrite (stage_Omega_g_keys _ _ _ _ _ _ H4),
            (stage_A_s_keys _ _ _ _ H3),
            (set_aliases_keys _ _ _ _ _ _ H2) by (apply Hne; reflexivity).
    rewrite contains_getitem in E1. destruct (getitem k p1); [discriminate | reflexivity].
  - intros k Hk. simpl in Hk.
    destruct Hk as [<-|[<-|[<-|[<-|[<-|[<-|[]]]]]]].
    + (* H0 *)
      rewrite Late, Mid by (simpl; intuition discriminate).
      rewrite (stage_Omega_g_keys _ _ _ _ _ _ H4),
              (stage_A_s_keys _ _ _ _ H3),
              (set_aliases_keys _ _ _ _ _ _ H2),
              (omega_loop_keys _ _ _ _ _ _ H1)
        by (try reflexivity; simpl; intuition discriminate).
      unfold stage_H0 in H0. destruct (pop "H0" args) as [[v p]|] eqn:Ep.
      * minv H0. apply pop_some in Ep as [_ ->].
        rewrite getitem_setitem_neq by discriminate. apply getitem_delitem_eq.
      * minv H0. apply pop_none in Ep; exact Ep.
    + rewrite Late, Mid by (simpl; intuition discriminate).
      rewrite (stage_Omega_g_keys _ _ _ _ _ _ H4) by (simpl; intuition discriminate).
      eapply stage_A_s_absent; eauto.
    + rewrite Late, Mid by (simpl; intuition discriminate).
      eapply stage_Omega_g_absent; eauto.
    + rewrite Late by (simpl; intuition discriminate).
      eapply stage_hierarchy_absent; eauto.
    + rewrite Late by (simpl; intuition discriminate).
      destruct (stage_N_ur_sets _ _ _ _ _ _ _ HN) as [Hur _].
      rewrite contains_getitem in Hur.
      destruct (getitem "Omega_ur" q1); [discriminate | reflexivity].
    + eapply stage_Omega_m_absent; eauto.
  - intros k Hk Hc.
    assert (E2 : getitem k p2 = None).
    { eapply set_aliases_popped; [exact H2 | | right; split; assumption].
      intros HIn. simpl in Hk, HIn.
      repeat (destruct Hk as [<-|Hk]; [simpl in HIn; intuition discriminate|]).
      contradiction. }
    assert (Hk' : ~ In k ["N_eff"; "N_ur"; "m_ncdm"; "T_ncdm"; "z_pk"; "modes";
                          "Omega_m"; "Omega_cdm"; "Omega_ncdm"; "neutrino_hierarchy";
                          "Omega_g"; "T_cmb"; "ln10^{10}A_s"; "A_s"]).
    { intros HIn. simpl in Hk.
      repeat (destruct Hk as [<-|Hk]; [simpl in HIn; intuition discriminate|]).
      contradiction. }
    rewrite Late, Mid by (intros HIn; apply Hk'; simpl in HIn |- *; tauto).
    rewrite (stage_Omega_g_keys _ _ _ _ _ _ H4),
            (stage_A_s_keys _ _ _ _ H3) by (intros HIn; apply Hk'; simpl in HIn |- *; tauto).
    exact E2.
  - destruct (stage_N_ur_sets _ _ _ _ _ _ _ HN)
      as (_ & N & ms & Tv & EN & Em & Es & ET & Hcase).
    destruct (stage_z_pk_sets _ _ _ _ _ Hz) as (z & mo & Ez & Hz' & Emo & Hmo').
    assert (Fz : forall k, ~ In k ["z_pk"; "modes"; "Omega_m"; "Omega_cdm"] ->
                           getitem k out = getitem k q2).
    { intros k Hk.
      rewrite (stage_Omega_m_keys _ _ _ _ _ _ HO),
              (stage_z_pk_keys _ _ _ _ _ Hz); auto;
        intros HIn; apply Hk; simpl in HIn |- *; tauto. }
    exists h, N, (List.length s1), Tv, z, mo.
    repeat split.
    + rewrite Late, Mid by (simpl; intuition discriminate).
      rewrite (stage_Omega_g_keys _ _ _ _ _ _ H4),
              (stage_A_s_keys _ _ _ _ H3),
              (set_aliases_keys _ _ _ _ _ _ H2),
              (omega_loop_keys _ _ _ _ _ _ H1)
        by (try reflexivity; simpl; intuition discriminate).
      exact Hh.
    + rewrite Fz by (simpl; intuition discriminate). exact EN.
    + rewrite Fz by (simpl; intuition discriminate). exact Em.
    + apply stage_z_pk_length in Hz.
      assert (List.length s1 < List.length s2)%nat; [|lia].
      apply nth_error_Some. rewrite Es; discriminate.
    + rewrite Fz by (simpl; intuition discriminate). exact ET.
    + destruct Hcase as [(_ & _ & -> & _)|(_ & _ & _ & -> & _)]; reflexivity.
    + rewrite (stage_Omega_m_keys _ _ _ _ _ _ HO) by (simpl; intuition discriminate).
      exact Ez.
    + exact Hz'.
    + rewrite (stage_Omega_m_keys _ _ _ _ _ _ HO) by (simpl; intuition discriminate).
      exact Emo.
    + exact Hmo'.
Qed.

(** X7: Whenever compile_params returns a mapping, it has no key that starts
    with 'omega', none of the keys H0, ln10^{10}A_s, Omega_g,
    neutrino_hierarchy, Omega_ur and Omega_m, and none of the alias
    spellings (T0_cmb, Omega0_m, Omega0_cdm, Omega_c, ...) that the input
    gave; it has h and N_ur, m_ncdm as a list object of the final store,
    and T_ncdm, z_pk and modes as lists or arrays. *)
Theorem compile_params_normal_form
    (K : constants) (quad : (R -> R) -> R -> R -> R -> R) (dz : list scalar)
    (fuel : nat) (args : dict) (s : store) (out : dict) (s' : store) :
  compile_params K quad dz fuel args s = (Ok out, s') ->
  (forall k, startswith "omega" k = true -> getitem k out = None) /\
  (forall k, In k ["H0"; "ln10^{10}A_s"; "Omega_g"; "neutrino_hierarchy";
                   "Omega_ur"; "Omega_m"] -> getitem k out = None) /\
  (forall k, In k (map snd aliases) -> contains k args = true -> getitem k out = None) /\
  exists h N p T z mo,
    getitem "h" out = Some h /\ getitem "N_ur" out = Some N /\
    getitem "m_ncdm" out = Some (VList p) /\ (p < List.length s')%nat /\
    getitem "T_ncdm" out = Some T /\ ndim0 (Old T) = false /\
    getitem "z_pk" out = Some z /\ ndim0 (Old z) = false /\
    getitem "modes" out = Some mo /\ ndim0 (Old mo) = false.
Proof. exact (compile_params_leaves K quad dz fuel args s out s'). Qed.

Lemma compile_params_normal_form_witness :
  exists out s',
    compile_params sample_constants no_quad sample_z 0
      [("H0", VNum 70); ("omega_b", VNum 0.02); ("ln10^{10}A_s", VNum 3)] [] = (Ok out, s') /\
    getitem "H0" out = None /\ getitem "omega_b" out = None /\
    getitem "ln10^{10}A_s" out = None.
Proof.
  assert (H : exists out s',
    compile_params sample_constants no_quad sample_z 0
      [("H0", VNum 70); ("omega_b", VNum 0.02); ("ln10^{10}A_s", VNum 3)] [] = (Ok out, s')).
  { eexists; eexists. py_run arith. }
  destruct H as (out & s' & H). exists out, s'. split; [exact H|].
  destruct (compile_params_normal_form _ _ _ _ _ _ _ _ H) as (Ho & Hn & _).
  split; [apply Hn; simpl; tauto|]. split; [apply Ho; reflexivity | apply Hn; simpl; tauto].
Defined.

(** ** Presence through the later stages *)
Lemma present_of_keys (params out : dict) k :
  getitem k out = getitem k params -> contains k params = true -> contains k out = true.
Proof. rewrite !contains_getitem; intros ->; auto. Qed.

Lemma stage_H0_present params s out s' k :
  stage_H0 params s = (Ok out, s') -> k <> "H0" ->
  contains k params = true -> contains k out = true.
Proof.
  unfold stage_H0; intros H Hk Hc.
  destruct (pop "H0" params) as [[v p]|] eqn:Ep; minv H; [|exact Hc].
  apply pop_some in Ep as [_ ->].
  rewrite contains_setitem, contains_delitem, Hc.
  destruct (String.eqb_spec "H0" k) as [E|_]; [symmetry in E; contradiction|].
  apply orb_true_r.
Qed.

Lemma stage_A_s_present params s out s' k :
  stage_A_s params s = (Ok out, s') -> k <> "ln10^{10}A_s" ->
  contains k params = true -> contains k out = true.
Proof.
  intros H Hk Hc. destruct (String.eqb_spec k "A_s") as [->|Hne].
  - eapply stage_A_s_sets; eauto.
  - eapply present_of_keys; [|exact Hc].
    eapply stage_A_s_keys; eauto. simpl; intuition.
Qed.

Lemma stage_Omega_g_present K h params s out s' k :
  stage_Omega_g K h params s = (Ok out, s') -> k <> "Omega_g" ->
  contains k params = true -> contains k out = true.
Proof.
  intros H Hk Hc. destruct (String.eqb_spec k "T_cmb") as [->|Hne].
  - eapply stage_Omega_g_sets; eauto.
  - eapply present_of_keys; [|exact Hc].
    eapply stage_Omega_g_keys; eauto. simpl; intuition.
Qed.

Lemma stage_N_ur_present K m T p1 s1 p2 s2 k :
  stage_N_ur K m T p1 s1 = (Ok p2, s2) -> k <> "N_eff" ->
  contains k p1 = true -> contains k p2 = true.
Proof.
  intros H Hk Hc.
  destruct (stage_N_ur_sets _ _ _ _ _ _ _ H) as (_ & N & ms & Tv & EN & Em & _ & ET & _).
  destruct (String.eqb_spec k "N_ur") as [->|H1];
    [rewrite contains_getitem, EN; reflexivity|].
  destruct (String.eqb_spec k "m_ncdm") as [->|H2];
    [rewrite contains_getitem, Em; reflexivity|].
  destruct (String.eqb_spec k "T_ncdm") as [->|H3];
    [rewrite contains_getitem, ET; reflexivity|].
  eapply present_of_keys; [|exact Hc].
  eapply stage_N_ur_keys; eauto. simpl; intuition.
Qed.

Lemma stage_z_pk_present dz params s out s' k :
  stage_z_pk dz params s = (Ok out, s') ->
  contains k params = true -> contains k out = true.
Proof.
  intros H Hc.
  destruct (stage_z_pk_sets _ _ _ _ _ H) as (z & mo & Ez & _ & Emo & _).
  destruct (String.eqb_spec k "z_pk") as [->|H1];
    [rewrite contains_getitem, Ez; reflexivity|].
  destruct (String.eqb_spec k "modes") as [->|H2];
    [rewrite contains_getitem, Emo; reflexivity|].
  eapply present_of_keys; [|exact Hc].
  eapply stage_z_pk_keys; eauto. simpl; intuition.
Qed.

Lemma stage_Omega_m_present K quad params s out s' k :
  stage_Omega_m K quad params s = (Ok out, s') -> k <> "Omega_m" ->
  contains k params = true -> contains k out = true.
Proof.
  intros H Hk Hc. destruct (String.eqb_spec k "Omega_cdm") as [->|Hne].
  - eapply stage_Omega_m_sets; eauto.
  - eapply present_of_keys; [|exact Hc].
    eapply stage_Omega_m_keys; eauto. simpl; intuition.
Qed.

Section After_aliases.

Variables (K : constants) (quad : (R -> R) -> R -> R -> R -> R) (dz : list scalar)
          (fuel : nat).
Variables (h : value) (p2 p3 p4 p5 q2 q3 out : dict) (m5 T5 : local)
          (sg : bool) (m6 T6 m T : list scalar) (s1 s2 s' : store).
Hypothesis H3 : stage_A_s p2 s1 = (Ok p3, s1).
Hypothesis H4 : stage_Omega_g K h p3 s1 = (Ok p4, s1).
Hypothesis H5 : stage_ncdm K quad fuel (get "T_ncdm" (VNum (TNCDM K)) p4) p4 s1
                = (Ok (m5, T5, p5), s1).
Hypothesis H7 : stage_hierarchy fuel sg m6 T6 p5 s1 = (Ok (m, T, q2), s1).
Hypothesis HN : stage_N_ur K m T q2 s1 = (Ok q3, s2).
Variable (q4 : dict).
Hypothesis Hz : stage_z_pk dz q3 s2 = (Ok q4, s').
Hypothesis HO : stage_Omega_m K quad q4 s' = (Ok out, s').

Lemma after_aliases_present k :
  ~ In k consumed_names -> contains k p2 = true -> contains k out = true.
Proof.
  intros Hk Hc.
  assert (Hne : forall n, In n consumed_names -> k <> n)
    by (intros n Hn ->; contradiction).
  eapply stage_Omega_m_present; [exact HO | apply Hne; simpl; tauto |].
  eapply stage_z_pk_present; [exact Hz|].
  eapply stage_N_ur_present; [exact HN | apply Hne; simpl; tauto |].
  eapply present_of_keys;
    [eapply stage_hierarchy_keys; [exact H7|];
     intros [<-|[]]; apply Hk; simpl; tauto |].
  eapply present_of_keys;
    [eapply stage_ncdm_keys; [exact H5|];
     intros [<-|[<-|[]]]; apply Hk; simpl; tauto |].
  eapply stage_Omega_g_present; [exact H4 | apply Hne; simpl; tauto |].
  eapply stage_A_s_present; [exact H3 | apply Hne; simpl; tauto | exact Hc].
Qed.

Lemma after_aliases_A_s :
  contains "ln10^{10}A_s" p2 = true -> contains "A_s" out = true.
Proof.
  intros Hc.
  eapply stage_Omega_m_present; [exact HO | discriminate |].
  eapply stage_z_pk_present; [exact Hz|].
  eapply stage_N_ur_present; [exact HN | discriminate |].
  eapply present_of_keys;
    [eapply stage_hierarchy_keys; [exact H7|]; simpl; intuition discriminate |].
  eapply present_of_keys;
    [eapply stage_ncdm_keys; [exact H5|]; simpl; intuition discriminate |].
  eapply stage_Omega_g_present; [exact H4 | discriminate |].
  eapply stage_A_s_sets; [exact H3 | left; exact Hc].
Qed.

Lemma after_aliases_T_cmb :
  contains "Omega_g" p2 = true -> contains "T_cmb" out = true.
Proof.
  intros Hc.
  eapply stage_Omega_m_present; [exact HO | discriminate |].
  eapply stage_z_pk_present; [exact Hz|].
  eapply stage_N_ur_present; [exact HN | discriminate |].
  eapply present_of_keys;
    [eapply stage_hierarchy_keys; [exact H7|]; simpl; intuition discriminate |].
  eapply present_of_keys;
    [eapply stage_ncdm_keys; [exact H5|]; simpl; intuition discriminate |].
  eapply stage_Omega_g_sets; [exact H4 | left].
  eapply stage_A_s_present; [exact H3 | discriminate | exact Hc].
Qed.

Lemma after_aliases_Omega_cdm :
  contains "Omega_m" p2 = true -> contains "Omega_cdm" out = true.
Proof.
  intros Hc.
  eapply stage_Omega_m_sets; [exact HO | left].
  eapply stage_z_pk_present; [exact Hz|].
  eapply stage_N_ur_present; [exact HN | discriminate |].
  eapply present_of_keys;
    [eapply stage_hierarchy_keys; [exact H7|]; simpl; intuition discriminate |].
  eapply present_of_keys;
    [eapply stage_ncdm_keys; [exact H5|]; simpl; intuition discriminate |].
  eapply stage_Omega_g_present; [exact H4 | discriminate |].
  eapply stage_A_s_present; [exact H3 | discriminate | exact Hc].
Qed.

End After_aliases.

(** The mapping after the calls of [set_alias], in a successful
    compilation, and what the later stages make of its entries. *)
Lemma compile_params_after_aliases K quad dz fuel args s out s' :
  compile_params K quad dz fuel args s = (Ok out, s') ->
  exists p0 h p1 s1 p2,
    stage_H0 args s = (Ok p0, s) /\
    omega_loop h args p0 s = (Ok p1, s1) /\
    set_aliases args aliases p1 s1 = (Ok p2, s1) /\
    (forall k, ~ In k consumed_names -> contains k p2 = true -> contains k out = true) /\
    (contains "ln10^{10}A_s" p2 = true -> contains "A_s" out = true) /\
    (contains "Omega_g" p2 = true -> contains "T_cmb" out = true) /\
    (contains "Omega_m" p2 = true -> contains "Omega_cdm" out = true).
Proof.
  intros H.
  destruct (compile_params_inv _ _ _ _ _ _ _ _ H)
    as (m & T & q1 & s1 & q2 & s2 & q3 & Hn & HN & Hz & HO).
  destruct (stage_neutrinos_stages _ _ _ _ _ _ _ _ _ Hn)
    as (p0 & h & p1 & p2 & p3 & p4 & m5 & T5 & p5 & sg & m6 & T6 &
        H0 & Hh & H1 & _ & H2 & H3 & H4 & H5 & H6 & H7).
  exists p0, h, p1, s1, p2. repeat split; auto.
  - intros k. eapply after_aliases_present; eauto.
  - eapply after_aliases_A_s; eauto.
  - eapply after_aliases_T_cmb; eauto.
  - eapply after_aliases_Omega_cdm; eauto.
Qed.

(** The three ways in which a name of the input reaches the mapping that
    comes out of the calls of [set_alias]. *)
Ltac reach_fin Keep Ren Ali Hc :=
  first
    [ apply Keep; [reflexivity | discriminate | simpl; intuition discriminate | exact Hc]
    | match type of Hc with
      | contains ?n _ = true =>
          apply (Ren n); [reflexivity | simpl; intuition discriminate | exact Hc]
      end
    | match type of Hc with
      | contains ?n _ = true => eapply (Ali _ n); [simpl; tauto | exact Hc]
      end ].

Lemma canonical_name_reached
    (K : constants) (quad : (R -> R) -> R -> R -> R -> R) (dz : list scalar)
    (fuel : nat) (args : dict) (s : store) (out : dict) (s' : store)
    (g : list string) (n : string) :
  compile_params K quad dz fuel args s = (Ok out, s') ->
  In g conflicts -> In n g -> contains n args = true ->
  ~ In n ["omega_c"; "sigma8"; "z_reio"] ->
  contains (canonical g) out = true.
Proof.
  intros H Hg Hn Hc Hex.
  destruct (compile_params_leaves _ _ _ _ _ _ _ _ H)
    as (_ & _ & _ & hv & N & p & Tv & z & mo & Eh & EN & Em & _).
  destruct (compile_params_after_aliases _ _ _ _ _ _ _ _ H)
    as (p0 & h & p1 & s1 & p2 & H0 & H1 & H2 & Hp & HA & HT & HC).
  (* a name that no stage before the aliases removes *)
  assert (Keep : forall k, startswith "omega" k = false -> k <> "H0" ->
                   ~ In k (map snd aliases) -> contains k args = true ->
                   contains k p2 = true).
  { intros k Hk1 Hk2 Hk3 Hk.
    eapply set_aliases_present; [exact H2 | exact Hk3 |].
    eapply omega_loop_present; [exact H1 | exact Hk1 |].
    eapply stage_H0_present; eauto. }
  (* an omega entry, under its capitalised name *)
  assert (Ren : forall name, startswith "omega" name = true ->
                  ~ In (replace "omega" "Omega" name) (map snd aliases) ->
                  contains name args = true ->
                  contains (replace "omega" "Omega" name) p2 = true).
  { intros name Hn1 Hn2 Hn3.
    eapply set_aliases_present; [exact H2 | exact Hn2 |].
    eapply omega_loop_sets; [exact H1 | apply In_keys_contains; exact Hn3 | exact Hn1]. }
  (* an alias spelling, under its canonical name *)
  assert (Ali : forall pn an, In (pn, an) aliases -> contains an args = true ->
                  contains pn p2 = true).
  { intros pn an HIn Ha.
    eapply set_aliases_sets; [exact H2 | exact HIn | exact Ha |].
    simpl in HIn. intros HI.
    repeat (destruct HIn as [E|HIn];
            [inversion E; subst; simpl in HI; intuition discriminate|]).
    contradiction. }
  unfold conflicts in Hg; simpl in Hg.
  assert (Hn' : In n g) by exact Hn.
  repeat (destruct Hg as [<-|Hg]; [simpl in Hn |]); try contradiction;
    unfold canonical; cbn [hd];
    repeat (destruct Hn as [<-|Hn]; [|]); try contradiction;
    first
      [ rewrite contains_getitem, Eh; reflexivity
      | rewrite contains_getitem, EN; reflexivity
      | rewrite contains_getitem, Em; reflexivity
      | exfalso; apply Hex; simpl; tauto
      | apply Hp; [simpl; intuition discriminate|]; reach_fin Keep Ren Ali Hc
      | apply HT; reach_fin Keep Ren Ali Hc
      | apply HA; reach_fin Keep Ren Ali Hc ].
Qed.

(** X8: Whenever compile_params returns a mapping, every name of a conflict
    group that the input gives, other than omega_c, sigma8 and z_reio, has
    put the first name of its group (h, T_cmb, Omega_b, N_ur, Omega_cdm,
    m_ncdm, A_s or tau_reio) into the result. *)
Theorem spellings_reach_the_canonical_name
    (K : constants) (quad : (R -> R) -> R -> R -> R -> R) (dz : list scalar)
    (fuel : nat) (args : dict) (s : store) (out : dict) (s' : store)
    (g : list string) (n : string) :
  compile_params K quad dz fuel args s = (Ok out, s') ->
  In g conflicts -> In n g -> contains n args = true ->
  ~ In n ["omega_c"; "sigma8"; "z_reio"] ->
  contains (canonical g) out = true.
Proof. exact (canonical_name_reached K quad dz fuel args s out s' g n). Qed.

Lemma spellings_reach_the_canonical_name_witness :
  exists out s',
    compile_params sample_constants no_quad sample_z 0
      [("H0", VNum 70); ("omega_b", VNum 0.02); ("Omega0_cdm", VNum 0.25)] [] = (Ok out, s') /\
    contains "h" out = true /\ contains "Omega_b" out = true /\
    contains "Omega_cdm" out = true.
Proof.
  assert (H : exists out s',
    compile_params sample_constants no_quad sample_z 0
      [("H0", VNum 70); ("omega_b", VNum 0.02); ("Omega0_cdm", VNum 0.25)] [] = (Ok out, s')).
  { eexists; eexists. py_run arith. }
  destruct H as (out & s' & H). exists out, s'. split; [exact H|].
  split; [|split].
  - apply (spellings_reach_the_canonical_name _ _ _ _ _ _ _ _ ["h"; "H0"] "H0" H);
      [simpl; tauto | simpl; tauto | reflexivity | simpl; intuition discriminate].
  - apply (spellings_reach_the_canonical_name _ _ _ _ _ _ _ _
             ["Omega_b"; "omega_b"; "Omega0_b"] "omega_b" H);
      [simpl; tauto | simpl; tauto | reflexivity | simpl; intuition discriminate].
  - apply (spellings_reach_the_canonical_name _ _ _ _ _ _ _ _
             ["Omega_cdm"; "omega_cdm"; "Omega0_cdm"; "Omega_c"; "omega_c"] "Omega0_cdm" H);
      [simpl; tauto | simpl; tauto | reflexivity | simpl; intuition discriminate].
Defined.

(** ** Frame *)
Lemma set_aliases_untouched args l params s out s' k :
  set_aliases args l params s = (Ok out, s') ->
  (In k (map snd l) -> contains k args = false) ->
  (forall an, In (k, an) l -> contains an args = false) ->
  getitem k out = getitem k params.
Proof.
  revert params s; induction l as [|[pn an] l IH]; intros params s H Hk Ha; simpl in H.
  - minv H; reflexivity.
  - apply bind_ok in H as (p1 & s1 & H1 & H).
    rewrite (IH _ _ H); [| intros HIn; apply Hk; right; exact HIn
                         | intros an' HIn; apply Ha; right; exact HIn].
    unfold set_alias in H1.
    destruct (contains an args) eqn:Ec; [|minv H1; reflexivity].
    destruct (pop an params) as [[v p]|] eqn:Ep; [|minv H1].
    minv H1. apply pop_some in Ep as [_ ->].
    rewrite getitem_setitem_neq, getitem_delitem_neq; auto.
    + intros ->. rewrite Hk in Ec; [discriminate | left; reflexivity].
    + intros ->. rewrite (Ha an) in Ec; [discriminate | left; reflexivity].
Qed.

Lemma compile_params_untouched
    (K : constants) (quad : (R -> R) -> R -> R -> R -> R) (dz : list scalar)
    (fuel : nat) (args : dict) (s : store) (out : dict) (s' : store) (k : string) :
  compile_params K quad dz fuel args s = (Ok out, s') ->
  passes_through args k = true ->
  getitem k out = getitem k args.
Proof.
  intros H Hk. unfold passes_through in Hk.
  apply andb_true_iff in Hk as [Hk Hk4]. apply andb_true_iff in Hk as [Hk Hk3].
  apply andb_true_iff in Hk as [Hk Hk2]. apply andb_true_iff in Hk as [Hk Hk1].
  apply negb_true_iff in Hk, Hk1, Hk2, Hk3.
  assert (Hs : ~ In k stage_names) by (rewrite <- mem_In, Hk; discriminate).
  destruct (compile_params_inv _ _ _ _ _ _ _ _ H)
    as (m & T & q1 & s1 & q2 & s2 & q3 & Hn & HN & Hz & HO).
  destruct (stage_neutrinos_stages _ _ _ _ _ _ _ _ _ Hn)
    as (p0 & h & p1 & p2 & p3 & p4 & m5 & T5 & p5 & sg & m6 & T6 &
        H0 & Hh & H1 & _ & H2 & H3 & H4 & H5 & H6 & H7).
  rewrite (stage_Omega_m_keys _ _ _ _ _ _ HO),
          (stage_z_pk_keys _ _ _ _ _ Hz),
          (stage_N_ur_keys _ _ _ _ _ _ _ HN),
          (stage_hierarchy_keys _ _ _ _ _ _ _ _ _ _ H7),
          (stage_ncdm_keys _ _ _ _ _ _ _ _ _ _ H5),
          (stage_Omega_g_keys _ _ _ _ _ _ H4),
          (stage_A_s_keys _ _ _ _ H3)
    by (intros HIn; apply Hs; unfold stage_names; simpl in HIn |- *; tauto).
  rewrite (set_aliases_untouched _ _ _ _ _ _ k H2).
  - rewrite (omega_loop_frame _ _ _ _ _ _ k H1 Hk1 Hk2).
    apply (stage_H0_keys _ _ _ _ H0).
    intros HIn; apply Hs; unfold stage_names; simpl in HIn |- *; tauto.
  - intros HIn. apply mem_In in HIn. rewrite HIn in Hk3. exact Hk3.
  - intros an HIn. rewrite forallb_forall in Hk4. specialize (Hk4 _ HIn).
    cbn [fst snd] in Hk4. rewrite String.eqb_refl in Hk4.
    apply negb_true_iff in Hk4. exact Hk4.
Qed.

(** X9: compile_params hands over unchanged every entry that no stage reads or
    writes: a name that is not one of the sixteen names of the stages,
    does not start with 'omega', is not the capitalised form of an omega
    key of the input, and is neither an alias spelling given in the input
    nor the target of one, has in the result the value it has in the
    input, and is absent from the result when it is absent from the input. *)
Theorem compile_params_frame
    (K : constants) (quad : (R -> R) -> R -> R -> R -> R) (dz : list scalar)
    (fuel : nat) (args : dict) (s : store) (out : dict) (s' : store) (k : string) :
  compile_params K quad dz fuel args s = (Ok out, s') ->
  passes_through args k = true ->
  getitem k out = getitem k args.
Proof. exact (compile_params_untouched K quad dz fuel args s out s' k). Qed.

Lemma compile_params_frame_witness :
  exists out s',
    compile_params sample_constants no_quad sample_z 0
      [("h", VNum 0.7); ("n_s", VNum 0.96); ("engine_flag", VStr "on")] [] = (Ok out, s') /\
    getitem "n_s" out = Some (VNum 0.96) /\
    getitem "engine_flag" out = Some (VStr "on").
Proof.
  assert (H : exists out s',
    compile_params sample_constants no_quad sample_z 0
      [("h", VNum 0.7); ("n_s", VNum 0.96); ("engine_flag", VStr "on")] [] = (Ok out, s')).
  { eexists; eexists. py_run arith. }
  destruct H as (out & s' & H). exists out, s'. split; [exact H|].
  split.
  - rewrite (compile_params_frame _ _ _ _ _ _ _ _ "n_s" H); reflexivity.
  - rewrite (compile_params_frame _ _ _ _ _ _ _ _ "engine_flag" H); reflexivity.
Defined.

(** ** Which omega entry is renamed to a given name *)

Lemma replace_tail r t :
  no_O t = true -> replace_from "omega" "Omega" 0 r = t -> r = t.
Proof.
  revert t; induction r as [|ch r IH]; intros t Ht E.
  - simpl in E; exact E.
  - rewrite replace_step in E.
    destruct (startswith "omega" (String ch r)).
    + subst t. cbn [String.append no_O] in Ht. discriminate.
    + destruct t as [|ch' t]; [discriminate|].
      inversion E; subst. cbn [no_O] in Ht. apply andb_true_iff in Ht as [_ Ht].
      f_equal. apply IH; [exact Ht | reflexivity].
Qed.

Lemma replace_omega_name name t :
  no_O t = true -> startswith "omega" name = true ->
  replace "omega" "Omega" name = String.append "Omega" t ->
  name = String.append "omega" t.
Proof.
  intros Ht H E.
  destruct name as [|a1 [|a2 [|a3 [|a4 [|a5 rest]]]]]; cbn [startswith] in H;
    repeat (apply andb_true_iff in H as [?E H]);
    try discriminate;
    repeat match goal with
           | E : Ascii.eqb _ _ = true |- _ => apply Ascii.eqb_eq in E
           end.
  subst. unfold replace in E.
  change (replace_from "omega" "Omega" 0
            (String "o" (String "m" (String "e" (String "g" (String "a" rest))))))
    with (String.append "Omega" (replace_from "omega" "Omega" 0 rest)) in E.
  cbn [String.append] in E. inversion E as [E1].
  cbn [String.append]. do 5 f_equal. rewrite E1. apply replace_tail; assumption.
Qed.

Lemma renamed_to_false items t :
  no_O t = true -> contains (String.append "omega" t) items = false ->
  renamed_to items (String.append "Omega" t) = false.
Proof.
  intros Ht Hc. unfold renamed_to.
  destruct (existsb _ (keys items)) eqn:E; [|reflexivity].
  apply existsb_exists in E as (name & HIn & E).
  apply andb_true_iff in E as [E1 E2]. apply String.eqb_eq in E2.
  apply (replace_omega_name name t Ht E1) in E2. subst name.
  apply In_keys_contains in HIn. congruence.
Qed.

(** An [omega_c] of the input ends as [Omega_c]. *)
Lemma omega_c_stays
    (K : constants) (quad : (R -> R) -> R -> R -> R -> R) (dz : list scalar)
    (fuel : nat) (args : dict) (s : store) (out : dict) (s' : store) :
  compile_params K quad dz fuel args s = (Ok out, s') ->
  contains "omega_c" args = true ->
  (forall k, In k ["Omega_cdm"; "omega_cdm"; "Omega0_cdm"; "Omega_c";
                   "Omega_m"; "omega_m"; "Omega0_m"] -> contains k args = false) ->
  getitem "Omega_cdm" out = None /\ contains "Omega_c" out = true.
Proof.
  intros H Hc Hno.
  destruct (compile_params_inv _ _ _ _ _ _ _ _ H)
    as (m & T & q1 & s1 & q2 & s2 & q3 & Hn & HN & Hz & HO).
  destruct (stage_neutrinos_stages _ _ _ _ _ _ _ _ _ Hn)
    as (p0 & h & p1 & p2 & p3 & p4 & m5 & T5 & p5 & sg & m6 & T6 &
        H0 & Hh & H1 & _ & H2 & H3 & H4 & H5 & H6 & H7).
  assert (None_of : forall k, contains k args = false -> getitem k args = None).
  { intros k E. rewrite contains_getitem in E.
    destruct (getitem k args); [discriminate | reflexivity]. }
  (* the entries from the loop over the omega entries to the stage of z_pk *)
  assert (F : forall k,
             ~ In k ["ln10^{10}A_s"; "A_s"; "Omega_g"; "T_cmb"; "m_ncdm"; "Omega_ncdm";
                     "neutrino_hierarchy"; "N_eff"; "N_ur"; "T_ncdm"; "z_pk"; "modes"] ->
             (In k (map snd aliases) -> contains k args = false) ->
             (forall an, In (k, an) aliases -> contains an args = false) ->
             getitem k q3 = getitem k p1).
  { intros k Hs Hk3 Hk4.
    rewrite (stage_z_pk_keys _ _ _ _ _ Hz),
            (stage_N_ur_keys _ _ _ _ _ _ _ HN),
            (stage_hierarchy_keys _ _ _ _ _ _ _ _ _ _ H7),
            (stage_ncdm_keys _ _ _ _ _ _ _ _ _ _ H5),
            (stage_Omega_g_keys _ _ _ _ _ _ H4),
            (stage_A_s_keys _ _ _ _ H3)
      by (intros HIn; apply Hs; simpl in HIn |- *; tauto).
    apply (set_aliases_untouched _ _ _ _ _ _ k H2 Hk3 Hk4). }
  assert (Alias_no : forall k, In k ["Omega_cdm"; "Omega_m"] ->
                       forall an, In (k, an) aliases -> contains an args = false).
  { intros k Hk an HIn. apply Hno. simpl in Hk, HIn.
    destruct Hk as [<-|[<-|[]]];
      repeat (destruct HIn as [E|HIn]; [inversion E; subst; simpl; tauto|]);
      contradiction. }
  (* no entry Omega_m reaches the last stage *)
  assert (Em : getitem "Omega_m" q3 = None).
  { rewrite F; [| simpl; intuition discriminate | simpl; intuition discriminate
                 | apply Alias_no; simpl; tauto].
    rewrite (omega_loop_frame _ _ _ _ _ _ "Omega_m" H1); [| reflexivity |].
    - rewrite (stage_H0_keys _ _ _ _ H0) by (simpl; intuition discriminate).
      apply None_of, Hno; simpl; tauto.
    - apply (renamed_to_false args "_m"); [reflexivity | apply Hno; simpl; tauto]. }
  assert (Eout : out = q3).
  { unfold stage_Omega_m in HO. rewrite contains_getitem, Em in HO. minv HO. reflexivity. }
  subst out. split.
  - rewrite F; [| simpl; intuition discriminate | simpl; intuition discriminate
                 | apply Alias_no; simpl; tauto].
    rewrite (omega_loop_frame _ _ _ _ _ _ "Omega_cdm" H1); [| reflexivity |].
    + rewrite (stage_H0_keys _ _ _ _ H0) by (simpl; intuition discriminate).
      apply None_of, Hno; simpl; tauto.
    + apply (renamed_to_false args "_cdm"); [reflexivity | apply Hno; simpl; tauto].
  - rewrite contains_getitem, F, <- contains_getitem.
    + apply (omega_loop_sets _ _ _ _ _ _ "omega_c" H1);
        [apply In_keys_contains; exact Hc | reflexivity].
    + simpl; intuition discriminate.
    + intros _. apply Hno; simpl; tauto.
    + intros an HIn. simpl in HIn.
      repeat (destruct HIn as [E|HIn]; [discriminate E|]). contradiction.
Qed.

(** X10: compile_params never returns a mapping for an input that gives
    Omega_ur, omega_ur or Omega0_ur: each of them reaches the branch 'if
    'Omega_ur' in params', which evaluates the name Omega_ur that no
    statement binds (NameError), unless something raises before. *)
Theorem Omega_ur_is_never_compiled
    (K : constants) (quad : (R -> R) -> R -> R -> R -> R) (dz : list scalar)
    (fuel : nat) (args : dict) (s : store) (r : outcome dict) (s' : store) (n : string) :
  In n ["Omega_ur"; "omega_ur"; "Omega0_ur"] -> contains n args = true ->
  compile_params K quad dz fuel args s = (r, s') ->
  exists e, r = Raise e.
Proof.
  intros Hn Hc H. destruct r as [out|e]; [exfalso | eauto].
  destruct (compile_params_inv _ _ _ _ _ _ _ _ H)
    as (m & T & q1 & s1 & q2 & s2 & q3 & Hs & HN & _).
  destruct (stage_neutrinos_stages _ _ _ _ _ _ _ _ _ Hs)
    as (p0 & h & p1 & p2 & p3 & p4 & m5 & T5 & p5 & sg & m6 & T6 &
        H0 & Hh & H1 & _ & H2 & H3 & H4 & H5 & H6 & H7).
  destruct (stage_N_ur_sets _ _ _ _ _ _ _ HN) as [Hur _].
  assert (E2 : contains "Omega_ur" p2 = true).
  { simpl in Hn. destruct Hn as [<-|[<-|[<-|[]]]].
    - eapply set_aliases_present; [exact H2 | simpl; intuition discriminate |].
      eapply omega_loop_present; [exact H1 | reflexivity |].
      eapply stage_H0_present; eauto. discriminate.
    - eapply set_aliases_present; [exact H2 | simpl; intuition discriminate |].
      apply (omega_loop_sets _ _ _ _ _ _ "omega_ur" H1);
        [apply In_keys_contains; exact Hc | reflexivity].
    - eapply set_aliases_sets; [exact H2 | | exact Hc | simpl; intuition discriminate].
      simpl; tauto. }
  assert (E : contains "Omega_ur" q1 = true).
  { eapply present_of_keys;
      [eapply stage_hierarchy_keys; [exact H7|]; simpl; intuition discriminate |].
    eapply present_of_keys;
      [eapply stage_ncdm_keys; [exact H5|]; simpl; intuition discriminate |].
    eapply stage_Omega_g_present; [exact H4 | discriminate |].
    eapply stage_A_s_present; [exact H3 | discriminate | exact E2]. }
  congruence.
Qed.

Lemma Omega_ur_is_never_compiled_witness :
  compile_params sample_constants no_quad sample_z 0
    [("h", VNum 0.7); ("T_cmb", VNum 2.7255); ("Omega_ur", VNum 0.00001)] []
    = (Raise (NameError "Omega_ur"), []) /\
  exists e, (Raise (NameError "Omega_ur") : outcome dict) = Raise e.
Proof.
  assert (H : compile_params sample_constants no_quad sample_z 0
                [("h", VNum 0.7); ("T_cmb", VNum 2.7255); ("Omega_ur", VNum 0.00001)] []
              = (Raise (NameError "Omega_ur"), [])).
  { py_run arith. }
  split; [exact H|].
  apply (Omega_ur_is_never_compiled sample_constants no_quad sample_z 0
           [("h", VNum 0.7); ("T_cmb", VNum 2.7255); ("Omega_ur", VNum 0.00001)] [] _ [] "Omega_ur");
    [simpl; tauto | reflexivity | exact H].
Defined.

(** X11: compile_params never returns a mapping when the input gives m_ncdm
    and T_ncdm as lists or arrays of different lengths. *)
Theorem lists_of_different_length_are_refused
    (K : constants) (quad : (R -> R) -> R -> R -> R -> R) (dz : list scalar)
    (fuel : nat) (args : dict) (s : store) (m T : value) (ms ts : list scalar)
    (r : outcome dict) (s' : store) :
  getitem "m_ncdm" args = Some m -> elements m s = Some ms ->
  getitem "T_ncdm" args = Some T -> elements T s = Some ts ->
  List.length ts <> List.length ms ->
  compile_params K quad dz fuel args s = (r, s') ->
  exists e, r = Raise e.
Proof.
  intros Hm Hms HT Hts Hne H. destruct r as [out|e]; [exfalso | eauto].
  apply Hne. eapply compile_params_lists; eauto.
Qed.

Lemma lists_of_different_length_are_refused_witness :
  compile_params sample_constants no_quad sample_z 0
    [("h", VNum 0.7); ("m_ncdm", VArr [SNum (Fin 0.06); SNum (Fin 0.1)]);
     ("T_ncdm", VArr [SNum (Fin 0.71611)])] []
    = (Raise TypeError, []) /\
  exists e, (Raise TypeError : outcome dict) = Raise e.
Proof.
  assert (H : compile_params sample_constants no_quad sample_z 0
                [("h", VNum 0.7); ("m_ncdm", VArr [SNum (Fin 0.06); SNum (Fin 0.1)]);
                 ("T_ncdm", VArr [SNum (Fin 0.71611)])] []
              = (Raise TypeError, [])).
  { py_run arith. }
  split; [exact H|].
  apply (lists_of_different_length_are_refused sample_constants no_quad sample_z 0
           [("h", VNum 0.7); ("m_ncdm", VArr [SNum (Fin 0.06); SNum (Fin 0.1)]);
            ("T_ncdm", VArr [SNum (Fin 0.71611)])] []
           (VArr [SNum (Fin 0.06); SNum (Fin 0.1)]) (VArr [SNum (Fin 0.71611)])
           [SNum (Fin 0.06); SNum (Fin 0.1)] [SNum (Fin 0.71611)] _ []);
    [reflexivity | reflexivity | reflexivity | reflexivity | simpl; lia | exact H].
Defined.

Lemma filter_length_lt {A} (f : A -> bool) (l : list A) :
  existsb (fun x => negb (f x)) l = true ->
  (List.length (filter f l) < List.length l)%nat.
Proof.
  induction l as [|x l IH]; simpl; [discriminate|].
  pose proof (filter_length_le f l) as Hle.
  destruct (f x); simpl; intros H.
  - apply IH in H. lia.
  - lia.
Qed.

(** The lists of species that a compilation with a derived [N_ur] stores. *)
Lemma compile_params_species K quad dz fuel args s out s' m T p1 s1 :
  wf_store args s ->
  get "N_ur" VNone args = VNone ->
  compile_params K quad dz fuel args s = (Ok out, s') ->
  stage_neutrinos K quad fuel args s = (Ok (m, T, p1), s1) ->
  exists p, getitem "m_ncdm" out = Some (VList p) /\
            nth_error s' p = Some (filter heavy m) /\
            getitem "T_ncdm" out = Some (VArr T).
Proof.
  intros Hwf HN H Hn.
  destruct (compile_params_accounting _ _ _ _ _ _ _ _ Hwf HN H)
    as (m' & T' & p1' & s1' & N_eff & temps & Hn' & _ & _ & _ & _ & p & Hp & Hl).
  rewrite Hn in Hn'; inversion Hn'; subst m' T' p1' s1'.
  exists p; repeat split; auto.
  destruct (compile_params_inv _ _ _ _ _ _ _ _ H)
    as (m2 & T2 & q1 & t1 & q2 & t2 & q3 & Hn2 & HNu & Hz & HO).
  rewrite Hn in Hn2; inversion Hn2; subst m2 T2 q1 t1.
  rewrite (stage_Omega_m_keys _ _ _ _ _ _ HO) by (simpl; intuition discriminate).
  rewrite (stage_z_pk_keys _ _ _ _ _ Hz) by (simpl; intuition discriminate).
  destruct (stage_N_ur_sets _ _ _ _ _ _ _ HNu)
    as (_ & N & ms & Tv & _ & _ & _ & ET & [(_ & _ & -> & _)|(Hne & _)]).
  - exact ET.
  - exfalso. apply Hne.
    rewrite (get_early _ _ _ _ _ _ _ _ _ "N_ur" VNone Hn); [exact HN | reflexivity | not_early].
Qed.

(** X12: When N_ur is derived and one species of the input has a mass at or
    below 0.00017 eV, the compiled mapping holds the filtered list of
    masses beside the unfiltered array of temperatures, and every clone of
    the instance whose override names none of m_ncdm, Omega_ncdm,
    omega_ncdm, Omega0_ncdm and T_ncdm raises: the recompilation fails the
    test that both lists have the same length. *)
Theorem filtered_species_block_a_clone
    (K : constants) (quad : (R -> R) -> R -> R -> R -> R) (dz : list scalar)
    (fuel : nat) (args : dict) (s : store) (out : dict) (s' : store)
    (m T : list scalar) (p1 : dict) (s1 : store)
    (fuel' : nat) (over : dict) (r : outcome dict) (s'' : store) :
  wf_store args s ->
  get "N_ur" VNone args = VNone ->
  compile_params K quad dz fuel args s = (Ok out, s') ->
  stage_neutrinos K quad fuel args s = (Ok (m, T, p1), s1) ->
  existsb (fun x => negb (heavy x)) m = true ->
  NoDup (keys over) ->
  (forall n, In n (keys over) ->
     ~ In n ["m_ncdm"; "Omega_ncdm"; "omega_ncdm"; "Omega0_ncdm"; "T_ncdm"]) ->
  Cosmology_clone K quad dz fuel' out over s' = (r, s'') ->
  exists e, r = Raise e.
Proof.
  intros Hwf HN H Hn Hlight Hnd Hover Hc.
  destruct r as [new|e]; [exfalso | eauto].
  destruct (compile_params_species _ _ _ _ _ _ _ _ _ _ _ _ Hwf HN H Hn)
    as (p & Hp & Hl & HT).
  unfold Cosmology_clone in Hc. apply bind_ok in Hc as (u & s2 & Hchk & Hc).
  unfold lift in Hchk. inversion Hchk; subst s2.
  (* the merge keeps both lists of the instance *)
  assert (Keep : forall k, In k ["m_ncdm"; "T_ncdm"] ->
                   getitem k (merge_params out over) = getitem k out).
  { intros k Hk. rewrite getitem_merge_params by exact Hnd.
    assert (E1 : getitem k over = None).
    { destruct (getitem k over) as [v|] eqn:E; [exfalso | reflexivity].
      apply getitem_keys in E. apply (Hover k E). simpl in Hk |- *; tauto. }
    rewrite E1.
    assert (E2 : existsb (fun n => mem k (find_conflicts n)) (keys over) = false).
    { destruct (existsb _ (keys over)) eqn:E; [exfalso | reflexivity].
      apply existsb_exists in E as (n & HIn & E). apply mem_In in E.
      apply (Hover n HIn).
      simpl in Hk. destruct Hk as [<-|[<-|[]]].
      - assert (Hg : find_conflicts n = ["m_ncdm"; "Omega_ncdm"; "omega_ncdm"; "Omega0_ncdm"]).
        { symmetry. apply (find_conflicts_group _ "m_ncdm").
          - unfold find_conflicts.
            destruct (find_in_In n conflicts) as [E0|E0]; [|exact E0].
            unfold find_conflicts in E. rewrite E0 in E; contradiction.
          - exact E. }
        assert (Hs : In n (find_conflicts n)) by (eapply find_conflicts_self; eauto).
        rewrite Hg in Hs. simpl in Hs |- *; tauto.
      - exfalso. unfold find_conflicts in E.
        destruct (find_in_In n conflicts) as [E0|E0]; [rewrite E0 in E; contradiction|].
        revert E. generalize dependent (find_in n conflicts). intros g Hg.
        unfold conflicts in Hg; simpl in Hg.
        repeat (destruct Hg as [<-|Hg]; [simpl; intuition discriminate|]).
        contradiction. }
    rewrite E2; reflexivity. }
  assert (Hlen : List.length T = List.length (filter heavy m)).
  { eapply (compile_params_lists K quad dz fuel' (merge_params out over) s' new s''
              (VList p) (VArr T)); eauto.
    - rewrite Keep by (simpl; tauto). exact Hp.
    - rewrite Keep by (simpl; tauto). exact HT. }
  pose proof (stage_neutrinos_lengths _ _ _ _ _ _ _ _ _ Hn) as Hlen'.
  pose proof (filter_length_lt heavy m Hlight). lia.
Qed.

Lemma filtered_species_block_a_clone_witness :
  exists out s',
    compile_params sample_constants no_quad sample_z 0 args_two_species store_two_species
      = (Ok out, s') /\
    Cosmology_clone sample_constants no_quad sample_z 0 out [("n_s", VNum 0.97)] s'
      = (Raise TypeError, s') /\
    exists e, (Raise TypeError : outcome dict) = Raise e.
Proof.
  eexists; eexists. split; [exact compile_two_species|].
  assert (H : Cosmology_clone sample_constants no_quad sample_z 0
                [("h", VNum 0.7);
                 ("N_ur", VNum (3.044 - 0.71611 ^ 4 * nu_factor));
                 ("m_ncdm", VList 1%nat);
                 ("T_ncdm", VArr [SNum (Fin 0.71611); SNum (Fin 0.71611)]);
                 ("z_pk", VArr sample_z); ("modes", VList 2%nat)]
                [("n_s", VNum 0.97)]
                [[SNum (Fin 0.06); SNum (Fin 0)]; [SNum (Fin 0.06)]; [SStr "s"]]
              = (Raise TypeError,
                 [[SNum (Fin 0.06); SNum (Fin 0)]; [SNum (Fin 0.06)]; [SStr "s"]])).
  { py_run arith. }
  split; [exact H|].
  destruct neutrinos_two_species as (p1 & s1 & Hn).
  assert (Hl : existsb (fun x => negb (heavy x)) [SNum (Fin 0.06); SNum (Fin 0)] = true).
  { cbn. py_decide ltac:(unfold m_massive; lra). reflexivity. }
  apply (filtered_species_block_a_clone _ _ _ _ _ _ _ _ _ _ _ _ _ _ _ _
           wf_args_two_species eq_refl compile_two_species Hn Hl) with (3 := H).
  - simpl. constructor; [simpl; tauto | constructor].
  - intros n [<-|[]]. simpl; intuition discriminate.
Defined.

(** ** Z_pk as an array *)
Lemma stage_defaults_array dz params s out s' a :
  stage_defaults dz params s = (Ok out, s') ->
  getitem "z_pk" params = Some (VArr a) \/
  (is_None (get "z_pk" VNone params) = true /\ a = dz) ->
  getitem "z_pk" out = Some (VArr a).
Proof.
  unfold stage_defaults; intros H Ha.
  apply bind_ok in H as (p1 & s1 & H1 & H).
  apply bind_ok in H as (p2 & s2 & H2 & H3).
  assert (E0 : getitem "z_pk" (if is_None (get "z_pk" VNone params)
                               then setitem "z_pk" (get_default_z_callable dz) params
                               else params) = Some (VArr a)).
  { destruct Ha as [Ha|[Ha ->]].
    - unfold get. rewrite Ha. simpl. exact Ha.
    - rewrite Ha. apply getitem_setitem_eq. }
  assert (E2 : getitem "z_pk" p2 = Some (VArr a)).
  { rewrite (wrap_scalar_keys _ _ _ _ _ H2) by discriminate.
    minv H1; [rewrite getitem_setitem_neq by discriminate|]; exact E0. }
  unfold wrap_scalar in H3. rewrite E2 in H3. minv H3. exact E2.
Qed.

(** X13: compile_params never returns a mapping when the input gives z_pk as a
    numpy array that does not contain 0: params['z_pk'].append(0) is then
    called on the array (AttributeError), unless something raises before. *)
Theorem z_pk_array_without_zero_is_refused
    (K : constants) (quad : (R -> R) -> R -> R -> R -> R) (dz : list scalar)
    (fuel : nat) (args : dict) (s : store) (a : list scalar)
    (r : outcome dict) (s' : store) :
  getitem "z_pk" args = Some (VArr a) ->
  existsb is_zero a = false ->
  compile_params K quad dz fuel args s = (r, s') ->
  exists e, r = Raise e.
Proof.
  intros Ha Hz H. destruct r as [out|e]; [exfalso | eauto].
  destruct (compile_params_inv _ _ _ _ _ _ _ _ H)
    as (m & T & q1 & s1 & q2 & s2 & q3 & Hn & HN & Hzp & _).
  assert (F : getitem "z_pk" q2 = getitem "z_pk" args).
  { rewrite (stage_N_ur_keys _ _ _ _ _ _ _ HN) by (simpl; intuition discriminate).
    apply (stage_neutrinos_keys _ _ _ _ _ _ _ _ _ Hn); [reflexivity | not_early]. }
  unfold stage_z_pk in Hzp. apply bind_ok in Hzp as (p & t & Hd & Happ).
  apply stage_defaults_array with (a := a) in Hd.
  - unfold append_zero in Happ. rewrite Hd, Hz in Happ. discriminate.
  - left. rewrite F. exact Ha.
Qed.

Lemma z_pk_array_without_zero_is_refused_witness :
  compile_params sample_constants no_quad sample_z 0
    [("h", VNum 0.7); ("z_pk", VArr [SNum (Fin 1); SNum (Fin 2)])] []
    = (Raise AttributeError, [[]; [SStr "s"]]) /\
  exists e, (Raise AttributeError : outcome dict) = Raise e.
Proof.
  assert (H : compile_params sample_constants no_quad sample_z 0
                [("h", VNum 0.7); ("z_pk", VArr [SNum (Fin 1); SNum (Fin 2)])] []
              = (Raise AttributeError, [[]; [SStr "s"]])).
  { py_run arith. }
  split; [exact H|].
  apply (z_pk_array_without_zero_is_refused sample_constants no_quad sample_z 0
           [("h", VNum 0.7); ("z_pk", VArr [SNum (Fin 1); SNum (Fin 2)])] []
           [SNum (Fin 1); SNum (Fin 2)] _ _ eq_refl) with (2 := H).
  cbn. py_decide lra. reflexivity.
Defined.

(** ** Hierarchy refusals *)

Lemma split_hierarchy_unknown fuel nh sum s r s' :
  (forall name, In name hierarchy_names -> nh <> VStr name) ->
  split_hierarchy fuel nh sum s = (r, s') -> exists e, r = Raise e.
Proof.
  intros Hnh H. unfold split_hierarchy in H.
  destruct nh as [[| |name]| |]; try (inversion H; eauto; fail).
  destruct (String.eqb_spec name "normal") as [->|_];
    [exfalso; apply (Hnh "normal"); [simpl; tauto | reflexivity]|].
  destruct (String.eqb_spec name "inverted") as [->|_];
    [exfalso; apply (Hnh "inverted"); [simpl; tauto | reflexivity]|].
  destruct (String.eqb_spec name "degenerate") as [->|_];
    [exfalso; apply (Hnh "degenerate"); [simpl; tauto | reflexivity]|].
  inversion H; eauto.
Qed.

(** X14: With a neutrino_hierarchy other than None, compile_params never
    returns a mapping when m_ncdm is given as None, a list or an array (the
    hierarchy needs one summed mass), when m_ncdm is given as a negative
    number, or, whether m_ncdm is given or not, when the hierarchy is not an
    array and is none of 'normal', 'inverted' and 'degenerate'. *)
Theorem hierarchy_refusals
    (K : constants) (quad : (R -> R) -> R -> R -> R -> R) (dz : list scalar)
    (fuel : nat) (args : dict) (s : store) (nh : value)
    (r : outcome dict) (s' : store) :
  getitem "neutrino_hierarchy" args = Some nh -> nh <> VNone ->
  (exists m, getitem "m_ncdm" args = Some m /\
             (ndim0 (Old m) = false \/ m = VNone \/
              exists x, m = V (SNum x) /\ flt x (Fin 0) = true)) \/
  ((forall a, nh <> VArr a) /\
   (forall name, In name hierarchy_names -> nh <> VStr name)) ->
  compile_params K quad dz fuel args s = (r, s') ->
  exists e, r = Raise e.
Proof.
  intros Hnh Hnn Hcase H. destruct r as [out|e]; [exfalso | eauto].
  destruct (compile_params_inv _ _ _ _ _ _ _ _ H)
    as (m1 & T1 & q1 & s1 & q2 & s2 & q3 & Hn & _).
  destruct (stage_neutrinos_stages _ _ _ _ _ _ _ _ _ Hn)
    as (p0 & h & p1 & p2 & p3 & p4 & m5 & T5 & p5 & sg & m6 & T6 &
        H0 & Hh & H1 & _ & H2 & H3 & H4 & H5 & H6 & H7).
  pose proof (before_ncdm_keys _ _ _ _ _ _ _ _ _ _ H0 H1 H2 H3 H4) as F.
  assert (En : getitem "neutrino_hierarchy" p5 = Some nh).
  { rewrite (stage_ncdm_keys _ _ _ _ _ _ _ _ _ _ H5) by (simpl; intuition discriminate).
    rewrite F; [exact Hnh | reflexivity | not_in_names]. }
  unfold stage_hierarchy, pop in H7. rewrite En in H7.
  assert (H7' : (if negb sg then raise (CosmologyError HierarchyWithList)
                 else match m6, T6 with
                      | sum_ncdm :: _, T0 :: _ =>
                          sum_ncdm <- as_num sum_ncdm ;;
                          if flt sum_ncdm (Fin 0) then raise (CosmologyError NegativeSum)
                          else ' (m0, m1, m2) <- split_hierarchy fuel nh sum_ncdm ;;
                               ret ([SNum m0; SNum m1; SNum m2], [T0; T0; T0],
                                    delitem "neutrino_hierarchy" p5)
                      | _, _ => raise IndexError
                      end) s1 = (Ok (m1, T1, q1), s1)).
  { destruct nh as [[| |]| |]; try exact H7. contradiction Hnn; reflexivity. }
  clear H7.
  destruct Hcase as [(m & Hm & Hcase)|[Harr Hc]].
  - assert (Em : getitem "m_ncdm" p4 = Some m)
      by (rewrite F; [exact Hm | reflexivity | not_in_names]).
    unfold stage_ncdm, pop in H5. rewrite Em in H5. minv H5.
    unfold stage_lists in H6.
    destruct Hcase as [Hc|[Hc|(x & Hc & Hx)]].
    + destruct m as [y|p|a]; [discriminate| |];
        cbn [ndim0] in H6; apply bind_ok in H6 as (? & ? & _ & H6);
        apply bind_ok in H6 as (? & ? & _ & H6); minv H6; discriminate.
    + subst m. cbn [ndim0] in H6. apply bind_ok in H6 as (? & ? & _ & H6).
      apply bind_ok in H6 as (? & ? & _ & H6). minv H6; discriminate.
    + subst m. cbn [ndim0 make_list] in H6.
      apply bind_ok in H6 as (ms & ? & E6 & H6). apply ret_ok in E6 as [<- <-].
      apply bind_ok in H6 as (? & ? & _ & H6). minv H6.
      cbn [negb] in H7'. destruct T6 as [|T0 T6]; [discriminate|].
      cbn [as_num] in H7'. apply bind_ok in H7' as (y & ? & Ey & H7').
      apply ret_ok in Ey as [<- <-]. rewrite Hx in H7'. discriminate.
  - destruct sg; [|discriminate]. cbn [negb] in H7'.
    destruct m6 as [|m0 m6]; [discriminate|]. destruct T6 as [|T0 T6]; [discriminate|].
    apply bind_ok in H7' as (y & t & Ey & H7').
    destruct (flt y (Fin 0)); [discriminate|].
    apply bind_ok in H7' as (z & t' & Ez & _).
    destruct (split_hierarchy_unknown _ _ _ _ _ _ Hc Ez) as [e He]; discriminate.
Qed.

Lemma hierarchy_refusals_witness :
  (compile_params sample_constants no_quad sample_z 0
     [("h", VNum 0.7); ("m_ncdm", VNone); ("neutrino_hierarchy", VStr "normal")] []
     = (Raise (CosmologyError HierarchyWithList), []) /\
   exists e, (Raise (CosmologyError HierarchyWithList) : outcome dict) = Raise e) /\
  (compile_params sample_constants no_quad sample_z 0
     [("h", VNum 0.7); ("Omega_ncdm", VNum 0); ("neutrino_hierarchy", VStr "other")] []
     = (Raise (CosmologyError UnknownHierarchy), []) /\
   exists e, (Raise (CosmologyError UnknownHierarchy) : outcome dict) = Raise e).
Proof.
  assert (H : compile_params sample_constants no_quad sample_z 0
                [("h", VNum 0.7); ("m_ncdm", VNone); ("neutrino_hierarchy", VStr "normal")] []
              = (Raise (CosmologyError HierarchyWithList), [])).
  { py_run arith. }
  assert (H' : compile_params sample_constants no_quad sample_z 0
                 [("h", VNum 0.7); ("Omega_ncdm", VNum 0);
                  ("neutrino_hierarchy", VStr "other")] []
               = (Raise (CosmologyError UnknownHierarchy), [])).
  { py_run arith. }
  split; (split; [assumption|]).
  - apply (hierarchy_refusals sample_constants no_quad sample_z 0
             [("h", VNum 0.7); ("m_ncdm", VNone); ("neutrino_hierarchy", VStr "normal")] []
             (VStr "normal") _ _ eq_refl) with (3 := H).
    + discriminate.
    + left; exists VNone; split; [reflexivity | right; left; reflexivity].
  - apply (hierarchy_refusals sample_constants no_quad sample_z 0
             [("h", VNum 0.7); ("Omega_ncdm", VNum 0);
              ("neutrino_hierarchy", VStr "other")] []
             (VStr "other") _ _ eq_refl) with (3 := H').
    + discriminate.
    + right; split; [discriminate|].
      intros name [<-|[<-|[<-|[]]]]; discriminate.
Defined.

(** ** What a constructed instance always stores *)
Lemma find_conflicts_of_group g n : In g conflicts -> In n g -> find_conflicts n = g.
Proof. intros; apply find_conflicts_group; assumption. Qed.

(** A merge leaves one name at least of every group of which the base
    holds a name. *)
Lemma merge_params_keeps_a_member base over g c :
  In g conflicts -> In c g -> contains c base = true ->
  exists n, In n g /\ contains n (merge_params base over) = true /\
            (contains n over = true \/ (n = c /\ forall k, In k g -> contains k over = false)).
Proof.
  intros Hg Hc Hb.
  destruct (existsb (fun n => contains n over) g) eqn:E.
  - apply existsb_exists in E as (n & Hn & E). exists n; repeat split; auto.
    rewrite contains_merge_params, E; reflexivity.
  - assert (Hno : forall k, In k g -> contains k over = false).
    { intros k Hk. destruct (contains k over) eqn:Ek; [|reflexivity].
      assert (existsb (fun n => contains n over) g = true)
        by (apply existsb_exists; exists k; auto).
      congruence. }
    exists c; repeat split; auto.
    rewrite contains_merge_params, Hb, andb_true_r.
    apply orb_true_iff; right. apply negb_true_iff.
    destruct (existsb _ (keys over)) eqn:Ex; [exfalso | reflexivity].
    apply existsb_exists in Ex as (n & HIn & Ex). apply mem_In in Ex.
    assert (Hn : In n g).
    { pose proof (find_conflicts_same n c Ex) as E1.
      rewrite (find_conflicts_of_group g c Hg Hc) in E1.
      rewrite E1. eapply find_conflicts_self; eauto. }
    apply In_keys_contains in HIn. rewrite (Hno n Hn) in HIn; discriminate.
Qed.

Lemma stage_A_s_back params s out s' :
  stage_A_s params s = (Ok out, s') -> contains "A_s" out = true ->
  contains "ln10^{10}A_s" params = true \/ contains "A_s" params = true.
Proof.
  unfold stage_A_s; intros H Hc.
  destruct (pop "ln10^{10}A_s" params) as [[v p]|] eqn:Ep.
  - left. apply pop_some in Ep as [Ep _]. rewrite contains_getitem, Ep; reflexivity.
  - minv H. right; exact Hc.
Qed.

Lemma renamed_to_capital items k :
  startswith "Omega" k = false -> renamed_to items k = false.
Proof.
  intros Hk. unfold renamed_to.
  destruct (existsb _ (keys items)) eqn:E; [exfalso | reflexivity].
  apply existsb_exists in E as (name & _ & E).
  apply andb_true_iff in E as [E1 E2]. apply String.eqb_eq in E2.
  apply replace_omega_prefix in E1. congruence.
Qed.

(** A name of the input that no stage removes is a name of the result. *)
Lemma compile_params_present K quad dz fuel args s out s' k :
  compile_params K quad dz fuel args s = (Ok out, s') ->
  startswith "omega" k = false -> k <> "H0" ->
  ~ In k (map snd aliases) -> ~ In k consumed_names ->
  contains k args = true -> contains k out = true.
Proof.
  intros H Hk1 Hk2 Hk3 Hk4 Hc.
  destruct (compile_params_after_aliases _ _ _ _ _ _ _ _ H)
    as (p0 & h & p1 & s1 & p2 & H0 & H1 & H2 & Hp & _).
  apply Hp; [exact Hk4|].
  eapply set_aliases_present; [exact H2 | exact Hk3 |].
  eapply omega_loop_present; [exact H1 | exact Hk1 |].
  eapply stage_H0_present; eauto.
Qed.

(** [A_s] is in the result only if the input has it or its logarithm. *)
Lemma compile_params_A_s_back K quad dz fuel args s out s' :
  compile_params K quad dz fuel args s = (Ok out, s') ->
  contains "A_s" out = true ->
  contains "ln10^{10}A_s" args = true \/ contains "A_s" args = true.
Proof.
  intros H Hc.
  destruct (compile_params_inv _ _ _ _ _ _ _ _ H)
    as (m & T & q1 & s1 & q2 & s2 & q3 & Hn & HN & Hz & HO).
  destruct (stage_neutrinos_stages _ _ _ _ _ _ _ _ _ Hn)
    as (p0 & h & p1 & p2 & p3 & p4 & m5 & T5 & p5 & sg & m6 & T6 &
        H0 & Hh & H1 & _ & H2 & H3 & H4 & H5 & H6 & H7).
  assert (E3 : contains "A_s" p3 = true).
  { rewrite contains_getitem in Hc |- *.
    rewrite (stage_Omega_m_keys _ _ _ _ _ _ HO),
            (stage_z_pk_keys _ _ _ _ _ Hz),
            (stage_N_ur_keys _ _ _ _ _ _ _ HN),
            (stage_hierarchy_keys _ _ _ _ _ _ _ _ _ _ H7),
            (stage_ncdm_keys _ _ _ _ _ _ _ _ _ _ H5),
            (stage_Omega_g_keys _ _ _ _ _ _ H4) in Hc
      by (simpl; intuition discriminate).
    exact Hc. }
  assert (F : forall k, In k ["ln10^{10}A_s"; "A_s"] -> getitem k p2 = getitem k args).
  { intros k Hk.
    rewrite (set_aliases_untouched _ _ _ _ _ _ k H2),
            (omega_loop_frame _ _ _ _ _ _ k H1).
    - apply (stage_H0_keys _ _ _ _ H0).
      simpl in Hk; destruct Hk as [<-|[<-|[]]]; simpl; intuition discriminate.
    - simpl in Hk; destruct Hk as [<-|[<-|[]]]; reflexivity.
    - apply renamed_to_capital.
      simpl in Hk; destruct Hk as [<-|[<-|[]]]; reflexivity.
    - intros HIn; exfalso.
      simpl in Hk; destruct Hk as [<-|[<-|[]]]; simpl in HIn; intuition discriminate.
    - intros an HIn; exfalso. simpl in HIn.
      simpl in Hk; destruct Hk as [<-|[<-|[]]];
        repeat (destruct HIn as [E|HIn]; [discriminate E|]); contradiction. }
  destruct (stage_A_s_back _ _ _ _ H3 E3) as [E|E]; [left | right];
    rewrite contains_getitem in E |- *; rewrite F in E by (simpl; tauto); exact E.
Qed.

Lemma passes_through_sigma8 args : passes_through args "sigma8" = true.
Proof.
  unfold passes_through. rewrite renamed_to_capital by reflexivity. reflexivity.
Qed.

Lemma init_canonical
    (K : constants) (quad : (R -> R) -> R -> R -> R -> R) (dz : list scalar)
    (fuel : nat) (params : dict) (s : store) (out : dict) (s' : store) :
  Cosmology_init K quad dz fuel params s = (Ok out, s') ->
  (forall k, In k ["h"; "T_cmb"; "Omega_b"; "Omega_k"; "N_ur"; "m_ncdm"; "T_ncdm";
                   "z_pk"; "modes"] -> contains k out = true) /\
  (contains "omega_c" params = false -> contains "Omega_cdm" out = true) /\
  (contains "A_s" out = true \/ contains "sigma8" out = true) /\
  (contains "A_s" out = true -> contains "sigma8" out = false).
Proof.
  intros H. unfold Cosmology_init in H.
  apply bind_ok in H as (u & s0 & Hchk & H).
  unfold lift in Hchk. inversion Hchk as [[Hck Hs0]]. subst s0. clear Hchk.
  destruct u.
  set (a := merge_params (get_default_parameters K) params) in *.
  destruct (compile_params_leaves _ _ _ _ _ _ _ _ H)
    as (_ & _ & _ & hv & N & p & Tv & z & mo & Eh & EN & Em & _ & ET & _ & Ez & _ & Emo & _).
  assert (Canon : forall g c, In g conflicts -> In c g ->
                    contains c (get_default_parameters K) = true ->
                    (forall n, In n g -> In n ["omega_c"; "sigma8"; "z_reio"] ->
                               contains n params = false /\ n <> c) ->
                    contains (canonical g) out = true).
  { intros g c Hg Hc Hd Hex.
    destruct (merge_params_keeps_a_member (get_default_parameters K) params g c Hg Hc Hd)
      as (n & Hn & Hna & Hwhy).
    eapply canonical_name_reached; eauto.
    intros Hbad. destruct (Hex n Hn Hbad) as [E1 E2].
    destruct Hwhy as [E|[E _]]; congruence. }
  split; [|split; [|split]].
  - intros k Hk. simpl in Hk.
    destruct Hk as [<-|[<-|[<-|[<-|[<-|[<-|[<-|[<-|[<-|[]]]]]]]]]];
      try (rewrite contains_getitem;
           first [rewrite Eh | rewrite EN | rewrite Em | rewrite ET | rewrite Ez
                 | rewrite Emo]; reflexivity).
    + apply (Canon ["T_cmb"; "Omega_g"; "omega_g"; "Omega0_g"] "T_cmb");
        try (simpl; tauto); try reflexivity.
      intros n Hn Hbad; exfalso; simpl in Hn, Hbad.
      repeat (destruct Hn as [<-|Hn]; [intuition discriminate|]); contradiction.
    + apply (Canon ["Omega_b"; "omega_b"; "Omega0_b"] "Omega_b");
        try (simpl; tauto); try reflexivity.
      intros n Hn Hbad; exfalso; simpl in Hn, Hbad.
      repeat (destruct Hn as [<-|Hn]; [intuition discriminate|]); contradiction.
    + eapply compile_params_present; [exact H | reflexivity | discriminate
                                     | simpl; intuition discriminate
                                     | simpl; intuition discriminate |].
      unfold a. rewrite contains_merge_params.
      apply orb_true_iff; right. apply andb_true_iff; split; [|reflexivity].
      apply negb_true_iff.
      destruct (existsb _ (keys params)) eqn:Ex; [exfalso | reflexivity].
      apply existsb_exists in Ex as (n & _ & Ex). apply mem_In in Ex.
      unfold find_conflicts in Ex.
      destruct (find_in_In n conflicts) as [E0|E0]; [rewrite E0 in Ex; contradiction|].
      revert Ex. generalize dependent (find_in n conflicts). intros g Hg.
      unfold conflicts in Hg; simpl in Hg.
      repeat (destruct Hg as [<-|Hg]; [simpl; intuition discriminate|]).
      contradiction.
  - intros Hoc.
    apply (Canon ["Omega_cdm"; "omega_cdm"; "Omega0_cdm"; "Omega_c"; "omega_c"] "Omega_cdm");
      try (simpl; tauto); try reflexivity.
    intros n Hn Hbad. simpl in Hn, Hbad.
    repeat (destruct Hn as [<-|Hn]; [try (exfalso; intuition discriminate)|]);
      try contradiction.
    split; [exact Hoc | discriminate].
  - destruct (merge_params_keeps_a_member (get_default_parameters K) params
                ["A_s"; "ln10^{10}A_s"; "sigma8"] "sigma8")
      as (n & Hn & Hna & _); try (simpl; tauto); try reflexivity.
    simpl in Hn. destruct Hn as [<-|[<-|[<-|[]]]].
    + left. apply (canonical_name_reached _ _ _ _ _ _ _ _
                     ["A_s"; "ln10^{10}A_s"; "sigma8"] "A_s" H);
        try (simpl; tauto); try exact Hna; simpl; intuition discriminate.
    + left. apply (canonical_name_reached _ _ _ _ _ _ _ _
                     ["A_s"; "ln10^{10}A_s"; "sigma8"] "ln10^{10}A_s" H);
        try (simpl; tauto); try exact Hna; simpl; intuition discriminate.
    + right. eapply compile_params_present; [exact H | reflexivity | discriminate
                                            | simpl; intuition discriminate
                                            | simpl; intuition discriminate | exact Hna].
  - intros HA. destruct (contains "sigma8" out) eqn:Hs; [exfalso | reflexivity].
    assert (Hs' : contains "sigma8" a = true).
    { rewrite contains_getitem in Hs |- *.
      rewrite (compile_params_untouched _ _ _ _ _ _ _ _ "sigma8" H (passes_through_sigma8 a)) in Hs.
      exact Hs. }
    destruct (merge_params_checked K [] params Hck) as [_ Hfree].
    fold a in Hfree. rewrite check_params_Ok_iff in Hfree.
    destruct (compile_params_A_s_back _ _ _ _ _ _ _ _ H HA) as [E|E].
    + specialize (Hfree "sigma8" "ln10^{10}A_s" Hs' E). simpl in Hfree.
      discriminate Hfree. tauto.
    + specialize (Hfree "sigma8" "A_s" Hs' E). simpl in Hfree.
      discriminate Hfree. tauto.
Qed.

(** X15: Every mapping that Cosmology.__init__ stores has the keys h, T_cmb,
    Omega_b, Omega_k, N_ur, m_ncdm, T_ncdm, z_pk and modes; it has
    Omega_cdm unless the arguments give omega_c; it has A_s or sigma8, and
    never both. *)
Theorem init_stores_the_canonical_names
    (K : constants) (quad : (R -> R) -> R -> R -> R -> R) (dz : list scalar)
    (fuel : nat) (params : dict) (s : store) (out : dict) (s' : store) :
  Cosmology_init K quad dz fuel params s = (Ok out, s') ->
  (forall k, In k ["h"; "T_cmb"; "Omega_b"; "Omega_k"; "N_ur"; "m_ncdm"; "T_ncdm";
                   "z_pk"; "modes"] -> contains k out = true) /\
  (contains "omega_c" params = false -> contains "Omega_cdm" out = true) /\
  (contains "A_s" out = true \/ contains "sigma8" out = true) /\
  (contains "A_s" out = true -> contains "sigma8" out = false).
Proof. exact (init_canonical K quad dz fuel params s out s'). Qed.

Lemma init_stores_the_canonical_names_witness :
  Cosmology_init sample_constants no_quad sample_z 0 [("m_ncdm", VNum 0.06)] []
    = (Ok base_params, base_store) /\
  contains "Omega_cdm" base_params = true /\
  (contains "A_s" base_params = true \/ contains "sigma8" base_params = true).
Proof.
  split; [exact base_is_compiled|].
  destruct (init_stores_the_canonical_names _ _ _ _ _ _ _ _ base_is_compiled)
    as (_ & Hc & Ha & _).
  split; [apply Hc; reflexivity | exact Ha].
Defined.

(** ** The accessors *)

Lemma keeps_entries_refl p : keeps_entries p p.
Proof. split; auto. Qed.

Lemma keeps_entries_trans p q r :
  keeps_entries p q -> keeps_entries q r -> keeps_entries p r.
Proof.
  intros [H1 H2] [H3 H4]; split.
  - intros k Hk. rewrite H3, H1; auto.
  - intros v Hv. auto.
Qed.

Lemma gentle_retE {A} (a : A) : gentle (retE a).
Proof. intros p s r p' H; inversion H; apply keeps_entries_refl. Qed.

Lemma gentle_failE {A} e : gentle (@failE A e).
Proof. intros p s r p' H; inversion H; apply keeps_entries_refl. Qed.

Lemma gentle_run {A} (m : M A) : gentle (run m).
Proof.
  intros p s r p' H; unfold run in H.
  destruct (fst (m s)); inversion H; apply keeps_entries_refl.
Qed.

Lemma gentle_param name : gentle (param name).
Proof.
  intros p s r p' H; unfold param in H.
  destruct (getitem name p); inversion H; apply keeps_entries_refl.
Qed.

Lemma gentle_bindE {A B} (m : Method A) (f : A -> Method B) :
  gentle m -> (forall a, gentle (f a)) -> gentle (bindE m f).
Proof.
  intros Hm Hf p s r p' H. unfold bindE in H.
  destruct (m p s) as [[a|e] p1] eqn:E1.
  - eapply keeps_entries_trans; [eapply Hm; eauto | eapply Hf; eauto].
  - inversion H; subst. eapply Hm; eauto.
Qed.

Ltac gentle_tac :=
  repeat first
    [ apply gentle_retE | apply gentle_failE | apply gentle_run | apply gentle_param
    | assumption
    | apply gentle_bindE; [|intros]
    | match goal with
      | H : forall n, gentle (?f n) |- gentle (?f _) => apply H
      | |- gentle (if ?b then _ else _) => destruct b
      | |- gentle (match ?x with _ => _ end) => destruct x
      end ].

Section Engine_properties.

Variable K : constants.
Variable quad : (R -> R) -> R -> R -> R -> R.

Lemma gentle_engine_sum_momenta self_item out fa mT toret :
  (forall n, gentle (self_item n)) ->
  gentle (engine_sum_momenta K quad self_item out fa mT toret).
Proof.
  intros Hs; revert toret; induction mT as [|[m T] mT IH]; intros toret; simpl.
  - apply gentle_retE.
  - gentle_tac.
Qed.

Lemma gentle_store_Omega_ncdm x :
  gentle (fun p (_ : store) =>
            (Done tt, setitem "Omega_ncdm" (get "Omega_ncdm" (V (SNum x)) p) p)).
Proof.
  intros p s r p' H; inversion H; subst; clear H. split.
  - intros k Hk. apply getitem_setitem_neq. congruence.
  - intros v Hv. unfold get. rewrite Hv. apply getitem_setitem_eq.
Qed.

Lemma gentle_derive self_item name default :
  (forall n, gentle (self_item n)) ->
  gentle (derive K quad self_item name default).
Proof.
  intros Hs. unfold derive, over_critical, engine_get_ncdm.
  repeat match goal with
  | |- gentle (if ?b then _ else _) => destruct b
  end;
  repeat first
    [ apply gentle_retE | apply gentle_failE | apply gentle_run | apply gentle_param
    | apply Hs | apply gentle_store_Omega_ncdm
    | apply gentle_engine_sum_momenta; exact Hs
    | apply gentle_bindE; [|intros]
    | match goal with
      | |- gentle (match ?x with _ => _ end) => destruct x
      end ].
Qed.

Lemma gentle_get fuel name default : gentle (BaseEngine_get K quad fuel name default).
Proof.
  revert name default; induction fuel as [|fuel IH]; intros name default.
  - apply gentle_failE.
  - intros p s r p' H. cbn [BaseEngine_get] in H.
    destruct (getitem name p) as [v|].
    + inversion H; apply keeps_entries_refl.
    + eapply gentle_derive; [|exact H]. intros n; apply IH.
Qed.

End Engine_properties.

(** ** Termination of get *)

Lemma depthb_mono k name : depthb k name = true -> depthb (S k) name = true.
Proof.
  revert name; induction k as [|k IH]; intros name H.
  - cbn [depthb] in *. destruct (callees name); [reflexivity | discriminate].
  - cbn [depthb] in H. change (forallb (depthb (S k)) (callees name) = true).
    rewrite forallb_forall in *. intros c Hc. apply IH, H, Hc.
Qed.

Lemma depthb_capital name :
  startswith "omega" name = false -> depthb 2 name = true.
Proof.
  intros Ho. change (forallb (depthb 1) (callees name) = true).
  unfold callees. rewrite Ho.
  repeat match goal with
  | |- context [String.eqb name ?lit] => destruct (String.eqb name lit); [reflexivity|]
  end.
  reflexivity.
Qed.

Lemma depthb_any name : depthb 3 name = true.
Proof.
  destruct (startswith "omega" name) eqn:Ho.
  - change (forallb (depthb 2) (callees name) = true).
    unfold callees; rewrite Ho. cbn [forallb]. rewrite andb_true_r.
    apply depthb_capital. reflexivity.
  - apply depthb_mono, depthb_capital, Ho.
Qed.

Section Engine_termination.

Variable K : constants.
Variable quad : (R -> R) -> R -> R -> R -> R.

Lemma engine_sum_momenta_ext f g out fa mT toret :
  f "T_cmb" = g "T_cmb" ->
  engine_sum_momenta K quad f out fa mT toret =
  engine_sum_momenta K quad g out fa mT toret.
Proof.
  intros H; revert toret; induction mT as [|[m T] mT IH]; intros toret; simpl.
  - reflexivity.
  - rewrite H. f_equal. extensionality a. f_equal. extensionality b.
    f_equal. extensionality c0. f_equal. extensionality x. apply IH.
Qed.

(** [derive] depends on [self[...]] through the callees only. *)
Lemma derive_ext f g name default :
  (forall c, In c (callees name) -> f c = g c) ->
  derive K quad f name default = derive K quad g name default.
Proof.
  intros H. unfold derive, callees in *.
  destruct (startswith "omega" name).
  { rewrite (H _ (or_introl eq_refl)). reflexivity. }
  destruct (String.eqb name "H0"); [reflexivity|].
  destruct (String.eqb name "ln10^{10}A_s"); [reflexivity|].
  destruct (String.eqb name "Omega_g").
  { unfold over_critical. rewrite (H "h"); [reflexivity | simpl; tauto]. }
  destruct (String.eqb name "T_ur"); [reflexivity|].
  destruct (String.eqb name "Omega_ur").
  { unfold over_critical. rewrite (H "h"), (H "T_ur"); [reflexivity | simpl; tauto ..]. }
  destruct (String.eqb name "Omega_r").
  { unfold over_critical.
    rewrite (H "h"), (H "T_ur"), (H "N_ur"); [reflexivity | simpl; tauto ..]. }
  destruct (String.eqb name "Omega_ncdm").
  { unfold engine_get_ncdm.
    rewrite (H "h"), (H "m_ncdm"), (H "T_ncdm"); [| simpl; tauto ..].
    f_equal. f_equal. extensionality m. f_equal. extensionality T.
    f_equal. extensionality l. f_equal. extensionality l'.
    f_equal. apply engine_sum_momenta_ext. apply H; simpl; tauto. }
  destruct (String.eqb name "Omega_m").
  { rewrite (H "Omega_b"), (H "Omega_cdm"), (H "Omega_ncdm");
      [reflexivity | simpl; tauto ..]. }
  reflexivity.
Qed.

Lemma get_stable k :
  forall name, depthb k name = true ->
  forall n, BaseEngine_get K quad (S k + n) name = BaseEngine_get K quad (S k) name.
Proof.
  induction k as [|k IH]; intros name Hd n; extensionality d; extensionality p;
    extensionality s; cbn [BaseEngine_get Nat.add];
    destruct (getitem name p); try reflexivity;
    (erewrite derive_ext; [reflexivity|]); intros c0 Hc.
  - cbn [depthb] in Hd. destruct (callees name); [contradiction | discriminate].
  - cbn [depthb] in Hd. rewrite forallb_forall in Hd.
    change (BaseEngine_get K quad (S k + n) c0 None = BaseEngine_get K quad (S k) c0 None).
    rewrite (IH c0 (Hd c0 Hc) n). reflexivity.
Qed.

End Engine_termination.

(** ** No computation of the accessors runs out of fuel *)

Lemma no_diverge_ret {A} (a : A) : no_diverge (ret a).
Proof. intros s e s' H; discriminate. Qed.

Lemma no_diverge_raise {A} e : e <> Diverge -> no_diverge (@raise A e).
Proof. intros He s e' s' H; inversion H; subst; exact He. Qed.

Lemma no_diverge_bind {A B} (m : M A) (f : A -> M B) :
  no_diverge m -> (forall a, no_diverge (f a)) -> no_diverge (bind m f).
Proof.
  intros Hm Hf s e s' H. unfold bind in H.
  destruct (m s) as [[a|e0] s1] eqn:E1.
  - eapply Hf; eauto.
  - inversion H; subst. eapply Hm; eauto.
Qed.

Lemma no_diverge_deref p : no_diverge (deref p).
Proof.
  intros s e s' H; unfold deref in H.
  destruct (nth_error s p); inversion H; discriminate.
Qed.

Lemma no_diverge_mapM {A B} (f : A -> M B) l :
  (forall a, no_diverge (f a)) -> no_diverge (mapM f l).
Proof.
  intros Hf; induction l as [|a l IH]; simpl.
  - apply no_diverge_ret.
  - apply no_diverge_bind; [apply Hf|]; intros b.
    apply no_diverge_bind; [exact IH|]; intros bs; apply no_diverge_ret.
Qed.

Ltac nd_tac :=
  repeat first
    [ apply no_diverge_ret | apply no_diverge_raise; discriminate
    | apply no_diverge_deref
    | assumption
    | apply no_diverge_bind; [|intros]
    | apply no_diverge_mapM; intros
    | match goal with
      | |- no_diverge (if ?b then _ else _) => destruct b
      | |- no_diverge (let '(_, _) := ?x in _) => destruct x
      | |- no_diverge (match ?x with _ => _ end) => destruct x
      end ].

Lemma no_diverge_as_num x : no_diverge (as_num x).
Proof. unfold as_num; nd_tac. Qed.

Lemma no_diverge_as_factor x : no_diverge (as_factor x).
Proof. unfold as_factor; nd_tac. Qed.

Lemma no_diverge_py_div a b : no_diverge (py_div a b).
Proof. unfold py_div; nd_tac. Qed.

Lemma no_diverge_rdiv a b : no_diverge (rdiv a b).
Proof. unfold rdiv; nd_tac. Qed.

Lemma no_diverge_square h : no_diverge (square h).
Proof. unfold square; nd_tac. Qed.

Lemma no_diverge_mul_vs v x : no_diverge (mul_vs v x).
Proof.
  unfold mul_vs; destruct v; nd_tac; first [apply no_diverge_as_factor].
Qed.

Lemma no_diverge_times v x : no_diverge (times v x).
Proof. unfold times; destruct v; nd_tac; apply no_diverge_as_factor. Qed.

Lemma no_diverge_pow4 v : no_diverge (pow4 v).
Proof. unfold pow4; nd_tac. Qed.

Lemma no_diverge_plus a b : no_diverge (plus a b).
Proof. unfold plus; nd_tac. Qed.

Lemma no_diverge_iterate v : no_diverge (iterate v).
Proof. unfold iterate; nd_tac. Qed.

Lemma no_diverge_make_list x : no_diverge (make_list x).
Proof. unfold make_list; nd_tac. Qed.

Lemma no_diverge_momenta K quad T m out : no_diverge (momenta K quad T m out).
Proof.
  unfold momenta, _compute_ncdm_momenta.
  destruct T; try (apply no_diverge_raise; discriminate).
  repeat first
    [ apply no_diverge_rdiv | apply no_diverge_as_num
    | apply no_diverge_ret | apply no_diverge_raise; discriminate
    | apply no_diverge_bind; [|intros]
    | match goal with
      | |- no_diverge (if ?b then _ else _) => destruct b
      | |- no_diverge (match ?x with _ => _ end) => destruct x
      end ].
Qed.

Lemma no_diverge_radiation_density K x : no_diverge (radiation_density K x).
Proof.
  unfold radiation_density. apply no_diverge_bind; [apply no_diverge_py_div|].
  intros; apply no_diverge_ret.
Qed.

Lemma settles_retE {A} (a : A) : settles (retE a).
Proof. intros p s e p' H; discriminate. Qed.

Lemma settles_failE {A} e : e <> Exn Diverge -> settles (@failE A e).
Proof. intros He p s e' p' H; inversion H; subst; exact He. Qed.

Lemma settles_run {A} (m : M A) : no_diverge m -> settles (run m).
Proof.
  intros Hm p s e p' H. unfold run in H.
  destruct (m s) as [[a|e0] s1] eqn:E1; simpl in H; inversion H; subst.
  intros E; inversion E; subst. eapply Hm; eauto.
Qed.

Lemma settles_param name : settles (param name).
Proof.
  intros p s e p' H; unfold param in H.
  destruct (getitem name p); inversion H; discriminate.
Qed.

Lemma settles_bindE {A B} (m : Method A) (f : A -> Method B) :
  settles m -> (forall a, settles (f a)) -> settles (bindE m f).
Proof.
  intros Hm Hf p s e p' H. unfold bindE in H.
  destruct (m p s) as [[a|e0] p1] eqn:E1.
  - eapply Hf; eauto.
  - inversion H; subst. eapply Hm; eauto.
Qed.

Ltac settles_tac :=
  repeat first
    [ apply settles_retE | apply settles_failE; discriminate | apply settles_param
    | assumption
    | apply settles_run;
      first [ apply no_diverge_square | apply no_diverge_times | apply no_diverge_pow4
            | apply no_diverge_plus | apply no_diverge_iterate | apply no_diverge_py_div
            | apply no_diverge_mul_vs | apply no_diverge_momenta
            | apply no_diverge_radiation_density
            | apply no_diverge_mapM; intros;
              apply no_diverge_bind; [apply no_diverge_as_num | intros; apply no_diverge_ret]
            | nd_tac; first [apply no_diverge_make_list | apply no_diverge_py_div] ]
    | apply settles_bindE; [|intros] ].

Section Engine_settles.

Variable K : constants.
Variable quad : (R -> R) -> R -> R -> R -> R.

Lemma settles_engine_sum_momenta f out fa mT toret :
  settles (f "T_cmb") ->
  settles (engine_sum_momenta K quad f out fa mT toret).
Proof.
  intros Hf; revert toret; induction mT as [|[m T] mT IH]; intros toret; simpl.
  - apply settles_retE.
  - settles_tac. apply IH.
Qed.

Lemma settles_derive f name default :
  (forall c, In c (callees name) -> settles (f c)) ->
  settles (derive K quad f name default).
Proof.
  intros H. unfold derive, callees in *.
  destruct (startswith "omega" name).
  { pose proof (H _ (or_introl eq_refl)). settles_tac. }
  destruct (String.eqb name "H0"); [settles_tac|].
  destruct (String.eqb name "ln10^{10}A_s"); [settles_tac|].
  destruct (String.eqb name "Omega_g").
  { unfold over_critical. pose proof (H "h" ltac:(simpl; tauto)). settles_tac. }
  destruct (String.eqb name "T_ur"); [settles_tac|].
  destruct (String.eqb name "Omega_ur").
  { unfold over_critical. pose proof (H "h" ltac:(simpl; tauto)).
    pose proof (H "T_ur" ltac:(simpl; tauto)). settles_tac. }
  destruct (String.eqb name "Omega_r").
  { unfold over_critical. pose proof (H "h" ltac:(simpl; tauto)).
    pose proof (H "T_ur" ltac:(simpl; tauto)).
    pose proof (H "N_ur" ltac:(simpl; tauto)). settles_tac. }
  destruct (String.eqb name "Omega_ncdm").
  { unfold engine_get_ncdm. pose proof (H "h" ltac:(simpl; tauto)).
    pose proof (H "m_ncdm" ltac:(simpl; tauto)).
    pose proof (H "T_ncdm" ltac:(simpl; tauto)).
    pose proof (H "T_cmb" ltac:(simpl; tauto)).
    settles_tac.
    - apply settles_engine_sum_momenta; assumption.
    - intros p s e p' E; discriminate. }
  destruct (String.eqb name "Omega_m").
  { pose proof (H "Omega_b" ltac:(simpl; tauto)).
    pose proof (H "Omega_cdm" ltac:(simpl; tauto)).
    pose proof (H "Omega_ncdm" ltac:(simpl; tauto)). settles_tac. }
  destruct (String.eqb name "N_ncdm"); [settles_tac|].
  destruct (String.eqb name "N_eff"); [settles_tac|].
  destruct default; settles_tac.
Qed.

Lemma settles_get k :
  forall name default, depthb k name = true ->
  settles (BaseEngine_get K quad (S k) name default).
Proof.
  induction k as [|k IH]; intros name default Hd p s e p' H;
    cbn [BaseEngine_get] in H;
    (destruct (getitem name p); [discriminate|]);
    (eapply settles_derive; [|exact H]); intros c0 Hc.
  - cbn [depthb] in Hd. destruct (callees name); [contradiction | discriminate].
  - cbn [depthb] in Hd. rewrite forallb_forall in Hd.
    apply IH, Hd, Hc.
Qed.

End Engine_settles.

(** X16: BaseEngine.get nests at most three calls of self[...] (omega_m,
    Omega_m, Omega_ncdm, m_ncdm): with the bound 4 on the nesting the
    model never answers that the bound was reached, and every larger bound
    gives the same result and the same mapping. *)
Theorem get_terminates
    (K : constants) (quad : (R -> R) -> R -> R -> R -> R)
    (n : nat) (name : string) (default : option value) (p : dict) (s : store) :
  BaseEngine_get K quad (4 + n) name default p s
    = BaseEngine_get K quad 4 name default p s /\
  fst (BaseEngine_get K quad 4 name default p s) <> Fail (Exn Diverge).
Proof.
  split.
  - rewrite (get_stable K quad 3 name (depthb_any name) n). reflexivity.
  - destruct (BaseEngine_get K quad 4 name default p s) as [[v|e] p'] eqn:E;
      simpl; [discriminate|].
    intros He; inversion He; subst.
    exact (settles_get K quad 3 name default (depthb_any name) _ _ _ _ E eq_refl).
Qed.

(** ** What the accessor answers *)

Lemma derive_unknown K quad f name default :
  startswith "omega" name = false -> ~ In name derived_names ->
  derive K quad f name default =
  match default with Some v => retE v | None => failE (ParameterNotFound name) end.
Proof.
  intros Ho Hd. unfold derive. rewrite Ho.
  repeat match goal with
  | |- context [String.eqb name ?lit] =>
      destruct (String.eqb_spec name lit) as [->|_];
      [exfalso; apply Hd; unfold derived_names; simpl; tauto|]
  end.
  reflexivity.
Qed.

Lemma get_unfold K quad fuel name default p s :
  BaseEngine_get K quad (S fuel) name default p s =
  match getitem name p with
  | Some v => (Done v, p)
  | None => derive K quad (fun n => BaseEngine_get K quad fuel n None) name default p s
  end.
Proof. reflexivity. Qed.

Lemma get_unknown K quad fuel name default p s :
  getitem name p = None -> startswith "omega" name = false ->
  ~ In name derived_names ->
  BaseEngine_get K quad (S fuel) name default p s =
  (match default with Some v => Done v | None => Fail (ParameterNotFound name) end, p).
Proof.
  intros Hp Ho Hd. cbn [BaseEngine_get]. rewrite Hp, derive_unknown by assumption.
  destruct default; reflexivity.
Qed.

Lemma get_stored K quad fuel name default p s v :
  getitem name p = Some v ->
  BaseEngine_get K quad (S fuel) name default p s = (Done v, p).
Proof. intros Hp. cbn [BaseEngine_get]. rewrite Hp. reflexivity. Qed.

(** X17: For a name that is not stored: when it is not a derived name and does
    not start with 'omega', get(name, default) returns the default and
    get(name) raises 'Parameter name not found'; when it starts with
    'omega' and its capitalised form is neither stored nor derived,
    get(name, default) raises 'Parameter O... not found' in spite of the
    default; and get('H0', default) raises KeyError('h') when h is not
    stored. *)
Theorem default_is_for_unknown_names
    (K : constants) (quad : (R -> R) -> R -> R -> R -> R)
    (fuel : nat) (name : string) (d : value) (p : dict) (s : store) :
  getitem name p = None ->
  (startswith "omega" name = false -> ~ In name derived_names ->
   BaseEngine_get K quad (S fuel) name (Some d) p s = (Done d, p) /\
   BaseEngine_get K quad (S fuel) name None p s = (Fail (ParameterNotFound name), p)) /\
  (startswith "omega" name = true ->
   getitem (String "O" (tail name)) p = None ->
   ~ In (String "O" (tail name)) derived_names ->
   BaseEngine_get K quad (S (S fuel)) name (Some d) p s =
     (Fail (ParameterNotFound (String "O" (tail name))), p)) /\
  (name = "H0" -> getitem "h" p = None ->
   BaseEngine_get K quad (S fuel) name (Some d) p s = (Fail (Exn (KeyError "h")), p)).
Proof.
  intros Hp. split; [|split].
  - intros Ho Hd. split; apply get_unknown; assumption.
  - intros Ho HN Hd.
    rewrite get_unfold, Hp. unfold derive. rewrite Ho.
    unfold bindE at 1.
    rewrite (get_unknown K quad fuel (String "O" (tail name)) None p s HN eq_refl Hd).
    reflexivity.
  - intros -> Hh. rewrite get_unfold, Hp.
    unfold derive. cbn [startswith String.eqb Ascii.eqb Bool.eqb andb].
    unfold bindE, param. rewrite Hh. reflexivity.
Qed.

Lemma default_is_for_unknown_names_witness :
  BaseEngine_get sample_constants no_quad 1 "Omega_Lambda" (Some (VNum 0.7))
    base_params base_store = (Done (VNum 0.7), base_params) /\
  BaseEngine_get sample_constants no_quad 1 "Omega_Lambda" None
    base_params base_store = (Fail (ParameterNotFound "Omega_Lambda"), base_params) /\
  BaseEngine_get sample_constants no_quad 2 "omega_Lambda" (Some (VNum 0.3))
    base_params base_store = (Fail (ParameterNotFound "Omega_Lambda"), base_params).
Proof.
  destruct (default_is_for_unknown_names sample_constants no_quad 0 "Omega_Lambda"
              (VNum 0.7) base_params base_store eq_refl) as (H1 & _ & _).
  destruct (default_is_for_unknown_names sample_constants no_quad 0 "omega_Lambda"
              (VNum 0.3) base_params base_store eq_refl) as (_ & H2 & _).
  destruct H1 as [H1 H1']; [reflexivity | simpl; intuition discriminate |].
  split; [exact H1|]. split; [exact H1'|].
  apply H2; [reflexivity | reflexivity | simpl; intuition discriminate].
Defined.

Ltac get_eval :=
  rewrite get_unfold;
  repeat match goal with
  | H : getitem ?k ?p = _ |- context [getitem ?k ?p] => rewrite H
  end;
  unfold derive; cbn [startswith String.eqb Ascii.eqb Bool.eqb andb].

Lemma passes_through_capital args k :
  startswith "Omega" k = false -> startswith "omega" k = false ->
  mem k stage_names = false -> mem k (map snd aliases) = false ->
  forallb (fun a => negb (String.eqb (fst a) k)) aliases = true ->
  passes_through args k = true.
Proof.
  intros H1 H2 H3 H4 H5. unfold passes_through.
  rewrite (renamed_to_capital args k H1), H2, H3, H4. cbn [negb andb].
  rewrite forallb_forall in *. intros a Ha. specialize (H5 a Ha).
  apply negb_true_iff in H5. rewrite H5. reflexivity.
Qed.

(** X18: On a mapping that compile_params returned, get('ln10^{10}A_s') raises
    KeyError('As') whatever the default, unless the input itself had a key
    'As': the branch reads self._params['As'], while compile_params stores
    the amplitude under 'A_s' and removes 'ln10^{10}A_s'. *)
Theorem log_amplitude_is_never_returned
    (K : constants) (quad : (R -> R) -> R -> R -> R -> R) (dz : list scalar)
    (fuel : nat) (args : dict) (s : store) (out : dict) (s' : store)
    (fuel' : nat) (default : option value) :
  compile_params K quad dz fuel args s = (Ok out, s') ->
  contains "As" args = false ->
  BaseEngine_get K quad (S fuel') "ln10^{10}A_s" default out s'
    = (Fail (Exn (KeyError "As")), out).
Proof.
  intros H HAs.
  destruct (compile_params_leaves _ _ _ _ _ _ _ _ H) as (_ & Habs & _).
  assert (E1 : getitem "ln10^{10}A_s" out = None) by (apply Habs; simpl; tauto).
  assert (E2 : getitem "As" out = None).
  { rewrite (compile_params_untouched _ _ _ _ _ _ _ _ "As" H).
    - rewrite contains_getitem in HAs.
      destruct (getitem "As" args); [discriminate | reflexivity].
    - apply passes_through_capital; reflexivity. }
  get_eval. unfold bindE, param. rewrite E2. reflexivity.
Qed.

Lemma log_amplitude_is_never_returned_witness :
  exists out s',
    compile_params sample_constants no_quad sample_z 0
      [("h", VNum 0.7); ("ln10^{10}A_s", VNum 3)] [] = (Ok out, s') /\
    BaseEngine_get sample_constants no_quad 1 "ln10^{10}A_s" None out s'
      = (Fail (Exn (KeyError "As")), out).
Proof.
  assert (H : exists out s',
    compile_params sample_constants no_quad sample_z 0
      [("h", VNum 0.7); ("ln10^{10}A_s", VNum 3)] [] = (Ok out, s')).
  { eexists; eexists. py_run arith. }
  destruct H as (out & s' & H). exists out, s'. split; [exact H|].
  apply (log_amplitude_is_never_returned _ _ _ _ _ _ _ _ 0%nat None H). reflexivity.
Defined.

(** ** The number of species and N_eff as the accessor reports them *)
Lemma stage_N_ur_drops_N_eff K m T p1 s1 p2 s2 :
  get "N_ur" VNone p1 = VNone ->
  stage_N_ur K m T p1 s1 = (Ok p2, s2) -> getitem "N_eff" p2 = None.
Proof.
  intros HN H. unfold stage_N_ur in H. rewrite HN in H.
  destruct (contains "Omega_ur" p1); [minv H|].
  apply bind_ok in H as ([[[N m'] T'] p] & s3 & H1 & H).
  apply bind_ok in H1 as ([[[N0 m0] T0] p0] & s4 & Hd & H1).
  apply derive_N_ur_keys in Hd. subst p0. minv H1. minv H.
  rewrite !getitem_setitem_neq by discriminate. apply getitem_delitem_eq.
Qed.

Lemma compile_params_drops_N_eff K quad dz fuel args s out s' :
  get "N_ur" VNone args = VNone ->
  compile_params K quad dz fuel args s = (Ok out, s') ->
  getitem "N_eff" out = None.
Proof.
  intros HN H.
  destruct (compile_params_inv _ _ _ _ _ _ _ _ H)
    as (m & T & q1 & s1 & q2 & s2 & q3 & Hn & HNu & Hz & HO).
  rewrite (stage_Omega_m_keys _ _ _ _ _ _ HO) by (simpl; intuition discriminate).
  rewrite (stage_z_pk_keys _ _ _ _ _ Hz) by (simpl; intuition discriminate).
  eapply stage_N_ur_drops_N_eff; [|exact HNu].
  rewrite (get_early _ _ _ _ _ _ _ _ _ "N_ur" VNone Hn); [exact HN | reflexivity | not_early].
Qed.

(** X19: When N_ur is derived and the input has no key N_ncdm, get('N_ncdm')
    on the compiled mapping is the number of species whose mass exceeds
    0.00017 eV, while the stored T_ncdm still holds the temperature of
    every species of the input. *)
Theorem N_ncdm_counts_the_massive_species
    (K : constants) (quad : (R -> R) -> R -> R -> R -> R) (dz : list scalar)
    (fuel : nat) (args : dict) (s : store) (out : dict) (s' : store)
    (m T : list scalar) (p1 : dict) (s1 : store) (fuel' : nat) :
  wf_store args s ->
  get "N_ur" VNone args = VNone ->
  contains "N_ncdm" args = false ->
  compile_params K quad dz fuel args s = (Ok out, s') ->
  stage_neutrinos K quad fuel args s = (Ok (m, T, p1), s1) ->
  BaseEngine_get K quad (S fuel') "N_ncdm" None out s'
    = (Done (VNum (INR (List.length (filter heavy m)))), out) /\
  getitem "T_ncdm" out = Some (VArr T) /\
  List.length T = List.length m.
Proof.
  intros Hwf HN Hno H Hn.
  destruct (compile_params_species _ _ _ _ _ _ _ _ _ _ _ _ Hwf HN H Hn)
    as (p & Hp & Hl & HT).
  split; [|split; [exact HT | eapply stage_neutrinos_lengths; eauto]].
  assert (E : getitem "N_ncdm" out = None).
  { rewrite (compile_params_untouched _ _ _ _ _ _ _ _ "N_ncdm" H).
    - rewrite contains_getitem in Hno.
      destruct (getitem "N_ncdm" args); [discriminate | reflexivity].
    - apply passes_through_capital; reflexivity. }
  get_eval. unfold bindE, param. rewrite Hp.
  unfold run, iterate, deref. rewrite Hl. reflexivity.
Qed.

Lemma N_ncdm_counts_the_massive_species_witness :
  exists out s',
    compile_params sample_constants no_quad sample_z 0 args_two_species store_two_species
      = (Ok out, s') /\
    BaseEngine_get sample_constants no_quad 1 "N_ncdm" None out s'
      = (Done (VNum 1), out) /\
    getitem "T_ncdm" out = Some (VArr [SNum (Fin 0.71611); SNum (Fin 0.71611)]).
Proof.
  eexists; eexists. split; [exact compile_two_species|].
  destruct neutrinos_two_species as (p1 & s1 & Hn).
  destruct (N_ncdm_counts_the_massive_species _ _ _ _ _ _ _ _ _ _ _ _ 0%nat
              wf_args_two_species eq_refl eq_refl compile_two_species Hn)
    as (H1 & H2 & _).
  split; [|exact H2].
  rewrite H1. cbn [filter heavy fgt flt].
  rewrite Rltb_true by (unfold m_massive; lra).
  rewrite Rltb_false by (unfold m_massive; lra). reflexivity.
Defined.

Lemma sum_R_acc l a : fold_left Rplus l a = a + sum_R l.
Proof.
  unfold sum_R. revert a; induction l as [|x l IH]; intros a; simpl.
  - lra.
  - rewrite IH, (IH (0 + x)). lra.
Qed.

Lemma sum_R_cons x l : sum_R (x :: l) = x + sum_R l.
Proof. unfold sum_R at 1; simpl. rewrite sum_R_acc. lra. Qed.

Lemma sum_R_scale (f : R -> R) (c : R) l :
  sum_R (map (fun t => f t * c) l) = sum_R (map f l) * c.
Proof.
  induction l as [|x l IH]; simpl.
  - unfold sum_R; simpl; lra.
  - rewrite !sum_R_cons, IH. lra.
Qed.

Lemma sum_R_split (f : R -> R) m ts :
  List.length ts = List.length m ->
  sum_R (map f ts) =
  sum_R (map f (heavy_temperatures m ts)) + sum_R (map f (light_temperatures m ts)).
Proof.
  unfold heavy_temperatures, light_temperatures.
  revert ts; induction m as [|x m IH]; intros [|t ts] Hl; simpl in *; try discriminate.
  - unfold sum_R; simpl; lra.
  - injection Hl as Hl. specialize (IH ts Hl).
    destruct (heavy x); simpl; rewrite !sum_R_cons, IH; lra.
Qed.

Lemma massive_species_temperatures m ts :
  map snd (massive_species m (map SNum (map Fin ts))) =
  map SNum (map Fin (heavy_temperatures m ts)).
Proof.
  unfold massive_species, heavy_temperatures.
  revert ts; induction m as [|x m IH]; intros [|t ts]; simpl; try reflexivity.
  destruct (heavy x); simpl; rewrite IH; reflexivity.
Qed.

Lemma map_SNum_inj l l' : map SNum l = map SNum l' -> l = l'.
Proof.
  revert l'; induction l as [|x l IH]; intros [|y l'] H; simpl in H;
    try discriminate; [reflexivity|].
  inversion H. f_equal; auto.
Qed.

Lemma mapM_N_eff_terms ts s :
  mapM (fun T => a <- as_num T ;; ret (fmul (fpow a 4) (Fin nu_factor)))
       (map SNum (map Fin ts)) s
  = (Ok (map Fin (map (fun t => t ^ 4 * nu_factor) ts)), s).
Proof.
  induction ts as [|t ts IH]; cbn [mapM map]; [reflexivity|].
  erewrite bind_eq by reflexivity. erewrite bind_eq by exact IH. reflexivity.
Qed.

(** X20: When N_ur is derived from N_eff = n, get('N_eff') on the compiled
    mapping returns n plus the sum of T^4 (4/11)^(-4/3) over the species
    whose mass is at or below 0.00017 eV: the accessor sums over every
    stored temperature, compile_params subtracted the massive ones only.
    The input N_eff comes back only when no species was filtered out. *)
Theorem N_eff_counts_every_temperature
    (K : constants) (quad : (R -> R) -> R -> R -> R -> R) (dz : list scalar)
    (fuel : nat) (args : dict) (s : store) (out : dict) (s' : store)
    (m : list scalar) (ts : list R) (p1 : dict) (s1 : store) (n : R) (fuel' : nat) :
  wf_store args s ->
  get "N_ur" VNone args = VNone ->
  get "N_eff" (VNum (NEFF K)) args = VNum n ->
  compile_params K quad dz fuel args s = (Ok out, s') ->
  stage_neutrinos K quad fuel args s = (Ok (m, map SNum (map Fin ts), p1), s1) ->
  exists x,
    BaseEngine_get K quad (S fuel') "N_eff" None out s' = (Done (VNum x), out) /\
    x = n + sum_R (map (fun t => t ^ 4) (light_temperatures m ts)) * nu_factor.
Proof.
  intros Hwf HN HNe H Hn.
  destruct (compile_params_species _ _ _ _ _ _ _ _ _ _ _ _ Hwf HN H Hn)
    as (p & Hp & Hl & HT).
  destruct (compile_params_accounting _ _ _ _ _ _ _ _ Hwf HN H)
    as (m' & T' & p1' & s1' & N_eff & temps & Hn' & HNe' & Ht & HNur & _).
  rewrite Hn in Hn'; inversion Hn'; subst m' T' p1' s1'. clear Hn'.
  rewrite HNe in HNe'. inversion HNe'; subst N_eff. clear HNe'.
  rewrite massive_species_temperatures in Ht. apply map_SNum_inj in Ht. subst temps.
  pose proof (compile_params_drops_N_eff _ _ _ _ _ _ _ _ HN H) as E.
  pose proof (stage_neutrinos_lengths _ _ _ _ _ _ _ _ _ Hn) as Hlen.
  rewrite !length_map in Hlen.
  eexists; split.
  - get_eval. unfold bindE, param. rewrite HT.
    unfold run at 1. cbn [iterate ret fst].
    unfold run at 1. rewrite mapM_N_eff_terms. cbn [fst].
    rewrite HNur. unfold run, plus. cbn [ret fst].
    rewrite fsum_Fin.
    rewrite (map_map Fin (fun t => fpow t 4)).
    replace (map (fun x => fpow (Fin x) 4) (heavy_temperatures m ts))
      with (map Fin (map (fun t => t ^ 4) (heavy_temperatures m ts)))
      by (rewrite map_map; reflexivity).
    rewrite fsum_Fin. cbn [fmul fsub fadd fneg]. reflexivity.
  - rewrite sum_R_scale, (sum_R_split (fun t => t ^ 4) m ts Hlen). lra.
Qed.

Lemma N_eff_counts_every_temperature_witness :
  exists out s' x,
    compile_params sample_constants no_quad sample_z 0 args_two_species store_two_species
      = (Ok out, s') /\
    BaseEngine_get sample_constants no_quad 1 "N_eff" None out s' = (Done (VNum x), out) /\
    3.044 < x.
Proof.
  destruct neutrinos_two_species as (p1 & s1 & Hn).
  destruct (N_eff_counts_every_temperature sample_constants no_quad sample_z 0
              args_two_species store_two_species _ _
              [SNum (Fin 0.06); SNum (Fin 0)] [0.71611; 0.71611] p1 s1 3.044 0%nat
              wf_args_two_species eq_refl eq_refl compile_two_species Hn)
    as (x & Hx & Ex).
  eexists; eexists; exists x. split; [exact compile_two_species|].
  split; [exact Hx|].
  rewrite Ex. unfold light_temperatures. cbn [combine filter heavy fgt flt fst negb map snd].
  rewrite Rltb_true by (unfold m_massive; lra).
  rewrite Rltb_false by (unfold m_massive; lra).
  cbn [negb map snd]. unfold sum_R. cbn [fold_left].
  pose proof nu_factor_pos.
  assert (0 < 0.71611 ^ 4 * nu_factor) by (apply Rmult_lt_0_compat; lra).
  lra.
Defined.

Lemma bindE_done {A B} (m : Method A) (f : A -> Method B) p s b p' :
  bindE m f p s = (Done b, p') ->
  exists a p1, m p s = (Done a, p1) /\ f a p1 s = (Done b, p').
Proof.
  unfold bindE; destruct (m p s) as [[a|e] p1]; intros H; [|discriminate].
  exists a, p1; auto.
Qed.

(** X21: A call of get changes no entry of the mapping other than Omega_ncdm
    and never changes an Omega_ncdm that is stored; a successful
    get('Omega_ncdm') leaves its result stored under Omega_ncdm, so that
    every later call returns it, whatever the integrator and the default. *)
Theorem get_only_stores_Omega_ncdm
    (K : constants) (quad : (R -> R) -> R -> R -> R -> R)
    (fuel : nat) (name : string) (default : option value)
    (p : dict) (s : store) (r : result value) (p' : dict) :
  BaseEngine_get K quad fuel name default p s = (r, p') ->
  (forall k, k <> "Omega_ncdm" -> getitem k p' = getitem k p) /\
  (forall v, getitem "Omega_ncdm" p = Some v -> getitem "Omega_ncdm" p' = Some v) /\
  (forall v, name = "Omega_ncdm" -> r = Done v ->
     getitem "Omega_ncdm" p' = Some v /\
     forall quad' fuel' default',
       BaseEngine_get K quad' (S fuel') "Omega_ncdm" default' p' s = (Done v, p')).
Proof.
  intros H. destruct (gentle_get K quad fuel name default _ _ _ _ H) as [H1 H2].
  split; [exact H1|]. split; [exact H2|].
  intros v -> ->.
  assert (E : getitem "Omega_ncdm" p' = Some v).
  { destruct fuel as [|fuel]; [discriminate|].
    rewrite get_unfold in H.
    destruct (getitem "Omega_ncdm" p) as [w|] eqn:Ep.
    - inversion H; subst. exact Ep.
    - unfold derive in H. cbn [startswith String.eqb Ascii.eqb Bool.eqb andb] in H.
      apply bindE_done in H as (rho & q1 & _ & H).
      apply bindE_done in H as (x & q2 & _ & H).
      apply bindE_done in H as (u & q3 & _ & H).
      unfold param in H.
      destruct (getitem "Omega_ncdm" q3) eqn:E3; inversion H; subst. exact E3. }
  split; [exact E|]. intros quad' fuel' default'. apply get_stored; exact E.
Qed.

Lemma get_only_stores_Omega_ncdm_witness :
  exists v p',
    BaseEngine_get sample_constants no_quad 2 "Omega_ncdm" None massless_params [[]]
      = (Done v, p') /\
    getitem "Omega_ncdm" massless_params = None /\
    getitem "Omega_ncdm" p' = Some v /\
    getitem "h" p' = Some (VNum 0.7) /\
    BaseEngine_get sample_constants no_quad 1 "Omega_ncdm" None p' [[]] = (Done v, p').
Proof.
  eexists; eexists. split; [exact get_Omega_ncdm_massless|].
  destruct (get_only_stores_Omega_ncdm _ _ _ _ _ _ _ _ _ get_Omega_ncdm_massless)
    as (H1 & _ & H3).
  destruct (H3 _ eq_refl eq_refl) as [E1 E2].
  split; [reflexivity|]. split; [exact E1|]. split; [|apply E2].
  rewrite H1 by discriminate. reflexivity.
Defined.

(** X22: An input that gives omega_c, and neither another spelling of the cold
    dark matter density nor one of Omega_m, compiles to a mapping with the
    key Omega_c and without Omega_cdm: the loop over the omega entries
    renames it to Omega_c, set_alias('Omega_cdm', 'Omega_c') looks for
    'Omega_c' in the input and does nothing, and get('Omega_cdm') on the
    result raises 'Parameter Omega_cdm not found'. *)
Theorem omega_c_is_not_renamed
    (K : constants) (quad : (R -> R) -> R -> R -> R -> R) (dz : list scalar)
    (fuel : nat) (args : dict) (s : store) (out : dict) (s' : store) :
  compile_params K quad dz fuel args s = (Ok out, s') ->
  contains "omega_c" args = true ->
  (forall k, In k ["Omega_cdm"; "omega_cdm"; "Omega0_cdm"; "Omega_c";
                   "Omega_m"; "omega_m"; "Omega0_m"] -> contains k args = false) ->
  getitem "Omega_cdm" out = None /\ contains "Omega_c" out = true /\
  forall fuel' : nat,
    BaseEngine_get K quad (S fuel') "Omega_cdm" None out s'
      = (Fail (ParameterNotFound "Omega_cdm"), out).
Proof.
  intros H Hc Hno.
  destruct (omega_c_stays _ _ _ _ _ _ _ _ H Hc Hno) as [E1 E2].
  split; [exact E1|]. split; [exact E2|].
  intros fuel'. rewrite get_unknown; [reflexivity | exact E1 | reflexivity |].
  unfold derived_names; simpl; intuition discriminate.
Qed.

Lemma omega_c_is_not_renamed_witness :
  exists out s',
    compile_params sample_constants no_quad sample_z 0
      [("h", VNum 0.7); ("omega_c", VNum 0.12)] [] = (Ok out, s') /\
    contains "Omega_c" out = true /\
    BaseEngine_get sample_constants no_quad 1 "Omega_cdm" None out s'
      = (Fail (ParameterNotFound "Omega_cdm"), out).
Proof.
  assert (H : exists out s',
    compile_params sample_constants no_quad sample_z 0
      [("h", VNum 0.7); ("omega_c", VNum 0.12)] [] = (Ok out, s')).
  { eexists; eexists. py_run arith. }
  destruct H as (out & s' & H). exists out, s'. split; [exact H|].
  destruct (omega_c_is_not_renamed _ _ _ _ _ _ _ _ H) as (_ & E2 & E3).
  - reflexivity.
  - intros k Hk. simpl in Hk.
    repeat (destruct Hk as [<-|Hk]; [reflexivity|]). contradiction.
  - split; [exact E2 | apply E3].
Defined.

(** X23: On every mapping that Cosmology.__init__ stores, _get_A_s_fid returns
    the stored A_s when there is one; otherwise sigma8 is stored, and for
    a number x under it the result is 2.43e-9 (x/0.87659)^2. *)
Theorem A_s_fid_is_available
    (K : constants) (quad : (R -> R) -> R -> R -> R -> R) (dz : list scalar)
    (fuel : nat) (params : dict) (s : store) (out : dict) (s' : store) (fuel' : nat) :
  Cosmology_init K quad dz fuel params s = (Ok out, s') ->
  (forall v, getitem "A_s" out = Some v ->
             _get_A_s_fid K quad fuel' out s' = (Done v, out)) /\
  (getitem "A_s" out = None ->
   exists v, getitem "sigma8" out = Some v /\
     forall x, v = VNum x ->
       _get_A_s_fid K quad (S fuel') out s'
         = (Done (VNum (2.43e-9 * (x / 0.87659) ^ 2)), out)).
Proof.
  intros H.
  destruct (init_canonical _ _ _ _ _ _ _ _ H) as (_ & _ & Ha & _).
  split.
  - intros v Ev. unfold _get_A_s_fid, param.
    rewrite contains_getitem, Ev. reflexivity.
  - intros En.
    assert (Ec : contains "A_s" out = false) by (rewrite contains_getitem, En; reflexivity).
    destruct Ha as [Ha|Ha]; [congruence|].
    rewrite contains_getitem in Ha.
    destruct (getitem "sigma8" out) as [v|] eqn:Es; [|discriminate].
    exists v; split; [reflexivity|]. intros x ->.
    unfold _get_A_s_fid. rewrite Ec.
    unfold bindE. rewrite (get_stored K quad fuel' "sigma8" None out s' _ Es).
    unfold run, retE. cbn.
    rewrite Reqb_false by lra. reflexivity.
Qed.

Lemma A_s_fid_is_available_witness :
  Cosmology_init sample_constants no_quad sample_z 0 [("m_ncdm", VNum 0.06)] []
    = (Ok base_params, base_store) /\
  _get_A_s_fid sample_constants no_quad 1 base_params base_store
    = (Done (VNum (2.43e-9 * (0.8 / 0.87659) ^ 2)), base_params).
Proof.
  split; [exact base_is_compiled|].
  destruct (A_s_fid_is_available _ _ _ _ _ _ _ _ 0%nat base_is_compiled) as [_ H].
  destruct (H eq_refl) as (v & Ev & Hv).
  apply Hv. simpl in Ev. inversion Ev. reflexivity.
Defined.

Lemma run_bind {A B} (m : M A) (f : A -> M B) p s :
  pure m -> run (bind m f) p s = bindE (run m) (fun a => run (f a)) p s.
Proof.
  intros Hm. unfold run, bind, bindE.
  destruct (m s) as [[a|e] s1] eqn:Em; simpl; [|reflexivity].
  rewrite (Hm _ _ _ Em). reflexivity.
Qed.

Lemma bindE_run {A B} (m : M A) (f g : A -> Method B) p s :
  (forall a, f a p s = g a p s) -> bindE (run m) f p s = bindE (run m) g p s.
Proof.
  intros H. unfold bindE, run. destruct (fst (m s)) as [a|e]; [apply H | reflexivity].
Qed.

Lemma engine_sum_momenta_stored K quad fuel out fa mT toret p s v :
  getitem "T_cmb" p = Some v ->
  engine_sum_momenta K quad (fun n => BaseEngine_get K quad (S fuel) n None)
    out fa mT toret p s
  = run (sum_momenta K quad p out fa mT toret) p s.
Proof.
  intros Hv. revert toret; induction mT as [|[m T] mT IH]; intros toret.
  - reflexivity.
  - cbn [engine_sum_momenta sum_momenta]. rewrite Hv.
    unfold bindE at 1. rewrite (get_stored K quad fuel "T_cmb" None p s v Hv).
    rewrite run_bind by apply pure_mul_vs.
    apply bindE_run; intros T_eff.
    rewrite run_bind by (destruct (fa && feqb T_eff (Fin 0)); pure_tac).
    apply bindE_run; intros _.
    rewrite run_bind by apply pure_momenta.
    apply bindE_run; intros x. apply IH.
Qed.

Lemma engine_get_ncdm_stored K quad fuel out p s :
  (forall k, In k ["m_ncdm"; "T_ncdm"; "T_cmb"; "h"] -> contains k p = true) ->
  engine_get_ncdm K quad (fun n => BaseEngine_get K quad (S fuel) n None) out p s
  = run (_get_ncdm K quad p out) p s.
Proof.
  intros Hp.
  assert (Hs : forall k, In k ["m_ncdm"; "T_ncdm"; "T_cmb"; "h"] ->
                         exists v, getitem k p = Some v).
  { intros k Hk. apply Hp in Hk. rewrite contains_getitem in Hk.
    destruct (getitem k p) as [v|]; [eauto | discriminate]. }
  destruct (Hs "m_ncdm") as [vm Em]; [simpl; tauto|].
  destruct (Hs "T_ncdm") as [vT ET]; [simpl; tauto|].
  destruct (Hs "T_cmb") as [vc Ec]; [simpl; tauto|].
  destruct (Hs "h") as [vh Eh]; [simpl; tauto|].
  unfold engine_get_ncdm, _get_ncdm. rewrite Em, ET, Eh.
  unfold bindE at 1. rewrite (get_stored K quad fuel "m_ncdm" None p s vm Em).
  unfold bindE at 1. rewrite (get_stored K quad fuel "T_ncdm" None p s vT ET).
  rewrite run_bind by (destruct vm as [x| |]; pure_tac).
  apply bindE_run; intros m.
  rewrite run_bind by (destruct vT as [x| |]; pure_tac).
  apply bindE_run; intros T.
  rewrite run_bind by apply pure_sum_momenta.
  unfold bindE at 1. rewrite (engine_sum_momenta_stored K quad fuel out _ _ _ p s vc Ec).
  unfold bindE at 3.
  assert (Hr : forall A (m : M A), exists r, run m p s = (r, p)).
  { intros A m'. unfold run. destruct (fst (m' s)); eauto. }
  destruct (Hr _ (sum_momenta K quad p out match vT with VArr _ => true | _ => false end
                    (combine m T) 0)) as [[toret|e] Et]; rewrite Et; [|reflexivity].
  unfold bindE at 1. rewrite (get_stored K quad fuel "h" None p s vh Eh).
  rewrite run_bind by apply pure_square.
  apply bindE_run; intros h2. reflexivity.
Qed.

(** X24: On an engine whose mapping stores m_ncdm, T_ncdm, T_cmb and h,
    _get_rho_ncdm() and _get_p_ncdm() return, or raise, exactly what the
    same functions give when compile_params calls them with the mapping
    itself in the place of self, and they leave the mapping as it is. *)
Theorem accessors_agree_with_the_compiler
    (K : constants) (quad : (R -> R) -> R -> R -> R -> R) (fuel : nat)
    (p : dict) (s : store) :
  (forall k, In k ["m_ncdm"; "T_ncdm"; "T_cmb"; "h"] -> contains k p = true) ->
  _get_rho_ncdm K quad (S fuel) p s = run (_get_ncdm K quad p "rho") p s /\
  _get_p_ncdm K quad (S fuel) p s = run (_get_ncdm K quad p "p") p s.
Proof.
  intros Hp. split; apply engine_get_ncdm_stored; exact Hp.
Qed.

Lemma accessors_agree_with_the_compiler_witness :
  _get_rho_ncdm sample_constants no_quad 1 base_params base_store
    = run (_get_ncdm sample_constants no_quad base_params "rho") base_params base_store /\
  _get_p_ncdm sample_constants no_quad 1 base_params base_store
    = run (_get_ncdm sample_constants no_quad base_params "p") base_params base_store.
Proof.
  apply (accessors_agree_with_the_compiler sample_constants no_quad 0 base_params base_store).
  intros k Hk. simpl in Hk.
  repeat (destruct Hk as [<-|Hk]; [reflexivity|]). contradiction.
Defined.
